(* ===== verification/_CoqProject ===== *)
-Q . S2P
Prelude.v
Digits.v
Hex.v
NetIP.v
Resources.v
TxTracker.v
AddrQueue.v
TxSortedList.v
Worker.v
BestFit.v
GoEthereum.v
TxCodec.v
BatchV2.v
NewTracker.v
L1InfoTree.v
L1Sync.v
ExecErrors.v
GoFloat.v
EffGasPrice.v
GoMonad.v
Postgres.v
ExecTypes.v
StateStore.v
StoreOk.v
StoreWp.v
ExitRoots.v
ExitRootsOk.v
DataStream.v
StreamOk.v
FinBase.v
FinTx.v
FinTxOk.v
FinForced.v
FinForcedOk.v
OpCodes.v
EvmBase.v
EvmData.v
EvmGas.v
EvmPrecompiles.v
EvmCalls.v
EvmInstr.v
EvmTable.v
EvmRun.v
EvmAnalysis.v
EvmPrecompilesOk.v
EvmWp.v
EvmCallsOk.v
EvmGasOk.v
EvmMemOk.v
EvmExecOk.v
EvmTableOk.v
EvmSafe.v
StateFakeDB.v
EvmRef.v
MtSplit.v
MtKeys.v
MtTree.v
MtRef.v
MtFakeDB.v
