(* ===== verification/Prelude.v ===== *)
(** * A verification development of the x1-node zkEVM node

    The node (Go, [src/]) collects L2 transactions in a pool, sequences them into batches,
    executes them through an executor service over a state tree, follows the rollup's
    contracts on L1, and answers traces with a copy of the Ethereum virtual machine.  This
    library models the parts of it whose correctness is decided by the node's own code and
    proves what they promise.

    ** Conventions

    A pure Go function is a function; a method with a pointer receiver returns the new
    receiver; code that fails or panics returns [GoRes] ([Ret], [Fail], [Panic]) or, in the
    virtual machine, [Out].  [uint64] and [uint32] are [Z] with the wrap-around written out
    ([+₆₄], [wrap64]); bytes are lists of [Z]; [*big.Int] is [Z].  Slice and index
    expressions out of range are panics.  Objects shared by pointers live in a store
    ([TxTracker]).  The iteration order of a Go map is an argument.  Code outside [src/]
    (go-ethereum, holiman/uint256, the hashes, the database service, the state) is a type
    class of operations with a class of laws that state its documented behaviour; each has
    an executable instance, and the witnesses of the theorems run on it.

    ** Sequencer ([src/sequencer], [src/state/types.go], [src/state/config.go])

    [Resources]: counters, batch resources and constraints.  Subtraction takes a
    transaction's resources off the remaining ones or leaves them unchanged and names the
    resource that is short; used and remaining resources add up to the limits; a
    transaction within the constraints fits an empty batch.  [TxTracker], [NewTracker]:
    the trackers and their creation.  [AddrQueue]: the queue of a sender.  Adding refines
    an abstract specification, an update of nonce and balance loses only the transactions
    it reports (with one exception, which is proved too) and promotes the next one.
    [TxSortedList]: the list ordered by gas price, whose operations are those of a sorted
    list.  [Worker]: pool and list agree under every interleaving of the operations with
    the window in which [AddTxTracker] releases the mutex, for one caller of it; two
    callers can break the agreement.  No operation panics.  [BestFit]: the goroutines of
    [GetBestFittingTx] end under every schedule with the first transaction that fits.
    [NetIP]: the address check of [src/pool/validation.go].

    ** Effective gas price ([src/pool/effectivegasprice.go])

    [GoFloat]: [float64] and [big.Float], rounded as Go rounds them.  [EffGasPrice]: the
    price of a transaction covers its cost in spite of the rounding, and the percentage is
    the least byte that pays for it.

    ** Storage of the state ([src/state/pgstatestorage], [src/state/batch.go],
       [src/state/transaction.go])

    [GoMonad]: the monad of methods that change a state, fail or panic, and its weakest
    precondition.  [Postgres]: a server with transactions as an interface, in which every
    operation can fail, and an instance.  [ExecTypes]: the messages of the executor.
    [StateStore]: the tables, the statements as functions on them, and the methods that open
    and close batches and store L2 blocks.  [StoreOk]: the table of batches stays consecutive
    with only the last batch open, whichever operations fail; what is read back is what was
    stored, with the exceptions proved.  [StoreWp]: the specifications of the methods for
    their clients.

    ** L1 info tree of the state ([src/state/l1infotree.go],
       [src/state/pgstatestorage/l1infotree.go])

    [ExitRoots]: the table of exit roots, the methods that add leaves to the table and to the
    tree in memory, and the tree that a starting node builds from the table.  [ExitRootsOk]:
    over all runs of transactions, failures and restarts, the root stored with a leaf is the
    one that [L1InfoTree] computes from the leaves up to it; after a rollback the tree is
    ahead of the table and refuses every leaf until a restart.

    ** Data stream ([src/state/datastream.go], [src/sequencer/sequencer.go])

    [DataStream]: the entries, the generation of the stream from the state and the goroutine
    that sends new blocks, over a stream server as an interface.  [StreamOk]: entries decode
    as they were encoded; the grouping of rows equals a filter; a generated stream holds each
    batch of the state once and in order up to ten thousand of them, and repeats one above
    that; a round of the goroutine writes a whole block or nothing, except for transactions
    whose entry fails.

    ** Finalizer ([src/sequencer/finalizer.go], [src/sequencer/forcedbatch.go])

    [FinBase]: the finalizer, and the world it works on: worker, trackers, database, statuses
    written to the pool and blocks sent to the stream, with the executor, the clock and the
    gas prices as an environment asked at each tick.  [FinTx]: a transaction from its request
    to its outcome.  [FinTxOk]: what becomes of a transaction and of the batch on each
    outcome; the loop on a transaction ends; the request panics, since a nil map is written.
    [FinForced] and [FinForcedOk]: signals and forced batches; the waiting ones are kept
    sorted, and one with blocks ends in an error after its batch was committed.

    ** Encodings ([src/hex], [src/encoding], [src/state/helper.go],
       [src/state/encoding_batch_v2.go])

    [Digits] and [Hex]: digits in any base, hexadecimal text and its round trips.
    [GoEthereum]: the interface of the transaction type and of RLP.  [TxCodec] and
    [BatchV2]: the two batch formats.  Decoding inverts encoding; the first decoder never
    panics on any bytes; the second always terminates and can panic on an overflowing
    length, which is proved on a concrete batch.

    ** L1 data ([src/l1infotree], [src/synchronizer/l1_parallel_sync])

    [L1InfoTree]: the incremental tree computes the same roots as the rebuilt one, and the
    proofs it gives lead to the root.  [L1Sync]: the producer of the parallel synchronizer
    as a step function whose environment answers requests in any order.  Each block is in
    process, waiting for a retry or in a result exactly once; results are sent in order; no
    step ends the process while requests for the last block succeed.

    ** Executor errors ([src/state/runtime/executor/errors.go])

    [ExecErrors]: codes and errors translate into each other, with the exceptions listed.

    ** Virtual machine ([src/state/runtime/fakevm])

    [OpCodes] opcodes and names; [EvmBase] the interfaces, the state and the outcome monad;
    [EvmData] stack, memory, jump destination analysis and contracts ([stack.go],
    [memory.go], [analysis.go], [contract.go], [common.go]); [EvmGas] prices ([gas.go],
    [gas_table.go], [operations_acl.go]); [EvmPrecompiles] ([contracts.go]); [EvmCalls]
    ([fakevm.go]); [EvmInstr] ([instructions.go], [eips.go]); [EvmTable] ([jump_table.go],
    [eips.go]); [EvmRun] the loop ([interpreter.go]).  [EvmAnalysis], [EvmPrecompilesOk],
    [EvmWp], [EvmCallsOk], [EvmGasOk], [EvmMemOk], [EvmExecOk] and [EvmTableOk] prove each
    layer against the one below by a weakest precondition, and [EvmSafe] closes the loop:
    [Run] terminates and does not panic for up to [2 ^ 62] gas on the table of every
    chain's rules, a round keeps stack, memory and gas within bounds, and a static call
    changes nothing.  The optimised bitmap equals a walk over the code.  [EvmRef] is the
    instance of the interfaces.  [StateFakeDB] is the state behind the machine
    ([src/state/fakedb.go]).

    ** State tree ([src/merkletree])

    [MtSplit] the conversions of 256-bit numbers ([split.go]) and their round trips;
    [MtKeys] keys and code hash ([key.go], [leaf.go]), injective as far as the Poseidon
    hash does not collide on the inputs involved; [MtTree] the methods of [StateTree]
    ([tree.go]): what a batch writes is read back after its flush, and nothing else
    changes; [MtRef] a database of trees as instance; [MtFakeDB] the machine's state reads
    what was written to the tree.

    ** Bounds

    [search_loop] and the loops over slices take the length as fuel.  The batch decoders
    take the length of the data, since each round consumes a byte.  [run_loop] takes rounds:
    a round that does not end a frame lowers the potential (its gas and the gas paid for its
    memory), so that any fuel above the gas is enough, which [Run_total] proves.  Gas is
    bounded by [2 ^ 62] because above it the operand lengths of the modular exponentiation
    could wrap around.  [padding_loop] takes 55 rounds, the longest padding of a block of
    56 bytes.
    [process_loop] needs two rounds, because the second processing of a transaction is its
    last.  [generate_loop] needs one round per ten thousand batches and one more to find none.
    The runs of [ExitRootsOk] have fewer than [2 ^ 32] steps, the capacity of the tree.

    ** Not modelled

    The JSON-RPC server and the pool ([src/jsonrpc], [src/pool]) are request handling around
    SQL, as are the queries of [src/state/pgstatestorage] beyond those of the sequencer; the
    processing of batches and genesis ([src/state]) translates requests and answers of the
    executor service; the L1 client, the transaction manager, the sequence sender and the
    aggregator ([src/etherman], [src/ethtxmanager], [src/sequencesender], [src/aggregator])
    drive an Ethereum node and provers; the consumer of the synchronizer applies events to
    the storage; the gas price suggester follows a timer; contract bindings and protocol code
    are generated.  Of the finalizer, the management of batches and L2 blocks is left out.  Of the
    virtual machine, the tracer hooks, the object pools, the BLS12-381 contracts (in no
    active table) and the setters of the machine object are left out; of the L1 producer,
    the statistics. *)

From stdpp Require Import base gmap strings list sorting numbers pretty.
From stdpp Require Export base gmap strings list sorting numbers pretty.

#[global] Open Scope Z_scope.

(** Bytes are numbers below 256; [zlen] is Go's [len]. *)
Abbreviation bytes := (list Z).

Definition zlen {A} (l : list A) : Z := Z.of_nat (length l).

(** ** Machine integers

    Go's unsigned integers are kept as [Z] in the range of their width; the
    arithmetic of the source wraps around, and so do these operations. *)
Definition in_u8 (z : Z) : Prop := 0 ≤ z < 2 ^ 8.
Definition in_u32 (z : Z) : Prop := 0 ≤ z < 2 ^ 32.
Definition in_u64 (z : Z) : Prop := 0 ≤ z < 2 ^ 64.

Definition wrap8 (z : Z) : Z := z mod 2 ^ 8.
Definition wrap32 (z : Z) : Z := z mod 2 ^ 32.
Definition wrap64 (z : Z) : Z := z mod 2 ^ 64.

Declare Scope go_scope.
Delimit Scope go_scope with go.
Notation "x +₃₂ y" := (wrap32 (x + y)) (at level 50, left associativity) : go_scope.
Notation "x -₃₂ y" := (wrap32 (x - y)) (at level 50, left associativity) : go_scope.
Notation "x +₆₄ y" := (wrap64 (x + y)) (at level 50, left associativity) : go_scope.
Notation "x -₆₄ y" := (wrap64 (x - y)) (at level 50, left associativity) : go_scope.
#[global] Open Scope go_scope.

Lemma wrap32_small z : in_u32 z → wrap32 z = z.
Proof. intros. by apply Z.mod_small. Qed.

Lemma wrap64_small z : in_u64 z → wrap64 z = z.
Proof. intros. by apply Z.mod_small. Qed.

Lemma wrap32_range z : in_u32 (wrap32 z).
Proof. apply Z.mod_pos_bound. lia. Qed.

Lemma wrap64_range z : in_u64 (wrap64 z).
Proof. apply Z.mod_pos_bound. lia. Qed.

Lemma wrap64_add_wrap_l x y : wrap64 (wrap64 x + y) = wrap64 (x + y).
Proof. apply Zplus_mod_idemp_l. Qed.

(** [Uint64] of a [big.Int] keeps the low 64 bits of its absolute value. *)
Definition big_Uint64 (z : Z) : Z := wrap64 (Z.abs z).

Lemma big_Uint64_small z : in_u64 z → big_Uint64 z = z.
Proof. intros Hz. unfold big_Uint64. rewrite Z.abs_eq by apply Hz. by apply wrap64_small. Qed.

(** A sum of machine words overflows at most once. *)
Lemma wrap64_cases z :
  0 ≤ z < 2 ^ 65 → (wrap64 z = z ∧ z < 2 ^ 64) ∨ (wrap64 z = z - 2 ^ 64 ∧ 2 ^ 64 ≤ z).
Proof.
  intros Hz. destruct (Z.lt_ge_cases z (2 ^ 64)) as [Hl|Hg].
  - left. rewrite wrap64_small by (unfold in_u64; lia). lia.
  - right. split; [|done]. unfold wrap64.
    rewrite <-(Z.mod_small (z - 2 ^ 64) (2 ^ 64)) by lia.
    rewrite <-(Z.mod_add (z - 2 ^ 64) 1 (2 ^ 64)) by lia. f_equal. lia.
Qed.

(** Removes the wrap-around of sums that [lia] shows to be in range, from the
    inside out. *)
Ltac wrap_small :=
  repeat match goal with
  | |- context [wrap64 ?x] =>
      lazymatch x with
      | context [wrap64 _] => fail
      | _ => rewrite (wrap64_small x) by (unfold in_u64; lia)
      end
  end.

(** A sum of wrapped sums is one wrapped sum. *)
Ltac wrap_flat :=
  repeat match goal with
  | |- context [wrap64 (wrap64 ?x + ?y)] =>
      lazymatch x with
      | context [wrap64 _] => fail
      | _ => rewrite (wrap64_add_wrap_l x y)
      end
  end.

(** ** Outcomes of Go code

    A Go function that returns [(T, error)] either returns a value, returns an
    error or panics (nil dereference, index or slice bounds out of range,
    explicit [panic]).  The three outcomes are kept apart. *)
Inductive GoRes (E A : Type) : Type :=
  | Ret (a : A)
  | Fail (e : E)
  | Panic.
Arguments Ret {E A} _.
Arguments Fail {E A} _.
Arguments Panic {E A}.

#[export] Instance GoRes_ret {E} : MRet (GoRes E) := λ A a, Ret a.
#[export] Instance GoRes_bind {E} : MBind (GoRes E) := λ A B f m,
  match m with
  | Ret a => f a
  | Fail e => Fail e
  | Panic => Panic
  end.
#[export] Instance GoRes_fmap {E} : FMap (GoRes E) := λ A B f m,
  match m with
  | Ret a => Ret (f a)
  | Fail e => Fail e
  | Panic => Panic
  end.
#[export] Instance GoRes_eq_dec {E A} `{!EqDecision E, !EqDecision A} :
  EqDecision (GoRes E A).
Proof. solve_decision. Defined.

(** [fmt.Errorf("...: %w", err)]: the error is wrapped, the sentinel stays. *)
Definition map_err {E E' A} (f : E → E') (m : GoRes E A) : GoRes E' A :=
  match m with
  | Ret a => Ret a
  | Fail e => Fail (f e)
  | Panic => Panic
  end.

(** A lookup that panics when it is out of range. *)
Definition or_panic {E A} (o : option A) : GoRes E A :=
  match o with Some a => Ret a | None => Panic end.

(** [s[a:b]] and [s[i]] on a slice without spare capacity. *)
Definition slice {E A} (s : list A) (a b : Z) : GoRes E (list A) :=
  if (0 <=? a) && (a <=? b) && (b <=? Z.of_nat (length s))
  then Ret (take (Z.to_nat (b - a)) (drop (Z.to_nat a) s)) else Panic.

Definition index {E A} (s : list A) (i : Z) : GoRes E A :=
  if 0 <=? i then or_panic (s !! Z.to_nat i) else Panic.

Lemma slice_ok {E A} (s : list A) a b :
  0 ≤ a ≤ b → b ≤ Z.of_nat (length s) →
  ∃ r, slice (E := E) s a b = Ret r ∧ Z.of_nat (length r) = b - a ∧
    r = take (Z.to_nat (b - a)) (drop (Z.to_nat a) s).
Proof.
  intros Hab Hb. unfold slice.
  rewrite !(proj2 (Z.leb_le _ _)) by lia. simpl. eexists. split; [done|]. split; [|done].
  rewrite length_take, length_drop. lia.
Qed.

(** Steps over a slice expression whose bounds [lia] shows to be in range. *)
Ltac slice_step r Hr :=
  match goal with
  | |- context [@slice ?E ?A ?s ?a ?b] =>
      destruct (@slice_ok E A s a b) as (r & -> & Hr & _); [lia..|];
      cbn [mbind GoRes_bind mret GoRes_ret fmap GoRes_fmap map_err or_panic]
  end.

Lemma slice_at {E A} (l1 l2 l3 s : list A) a b :
  s = l1 ++ l2 ++ l3 → a = Z.of_nat (length l1) → b = a + Z.of_nat (length l2) →
  slice (E := E) s a b = Ret l2.
Proof.
  intros -> -> ->. unfold slice. rewrite !length_app, !(proj2 (Z.leb_le _ _)) by lia. simpl.
  rewrite Z.add_simpl_l, !Nat2Z.id, drop_app_length, take_app_length. done.
Qed.

(** Steps over the slice expression at the head of a computation, the part
    [l2] of [l1 ++ l2 ++ l3]. *)
Ltac slice_head l1 l2 l3 :=
  match goal with
  | |- mbind _ (@slice ?E ?A ?s ?a ?b) = _ =>
      rewrite (@slice_at E A l1 l2 l3 s a b);
        [cbn [mbind GoRes_bind mret GoRes_ret fmap GoRes_fmap map_err or_panic]
        |cbn [app]; rewrite <-?app_assoc; cbn [app]; rewrite <-?app_assoc; done
        |rewrite ?length_app; cbn [length]; lia|rewrite ?length_app; cbn [length]; lia]
  end.

Lemma index_at {E A} (l1 l2 s : list A) x i :
  s = l1 ++ x :: l2 → i = Z.of_nat (length l1) → index (E := E) s i = Ret x.
Proof.
  intros -> ->. unfold index. rewrite (proj2 (Z.leb_le _ _)) by lia.
  by rewrite Nat2Z.id, list_lookup_middle.
Qed.

Lemma index_ok {E A} (s : list A) i :
  0 ≤ i < Z.of_nat (length s) → ∃ x, index (E := E) s i = Ret x ∧ x ∈ s.
Proof.
  intros Hi. unfold index. rewrite (proj2 (Z.leb_le _ _)) by lia.
  destruct (lookup_lt_is_Some_2 s (Z.to_nat i)) as [x Hx]; [lia|].
  exists x. rewrite Hx. split; [done|]. by eapply list_elem_of_lookup_2.
Qed.

Ltac index_head l1 x l2 :=
  match goal with
  | |- mbind _ (@index ?E ?A ?s ?i) = _ =>
      rewrite (@index_at E A l1 l2 s x i);
        [cbn [mbind GoRes_bind mret GoRes_ret fmap GoRes_fmap map_err or_panic]
        |cbn [app]; rewrite <-?app_assoc; cbn [app]; rewrite <-?app_assoc; done
        |rewrite ?length_app; cbn [length]; lia]
  end.

#[export] Instance Ret_inj {E A} : Inj (=) (=) (@Ret E A).
Proof. by intros x y [= ->]. Qed.

Lemma GoRes_bind_ret {E A B} (m : GoRes E A) (f : A → GoRes E B) b :
  m ≫= f = Ret b → ∃ a, m = Ret a ∧ f a = Ret b.
Proof. destruct m; simpl; [eauto | done | done]. Qed.

(** Steps over a computation whose outcome is known, and only that. *)
Ltac go_bind := cbn [mbind GoRes_bind mret GoRes_ret fmap GoRes_fmap map_err or_panic].

(** ** Automation *)

Create HintDb node discriminated.
#[export] Hint Constants Opaque : node.
#[export] Hint Resolve wrap32_range wrap64_range : node.

(** Case analysis on every [match] and [if] of the goal and hypotheses, with
    the resulting equations simplified. *)
Ltac go_cases :=
  repeat (case_match || case_decide || case_bool_decide); simplify_eq/=.

(** Splits conjunctions and existentials of the hypotheses. *)
Ltac go_split := repeat (destruct_and? || destruct_or? || split_and?).

(** ** Lists *)

Lemma StronglySorted_lt {A} (R : A → A → Prop) l i j x y :
  StronglySorted R l → l !! i = Some x → l !! j = Some y → (i < j)%nat → R x y.
Proof.
  intros Hl. revert i j. induction Hl as [|z l Hl IH Hz]; intros [|i] [|j] Hi Hj Hij;
    simplify_eq/=; try lia.
  - by eapply Forall_lookup_1.
  - apply (IH i j); [done..|lia].
Qed.

Lemma sum_list_with_bound {A} (f : A → nat) l n :
  (∀ x, x ∈ l → (f x ≤ n)%nat) → (sum_list_with f l ≤ length l * n)%nat.
Proof.
  induction l as [|x l IH]; intros Hf; simpl; [lia|].
  pose proof (Hf x ltac:(by left)). assert (sum_list_with f l ≤ length l * n)%nat; [|lia].
  apply IH. intros y Hy. apply Hf. by right.
Qed.

Lemma filter_all {A} (P : A → Prop) `{!∀ x, Decision (P x)} (l : list A) :
  (∀ x, x ∈ l → P x) → filter P l = l.
Proof.
  induction l as [|x l IH]; intros Hl; [done|].
  rewrite filter_cons_True by (apply Hl; set_solver). f_equal. apply IH. set_solver.
Qed.

(** ** Go's [sort.Search]

    The loop of the standard library, on a predicate that may panic
    ([None]).  [fuel] bounds the number of iterations: each one shrinks
    [j - i], so [n] is enough. *)
Fixpoint search_loop (fuel : nat) (f : nat → option bool) (i j : nat) : option nat :=
  match fuel with
  | O => Some i
  | S fuel' =>
      if bool_decide (i < j)%nat then
        let h := ((i + j) / 2)%nat in
        b ← f h;
        if (b : bool) then search_loop fuel' f i h else search_loop fuel' f (S h) j
      else Some i
  end.

Definition sort_Search (n : nat) (f : nat → option bool) : option nat :=
  search_loop n f 0 n.

Lemma search_loop_spec fuel f i j n :
  (j - i ≤ fuel)%nat → (i ≤ j ≤ n)%nat →
  (∀ k, (k < n)%nat → is_Some (f k)) →
  (∀ k k', f k = Some true → (k ≤ k' < n)%nat → f k' = Some true) →
  (∀ k, (k < i)%nat → f k = Some false) →
  (∀ k, (j ≤ k < n)%nat → f k = Some true) →
  ∃ r, search_loop fuel f i j = Some r ∧ (r ≤ n)%nat ∧
    (∀ k, (k < r)%nat → f k = Some false) ∧
    (∀ k, (r ≤ k < n)%nat → f k = Some true).
Proof.
  intros Hfuel Hij Htot Hmono. revert i j Hfuel Hij.
  induction fuel as [|fuel IH]; intros i j Hfuel Hij Hlo Hhi; cbn [search_loop].
  { exists i. replace j with i in * by lia. eauto with lia. }
  case_bool_decide as Hlt; last first.
  { exists i. replace j with i in * by lia. eauto with lia. }
  set (h := ((i + j) / 2)%nat).
  assert (i ≤ h < j)%nat as Hh.
  { split; [apply Nat.div_le_lower_bound; lia | apply Nat.Div0.div_lt_upper_bound; lia]. }
  destruct (Htot h) as [[] Hb]; [lia| |]; rewrite Hb; simpl.
  - apply IH; [lia|lia|done|]. intros k Hk. apply (Hmono h); [done|lia].
  - apply IH; [lia|lia| |done]. intros k Hk.
    destruct (Htot k) as [[] Hk']; [lia| |done].
    assert (f h = Some true) by (apply (Hmono k); [done|lia]). congruence.
Qed.

Lemma sort_Search_spec n f :
  (∀ k, (k < n)%nat → is_Some (f k)) →
  (∀ k k', f k = Some true → (k ≤ k' < n)%nat → f k' = Some true) →
  ∃ r, sort_Search n f = Some r ∧ (r ≤ n)%nat ∧
    (∀ k, (k < r)%nat → f k = Some false) ∧
    (∀ k, (r ≤ k < n)%nat → f k = Some true).
Proof. intros. apply search_loop_spec; try done; lia. Qed.

(** On a list that a predicate splits into a false part followed by a true
    part, [sort.Search] finds the split. *)
Lemma sort_Search_list {A} (l : list A) (P : A → bool) (f : nat → option bool) :
  (∀ k x, l !! k = Some x → f k = Some (P x)) →
  StronglySorted (λ x y, P x = true → P y = true) l →
  ∃ r, sort_Search (length l) f = Some r ∧ (r ≤ length l)%nat ∧
    Forall (λ x, P x = false) (take r l) ∧ Forall (λ x, P x = true) (drop r l).
Proof.
  intros Hf Hss.
  destruct (sort_Search_spec (length l) f) as (r & Hr & Hle & Hlo & Hhi).
  - intros k Hk. destruct (lookup_lt_is_Some_2 l k Hk) as [x Hx]. rewrite (Hf _ _ Hx). eauto.
  - intros k k' Hk [Hkk' Hlt].
    destruct (lookup_lt_is_Some_2 l k') as [y Hy]; [lia|].
    destruct (lookup_lt_is_Some_2 l k) as [x Hx]; [lia|].
    rewrite (Hf _ _ Hx) in Hk. rewrite (Hf _ _ Hy). f_equal. injection Hk as Hk.
    destruct (decide (k = k')) as [->|]; [congruence|].
    rewrite <-(take_drop_middle l k x Hx) in Hss.
    apply StronglySorted_app_1_r, StronglySorted_cons in Hss as [Hall _].
    rewrite Forall_forall in Hall. apply Hall; [|done].
    apply list_elem_of_lookup. exists (k' - S k)%nat. rewrite lookup_drop.
    by replace (S k + (k' - S k))%nat with k' by lia.
  - exists r. split_and!; [done|done| |]; apply Forall_lookup; intros i x.
    + rewrite lookup_take_Some. intros [Hx Hlt]. specialize (Hlo i Hlt).
      rewrite (Hf _ _ Hx) in Hlo. congruence.
    + rewrite lookup_drop. intros Hx. specialize (Hhi (r + i)%nat).
      rewrite (Hf _ _ Hx) in Hhi. apply lookup_lt_Some in Hx.
      assert (Some (P x) = Some true) by (apply Hhi; lia). congruence.
Qed.
