(* ===== verification/Digits.v ===== *)
(** * Big-endian digits

    Numbers as lists of digits, most significant first, in any base: the bytes
    of [big.Int] and of the binary formats (base 256) and hexadecimal text
    (base 16) are instances. *)

From S2P Require Import Prelude.

(** The number a list of digits denotes, as [big.Int.SetBytes]. *)
Definition of_digits (b : Z) (ds : list Z) : Z := foldl (λ a d, a * b + d) 0 ds.

(** The last [k] digits of a number, as [big.Int.FillBytes] without its check. *)
Fixpoint split_digits (b : Z) (k : nat) (n : Z) : list Z :=
  match k with
  | O => []
  | S k' => split_digits b k' (n / b) ++ [n mod b]
  end.

(** The digits of a number without leading zeros, as [big.Int.Bytes]. *)
Fixpoint digits_go (b : Z) (fuel : nat) (n : Z) : list Z :=
  match fuel with
  | O => []
  | S fuel' => if n <=? 0 then [] else digits_go b fuel' (n / b) ++ [n mod b]
  end.

Definition digits (b n : Z) : list Z := digits_go b (S (Z.to_nat (Z.log2 n))) n.

Definition is_digits (b : Z) (ds : list Z) : Prop := Forall (λ d, 0 ≤ d < b) ds.

#[export] Instance is_digits_dec b ds : Decision (is_digits b ds).
Proof. unfold is_digits. apply _. Defined.

Section digits.
Context (b : Z) (Hb : 2 ≤ b).

Lemma of_digits_acc ds a :
  foldl (λ a d, a * b + d) a ds = a * b ^ Z.of_nat (length ds) + of_digits b ds.
Proof.
  unfold of_digits. revert a. induction ds as [|d ds IH]; intros a; cbn [foldl length].
  - rewrite Z.pow_0_r. lia.
  - rewrite IH, (IH (0 * b + d)), Nat2Z.inj_succ, Z.pow_succ_r by lia. lia.
Qed.

Lemma of_digits_app l1 l2 :
  of_digits b (l1 ++ l2) = of_digits b l1 * b ^ Z.of_nat (length l2) + of_digits b l2.
Proof. unfold of_digits at 1. rewrite foldl_app. apply of_digits_acc. Qed.

Lemma of_digits_cons d ds :
  of_digits b (d :: ds) = d * b ^ Z.of_nat (length ds) + of_digits b ds.
Proof. change (d :: ds) with ([d] ++ ds). rewrite of_digits_app. cbn. lia. Qed.

Lemma of_digits_snoc ds d : of_digits b (ds ++ [d]) = of_digits b ds * b + d.
Proof. rewrite of_digits_app. unfold of_digits at 2. simpl. rewrite Z.pow_1_r. lia. Qed.

Lemma of_digits_zeros k : of_digits b (replicate k 0) = 0.
Proof. induction k as [|k IH]; [done|]. simpl. rewrite of_digits_cons, IH. lia. Qed.

Lemma of_digits_bound ds :
  is_digits b ds → 0 ≤ of_digits b ds < b ^ Z.of_nat (length ds).
Proof.
  induction ds as [|d ds IH] using rev_ind; intros Hd; [done|].
  apply Forall_app in Hd as [Hds Hd]. rewrite Forall_singleton in Hd.
  rewrite of_digits_snoc, length_app. cbn [length].
  rewrite Nat2Z.inj_add, Z.pow_add_r, Z.pow_1_r by lia.
  specialize (IH Hds). nia.
Qed.

Lemma length_split_digits k n : length (split_digits b k n) = k.
Proof.
  revert n. induction k as [|k IH]; intros n; [done|]. cbn [split_digits].
  rewrite length_app, IH. simpl. lia.
Qed.

Lemma split_digits_is_digits k n : is_digits b (split_digits b k n).
Proof.
  revert n. induction k as [|k IH]; intros n; [constructor|]. cbn [split_digits].
  apply Forall_app. split; [apply IH|]. apply Forall_singleton, Z.mod_pos_bound. lia.
Qed.

Lemma of_split_digits k n : of_digits b (split_digits b k n) = n mod b ^ Z.of_nat k.
Proof.
  revert n. induction k as [|k IH]; intros n.
  { cbn. by rewrite Z.mod_1_r. }
  cbn [split_digits]. rewrite of_digits_snoc, IH, Nat2Z.inj_succ, Z.pow_succ_r by lia.
  rewrite (Z.rem_mul_r n b) by lia. lia.
Qed.

Lemma split_of_digits ds : is_digits b ds → split_digits b (length ds) (of_digits b ds) = ds.
Proof.
  induction ds as [|d ds IH] using rev_ind; intros Hd; [done|].
  apply Forall_app in Hd as [Hds Hd]. rewrite Forall_singleton in Hd.
  rewrite length_app, of_digits_snoc. simpl. rewrite Nat.add_1_r. cbn [split_digits].
  rewrite Z.div_add_l, Z.div_small, Z.add_0_r by lia.
  by rewrite IH, Z.add_comm, Z.mod_add, Z.mod_small by (done || lia).
Qed.

Lemma of_digits_inj ds ds' :
  is_digits b ds → is_digits b ds' → length ds = length ds' →
  of_digits b ds = of_digits b ds' → ds = ds'.
Proof.
  intros Hd Hd' Hl He. rewrite <-(split_of_digits ds Hd), <-(split_of_digits ds' Hd').
  by rewrite Hl, He.
Qed.

Lemma split_digits_small k n :
  0 ≤ n < b ^ Z.of_nat k → of_digits b (split_digits b k n) = n.
Proof. intros. by rewrite of_split_digits, Z.mod_small. Qed.

Lemma digits_go_spec fuel n :
  n < b ^ Z.of_nat fuel →
  is_digits b (digits_go b fuel n) ∧ of_digits b (digits_go b fuel n) = Z.max 0 n ∧
  ∀ d ds, digits_go b fuel n = d :: ds → d ≠ 0.
Proof.
  revert n. induction fuel as [|fuel IH]; intros n Hn.
  { simpl in *. split_and!; [constructor| |done]. cbn. lia. }
  cbn [digits_go]. destruct (Z.leb_spec n 0) as [Hle|Hgt].
  { split_and!; [constructor| |done]. cbn. lia. }
  rewrite Nat2Z.inj_succ, Z.pow_succ_r in Hn by lia.
  destruct (IH (n / b)) as (Hd & Ho & Hh); [by apply Z.div_lt_upper_bound; lia|].
  pose proof (Z.div_pos n b) as Hq. pose proof (Z.mod_pos_bound n b) as Hm.
  pose proof (Z.div_mod n b) as Hdm. split_and!.
  - apply Forall_app. split; [done|]. apply Forall_singleton. lia.
  - rewrite of_digits_snoc, Ho. lia.
  - destruct (digits_go b fuel (n / b)) as [|d0 ds0] eqn:He; intros d ds Heq.
    + simpl in Heq. injection Heq as <- _. cbn in Ho. lia.
    + simpl in Heq. injection Heq as <- _. by eapply Hh.
Qed.

Lemma digits_fuel n : n < b ^ Z.of_nat (S (Z.to_nat (Z.log2 n))).
Proof.
  pose proof (Z.log2_nonneg n).
  rewrite Nat2Z.inj_succ, Z2Nat.id by done.
  destruct (Z.le_gt_cases n 0); [pose proof (Z.pow_pos_nonneg b (Z.succ (Z.log2 n))); lia|].
  eapply Z.lt_le_trans; [by apply Z.log2_spec|]. apply Z.pow_le_mono_l. lia.
Qed.

Lemma digits_is_digits n : is_digits b (digits b n).
Proof. apply digits_go_spec, digits_fuel. Qed.

Lemma of_digits_digits n : 0 ≤ n → of_digits b (digits b n) = n.
Proof.
  intros Hn. unfold digits. destruct (digits_go_spec _ n (digits_fuel n)) as (_ & -> & _). lia.
Qed.

Lemma digits_head n d ds : digits b n = d :: ds → d ≠ 0.
Proof. apply digits_go_spec, digits_fuel. Qed.

Lemma digits_nil n : digits b n = [] ↔ n ≤ 0.
Proof.
  split.
  - intros Hn. destruct (Z.le_gt_cases n 0); [done|].
    pose proof (of_digits_digits n) as Ho. rewrite Hn in Ho. cbn in Ho. lia.
  - intros Hn. unfold digits. cbn [digits_go]. by rewrite (proj2 (Z.leb_le _ _)).
Qed.

(** No leading zero: a number needs at least as many digits as it has. *)
Lemma digits_lower n : 0 < n → b ^ (Z.of_nat (length (digits b n)) - 1) ≤ n.
Proof.
  intros Hn. destruct (digits b n) as [|d ds] eqn:He.
  { apply digits_nil in He. lia. }
  pose proof (digits_head _ _ _ He) as Hd.
  pose proof (digits_is_digits n) as Hall. rewrite He in Hall.
  apply Forall_cons in Hall as [Hd' Hds]. pose proof (of_digits_bound ds Hds).
  rewrite <-(of_digits_digits n), He, of_digits_cons by lia. cbn [length].
  replace (Z.of_nat (S (length ds)) - 1) with (Z.of_nat (length ds)) by lia. nia.
Qed.

Lemma digits_length k n : n < b ^ Z.of_nat k → (length (digits b n) ≤ k)%nat.
Proof.
  intros Hk. destruct (Z.le_gt_cases n 0) as [Hn|Hn].
  { rewrite (proj2 (digits_nil n) Hn). simpl. lia. }
  pose proof (digits_lower n Hn) as Hl.
  destruct (decide (length (digits b n) ≤ k)%nat); [done|exfalso].
  pose proof (Z.pow_le_mono_r b (Z.of_nat k) (Z.of_nat (length (digits b n)) - 1)). lia.
Qed.

(** Padding the minimal digits with zeros gives the fixed number of digits. *)
Lemma split_digits_pad k n :
  0 ≤ n < b ^ Z.of_nat k →
  split_digits b k n = replicate (k - length (digits b n)) 0 ++ digits b n.
Proof.
  intros Hn. pose proof (digits_length k n ltac:(lia)) as Hlen. apply of_digits_inj.
  - apply split_digits_is_digits.
  - apply Forall_app. split; [|apply digits_is_digits].
    apply Forall_replicate. lia.
  - rewrite length_split_digits, length_app, length_replicate. lia.
  - rewrite split_digits_small, of_digits_app, of_digits_zeros, of_digits_digits by lia. lia.
Qed.

Lemma digits_of_digits d ds :
  is_digits b (d :: ds) → d ≠ 0 → digits b (of_digits b (d :: ds)) = d :: ds.
Proof.
  intros Hd Hne. pose proof (of_digits_bound _ Hd) as Hbd.
  pose proof Hd as [Hd0 Hds]%Forall_cons. pose proof (of_digits_bound _ Hds) as Hbs.
  rewrite of_digits_cons in *. cbn [length] in *. set (n := _ + _) in *.
  pose proof (Z.pow_pos_nonneg b (Z.of_nat (length ds))).
  assert (length (digits b n) = S (length ds)) as Hl.
  { apply Nat.le_antisymm; [apply digits_length; lia|].
    destruct (decide (S (length ds) ≤ length (digits b n))%nat); [done|exfalso].
    pose proof (of_digits_bound _ (digits_is_digits n)) as Hbn.
    rewrite of_digits_digits in Hbn by lia.
    pose proof (Z.pow_le_mono_r b (Z.of_nat (length (digits b n))) (Z.of_nat (length ds))). nia. }
  apply of_digits_inj; [apply digits_is_digits|done|done|].
  rewrite of_digits_digits, of_digits_cons by lia. done.
Qed.
End digits.
