(* ===== verification/Hex.v ===== *)
(** * Hexadecimal text

    [hex/hex.go] and [encoding/encoding.go], with the functions of Go's
    [encoding/hex], [strconv] and [math/big] they wrap.  Text is a list of
    characters, bytes are numbers below 256. *)

From S2P Require Import Prelude Digits.
From Stdlib Require Import Ascii.

Definition text := list ascii.

Definition char_code (c : ascii) : Z := Z.of_nat (nat_of_ascii c).

(** ** Digits *)

Definition hex_char (d : Z) : ascii :=
  ascii_of_nat (Z.to_nat (if d <? 10 then 48 + d else 87 + d)).

Definition digit_of (c : ascii) : option Z :=
  let n := char_code c in
  if (48 <=? n) && (n <=? 57) then Some (n - 48) else None.

Definition xdigit_of (c : ascii) : option Z :=
  let n := char_code c in
  if (48 <=? n) && (n <=? 57) then Some (n - 48)
  else if (97 <=? n) && (n <=? 102) then Some (n - 97 + 10)
  else if (65 <=? n) && (n <=? 70) then Some (n - 65 + 10)
  else None.

Definition digit_in (base : Z) (c : ascii) : option Z :=
  if decide (base = 16) then xdigit_of c else digit_of c.

(** ** Go's [encoding/hex] *)

Inductive HexErr := InvalidByteError (c : ascii) | ErrLength.

#[export] Instance HexErr_eq_dec : EqDecision HexErr.
Proof. solve_decision. Defined.

Definition EncodeToString (str : bytes) : text :=
  b ← str; [hex_char (b / 16); hex_char (b mod 16)].

(** The bytes before the first error are returned with the error. *)
Fixpoint std_DecodeString (s : text) : bytes * option HexErr :=
  match s with
  | [] => ([], None)
  | [p] =>
      match xdigit_of p with
      | None => ([], Some (InvalidByteError p))
      | Some _ => ([], Some ErrLength)
      end
  | p :: q :: s' =>
      match xdigit_of p, xdigit_of q with
      | None, _ => ([], Some (InvalidByteError p))
      | Some _, None => ([], Some (InvalidByteError q))
      | Some a, Some b =>
          let '(bs, err) := std_DecodeString s' in (a * 16 + b :: bs, err)
      end
  end.

Definition DecodeString (str : text) : GoRes HexErr bytes :=
  match std_DecodeString str with
  | (bs, None) => Ret bs
  | (_, Some err) => Fail err
  end.

(** ** Go's [strconv.ParseUint] with 64 bits *)

Inductive NumError := ErrSyntax | ErrRange.

Fixpoint ParseUint_go (base : Z) (s : text) (n : Z) : Z * option NumError :=
  match s with
  | [] => (n, None)
  | c :: s' =>
      match digit_in base c with
      | None => (0, Some ErrSyntax)
      | Some d =>
          let n' := n * base + d in
          if 2 ^ 64 <=? n' then (2 ^ 64 - 1, Some ErrRange)
          else ParseUint_go base s' n'
      end
  end.

Definition ParseUint (s : text) (base : Z) : Z * option NumError :=
  match s with [] => (0, Some ErrSyntax) | _ => ParseUint_go base s 0 end.

(** ** Go's [big.Int.SetString] and [big.Int.Text] *)

Fixpoint parse_digits (base : Z) (s : text) : option (list Z) :=
  match s with
  | [] => Some []
  | c :: s' => d ← digit_in base c; ds ← parse_digits base s'; Some (d :: ds)
  end.

Definition parse_nat (base : Z) (s : text) : option Z :=
  match s with [] => None | _ => of_digits base <$> parse_digits base s end.

Definition SetString (s : text) (base : Z) : option Z :=
  match s with
  | "-"%char :: s' => Z.opp <$> parse_nat base s'
  | "+"%char :: s' => parse_nat base s'
  | _ => parse_nat base s
  end.

(** Also [fmt] verb [%x] and [strconv.AppendUint] in base 16. *)
Definition nat_text (n : Z) : text :=
  if decide (n = 0) then ["0"%char] else hex_char <$> digits 16 n.

Definition Text (n : Z) : text :=
  if n <? 0 then "-"%char :: nat_text (- n) else nat_text n.

(** ** [hex/hex.go] *)

Definition hex_prefix : text := ["0"%char; "x"%char].

Definition TrimPrefix0x (s : text) : text :=
  match s with
  | "0"%char :: "x"%char :: s' => s'
  | _ => s
  end.

Definition HasPrefix0x (s : text) : bool :=
  match s with
  | "0"%char :: "x"%char :: _ => true
  | _ => false
  end.

Definition EncodeToHex (str : bytes) : text := hex_prefix ++ EncodeToString str.

Definition DecodeHex (str : text) : GoRes HexErr bytes :=
  let str := TrimPrefix0x str in
  let str := if negb (Z.of_nat (length str) mod 2 =? 0) then "0"%char :: str else str in
  DecodeString str.

Definition MustDecodeHex (str : text) : GoRes HexErr bytes :=
  match DecodeHex str with
  | Ret buf => Ret buf
  | Fail _ => Panic
  | Panic => Panic
  end.

(** When [SetString] fails the value of its receiver is undefined; [undef]
    stands for it. *)
Definition DecodeBig (undef : text → Z) (hexNum : text) : Z :=
  let str := TrimPrefix0x hexNum in
  default (undef str) (SetString str 16).

(** [Uint64] keeps the low 64 bits of the absolute value. *)
Definition DecodeUint64 (undef : text → Z) (str : text) : Z :=
  wrap64 (Z.abs (DecodeBig undef str)).

Definition EncodeUint64 (i : Z) : text := hex_prefix ++ nat_text i.

Definition BadNibble : Z := 2 ^ 64 - 1.

Definition DecodeNibble (c : ascii) : Z :=
  let n := char_code c in
  if (48 <=? n) && (n <=? 57) then n - 48
  else if (65 <=? n) && (n <=? 70) then n - 65 + 10
  else if (97 <=? n) && (n <=? 102) then n - 97 + 10
  else BadNibble.

(** [fmt] verb [%#x] writes the sign before the prefix. *)
Definition EncodeBig (bigint : Z) : text :=
  if decide (bigint = 0) then hex_prefix ++ ["0"%char]
  else if bigint <? 0 then "-"%char :: hex_prefix ++ nat_text (- bigint)
  else hex_prefix ++ nat_text bigint.

Definition IsValid (s : text) : bool :=
  forallb (λ c, let b := char_code c in
     (48 <=? b) && (b <=? 57) || (97 <=? b) && (b <=? 102) || (65 <=? b) && (b <=? 70))
    (TrimPrefix0x s).

(** ** [encoding/encoding.go] *)

Definition DecodeUint64orHex (val : option text) : Z * option NumError :=
  match val with
  | None => (0, None)
  | Some str =>
      if HasPrefix0x str then ParseUint (drop 2 str) 16 else ParseUint str 10
  end.

Definition DecodeUint256orHex (val : option text) : GoRes string (option Z) :=
  match val with
  | None => Ret None
  | Some str =>
      let '(str, base) := if HasPrefix0x str then (drop 2 str, 16) else (str, 10) in
      match SetString str base with
      | Some b => Ret (Some b)
      | None => Fail "could not parse"
      end
  end.

(** [int64(i)] *)
Definition to_int64 (n : Z) : Z := if n <? 2 ^ 63 then n else n - 2 ^ 64.

Definition DecodeInt64orHex (val : option text) : Z * option NumError :=
  let '(i, err) := DecodeUint64orHex val in (to_int64 i, err).

Definition DecodeBytes (val : option text) : GoRes HexErr bytes :=
  match val with
  | None => Ret []
  | Some v => DecodeString (TrimPrefix0x v)
  end.

Definition enc_EncodeUint64 (b : Z) : text := hex_prefix ++ nat_text b.
Definition EncodeBytes (b : bytes) : text := hex_prefix ++ EncodeToString b.
Definition EncodeBigInt (b : Z) : text := hex_prefix ++ Text b.

(** ** Lemmas *)

Lemma range_cases (P : Z → Prop) n :
  Forall P (seqZ 0 (Z.of_nat n)) → ∀ d, 0 ≤ d < Z.of_nat n → P d.
Proof. intros HP d Hd. eapply Forall_forall; [done|]. apply elem_of_seqZ. lia. Qed.

Lemma xdigit_hex_char d : 0 ≤ d < 16 → xdigit_of (hex_char d) = Some d.
Proof. revert d. apply (range_cases _ 16). by repeat constructor. Qed.

Lemma ascii_cases (P : ascii → Prop) :
  Forall (λ n, P (ascii_of_nat n)) (seq 0 256) → ∀ c, P c.
Proof.
  intros HP c. rewrite <-(ascii_nat_embedding c).
  rewrite Forall_forall in HP. apply HP. apply elem_of_seq.
  pose proof (nat_ascii_bounded c). lia.
Qed.

Lemma xdigit_range c d : xdigit_of c = Some d → 0 ≤ d < 16.
Proof. unfold xdigit_of. repeat case_match; intros; simplify_eq; lia. Qed.

Definition is_bytes : bytes → Prop := is_digits 256.

Lemma DecodeString_ret s bs : DecodeString s = Ret bs ↔ std_DecodeString s = (bs, None).
Proof.
  unfold DecodeString. destruct (std_DecodeString s) as [? [?|]]; naive_solver.
Qed.

(** Induction on texts by pairs of characters. *)
Lemma pair_ind (P : text → Prop) :
  P [] → (∀ p, P [p]) → (∀ p q s, P s → P (p :: q :: s)) → ∀ s, P s.
Proof.
  intros H0 H1 H2 s. assert (P s ∧ ∀ p, P (p :: s)) as [? _]; [|done].
  induction s as [|q s [IH IH']]; auto.
Qed.

Lemma decode_encode_bytes bs s :
  is_bytes bs →
  std_DecodeString (EncodeToString bs ++ s) =
    let '(bs', err) := std_DecodeString s in (bs ++ bs', err).
Proof.
  induction 1 as [|b bs Hb _ IH]; [cbn; by destruct (std_DecodeString s)|].
  unfold EncodeToString in *. cbn [mbind list_bind app].
  assert (0 ≤ b / 16 < 16) by (split; [apply Z.div_pos|apply Z.div_lt_upper_bound]; lia).
  pose proof (Z.mod_pos_bound b 16).
  cbn [std_DecodeString]. rewrite !xdigit_hex_char by lia. rewrite IH.
  destruct (std_DecodeString s) as [bs' err].
  rewrite (Z.mul_comm (b / 16)), <-Z.div_mod by lia. done.
Qed.

Lemma DecodeString_EncodeToString bs : is_bytes bs → DecodeString (EncodeToString bs) = Ret bs.
Proof.
  intros Hbs. apply DecodeString_ret. rewrite <-(app_nil_r (EncodeToString bs)).
  rewrite decode_encode_bytes by done. simpl. by rewrite app_nil_r.
Qed.

Lemma EncodeToString_app bs bs' :
  EncodeToString (bs ++ bs') = EncodeToString bs ++ EncodeToString bs'.
Proof. apply bind_app. Qed.

Lemma length_EncodeToString bs : length (EncodeToString bs) = (2 * length bs)%nat.
Proof.
  induction bs as [|b bs IH]; [done|]. unfold EncodeToString in *.
  cbn [mbind list_bind app length]. rewrite IH. lia.
Qed.

(** Two hexadecimal digits per byte. *)
Lemma split_digits_hex k n :
  hex_char <$> split_digits 16 (2 * k) n = EncodeToString (split_digits 256 k n).
Proof.
  revert n. induction k as [|k IH]; intros n; [done|].
  replace (2 * S k)%nat with (S (S (2 * k))) by lia. cbn [split_digits].
  rewrite !fmap_app, EncodeToString_app, Z.div_div, IH by lia. rewrite <-app_assoc. f_equal.
  unfold EncodeToString. cbn [mbind list_bind app fmap list_fmap].
  assert (n mod 256 / 16 = (n / 16) mod 16) as ->.
  { change 256 with (16 * 16). rewrite Z.rem_mul_r, Z.mul_comm by lia.
    rewrite Z.div_add, Z.div_small by (pose proof (Z.mod_pos_bound n 16); lia). lia. }
  replace (n mod 256 mod 16) with (n mod 16); [done|].
  symmetry. apply Z.mod_mod_divide. by exists 16.
Qed.

(** [fmt] verb [%0ks]: zeros on the left up to [k] characters. *)
Definition pad_text (k : nat) (s : text) : text :=
  replicate (k - length s) "0"%char ++ s.

Lemma pad_nat_text k n :
  (0 < k)%nat → 0 ≤ n < 16 ^ Z.of_nat k →
  pad_text k (nat_text n) = hex_char <$> split_digits 16 k n.
Proof.
  intros Hk Hn. unfold pad_text, nat_text.
  rewrite (split_digits_pad 16) by lia. rewrite fmap_app, fmap_replicate.
  case_decide as H0.
  - subst n. cbn [length]. rewrite (proj2 (digits_nil 16 ltac:(lia) 0)) by lia. simpl.
    rewrite Nat.sub_0_r, app_nil_r. destruct k as [|k]; [lia|].
    simpl. rewrite Nat.sub_0_r. symmetry. apply (replicate_cons_app k).
  - by rewrite length_fmap.
Qed.

Lemma pad_Text k2 k n :
  k2 = (2 * k)%nat → (0 < k)%nat → 0 ≤ n < 256 ^ Z.of_nat k →
  pad_text k2 (Text n) = EncodeToString (split_digits 256 k n).
Proof.
  intros -> Hk Hn. unfold Text. rewrite (proj2 (Z.ltb_ge _ _)) by lia.
  rewrite pad_nat_text, split_digits_hex by
    (try replace (16 ^ Z.of_nat (2 * k)) with (256 ^ Z.of_nat k)
       by (rewrite Nat2Z.inj_mul, Z.pow_mul_r by lia; done); lia). done.
Qed.

Lemma parse_hex_digits base ds :
  base = 16 → is_digits base ds → parse_digits base (hex_char <$> ds) = Some ds.
Proof.
  intros ->. induction 1 as [|d ds Hd _ IH]; [done|].
  rewrite fmap_cons. cbn [parse_digits]. rewrite IH. unfold digit_in.
  by rewrite decide_True, xdigit_hex_char.
Qed.

Lemma parse_nat_text n : 0 ≤ n → parse_nat 16 (nat_text n) = Some n.
Proof.
  intros Hn. unfold nat_text. case_decide as H0; [by subst|].
  unfold parse_nat. rewrite parse_hex_digits by (done || by apply digits_is_digits).
  destruct (hex_char <$> digits 16 n) as [|c s] eqn:He.
  - apply fmap_nil_inv, digits_nil in He; lia.
  - simpl. by rewrite of_digits_digits.
Qed.

Lemma hex_char_sign d : 0 ≤ d < 16 → hex_char d ≠ "-"%char ∧ hex_char d ≠ "+"%char.
Proof. revert d. by apply (range_cases _ 16); repeat constructor. Qed.

Lemma SetString_nat_text n : 0 ≤ n → SetString (nat_text n) 16 = Some n.
Proof.
  intros Hn. rewrite <-(parse_nat_text n Hn) at 1. unfold nat_text.
  case_decide as H0; [done|]. destruct (digits 16 n) as [|d ds] eqn:He.
  - apply digits_nil in He; lia.
  - pose proof (digits_is_digits 16 ltac:(lia) n) as Hd. rewrite He in Hd.
    apply Forall_cons in Hd as [Hd _]. destruct (hex_char_sign d Hd) as [H1 H2].
    simpl. unfold SetString. repeat (case_match; simplify_eq; try done).
Qed.

Lemma ParseUint_go_hex ds n :
  is_digits 16 ds → 0 ≤ n → n * 16 ^ Z.of_nat (length ds) + of_digits 16 ds < 2 ^ 64 →
  ParseUint_go 16 (hex_char <$> ds) n =
    (n * 16 ^ Z.of_nat (length ds) + of_digits 16 ds, None).
Proof.
  intros Hds. revert n. induction Hds as [|d ds Hd Hds IH]; intros n Hn Hb.
  { simpl. f_equal. cbn. lia. }
  rewrite fmap_cons. cbn [ParseUint_go]. unfold digit_in.
  rewrite decide_True, xdigit_hex_char by done.
  rewrite of_digits_cons in * by lia. cbn [length] in *.
  rewrite Nat2Z.inj_succ, Z.pow_succ_r in * by lia.
  pose proof (of_digits_bound 16 ltac:(lia) ds Hds).
  pose proof (Z.pow_pos_nonneg 16 (Z.of_nat (length ds))).
  rewrite (proj2 (Z.leb_gt _ _)) by nia.
  rewrite IH by nia. f_equal. nia.
Qed.

Lemma ParseUint_digits ds :
  is_digits 16 ds → ds ≠ [] → of_digits 16 ds < 2 ^ 64 →
  ParseUint (hex_char <$> ds) 16 = (of_digits 16 ds, None).
Proof.
  intros Hds Hne Hb. unfold ParseUint.
  destruct (hex_char <$> ds) eqn:He; [by apply fmap_nil_inv in He|]. rewrite <-He.
  rewrite ParseUint_go_hex by (done || lia). done.
Qed.

Lemma ParseUint_nat_text n : 0 ≤ n < 2 ^ 64 → ParseUint (nat_text n) 16 = (n, None).
Proof.
  intros Hn. unfold nat_text. case_decide as H0; [by subst|].
  pose proof (of_digits_digits 16 ltac:(lia) n ltac:(lia)) as Hv.
  rewrite ParseUint_digits, Hv; [done| | |lia].
  - apply digits_is_digits. lia.
  - intros He%digits_nil; lia.
Qed.

(** [strconv.ParseUint] of the hexadecimal text of bytes. *)
Lemma ParseUint_bytes bs :
  is_bytes bs → bs ≠ [] → of_digits 256 bs < 2 ^ 64 →
  ParseUint (EncodeToString bs) 16 = (of_digits 256 bs, None).
Proof.
  intros Hbs Hne Hb. pose proof (of_digits_bound 256 ltac:(lia) bs Hbs) as Hr.
  rewrite <-(split_of_digits 256 ltac:(lia) bs Hbs) at 1.
  rewrite <-split_digits_hex.
  assert (of_digits 16 (split_digits 16 (2 * length bs) (of_digits 256 bs)) = of_digits 256 bs)
    as Hv.
  { apply split_digits_small; [lia|]. rewrite Nat2Z.inj_mul, Z.pow_mul_r by lia. done. }
  rewrite ParseUint_digits, Hv; [done| | |by rewrite Hv].
  - apply split_digits_is_digits. lia.
  - intros He%(f_equal length). rewrite length_split_digits in He. by destruct bs.
Qed.

Lemma IsValid_char c :
  (let b := char_code c in
   (48 <=? b) && (b <=? 57) || (97 <=? b) && (b <=? 102) || (65 <=? b) && (b <=? 70))
  = bool_decide (is_Some (xdigit_of c)).
Proof.
  unfold xdigit_of. simpl. repeat case_match; simpl; try done;
    by rewrite ?bool_decide_eq_true_2 by eauto.
Qed.

Lemma forallb_xdigit s :
  forallb (λ c, let b := char_code c in
     (48 <=? b) && (b <=? 57) || (97 <=? b) && (b <=? 102) || (65 <=? b) && (b <=? 70)) s = true
  ↔ Forall (λ c, is_Some (xdigit_of c)) s.
Proof.
  rewrite forallb_forall, Forall_forall. setoid_rewrite list_elem_of_In.
  setoid_rewrite IsValid_char. by setoid_rewrite bool_decide_eq_true.
Qed.

Lemma decode_hex_digits s :
  (∃ bs, std_DecodeString s = (bs, None)) ↔
  Forall (λ c, is_Some (xdigit_of c)) s ∧ Z.of_nat (length s) mod 2 = 0.
Proof.
  induction s as [|p|p q s IH] using pair_ind.
  - split; [done|]. by exists [].
  - split; [|by intros [_ ?]]. intros [bs Hbs]. simpl in Hbs. by destruct (xdigit_of p).
  - replace (Z.of_nat (length (p :: q :: s)) mod 2) with (Z.of_nat (length s) mod 2).
    2: { cbn [length]. replace (Z.of_nat (S (S (length s)))) with (Z.of_nat (length s) + 1 * 2) by lia.
         by rewrite Z.mod_add. }
    rewrite !Forall_cons. cbn [std_DecodeString].
    destruct (xdigit_of p) as [a|], (xdigit_of q) as [b|]; [|naive_solver..].
    destruct (std_DecodeString s) as [bs err]. naive_solver.
Qed.

(** ** Properties *)

(** Round trips: bytes, machine words and big integers are recovered from
    the hexadecimal text the node writes for them. *)
Theorem hex_roundtrips undef bs n z :
  is_bytes bs → 0 ≤ n < 2 ^ 64 → 0 ≤ z →
  (DecodeHex (EncodeToHex bs) = Ret bs ∧ DecodeBytes (Some (EncodeBytes bs)) = Ret bs) ∧
  (DecodeUint64 undef (EncodeUint64 n) = n ∧
   DecodeUint64orHex (Some (enc_EncodeUint64 n)) = (n, None)) ∧
  (DecodeBig undef (EncodeBig z) = z ∧
   DecodeUint256orHex (Some (EncodeBigInt z)) = Ret (Some z)).
Proof.
  intros Hbs Hn Hz. split_and!.
  - unfold DecodeHex, EncodeToHex. simpl. rewrite length_EncodeToString.
    rewrite Nat2Z.inj_mul, Z.mul_comm, Z_mod_mult. by apply DecodeString_EncodeToString.
  - by apply DecodeString_EncodeToString.
  - unfold DecodeUint64, DecodeBig, EncodeUint64. simpl.
    rewrite SetString_nat_text by lia. simpl. rewrite Z.abs_eq by lia. by apply wrap64_small.
  - unfold DecodeUint64orHex, enc_EncodeUint64. simpl. by apply ParseUint_nat_text.
  - unfold DecodeBig, EncodeBig. case_decide as H0; [by subst|].
    rewrite (proj2 (Z.ltb_ge _ _)) by lia. simpl. by rewrite SetString_nat_text.
  - unfold DecodeUint256orHex, EncodeBigInt, Text.
    rewrite (proj2 (Z.ltb_ge _ _)) by lia. cbn -[SetString nat_text].
    by rewrite drop_0, SetString_nat_text.
Qed.

Lemma hex_roundtrips_witness :
  DecodeHex (EncodeToHex [202; 254]) = Ret [202; 254] ∧
  DecodeUint64 (λ _, 0) (EncodeUint64 4096) = 4096 ∧
  DecodeBig (λ _, 0) (EncodeBig (2 ^ 200)) = 2 ^ 200.
Proof.
  destruct (hex_roundtrips (λ _, 0) [202; 254] 4096 (2 ^ 200)) as ([? _] & [? _] & [? _]);
    [apply (bool_decide_unpack _); vm_compute; exact I | lia | lia | auto].
Defined.

(** [IsValid] decides whether [DecodeHex] accepts a text; [MustDecodeHex]
    panics on exactly the texts that are not valid. *)
Theorem IsValid_DecodeHex s :
  (IsValid s = true ↔ ∃ bs, DecodeHex s = Ret bs) ∧
  (IsValid s = false ↔ MustDecodeHex s = Panic).
Proof.
  assert (IsValid s = true ↔ ∃ bs, DecodeHex s = Ret bs) as Hv.
  { unfold IsValid, DecodeHex. generalize (TrimPrefix0x s). intros str.
    setoid_rewrite DecodeString_ret. rewrite decode_hex_digits, forallb_xdigit.
    destruct (Z.eqb_spec (Z.of_nat (length str) mod 2) 0) as [He|Ho]; simpl; [tauto|].
    rewrite Forall_cons, Nat2Z.inj_succ, <-Z.add_1_r, Z.add_mod by lia.
    assert (Z.of_nat (length str) mod 2 = 1) as -> by (pose proof (Z.mod_pos_bound
      (Z.of_nat (length str)) 2); lia).
    split; [intros; split_and!; [by eexists|done..]|tauto]. }
  split; [done|]. unfold MustDecodeHex.
  destruct (IsValid s), (DecodeHex s); naive_solver.
Qed.

(** The comment of [EncodeBig] says that the sign is ignored; a negative
    number is written with a minus sign before the prefix, a text that
    [DecodeBig] does not parse: it returns the receiver of the failed
    [SetString]. *)
Theorem EncodeBig_negative undef z :
  z < 0 →
  EncodeBig z = "-"%char :: EncodeBig (- z) ∧ DecodeBig undef (EncodeBig z) = undef (EncodeBig z).
Proof.
  intros Hz. unfold EncodeBig.
  rewrite !decide_False, (proj2 (Z.ltb_lt _ _)), (proj2 (Z.ltb_ge _ _)) by lia.
  split; [done|]. done.
Qed.

Lemma EncodeBig_negative_witness : DecodeBig (λ _, 77) (EncodeBig (-5)) = 77.
Proof. apply (EncodeBig_negative (λ _, 77) (-5)). lia. Defined.
