(* ===== verification/NetIP.v ===== *)
(** * Validity of IP address text

    [pool/validation.go]: [IsValidIP], with the parsers of Go's [net.ParseIP]
    it relies on (dotted decimal IPv4 and colon separated IPv6).  Only the
    outcome nil or not nil matters to the caller. *)

From S2P Require Import Prelude Hex.
From Stdlib Require Import Ascii.

(** [dtoi] and [xtoi]: the value of the longest prefix of digits, its length
    and the rest; [None] without a digit or when the value reaches 0xFFFFFF. *)
Fixpoint toi (digit : ascii → option Z) (base : Z) (s : text) (n : Z) (i : nat) :
    option (Z * nat * text) :=
  match s with
  | [] => if decide (i = 0%nat) then None else Some (n, i, [])
  | c :: s' =>
      match digit c with
      | Some d =>
          let n' := n * base + d in
          if 16777215 <=? n' then None else toi digit base s' n' (S i)
      | None => if decide (i = 0%nat) then None else Some (n, i, s)
      end
  end.

Definition dtoi (s : text) := toi digit_of 10 s 0 0.
Definition xtoi (s : text) := toi xdigit_of 16 s 0 0.

(** The octets of [parseIPv4] from number [i] on. *)
Fixpoint parse_octets (todo : nat) (first : bool) (s : text) : bool :=
  match todo with
  | O => bool_decide (s = [])
  | S todo' =>
      match (if first then Some s
             else match s with "."%char :: s' => Some s' | _ => None end) with
      | None => false
      | Some s =>
          match dtoi s with
          | None => false
          | Some (n, c, rest) =>
              if 255 <? n then false
              else if (1 <? Z.of_nat c) && bool_decide (head s = Some "0"%char) then false
              else parse_octets todo' false rest
          end
      end
  end.

Definition parseIPv4 (s : text) : bool := parse_octets 4 true s.

(** The loop of [parseIPv6]: [i] bytes are filled, [ell] tells whether there
    was an ellipsis.  At most eight groups fit, hence the fuel. *)
Fixpoint parse_groups (fuel : nat) (i : Z) (ell : bool) (s : text) : bool :=
  let finish (i : Z) (ell : bool) (s : text) :=
    bool_decide (s = []) && (if i <? 16 then ell else negb ell) in
  match fuel with
  | O => finish i ell s
  | S fuel' =>
      if 16 <=? i then finish i ell s
      else
        match xtoi s with
        | None => false
        | Some (n, _, rest) =>
            if 65535 <? n then false
            else
              match rest with
              | "."%char :: _ =>
                  if negb ell && negb (i =? 12) then false
                  else if 16 <? i + 4 then false
                  else parseIPv4 s && finish (i + 4) ell []
              | [] => finish (i + 2) ell []
              | ":"%char :: [] => false
              | ":"%char :: ":"%char :: rest' =>
                  if ell then false
                  else match rest' with
                       | [] => finish (i + 2) true []
                       | _ => parse_groups fuel' (i + 2) true rest'
                       end
              | ":"%char :: rest' => parse_groups fuel' (i + 2) ell rest'
              | _ => false
              end
        end
  end.

Definition parseIPv6 (s : text) : bool :=
  match s with
  | ":"%char :: ":"%char :: [] => true
  | ":"%char :: ":"%char :: s' => parse_groups 8 0 true s'
  | _ => parse_groups 8 0 false s
  end.

Fixpoint ParseIP_from (s rest : text) : bool :=
  match rest with
  | [] => false
  | "."%char :: _ => parseIPv4 s
  | ":"%char :: _ => parseIPv6 s
  | _ :: rest' => ParseIP_from s rest'
  end.

Definition ParseIP (s : text) : bool := ParseIP_from s s.

Definition IsValidIP (ip : string) : bool :=
  bool_decide (ip ≠ "") && ParseIP (String.list_ascii_of_string ip).

Example IsValidIP_v4 : IsValidIP "10.23.100.1" = true.
Proof. reflexivity. Qed.
Example IsValidIP_leading_zero : IsValidIP "10.023.100.1" = false.
Proof. reflexivity. Qed.
Example IsValidIP_v6 : IsValidIP "2001:db8::68" = true.
Proof. reflexivity. Qed.
Example IsValidIP_mapped : IsValidIP "::ffff:192.0.2.1" = true.
Proof. reflexivity. Qed.
Example IsValidIP_host : IsValidIP "localhost" = false.
Proof. reflexivity. Qed.
