(* ===== verification/Resources.v ===== *)
(** * Batch resources

    [state/types.go] ([ZKCounters], [BatchResources]), [state/config.go]
    ([BatchConstraintsCfg]) and the resource arithmetic of
    [sequencer/batch.go].  A method with a pointer receiver returns the new
    receiver together with its error; [uint64] and [uint32] fields wrap around
    where the source adds or subtracts. *)

From S2P Require Import Prelude.

Record ZKCounters := mkZKCounters {
  GasUsed : Z;
  UsedKeccakHashes : Z;
  UsedPoseidonHashes : Z;
  UsedPoseidonPaddings : Z;
  UsedMemAligns : Z;
  UsedArithmetics : Z;
  UsedBinaries : Z;
  UsedSteps : Z;
  UsedSha256Hashes_V2 : Z
}.

#[export] Instance ZKCounters_eq_dec : EqDecision ZKCounters.
Proof. solve_decision. Defined.

(** [GetZKCounterError(name)]; [UnderflowPoseidonPaddings] is the one counter
    whose error text the source builds by hand. *)
Inductive ZKCounterError :=
  | ErrZKCounter (name : string)
  | ErrUnderflowPoseidonPaddings.

#[export] Instance ZKCounterError_eq_dec : EqDecision ZKCounterError.
Proof. solve_decision. Defined.

Definition ZKCounters_SumUp (z other : ZKCounters) : ZKCounters :=
  {| GasUsed := GasUsed z +₆₄ GasUsed other;
     UsedKeccakHashes := UsedKeccakHashes z +₃₂ UsedKeccakHashes other;
     UsedPoseidonHashes := UsedPoseidonHashes z +₃₂ UsedPoseidonHashes other;
     UsedPoseidonPaddings := UsedPoseidonPaddings z +₃₂ UsedPoseidonPaddings other;
     UsedMemAligns := UsedMemAligns z +₃₂ UsedMemAligns other;
     UsedArithmetics := UsedArithmetics z +₃₂ UsedArithmetics other;
     UsedBinaries := UsedBinaries z +₃₂ UsedBinaries other;
     UsedSteps := UsedSteps z +₃₂ UsedSteps other;
     UsedSha256Hashes_V2 := UsedSha256Hashes_V2 z +₃₂ UsedSha256Hashes_V2 other |}.

Definition ZKCounters_Sub (z other : ZKCounters) : ZKCounters * option ZKCounterError :=
  if GasUsed z <? GasUsed other then (z, Some (ErrZKCounter "CumulativeGasUsed"))
  else if UsedKeccakHashes z <? UsedKeccakHashes other
  then (z, Some (ErrZKCounter "UsedKeccakHashes"))
  else if UsedPoseidonHashes z <? UsedPoseidonHashes other
  then (z, Some (ErrZKCounter "UsedPoseidonHashes"))
  else if UsedPoseidonPaddings z <? UsedPoseidonPaddings other
  then (z, Some ErrUnderflowPoseidonPaddings)
  else if UsedMemAligns z <? UsedMemAligns other
  then (z, Some (ErrZKCounter "UsedMemAligns"))
  else if UsedArithmetics z <? UsedArithmetics other
  then (z, Some (ErrZKCounter "UsedArithmetics"))
  else if UsedBinaries z <? UsedBinaries other
  then (z, Some (ErrZKCounter "UsedBinaries"))
  else if UsedSteps z <? UsedSteps other
  then (z, Some (ErrZKCounter "UsedSteps"))
  else if UsedSha256Hashes_V2 z <? UsedSha256Hashes_V2 other
  then (z, Some (ErrZKCounter "UsedSha256Hashes_V2"))
  else
    ({| GasUsed := GasUsed z -₆₄ GasUsed other;
        UsedKeccakHashes := UsedKeccakHashes z -₃₂ UsedKeccakHashes other;
        UsedPoseidonHashes := UsedPoseidonHashes z -₃₂ UsedPoseidonHashes other;
        UsedPoseidonPaddings := UsedPoseidonPaddings z -₃₂ UsedPoseidonPaddings other;
        UsedMemAligns := UsedMemAligns z -₃₂ UsedMemAligns other;
        UsedArithmetics := UsedArithmetics z -₃₂ UsedArithmetics other;
        UsedBinaries := UsedBinaries z -₃₂ UsedBinaries other;
        UsedSteps := UsedSteps z -₃₂ UsedSteps other;
        UsedSha256Hashes_V2 := UsedSha256Hashes_V2 z -₃₂ UsedSha256Hashes_V2 other |}, None).

Record BatchResources := mkBatchResources {
  ZKC : ZKCounters;
  Bytes : Z
}.

#[export] Instance BatchResources_eq_dec : EqDecision BatchResources.
Proof. solve_decision. Defined.

Inductive BatchResourceError :=
  | ErrBatchResourceBytesUnderflow
  | BatchRemainingResourcesUnderflowError (err : ZKCounterError).

#[export] Instance BatchResourceError_eq_dec : EqDecision BatchResourceError.
Proof. solve_decision. Defined.

(** The bytes are subtracted first and restored from the backup when a counter
    underflows. *)
Definition BatchResources_Sub (r other : BatchResources) :
    BatchResources * option BatchResourceError :=
  if Bytes r <? Bytes other then (r, Some ErrBatchResourceBytesUnderflow)
  else
    let bytesBackup := Bytes r in
    let r1 := {| ZKC := ZKC r; Bytes := Bytes r -₆₄ Bytes other |} in
    match ZKCounters_Sub (ZKC r1) (ZKC other) with
    | (z, Some err) =>
        ({| ZKC := z; Bytes := bytesBackup |},
         Some (BatchRemainingResourcesUnderflowError err))
    | (z, None) => ({| ZKC := z; Bytes := Bytes r1 |}, None)
    end.

Definition BatchResources_SumUp (r other : BatchResources) : BatchResources :=
  {| ZKC := ZKCounters_SumUp (ZKC r) (ZKC other); Bytes := Bytes r +₆₄ Bytes other |}.

Record BatchConstraintsCfg := mkBatchConstraintsCfg {
  MaxTxsPerBatch : Z;
  MaxBatchBytesSize : Z;
  MaxCumulativeGasUsed : Z;
  MaxKeccakHashes : Z;
  MaxPoseidonHashes : Z;
  MaxPoseidonPaddings : Z;
  MaxMemAligns : Z;
  MaxArithmetics : Z;
  MaxBinaries : Z;
  MaxSteps : Z;
  MaxSHA256Hashes : Z
}.

Definition IsWithinConstraints (c : BatchConstraintsCfg) (counters : ZKCounters) : bool :=
  (GasUsed counters <=? MaxCumulativeGasUsed c) &&
  (UsedKeccakHashes counters <=? MaxKeccakHashes c) &&
  (UsedPoseidonHashes counters <=? MaxPoseidonHashes c) &&
  (UsedPoseidonPaddings counters <=? MaxPoseidonPaddings c) &&
  (UsedMemAligns counters <=? MaxMemAligns c) &&
  (UsedArithmetics counters <=? MaxArithmetics c) &&
  (UsedBinaries counters <=? MaxBinaries c) &&
  (UsedSteps counters <=? MaxSteps c) &&
  (UsedSha256Hashes_V2 counters <=? MaxSHA256Hashes c).

Definition getUsedBatchResources (c : BatchConstraintsCfg) (remaining : BatchResources) :
    BatchResources :=
  let z := ZKC remaining in
  {| ZKC :=
       {| GasUsed := MaxCumulativeGasUsed c -₆₄ GasUsed z;
          UsedKeccakHashes := MaxKeccakHashes c -₃₂ UsedKeccakHashes z;
          UsedPoseidonHashes := MaxPoseidonHashes c -₃₂ UsedPoseidonHashes z;
          UsedPoseidonPaddings := MaxPoseidonPaddings c -₃₂ UsedPoseidonPaddings z;
          UsedMemAligns := MaxMemAligns c -₃₂ UsedMemAligns z;
          UsedArithmetics := MaxArithmetics c -₃₂ UsedArithmetics z;
          UsedBinaries := MaxBinaries c -₃₂ UsedBinaries z;
          UsedSteps := MaxSteps c -₃₂ UsedSteps z;
          UsedSha256Hashes_V2 := MaxSHA256Hashes c -₃₂ UsedSha256Hashes_V2 z |};
     Bytes := MaxBatchBytesSize c -₆₄ Bytes remaining |}.

Definition getMaxRemainingResources (c : BatchConstraintsCfg) : BatchResources :=
  {| ZKC :=
       {| GasUsed := MaxCumulativeGasUsed c;
          UsedKeccakHashes := MaxKeccakHashes c;
          UsedPoseidonHashes := MaxPoseidonHashes c;
          UsedPoseidonPaddings := MaxPoseidonPaddings c;
          UsedMemAligns := MaxMemAligns c;
          UsedArithmetics := MaxArithmetics c;
          UsedBinaries := MaxBinaries c;
          UsedSteps := MaxSteps c;
          UsedSha256Hashes_V2 := MaxSHA256Hashes c |};
     Bytes := MaxBatchBytesSize c |}.

(** [input * pct / 100]: the product wraps at the width before the division. *)
Definition getConstraintThresholdUint64 (pct input : Z) : Z :=
  wrap64 (input * pct) / 100.
Definition getConstraintThresholdUint32 (pct input : Z) : Z :=
  wrap32 (input * pct) / 100.

(** The test of [isBatchResourcesExhausted]; [Some desc] names the resource
    the source logs.  The finalizer model sets the closing reason from it. *)
Definition isBatchResourcesExhausted_desc (pct : Z) (c : BatchConstraintsCfg)
    (remaining : BatchResources) : option string :=
  let z := ZKC remaining in
  if Bytes remaining <=? getConstraintThresholdUint64 pct (MaxBatchBytesSize c)
  then Some "MaxBatchBytesSize"
  else if UsedSteps z <=? getConstraintThresholdUint32 pct (MaxSteps c)
  then Some "MaxSteps"
  else if UsedPoseidonPaddings z <=? getConstraintThresholdUint32 pct (MaxPoseidonPaddings c)
  then Some "MaxPoseidonPaddings"
  else if UsedBinaries z <=? getConstraintThresholdUint32 pct (MaxBinaries c)
  then Some "MaxBinaries"
  else if UsedKeccakHashes z <=? getConstraintThresholdUint32 pct (MaxKeccakHashes c)
  then Some "MaxKeccakHashes"
  else if UsedArithmetics z <=? getConstraintThresholdUint32 pct (MaxArithmetics c)
  then Some "MaxArithmetics"
  else if UsedMemAligns z <=? getConstraintThresholdUint32 pct (MaxMemAligns c)
  then Some "MaxMemAligns"
  else if GasUsed z <=? getConstraintThresholdUint64 pct (MaxCumulativeGasUsed c)
  then Some "MaxCumulativeGasUsed"
  else if UsedSha256Hashes_V2 z <=? getConstraintThresholdUint32 pct (MaxSHA256Hashes c)
  then Some "MaxSHA256Hashes"
  else None.

(** ** Specification: a vector of ten counters *)

Definition zk_list (z : ZKCounters) : list Z :=
  [GasUsed z; UsedKeccakHashes z; UsedPoseidonHashes z; UsedPoseidonPaddings z;
   UsedMemAligns z; UsedArithmetics z; UsedBinaries z; UsedSteps z;
   UsedSha256Hashes_V2 z].

Definition res_list (r : BatchResources) : list Z := Bytes r :: zk_list (ZKC r).

(** The fields are in the range of their Go types. *)
Definition zk_ok (z : ZKCounters) : Prop :=
  in_u64 (GasUsed z) ∧ Forall in_u32 (tail (zk_list z)).
Definition res_ok (r : BatchResources) : Prop := in_u64 (Bytes r) ∧ zk_ok (ZKC r).
Definition cfg_ok (c : BatchConstraintsCfg) : Prop := res_ok (getMaxRemainingResources c).

(** [other] fits into [r]: no counter of [other] exceeds the one of [r]. *)
Definition fits (other r : BatchResources) : Prop :=
  Forall2 Z.le (res_list other) (res_list r).

#[export] Instance fits_dec other r : Decision (fits other r).
Proof. unfold fits. apply _. Defined.

(** Decides goals about concrete vectors of counters: opens the records and
    the [Forall]s, and computes the wrap-around of values known in range. *)
Ltac res_unfold :=
  unfold cfg_ok in *; unfold fits, res_ok, zk_ok, res_list, zk_list, in_u64, in_u32 in *;
  simpl in *;
  repeat match goal with
  | H : Forall _ (_ :: _) |- _ => inversion_clear H
  | H : Forall _ [] |- _ => clear H
  | H : Forall2 _ (_ :: _) (_ :: _) |- _ => inversion_clear H
  | H : Forall2 _ [] [] |- _ => clear H
  | H : _ ∧ _ |- _ => destruct H
  end.
Ltac res_wrap :=
  repeat match goal with
  | |- context [wrap32 ?z] => rewrite (wrap32_small z) by (unfold in_u32; lia)
  | |- context [wrap64 ?z] => rewrite (wrap64_small z) by (unfold in_u64; lia)
  end.
Ltac res_solve :=
  repeat match goal with
  | |- _ ∧ _ => split
  | |- Forall _ _ => constructor
  | |- Forall2 _ _ _ => constructor
  end; try lia.
Ltac res_destruct r := destruct r as [[? ? ? ? ? ? ? ? ?] ?].

Lemma fits_refl r : fits r r.
Proof. res_destruct r. unfold fits. simpl. res_solve. Qed.

Lemma fits_trans r1 r2 r3 : fits r1 r2 → fits r2 r3 → fits r1 r3.
Proof. res_destruct r1. res_destruct r2. res_destruct r3. intros. res_unfold. res_solve. Qed.

Lemma fits_max_iff c z b :
  IsWithinConstraints c z = true ∧ b ≤ MaxBatchBytesSize c ↔
  fits {| ZKC := z; Bytes := b |} (getMaxRemainingResources c).
Proof.
  unfold IsWithinConstraints. rewrite !andb_true_iff, !Z.leb_le.
  split; intros H; [res_unfold; res_solve | res_unfold; tauto].
Qed.

Lemma BatchResources_Sub_fits r other :
  res_ok r → res_ok other → fits other r →
  ∃ r', BatchResources_Sub r other = (r', None) ∧ res_ok r' ∧
    res_list r' = zip_with Z.sub (res_list r) (res_list other).
Proof.
  intros Hr Ho Hf. res_destruct r. res_destruct other.
  unfold BatchResources_Sub, ZKCounters_Sub. res_unfold.
  repeat match goal with
  | |- context [?x <? ?y] => rewrite (proj2 (Z.ltb_ge x y)) by lia
  end.
  eexists. split; [reflexivity|]. simpl. res_wrap. split; [res_solve | done].
Qed.

Lemma BatchResources_Sub_nofit r other :
  res_ok r → res_ok other → ¬ fits other r →
  ∃ e, BatchResources_Sub r other = (r, Some e).
Proof.
  intros Hr Ho Hf. res_destruct r. res_destruct other.
  unfold BatchResources_Sub, ZKCounters_Sub. simpl.
  repeat (case_match; simplify_eq/=; eauto).
  exfalso. apply Hf. res_unfold. rewrite ?Z.ltb_ge in *. res_solve.
Qed.

(** ** Properties *)

(** C8. [BatchResources.Sub] is exact and atomic: it succeeds precisely when
    every counter of [other] fits, and then every counter of the receiver is
    the mathematical difference (nothing wraps around); when it fails the
    receiver, including the bytes that were already subtracted, is as before. *)
Theorem BatchResources_Sub_spec r other :
  res_ok r → res_ok other →
  (fits other r ∧ ∃ r', BatchResources_Sub r other = (r', None) ∧ res_ok r' ∧
     res_list r' = zip_with Z.sub (res_list r) (res_list other)) ∨
  (¬ fits other r ∧ ∃ e, BatchResources_Sub r other = (r, Some e)).
Proof.
  intros Hr Ho. destruct (decide (fits other r)) as [Hf|Hf]; [left|right].
  - split; [done|]. by apply BatchResources_Sub_fits.
  - split; [done|]. by apply BatchResources_Sub_nofit.
Qed.

Definition zk_const (g k : Z) : ZKCounters := mkZKCounters g k k k k k k k k.
Definition res_const (b g k : Z) : BatchResources := mkBatchResources (zk_const g k) b.

Lemma BatchResources_Sub_spec_witness :
  BatchResources_Sub (res_const 100 50 10) (res_const 40 20 3) =
    (res_const 60 30 7, None) ∧
  ((fits (res_const 40 20 3) (res_const 100 50 10) ∧
    ∃ r', BatchResources_Sub (res_const 100 50 10) (res_const 40 20 3) = (r', None) ∧
      res_ok r' ∧ res_list r' = zip_with Z.sub (res_list (res_const 100 50 10))
                                  (res_list (res_const 40 20 3))) ∨
   (¬ fits (res_const 40 20 3) (res_const 100 50 10) ∧
    ∃ e, BatchResources_Sub (res_const 100 50 10) (res_const 40 20 3) =
         (res_const 100 50 10, Some e))).
Proof.
  split; [reflexivity|].
  apply (BatchResources_Sub_spec (res_const 100 50 10) (res_const 40 20 3));
    res_unfold; res_solve.
Defined.

(** C35. Accounting of a batch: taking a transaction's resources out of the
    remaining ones adds exactly these resources to the used ones that
    [getUsedBatchResources] computes for the batch being closed, and the
    remaining ones stay within the configured maximum. *)
Theorem used_resources_accounting c remaining tx remaining' :
  cfg_ok c → res_ok tx → res_ok remaining →
  fits remaining (getMaxRemainingResources c) →
  BatchResources_Sub remaining tx = (remaining', None) →
  getUsedBatchResources c remaining' =
    BatchResources_SumUp (getUsedBatchResources c remaining) tx ∧
  fits remaining' (getMaxRemainingResources c).
Proof.
  intros Hc Ht Hr Hf Hsub.
  destruct (decide (fits tx remaining)) as [Htx|Htx]; last first.
  { destruct (BatchResources_Sub_nofit remaining tx) as [e He]; congruence. }
  destruct (BatchResources_Sub_fits remaining tx) as (r' & Hr' & Hok & Hl); try done.
  rewrite Hsub in Hr'. injection Hr' as <-. clear Hsub.
  destruct c. res_destruct remaining. res_destruct tx. res_destruct remaining'.
  unfold getUsedBatchResources, BatchResources_SumUp, ZKCounters_SumUp.
  res_unfold. simplify_eq. split; [|res_solve]. f_equal; [f_equal|]; res_wrap; lia.
Qed.

Definition cfg_const (n b g k : Z) : BatchConstraintsCfg :=
  mkBatchConstraintsCfg n b g k k k k k k k k.

Lemma used_resources_accounting_witness :
  getUsedBatchResources (cfg_const 300 100 50 10) (res_const 50 25 6) =
    BatchResources_SumUp
      (getUsedBatchResources (cfg_const 300 100 50 10) (res_const 90 45 9))
      (res_const 40 20 3) ∧
  fits (res_const 50 25 6) (getMaxRemainingResources (cfg_const 300 100 50 10)).
Proof.
  apply (used_resources_accounting _ (res_const 90 45 9));
    [res_unfold; res_solve .. | reflexivity].
Defined.

(** Adding resources and taking them out again gives the resources back,
    provided the sum does not exceed the width of the counters. *)
Theorem BatchResources_SumUp_Sub r other :
  res_ok r → res_ok other →
  Forall in_u32 (tail (zip_with Z.add (zk_list (ZKC r)) (zk_list (ZKC other)))) →
  in_u64 (GasUsed (ZKC r) + GasUsed (ZKC other)) →
  in_u64 (Bytes r + Bytes other) →
  BatchResources_Sub (BatchResources_SumUp r other) other = (r, None).
Proof.
  intros Hr Ho H32 Hg Hb. res_destruct r. res_destruct other.
  unfold BatchResources_SumUp, ZKCounters_SumUp. res_unfold. res_wrap.
  unfold BatchResources_Sub, ZKCounters_Sub. simpl.
  repeat match goal with
  | |- context [?x <? ?y] => rewrite (proj2 (Z.ltb_ge x y)) by lia
  end.
  f_equal. f_equal; [f_equal|]; res_wrap; lia.
Qed.

Lemma BatchResources_SumUp_Sub_witness :
  BatchResources_Sub (BatchResources_SumUp (res_const 9 8 7) (res_const 6 5 4))
    (res_const 6 5 4) = (res_const 9 8 7, None).
Proof.
  apply (BatchResources_SumUp_Sub (res_const 9 8 7) (res_const 6 5 4));
    res_unfold; res_solve.
Defined.

(** A transaction that the worker admits ([IsWithinConstraints]) and whose
    size is at most the batch size always fits into an empty batch, whose
    remaining resources are [getMaxRemainingResources]: it can never be stuck
    behind [ErrNoFittingTransaction] for ever. *)
Theorem admitted_tx_fits_empty_batch c z b :
  cfg_ok c → res_ok {| ZKC := z; Bytes := b |} →
  IsWithinConstraints c z = true → b ≤ MaxBatchBytesSize c →
  ∃ r', BatchResources_Sub (getMaxRemainingResources c) {| ZKC := z; Bytes := b |} =
        (r', None).
Proof.
  intros Hc Hz Hw Hb.
  destruct (BatchResources_Sub_fits (getMaxRemainingResources c)
              {| ZKC := z; Bytes := b |}) as (r' & ? & _); try done; eauto.
  by apply fits_max_iff.
Qed.

Lemma admitted_tx_fits_empty_batch_witness :
  ∃ r', BatchResources_Sub (getMaxRemainingResources (cfg_const 300 100 50 10))
          {| ZKC := zk_const 20 3; Bytes := 100 |} = (r', None).
Proof.
  apply (admitted_tx_fits_empty_batch (cfg_const 300 100 50 10) (zk_const 20 3) 100);
    [res_unfold; res_solve | res_unfold; res_solve | reflexivity | simpl; lia].
Defined.

(** The nine remaining resources that [isBatchResourcesExhausted] compares,
    and their thresholds, in one order. *)
Definition checked_remaining (r : BatchResources) : list Z :=
  let z := ZKC r in
  [Bytes r; UsedSteps z; UsedPoseidonPaddings z; UsedBinaries z; UsedKeccakHashes z;
   UsedArithmetics z; UsedMemAligns z; GasUsed z; UsedSha256Hashes_V2 z].
Definition thresholds (pct : Z) (c : BatchConstraintsCfg) : list Z :=
  let th32 := getConstraintThresholdUint32 pct in
  let th64 := getConstraintThresholdUint64 pct in
  [th64 (MaxBatchBytesSize c); th32 (MaxSteps c); th32 (MaxPoseidonPaddings c);
   th32 (MaxBinaries c); th32 (MaxKeccakHashes c); th32 (MaxArithmetics c);
   th32 (MaxMemAligns c); th64 (MaxCumulativeGasUsed c); th32 (MaxSHA256Hashes c)].

(** [isBatchResourcesExhausted] answers no exactly when nine of the ten
    remaining resources are above their thresholds.  The Poseidon hashes are
    not among them: a batch with none left is not closed for it. *)
Theorem exhausted_spec pct c r :
  (isBatchResourcesExhausted_desc pct c r = None ↔
   Forall2 Z.lt (thresholds pct c) (checked_remaining r)) ∧
  ∃ r0, UsedPoseidonHashes (ZKC r0) = 0 ∧
    isBatchResourcesExhausted_desc 10 (cfg_const 300 1000 1000 1000) r0 = None.
Proof.
  split.
  - unfold isBatchResourcesExhausted_desc, thresholds, checked_remaining.
    split.
    + intros H. repeat (case_match; try done). rewrite ?Z.leb_gt in *.
      repeat (constructor; try done).
    + intros H. repeat match goal with
      | H : Forall2 _ (_ :: _) (_ :: _) |- _ => inversion_clear H
      end. repeat (case_match; rewrite ?Z.leb_le in *; try lia). done.
  - exists {| ZKC := mkZKCounters 1000 1000 0 1000 1000 1000 1000 1000 1000;
              Bytes := 1000 |}. split; reflexivity.
Qed.
