(* ===== verification/TxTracker.v ===== *)
(** * Transaction trackers and the store they live in

    [sequencer/txtracker.go].  The worker, the address queues and the sorted
    list share pointers to the same [TxTracker]s, and two of the fields are
    mutated after creation ([updateZKCounters] and [FailedReason]), so a
    tracker is a location in a store.  Go pointers that are not nil are always
    valid: the store is a total function, and a nil-able pointer is an
    [option loc].  Hashes and addresses are numbers, [*big.Int] is [Z], time is
    in nanoseconds. *)

From S2P Require Import Prelude Resources.

Abbreviation loc := nat.

Record EffectiveGasPriceLog := mkEGPLog {
  egpEnabled : bool;
  ValueFinal : Z;
  ValueFirst : Z;
  ValueSecond : Z;
  FinalDeviation : Z;
  MaxDeviation : Z;
  GasUsedFirst : Z;
  GasUsedSecond : Z;
  egpGasPrice : Z;
  Percentage : Z;
  Reprocess : bool;
  GasPriceOC : bool;
  BalanceOC : bool;
  egpL1GasPrice : Z;
  egpL2GasPrice : Z;
  egpError : string
}.

Record TxTracker := mkTxTracker {
  Hash : Z;
  HashStr : string;
  From : Z;
  FromStr : string;
  Nonce : Z;
  Gas : Z;
  GasPrice : Z;
  Cost : Z;
  Resources_ : BatchResources;
  RawTx : list Z;
  ReceivedAt : Z;
  IP : string;
  FailedReason : option string;
  EffectiveGasPrice : Z;
  EGPPercentage : Z;
  IsLastExecution : bool;
  EGPLog : EffectiveGasPriceLog;
  L1GasPrice : Z;
  L2GasPrice : Z;
  FlushId : Z
}.

Abbreviation store := (loc → TxTracker).

Definition upd (σ : store) (l : loc) (t : TxTracker) : store :=
  λ l', if decide (l' = l) then t else σ l'.

(** [tx.BatchResources.ZKCounters = counters] *)
Definition updateZKCounters (tx : TxTracker) (counters : ZKCounters) : TxTracker :=
  mkTxTracker (Hash tx) (HashStr tx) (From tx) (FromStr tx) (Nonce tx) (Gas tx)
    (GasPrice tx) (Cost tx)
    {| ZKC := counters; Bytes := Bytes (Resources_ tx) |}
    (RawTx tx) (ReceivedAt tx) (IP tx) (FailedReason tx) (EffectiveGasPrice tx)
    (EGPPercentage tx) (IsLastExecution tx) (EGPLog tx) (L1GasPrice tx) (L2GasPrice tx)
    (FlushId tx).

(** [txTracker.FailedReason = &reason] *)
Definition setFailedReason (tx : TxTracker) (reason : string) : TxTracker :=
  mkTxTracker (Hash tx) (HashStr tx) (From tx) (FromStr tx) (Nonce tx) (Gas tx)
    (GasPrice tx) (Cost tx) (Resources_ tx) (RawTx tx) (ReceivedAt tx) (IP tx)
    (Some reason) (EffectiveGasPrice tx) (EGPPercentage tx) (IsLastExecution tx)
    (EGPLog tx) (L1GasPrice tx) (L2GasPrice tx) (FlushId tx).

(** ** The part of a tracker that never changes *)

Definition static (t : TxTracker) : Z * string * Z * string * Z * Z * Z * Z :=
  (Hash t, HashStr t, From t, FromStr t, Nonce t, GasPrice t, Cost t, ReceivedAt t).

(** Two stores with the same trackers up to the mutable fields. *)
Definition static_eq (σ σ' : store) : Prop := ∀ l, static (σ l) = static (σ' l).

#[export] Instance static_eq_equiv : Equivalence static_eq.
Proof.
  split; unfold static_eq; [done | intros ??? l; by rewrite H |].
  intros ??? H1 H2 l. by rewrite H1.
Qed.

(** Every field of [static] agrees. *)
Ltac static_field Hs l := specialize (Hs l); unfold static in Hs; congruence.

Section static_fields.
Context (σ σ' : store) (Hs : static_eq σ σ') (l : loc).

Lemma static_Hash : Hash (σ l) = Hash (σ' l).
Proof. static_field Hs l. Qed.
Lemma static_HashStr : HashStr (σ l) = HashStr (σ' l).
Proof. static_field Hs l. Qed.
Lemma static_FromStr : FromStr (σ l) = FromStr (σ' l).
Proof. static_field Hs l. Qed.
Lemma static_Nonce : Nonce (σ l) = Nonce (σ' l).
Proof. static_field Hs l. Qed.
Lemma static_GasPrice : GasPrice (σ l) = GasPrice (σ' l).
Proof. static_field Hs l. Qed.
Lemma static_Cost : Cost (σ l) = Cost (σ' l).
Proof. static_field Hs l. Qed.
End static_fields.

Lemma upd_same σ l t : upd σ l t l = t.
Proof. unfold upd. by case_decide. Qed.

Lemma upd_other σ l l' t : l' ≠ l → upd σ l t l' = σ l'.
Proof. unfold upd. by case_decide. Qed.

Lemma upd_static σ l t : static t = static (σ l) → static_eq (upd σ l t) σ.
Proof. intros Ht l'. unfold upd. by case_decide; subst. Qed.

Lemma upd_ZKCounters_static σ l z : static_eq (upd σ l (updateZKCounters (σ l) z)) σ.
Proof. by apply upd_static. Qed.

Lemma upd_FailedReason_static σ l s : static_eq (upd σ l (setFailedReason (σ l) s)) σ.
Proof. by apply upd_static. Qed.

#[export] Hint Resolve upd_ZKCounters_static upd_FailedReason_static : node.

(** A tracker built by the witnesses: the fields the queues look at. *)
Definition sample_tx (h : Z) (hs : string) (from : Z) (fs : string)
    (nonce gasPrice cost received : Z) (res : BatchResources) : TxTracker :=
  mkTxTracker h hs from fs nonce 21000 gasPrice cost res [] received "" None 0 0 false
    (mkEGPLog false 0 0 0 0 0 0 0 0 0 false false false 0 0 "") 0 0 0.
