(* ===== verification/AddrQueue.v ===== *)
(** * The queue of the transactions of one sender

    [sequencer/addrqueue.go].  Go iterates a map in an unspecified order: an
    operation that ranges over [notReadyTxs] takes the order of the keys, and
    the theorems hold for every order ([map_order]).  Go's [range] skips an
    entry that the loop body has deleted before it is reached, and so do the
    loops here. *)

From S2P Require Import Prelude Resources TxTracker.

(** [common.Hash.String] and [common.Address.String] of go-ethereum: the hex
    text of the value, which determines it. *)
Class EthStrings := {
  hash_String : Z → string;
  addr_String : Z → string;
  hash_String_inj :: Inj (=) (=) hash_String;
  addr_String_inj :: Inj (=) (=) addr_String
}.

Record addrQueue := mkAddrQueue {
  from : Z;
  fromStr : string;
  currentNonce : Z;
  currentBalance : Z;
  readyTx : option loc;
  notReadyTxs : gmap Z loc;
  forcedTxs : gset Z;
  pendingTxsToStore : gset Z
}.

Inductive DropReason :=
  | ErrDuplicatedNonce
  | ErrIntrinsicInvalidNonce.

#[export] Instance DropReason_eq_dec : EqDecision DropReason.
Proof. solve_decision. Defined.

Record addTxRes := mkAddTxRes {
  newReadyTx : option loc;
  prevReadyTx : option loc;
  replacedTx : option loc;
  dropReason : option DropReason
}.

(** The keys of a map in the order a [range] loop visits them. *)
Definition map_order (m : gmap Z loc) (order : list Z) : Prop :=
  NoDup order ∧ ∀ k, k ∈ order ↔ is_Some (m !! k).

Definition set_ready (a : addrQueue) (r : option loc) : addrQueue :=
  mkAddrQueue (from a) (fromStr a) (currentNonce a) (currentBalance a) r
    (notReadyTxs a) (forcedTxs a) (pendingTxsToStore a).
Definition set_notReady (a : addrQueue) (m : gmap Z loc) : addrQueue :=
  mkAddrQueue (from a) (fromStr a) (currentNonce a) (currentBalance a) (readyTx a)
    m (forcedTxs a) (pendingTxsToStore a).
Definition set_forced (a : addrQueue) (f : gset Z) : addrQueue :=
  mkAddrQueue (from a) (fromStr a) (currentNonce a) (currentBalance a) (readyTx a)
    (notReadyTxs a) f (pendingTxsToStore a).
Definition set_pending (a : addrQueue) (p : gset Z) : addrQueue :=
  mkAddrQueue (from a) (fromStr a) (currentNonce a) (currentBalance a) (readyTx a)
    (notReadyTxs a) (forcedTxs a) p.
Definition set_nonce (a : addrQueue) (n : Z) : addrQueue :=
  mkAddrQueue (from a) (fromStr a) n (currentBalance a) (readyTx a)
    (notReadyTxs a) (forcedTxs a) (pendingTxsToStore a).
Definition set_balance (a : addrQueue) (b : Z) : addrQueue :=
  mkAddrQueue (from a) (fromStr a) (currentNonce a) b (readyTx a)
    (notReadyTxs a) (forcedTxs a) (pendingTxsToStore a).

Definition newAddrQueue `{!EthStrings} (addr nonce balance : Z) : addrQueue :=
  mkAddrQueue addr (addr_String addr) nonce balance None ∅ ∅ ∅.

Definition addTx (σ : store) (a : addrQueue) (tx : loc) : addrQueue * addTxRes :=
  if decide (currentNonce a = Nonce (σ tx)) then
    if match readyTx a with
       | None => true
       | Some r => GasPrice (σ r) <=? GasPrice (σ tx)
       end
    then
      let oldReadyTx := readyTx a in
      let repTx :=
        match oldReadyTx with
        | Some r => if decide (HashStr (σ r) = HashStr (σ tx)) then None else Some r
        | None => None
        end in
      if Cost (σ tx) <=? currentBalance a then
        (set_ready a (Some tx), mkAddTxRes (Some tx) oldReadyTx repTx None)
      else
        (set_notReady (set_ready a None) (<[Nonce (σ tx) := tx]> (notReadyTxs a)),
         mkAddTxRes None oldReadyTx repTx None)
    else (a, mkAddTxRes None None None (Some ErrDuplicatedNonce))
  else if Nonce (σ tx) <? currentNonce a then
    (a, mkAddTxRes None None None (Some ErrIntrinsicInvalidNonce))
  else
    match notReadyTxs a !! Nonce (σ tx) with
    | None =>
        (set_notReady a (<[Nonce (σ tx) := tx]> (notReadyTxs a)),
         mkAddTxRes None None None None)
    | Some nrTx =>
        if GasPrice (σ nrTx) <=? GasPrice (σ tx) then
          (set_notReady a (<[Nonce (σ tx) := tx]> (notReadyTxs a)),
           mkAddTxRes None None
             (if decide (HashStr (σ nrTx) = HashStr (σ tx)) then None else Some nrTx) None)
        else (a, mkAddTxRes None None None (Some ErrDuplicatedNonce))
    end.

Definition addForcedTx (a : addrQueue) (txHash : Z) : addrQueue :=
  set_forced a ({[txHash]} ∪ forcedTxs a).

Definition addPendingTxToStore (a : addrQueue) (txHash : Z) : addrQueue :=
  set_pending a ({[txHash]} ∪ pendingTxsToStore a).

(** The loop of [ExpireTransactions]: [clock i] is the [i]-th reading of
    [time.Now()]. *)
Fixpoint expire_loop (σ : store) (maxTime : Z) (clock : nat → Z) (i : nat)
    (order : list Z) (m : gmap Z loc) (txs : list loc) : gmap Z loc * list loc * nat :=
  match order with
  | [] => (m, txs, i)
  | k :: order' =>
      match m !! k with
      | None => expire_loop σ maxTime clock i order' m txs
      | Some l =>
          if ReceivedAt (σ l) + maxTime <? clock i then
            expire_loop σ maxTime clock (S i) order' (delete (Nonce (σ l)) m) (txs ++ [l])
          else expire_loop σ maxTime clock (S i) order' m txs
      end
  end.

Definition ExpireTransactions (σ : store) (a : addrQueue) (maxTime : Z)
    (clock : nat → Z) (order : list Z) : addrQueue * list loc * option loc :=
  let '(m, txs, i) := expire_loop σ maxTime clock 0 order (notReadyTxs a) [] in
  let a := set_notReady a m in
  match readyTx a with
  | Some r =>
      if ReceivedAt (σ r) + maxTime <? clock i
      then (set_ready a None, txs ++ [r], Some r)
      else (a, txs, None)
  | None => (a, txs, None)
  end.

Definition IsEmpty (a : addrQueue) : bool :=
  bool_decide (readyTx a = None) && bool_decide (notReadyTxs a = ∅) &&
  bool_decide (forcedTxs a = ∅) && bool_decide (pendingTxsToStore a = ∅).

Fixpoint delete_loop (σ : store) (txHashStr : string) (order : list Z)
    (m : gmap Z loc) : gmap Z loc :=
  match order with
  | [] => m
  | k :: order' =>
      match m !! k with
      | None => delete_loop σ txHashStr order' m
      | Some l =>
          if decide (HashStr (σ l) = txHashStr)
          then delete_loop σ txHashStr order' (delete (Nonce (σ l)) m)
          else delete_loop σ txHashStr order' m
      end
  end.

Definition deleteTx `{!EthStrings} (σ : store) (a : addrQueue) (txHash : Z)
    (order : list Z) : addrQueue * option loc :=
  let txHashStr := hash_String txHash in
  match readyTx a with
  | Some r =>
      if decide (HashStr (σ r) = txHashStr) then (set_ready a None, Some r)
      else (set_notReady a (delete_loop σ txHashStr order (notReadyTxs a)), None)
  | None => (set_notReady a (delete_loop σ txHashStr order (notReadyTxs a)), None)
  end.

Definition deleteForcedTx (a : addrQueue) (txHash : Z) : addrQueue :=
  if decide (txHash ∈ forcedTxs a) then set_forced a (forcedTxs a ∖ {[txHash]}) else a.

Definition deletePendingTxToStore (a : addrQueue) (txHash : Z) : addrQueue :=
  if decide (txHash ∈ pendingTxsToStore a)
  then set_pending a (pendingTxsToStore a ∖ {[txHash]}) else a.

Definition reason_invalid_nonce : string := "nonce intrinsic error".

(** First loop of [updateCurrentNonceBalance]: the transactions whose nonce has
    passed are marked as failed and collected. *)
Fixpoint stale_loop (σ : store) (nonce : Z) (m : gmap Z loc) (order : list Z)
    (txs : list loc) : store * list loc :=
  match order with
  | [] => (σ, txs)
  | k :: order' =>
      match m !! k with
      | None => stale_loop σ nonce m order' txs
      | Some l =>
          if Nonce (σ l) <? nonce
          then stale_loop (upd σ l (setFailedReason (σ l) reason_invalid_nonce)) nonce m
                 order' (txs ++ [l])
          else stale_loop σ nonce m order' txs
      end
  end.

(** Second loop: the collected transactions leave [notReadyTxs]. *)
Definition delete_all (σ : store) (txs : list loc) (m : gmap Z loc) : gmap Z loc :=
  foldl (λ m l, delete (Nonce (σ l)) m) m txs.

(** The four phases of [updateCurrentNonceBalance]: the new nonce and the
    transactions it makes stale, ... *)
Definition advance_nonce (σ : store) (a : addrQueue) (nonce : option Z) (order : list Z) :
    store * addrQueue * list loc :=
  match nonce with
  | Some n =>
      if decide (currentNonce a = n) then (σ, a, [])
      else
        let a := set_nonce a n in
        let '(σ, txs) := stale_loop σ n (notReadyTxs a) order [] in
        (σ, set_notReady a (delete_all σ txs (notReadyTxs a)), txs)
  | None => (σ, a, [])
  end.

(** ... the ready transaction that no longer is, ... *)
Definition demote_ready (σ : store) (a : addrQueue) : addrQueue * option loc :=
  match readyTx a with
  | Some r =>
      if bool_decide (Nonce (σ r) ≠ currentNonce a) || (currentBalance a <? Cost (σ r))
      then (set_ready a None, Some r)
      else (a, None)
  | None => (a, None)
  end.

(** ... the not-ready transaction that takes its place, ... *)
Definition promote_notReady (σ : store) (a : addrQueue) : addrQueue :=
  match readyTx a with
  | None =>
      match notReadyTxs a !! currentNonce a with
      | Some nrTx =>
          if Cost (σ nrTx) <=? currentBalance a
          then set_notReady (set_ready a (Some nrTx))
                 (delete (currentNonce a) (notReadyTxs a))
          else a
      | None => a
      end
  | Some _ => a
  end.

(** ... and the return of the old ready transaction to [notReadyTxs]. *)
Definition requeue_old (σ : store) (a : addrQueue) (oldReadyTx : option loc) : addrQueue :=
  match oldReadyTx with
  | Some r =>
      if currentNonce a <? Nonce (σ r)
      then set_notReady a (<[Nonce (σ r) := r]> (notReadyTxs a))
      else a
  | None => a
  end.

Definition updateCurrentNonceBalance (σ : store) (a : addrQueue)
    (nonce balance : option Z) (order : list Z) :
    store * addrQueue * option loc * option loc * list loc :=
  let a := match balance with Some b => set_balance a b | None => a end in
  let '(σ, a, txsToDelete) := advance_nonce σ a nonce order in
  let '(a, oldReadyTx) := demote_ready σ a in
  let a := promote_notReady σ a in
  let a := requeue_old σ a oldReadyTx in
  (σ, a, readyTx a, oldReadyTx, txsToDelete).

Fixpoint counters_loop (σ : store) (txHashStr : string) (counters : ZKCounters)
    (m : gmap Z loc) (order : list Z) : store :=
  match order with
  | [] => σ
  | k :: order' =>
      match m !! k with
      | None => counters_loop σ txHashStr counters m order'
      | Some l =>
          if decide (HashStr (σ l) = txHashStr)
          then upd σ l (updateZKCounters (σ l) counters)
          else counters_loop σ txHashStr counters m order'
      end
  end.

Definition UpdateTxZKCounters `{!EthStrings} (σ : store) (a : addrQueue) (txHash : Z)
    (counters : ZKCounters) (order : list Z) : store :=
  let txHashStr := hash_String txHash in
  match readyTx a with
  | Some r =>
      if decide (HashStr (σ r) = txHashStr)
      then upd σ r (updateZKCounters (σ r) counters)
      else counters_loop σ txHashStr counters (notReadyTxs a) order
  | None => counters_loop σ txHashStr counters (notReadyTxs a) order
  end.

(** ** Invariant *)

(** The ready transaction has the current nonce and is affordable; a not-ready
    one is filed under its nonce, which is not in the past. *)
Definition aq_inv (σ : store) (a : addrQueue) : Prop :=
  (∀ r, readyTx a = Some r →
     Nonce (σ r) = currentNonce a ∧ Cost (σ r) ≤ currentBalance a) ∧
  (∀ n l, notReadyTxs a !! n = Some l → Nonce (σ l) = n ∧ currentNonce a ≤ n).

#[export] Instance aq_inv_proper : Proper (static_eq ==> eq ==> iff) aq_inv.
Proof.
  intros σ σ' Hs a ? <-. unfold aq_inv.
  setoid_rewrite (static_Nonce _ _ Hs). setoid_rewrite (static_Cost _ _ Hs). done.
Qed.

(** The transactions a queue tracks. *)
Definition tracked (a : addrQueue) (l : loc) : Prop :=
  readyTx a = Some l ∨ ∃ n, notReadyTxs a !! n = Some l.

Lemma newAddrQueue_inv `{!EthStrings} σ addr nonce balance :
  aq_inv σ (newAddrQueue addr nonce balance).
Proof. split; simpl; [done|]. intros n l. by rewrite lookup_empty. Qed.

(** Lookup after an insertion or deletion, with the equation decided. *)
Ltac map_cases :=
  repeat match goal with
  | H : context [(<[_ := _]> _) !! _] |- _ => rewrite lookup_insert in H
  | H : context [(delete _ _) !! _] |- _ => rewrite lookup_delete in H
  | |- context [(<[_ := _]> _) !! _] => rewrite lookup_insert
  | |- context [(delete _ _) !! _] => rewrite lookup_delete
  end; repeat case_decide; simplify_eq/=.

Lemma addTx_inv σ a tx a' res :
  aq_inv σ a → addTx σ a tx = (a', res) → aq_inv σ a'.
Proof.
  intros [Hr Hn] Ha. unfold addTx in Ha.
  destruct (decide (currentNonce a = Nonce (σ tx))) as [He|He].
  - destruct (match readyTx a with Some r => _ | None => _ end);
      [|simplify_eq; done].
    destruct (Z.leb_spec (Cost (σ tx)) (currentBalance a)); simplify_eq; split; simpl.
    + intros r [= <-]. lia.
    + done.
    + done.
    + intros n l Hl. map_cases; [lia|]. by apply Hn.
  - destruct (Z.ltb_spec (Nonce (σ tx)) (currentNonce a)); [simplify_eq; done|].
    destruct (notReadyTxs a !! Nonce (σ tx)) as [nr|] eqn:Hnr; [case_match|];
      simplify_eq; try done; (split; [done|]); simpl; intros n l Hl;
      map_cases; try lia; by apply Hn.
Qed.

Lemma expire_loop_lookup σ maxTime clock order :
  ∀ i m txs m' txs' i',
  (∀ n l, m !! n = Some l → Nonce (σ l) = n) →
  expire_loop σ maxTime clock i order m txs = (m', txs', i') →
  m' ⊆ m.
Proof.
  induction order as [|k order IH]; intros i m txs m' txs' i' Hm Hloop; simplify_eq/=; [done|].
  destruct (m !! k) as [l|] eqn:Hk; [|by eauto]. case_match; [|by eauto].
  transitivity (delete (Nonce (σ l)) m); [|apply delete_subseteq].
  eapply IH; [|done]. intros n l' Hl. map_cases. by apply Hm.
Qed.

Lemma delete_loop_subseteq σ h order m : delete_loop σ h order m ⊆ m.
Proof.
  revert m. induction order as [|k order IH]; intros m; simpl; [done|].
  destruct (m !! k) as [l|]; [case_decide|]; try apply IH.
  transitivity (delete (Nonce (σ l)) m); [apply IH | apply delete_subseteq].
Qed.

(** The invariant only constrains the entries there are. *)
Lemma aq_inv_subseteq σ a r m :
  aq_inv σ a → (r = None ∨ r = readyTx a) → m ⊆ notReadyTxs a →
  aq_inv σ (set_notReady (set_ready a r) m).
Proof.
  intros [Hr Hn] Hor Hsub. split; simpl.
  - intros x Hx. apply Hr. by destruct Hor as [-> | ->].
  - intros n l Hl. apply Hn. by eapply lookup_weaken.
Qed.

Lemma set_notReady_ready_id a m : set_notReady (set_ready a (readyTx a)) m = set_notReady a m.
Proof. by destruct a. Qed.

Lemma ExpireTransactions_inv σ a maxTime clock order a' txs prev :
  aq_inv σ a → ExpireTransactions σ a maxTime clock order = (a', txs, prev) → aq_inv σ a'.
Proof.
  intros Hinv He. unfold ExpireTransactions in He.
  destruct (expire_loop _ _ _ _ _ _ _) as [[m txs'] i] eqn:Hloop.
  apply expire_loop_lookup in Hloop; [|intros n l Hl; by apply Hinv].
  assert (aq_inv σ (set_notReady a m)) as Hm.
  { rewrite <-set_notReady_ready_id. apply aq_inv_subseteq; auto. }
  simpl in He. repeat case_match; simplify_eq; try done.
  by apply (aq_inv_subseteq σ (set_notReady a m) None m); [|left|].
Qed.

Lemma deleteTx_inv `{!EthStrings} σ a h order a' prev :
  aq_inv σ a → deleteTx σ a h order = (a', prev) → aq_inv σ a'.
Proof.
  intros Hinv Hd. unfold deleteTx in Hd.
  assert (aq_inv σ (set_notReady a (delete_loop σ (hash_String h) order (notReadyTxs a)))).
  { rewrite <-set_notReady_ready_id.
    apply aq_inv_subseteq; auto using delete_loop_subseteq. }
  repeat case_match; simplify_eq; try done.
  by apply (aq_inv_subseteq σ a None (notReadyTxs a)); [|left|].
Qed.

(** *** The update of nonce and balance *)

Definition stale_list (σ : store) (n : Z) (m : gmap Z loc) (order : list Z) : list loc :=
  omap (λ k, l ← m !! k; if Nonce (σ l) <? n then Some l else None) order.

Lemma stale_list_cons σ n m k order :
  stale_list σ n m (k :: order) =
    match m !! k with
    | Some l => if Nonce (σ l) <? n then l :: stale_list σ n m order
                else stale_list σ n m order
    | None => stale_list σ n m order
    end.
Proof. unfold stale_list. simpl. destruct (m !! k) as [l|]; [|done]. simpl. by destruct (Nonce (σ l) <? n). Qed.

Lemma stale_list_static σ σ' n m order :
  static_eq σ σ' → stale_list σ n m order = stale_list σ' n m order.
Proof.
  intros Hs. induction order as [|k order IH]; [done|].
  rewrite !stale_list_cons, IH. destruct (m !! k) as [l|]; [|done].
  by rewrite (static_Nonce _ _ Hs).
Qed.

Lemma stale_loop_spec n m order : ∀ σ txs σ' txs',
  stale_loop σ n m order txs = (σ', txs') →
  static_eq σ' σ ∧ txs' = txs ++ stale_list σ n m order ∧
  (∀ l, l ∈ stale_list σ n m order ∨ FailedReason (σ l) = Some reason_invalid_nonce →
        FailedReason (σ' l) = Some reason_invalid_nonce).
Proof.
  induction order as [|k order IH]; intros σ txs σ' txs' H.
  { simplify_eq/=. rewrite app_nil_r. split_and!; [done|done|].
    intros l [Hl|]; [|done]. by apply not_elem_of_nil in Hl. }
  rewrite stale_list_cons. cbn [stale_loop] in H.
  destruct (m !! k) as [l|] eqn:Hk; [|by apply IH].
  destruct (Nonce (σ l) <? n) eqn:Hlt; [|by apply IH].
  apply IH in H as (Hs & -> & Hf).
  rewrite (stale_list_static _ σ) in * by auto with node.
  split_and!.
  - etrans; [done|]. auto with node.
  - by rewrite <-app_assoc.
  - intros l' Hl'. apply Hf. destruct (decide (l' = l)) as [->|Hne].
    + right. by rewrite upd_same.
    + rewrite upd_other by done. destruct Hl' as [Hl'|]; [|by right].
      apply elem_of_cons in Hl' as [|]; [done|by left].
Qed.

Lemma delete_all_lookup σ txs m k :
  delete_all σ txs m !! k = if decide (k ∈ (λ l, Nonce (σ l)) <$> txs) then None else m !! k.
Proof.
  unfold delete_all. revert m. induction txs as [|l txs IH]; intros m.
  { by destruct (decide _) as [Hk%not_elem_of_nil|]. }
  rewrite fmap_cons. cbn [foldl]. rewrite IH. map_cases; set_solver.
Qed.

Lemma stale_list_elem σ n m order l :
  map_order m order → (∀ k l, m !! k = Some l → Nonce (σ l) = k) →
  l ∈ stale_list σ n m order ↔ ∃ k, m !! k = Some l ∧ k < n.
Proof.
  intros [_ Ho] Hm. unfold stale_list. rewrite list_elem_of_omap. split.
  - intros (k & Hk & Hl). destruct (m !! k) as [l'|] eqn:Hmk; simplify_eq/=.
    case_match; simplify_eq. exists k. split; [done|].
    apply Hm in Hmk. lia.
  - intros (k & Hk & Hlt). exists k. split; [apply Ho; eauto|].
    rewrite Hk; simpl. rewrite (Hm _ _ Hk). by rewrite (proj2 (Z.ltb_lt _ _)).
Qed.

(** What remains of [notReadyTxs] under a nonce [n]. *)
Definition live (n : Z) (m : gmap Z loc) : gmap Z loc := filter (λ kl, n ≤ kl.1) m.

Lemma live_lookup n m k : live n m !! k = if decide (n ≤ k) then m !! k else None.
Proof.
  unfold live. apply option_eq. intros l. rewrite map_lookup_filter_Some. simpl.
  case_decide; naive_solver.
Qed.

Lemma live_id n m : (∀ k l, m !! k = Some l → n ≤ k) → live n m = m.
Proof.
  intros H. apply map_eq. intros k. rewrite live_lookup. case_decide as Hn; [done|].
  destruct (m !! k) eqn:Hk; [|done]. by apply H in Hk.
Qed.

Lemma advance_nonce_spec σ a nonce order σ' a' txs :
  (∀ n l, notReadyTxs a !! n = Some l → Nonce (σ l) = n ∧ currentNonce a ≤ n) →
  map_order (notReadyTxs a) order →
  advance_nonce σ a nonce order = (σ', a', txs) →
  static_eq σ' σ ∧
  a' = set_notReady (set_nonce a (default (currentNonce a) nonce))
         (live (default (currentNonce a) nonce) (notReadyTxs a)) ∧
  (∀ l, l ∈ txs ↔ ∃ k, notReadyTxs a !! k = Some l ∧ k < default (currentNonce a) nonce) ∧
  (∀ l, l ∈ txs → FailedReason (σ' l) = Some reason_invalid_nonce).
Proof.
  intros Hm Ho H.
  assert (∀ n, n = currentNonce a → (σ, a, []) = (σ', a', txs) →
    static_eq σ' σ ∧ a' = set_notReady (set_nonce a n) (live n (notReadyTxs a)) ∧
    (∀ l, l ∈ txs ↔ ∃ k, notReadyTxs a !! k = Some l ∧ k < n) ∧
    (∀ l, l ∈ txs → FailedReason (σ' l) = Some reason_invalid_nonce)) as Hsame.
  { intros n -> ?. simplify_eq. rewrite live_id by (intros k l Hk; by destruct (Hm k l Hk)).
    split_and!; [done|by destruct a'| |by intros l ?%not_elem_of_nil].
    intros l. split; [by intros ?%not_elem_of_nil|].
    intros (k & Hk & ?). apply Hm in Hk. lia. }
  unfold advance_nonce in H. destruct nonce as [n|]; simpl; [|by apply Hsame].
  destruct (decide (currentNonce a = n)); [by apply Hsame|]. simpl in H.
  destruct (stale_loop _ _ _ _ _) as [σ1 txs1] eqn:Hloop. simplify_eq.
  apply stale_loop_spec in Hloop as (Hs & -> & Hf). simpl in *.
  assert (∀ l, l ∈ stale_list σ n (notReadyTxs a) order ↔
               ∃ k, notReadyTxs a !! k = Some l ∧ k < n) as Hel.
  { intros l. apply stale_list_elem; [done|]. intros k l' Hl'. by apply Hm in Hl' as [? _]. }
  split_and!; [done| |done|by auto].
  f_equal. apply map_eq. intros k. rewrite delete_all_lookup, live_lookup.
  destruct (notReadyTxs a !! k) as [l|] eqn:Hk; last by destruct (decide _), (decide _).
  destruct (Hm _ _ Hk) as [Hn _].
  case_decide as H1; case_decide as H2; try done; exfalso.
  - apply list_elem_of_fmap in H1 as (l' & -> & (k' & Hk' & ?)%Hel).
    rewrite (static_Nonce _ _ Hs) in *. apply Hm in Hk'. lia.
  - apply H1. apply list_elem_of_fmap. exists l. rewrite (static_Nonce _ _ Hs).
    split; [done|]. apply Hel. exists k. split; [done|lia].
Qed.

(** The invariant without its first half: what holds between the change of the
    nonce and the check of the ready transaction. *)
Definition notReady_inv (σ : store) (a : addrQueue) : Prop :=
  ∀ n l, notReadyTxs a !! n = Some l → Nonce (σ l) = n ∧ currentNonce a ≤ n.

Lemma demote_ready_inv σ a a' old :
  notReady_inv σ a → demote_ready σ a = (a', old) → aq_inv σ a'.
Proof.
  intros Hn H. unfold demote_ready in H.
  destruct (readyTx a) as [r|] eqn:Hr; [case_match eqn:Hc|]; simplify_eq; split; simpl;
    try done; try (intros ?; congruence).
  intros r' ?. simplify_eq. apply orb_false_iff in Hc as [Hc ?].
  apply bool_decide_eq_false in Hc. destruct (decide (Nonce (σ r) = currentNonce a')); lia.
Qed.

Lemma promote_notReady_inv σ a : aq_inv σ a → aq_inv σ (promote_notReady σ a).
Proof.
  intros Hi. pose proof Hi as [Hr Hn]. unfold promote_notReady.
  destruct (readyTx a) eqn:Ha; [done|].
  destruct (notReadyTxs a !! currentNonce a) as [l|] eqn:Hl; [|done].
  destruct (Z.leb_spec (Cost (σ l)) (currentBalance a)); [|done].
  split; simpl.
  - intros r [= <-]. apply Hn in Hl. lia.
  - intros n l' Hl'. map_cases. by apply Hn.
Qed.

Lemma requeue_old_inv σ a old : aq_inv σ a → aq_inv σ (requeue_old σ a old).
Proof.
  intros Hi. pose proof Hi as [Hr Hn]. unfold requeue_old. destruct old as [r|]; [|done].
  destruct (Z.ltb_spec (currentNonce a) (Nonce (σ r))); [|done].
  split; simpl; [done|]. intros n l Hl. map_cases; [lia|]. by apply Hn.
Qed.

Definition set_balance_opt (a : addrQueue) (balance : option Z) : addrQueue :=
  match balance with Some b => set_balance a b | None => a end.

(** The result of the update in terms of its phases. *)
Lemma update_phases σ a nonce balance order σ' a' nr pr del :
  notReady_inv σ a → map_order (notReadyTxs a) order →
  updateCurrentNonceBalance σ a nonce balance order = (σ', a', nr, pr, del) →
  let n1 := default (currentNonce a) nonce in
  ∃ a1 a2,
    static_eq σ' σ ∧
    readyTx a1 = readyTx a ∧ currentNonce a1 = n1 ∧
    currentBalance a1 = default (currentBalance a) balance ∧
    notReadyTxs a1 = live n1 (notReadyTxs a) ∧
    demote_ready σ' a1 = (a2, pr) ∧
    a' = requeue_old σ' (promote_notReady σ' a2) pr ∧ nr = readyTx a' ∧
    (∀ l, l ∈ del ↔ ∃ n, notReadyTxs a !! n = Some l ∧ n < n1) ∧
    (∀ l, l ∈ del → FailedReason (σ' l) = Some reason_invalid_nonce).
Proof.
  intros Hn Ho H. unfold updateCurrentNonceBalance in H.
  fold (set_balance_opt a balance) in H.
  destruct (advance_nonce _ _ _ _) as [[σ1 a1] txs] eqn:Hadv.
  apply advance_nonce_spec in Hadv as (Hs & Ha1 & Hdel & Hfail);
    [|by destruct balance|by destruct balance].
  destruct (demote_ready σ1 a1) as [a2 old] eqn:Hd.
  injection H as <- <- <- <- <-. exists a1, a2.
  by destruct balance; subst a1; split_and!.
Qed.

Lemma live_notReady_inv σ σ' a a1 n1 :
  notReady_inv σ a → static_eq σ' σ → currentNonce a1 = n1 →
  notReadyTxs a1 = live n1 (notReadyTxs a) → notReady_inv σ' a1.
Proof.
  intros Hn Hs Hc Hm n l. rewrite Hm, live_lookup, (static_Nonce _ _ Hs), Hc.
  case_decide; [|done]. intros Hl. by apply Hn in Hl as [? _].
Qed.

Lemma updateCurrentNonceBalance_inv σ a nonce balance order σ' a' nr pr del :
  aq_inv σ a → map_order (notReadyTxs a) order →
  updateCurrentNonceBalance σ a nonce balance order = (σ', a', nr, pr, del) →
  aq_inv σ' a' ∧ static_eq σ' σ.
Proof.
  intros [_ Hn] Ho H.
  apply update_phases in H as (a1 & a2 & Hs & _ & Hc & _ & Hm & Hd & -> & _); try done.
  split; [|done]. apply requeue_old_inv, promote_notReady_inv.
  eapply demote_ready_inv; [|done]. by eapply live_notReady_inv.
Qed.

Lemma counters_loop_static h z m order σ : static_eq (counters_loop σ h z m order) σ.
Proof.
  induction order as [|k order IH]; simpl; [done|].
  destruct (m !! k); [case_decide|]; auto with node.
Qed.

Lemma UpdateTxZKCounters_static `{!EthStrings} σ a h z order :
  static_eq (UpdateTxZKCounters σ a h z order) σ.
Proof.
  unfold UpdateTxZKCounters.
  destruct (readyTx a); [case_decide|]; auto using counters_loop_static with node.
Qed.

#[export] Hint Resolve counters_loop_static UpdateTxZKCounters_static : node.

(** ** Specification: a map from nonces to transactions *)

(** The transaction a queue holds for each nonce. *)
Definition slots (a : addrQueue) : gmap Z loc :=
  match readyTx a with
  | Some r => <[currentNonce a := r]> (notReadyTxs a)
  | None => notReadyTxs a
  end.

(** Insertion unless the nonce is past or a better-paying transaction has it. *)
Definition spec_add (σ : store) (nonce : Z) (m : gmap Z loc) (tx : loc) :
    gmap Z loc * option loc * option DropReason :=
  if Nonce (σ tx) <? nonce then (m, None, Some ErrIntrinsicInvalidNonce)
  else
    match m !! Nonce (σ tx) with
    | Some old =>
        if GasPrice (σ tx) <? GasPrice (σ old) then (m, None, Some ErrDuplicatedNonce)
        else (<[Nonce (σ tx) := tx]> m,
              if decide (HashStr (σ old) = HashStr (σ tx)) then None else Some old, None)
    | None => (<[Nonce (σ tx) := tx]> m, None, None)
    end.

(** The transactions [addTx] compares a new one with: it does not look at the
    one that waits for balance at the current nonce. *)
Definition rivals (σ : store) (a : addrQueue) (tx : loc) : gmap Z loc :=
  if decide (readyTx a = None ∧ Nonce (σ tx) = currentNonce a)
  then delete (currentNonce a) (slots a) else slots a.

Lemma leb_negb_ltb x y : (x <=? y) = negb (y <? x).
Proof. apply Z.leb_antisym. Qed.

Lemma addTx_slots σ a tx a' res :
  (readyTx a = None → Nonce (σ tx) ≠ currentNonce a) → addTx σ a tx = (a', res) →
  (slots a', replacedTx res, dropReason res) = spec_add σ (currentNonce a) (slots a) tx.
Proof.
  intros Hw Ha. unfold addTx in Ha. unfold spec_add, slots.
  destruct (decide (currentNonce a = Nonce (σ tx))) as [He|He].
  - rewrite (proj2 (Z.ltb_ge _ _)) by lia. rewrite <-He in *.
    destruct (readyTx a) as [r|] eqn:Hr; [|by destruct Hw].
    rewrite lookup_insert_eq. rewrite leb_negb_ltb in Ha.
    destruct (GasPrice (σ tx) <? GasPrice (σ r)); simpl in Ha; simplify_eq.
    { by rewrite Hr. }
    destruct (Cost (σ tx) <=? currentBalance a); simplify_eq/=; by rewrite insert_insert_eq.
  - destruct (Z.ltb_spec (Nonce (σ tx)) (currentNonce a)); [by simplify_eq|].
    replace (match readyTx a with Some r => <[currentNonce a := r]> (notReadyTxs a)
             | None => notReadyTxs a end !! Nonce (σ tx))
      with (notReadyTxs a !! Nonce (σ tx))
      by (destruct (readyTx a); [by rewrite lookup_insert_ne|done]).
    destruct (notReadyTxs a !! Nonce (σ tx)) as [nr|]; simplify_eq/=.
    + rewrite leb_negb_ltb in Ha.
      destruct (GasPrice (σ tx) <? GasPrice (σ nr)); simplify_eq/=; [done|].
      destruct (readyTx a); [by rewrite insert_insert_ne by congruence|done].
    + destruct (readyTx a); [by rewrite insert_insert_ne by congruence|done].
Qed.

(** Without a ready transaction one at the current nonce is compared with none. *)
Lemma addTx_uncontested σ a tx a' res :
  readyTx a = None → Nonce (σ tx) = currentNonce a → addTx σ a tx = (a', res) →
  (slots a', replacedTx res, dropReason res) =
    spec_add σ (currentNonce a) (rivals σ a tx) tx.
Proof.
  intros Hr He Ha. unfold rivals, spec_add. rewrite decide_True by done.
  rewrite He, Z.ltb_irrefl, lookup_delete_eq, insert_delete_eq. unfold addTx in Ha.
  rewrite decide_True, Hr in Ha by done. unfold slots.
  destruct (Cost (σ tx) <=? currentBalance a); simplify_eq/=; by rewrite ?Hr, ?He.
Qed.


(** A sample of string renderings and trackers for the witnesses. *)
Module Samples.
Definition dec_strings : EthStrings :=
  {| hash_String := pretty; addr_String := pretty |}.
(** Trackers 0 and 1 have nonce 5, tracker 2 nonce 6; 1 pays more than 0. *)
Definition σ0 : store := λ l,
  match l with
  | O => sample_tx 100 "100" 7 "7" 5 10 50 0 (res_const 1 1 1)
  | S O => sample_tx 101 "101" 7 "7" 5 20 60 10 (res_const 1 1 1)
  | _ => sample_tx (Z.of_nat l) (pretty (Z.of_nat l)) 7 "7" 6 10 50 20 (res_const 1 1 1)
  end.
Definition q0 : addrQueue := mkAddrQueue 7 "7" 5 100 (Some 0%nat) {[6 := 2%nat]} ∅ ∅.

Lemma q0_inv : aq_inv σ0 q0.
Proof.
  split; [by intros r [= <-]|]. intros n l Hl. simpl in Hl.
  rewrite lookup_singleton in Hl. case_decide; by simplify_eq.
Qed.

Lemma q0_order : map_order (notReadyTxs q0) [6].
Proof.
  split; [apply NoDup_singleton|]. intros k. simpl.
  rewrite list_elem_of_singleton, lookup_singleton.
  case_decide; subst; split; intros; simplify_eq; done.
Qed.
End Samples.


(** The exception of the previous property: when a transaction waits for balance at the current nonce and a new one with the same nonce
    is not affordable either, [addTx] overwrites the waiting one whatever its
    gas price and reports neither a replaced transaction nor a drop, so that
    the waiting transaction is lost (its comment says that a transaction with a
    better gas price is kept and that a replaced one is returned). *)
Theorem addTx_silently_overwrites σ a tx old :
  aq_inv σ a → readyTx a = None → currentNonce a = Nonce (σ tx) →
  notReadyTxs a !! currentNonce a = Some old → old ≠ tx →
  currentBalance a < Cost (σ tx) →
  ∃ a', addTx σ a tx = (a', mkAddTxRes None None None None) ∧
    tracked a old ∧ ¬ tracked a' old.
Proof.
  intros [_ Hn] Hr He Hold Hne Hc. unfold addTx. rewrite decide_True by done.
  rewrite Hr, (proj2 (Z.leb_gt _ _)) by done.
  eexists. split; [done|]. split; [right; eauto|].
  intros [Hr'|[n Hn']]; simpl in *; [done|]. rewrite <-He in Hn'.
  map_cases. destruct (Hn _ _ Hold) as [? _]. destruct (Hn _ _ Hn'). congruence.
Qed.

Lemma addTx_silently_overwrites_witness :
  ∃ a', addTx Samples.σ0 (mkAddrQueue 7 "7" 5 20 None {[5 := 1%nat]} ∅ ∅) 0 =
          (a', mkAddTxRes None None None None) ∧
    GasPrice (Samples.σ0 0%nat) < GasPrice (Samples.σ0 1%nat) ∧ ¬ tracked a' 1%nat.
Proof.
  destruct (addTx_silently_overwrites Samples.σ0
    (mkAddrQueue 7 "7" 5 20 None {[5 := 1%nat]} ∅ ∅) 0 1) as (a' & H1 & _ & H2);
    try done.
  - split; [done|]. intros n l. simpl. rewrite lookup_singleton.
    case_decide; intros; by simplify_eq.
  - exists a'. split_and!; done.
Defined.

(** *** Conservation *)

Lemma tracked_demote σ a a' old l :
  demote_ready σ a = (a', old) →
  (tracked a l ↔ tracked a' l ∨ old = Some l) ∧
  notReadyTxs a' = notReadyTxs a ∧ currentNonce a' = currentNonce a ∧
  currentBalance a' = currentBalance a ∧
  (∀ r, old = Some r → readyTx a = Some r ∧ readyTx a' = None).
Proof.
  unfold demote_ready, tracked. intros H.
  destruct (readyTx a) as [r|] eqn:Hr; [case_match|]; simplify_eq/=;
    rewrite ?Hr; split_and!; try done; naive_solver.
Qed.

Lemma tracked_promote σ a l :
  tracked (promote_notReady σ a) l ↔ tracked a l.
Proof.
  unfold promote_notReady, tracked.
  destruct (readyTx a) as [r|] eqn:Hr; [by rewrite Hr|].
  destruct (notReadyTxs a !! currentNonce a) as [x|] eqn:Hx; [|by rewrite Hr].
  case_match; [|by rewrite Hr]. simpl. split.
  - intros [[= <-]|[n Hn]]; [eauto|]. map_cases. eauto.
  - intros [|[n Hn]]; [done|]. destruct (decide (n = currentNonce a)) as [->|].
    + left. congruence.
    + right. exists n. by rewrite lookup_delete_ne.
Qed.

Lemma promote_fields σ a :
  currentNonce (promote_notReady σ a) = currentNonce a ∧
  currentBalance (promote_notReady σ a) = currentBalance a ∧
  (∀ n, n ≠ currentNonce a →
     notReadyTxs (promote_notReady σ a) !! n = notReadyTxs a !! n).
Proof.
  unfold promote_notReady. repeat case_match; split_and!; try done.
  intros k Hk. simpl. by rewrite lookup_delete_ne.
Qed.

(** A transaction waits under its own nonce only. *)
Lemma waiting_key σ a l :
  notReady_inv σ a → (∃ n, notReadyTxs a !! n = Some l) ↔ notReadyTxs a !! Nonce (σ l) = Some l.
Proof.
  intros Hn. split; [|by eauto]. intros [n Hl]. by destruct (Hn n l Hl) as [-> _].
Qed.

Lemma tracked_requeue σ a old l :
  aq_inv σ a →
  tracked (requeue_old σ a old) l ↔
    (old = Some l ∧ currentNonce a < Nonce (σ l)) ∨
    (tracked a l ∧ ¬ ∃ r, old = Some r ∧ currentNonce a < Nonce (σ r) ∧
                       notReadyTxs a !! Nonce (σ r) = Some l).
Proof.
  intros [Hr Hn]. unfold requeue_old. destruct old as [r|]; [|naive_solver].
  destruct (Z.ltb_spec (currentNonce a) (Nonce (σ r))); [|naive_solver lia].
  unfold tracked. simpl. split.
  - intros [Hl|[n Hl]].
    + right. split; [by left|]. intros (r' & [= <-] & ? & Hl').
      destruct (Hr _ Hl) as [? _], (Hn _ _ Hl') as [? _]. lia.
    + map_cases; [by left|]. right. split; [eauto|]. intros (r' & [= <-] & ? & Hl').
      destruct (Hn _ _ Hl) as [? _], (Hn _ _ Hl') as [? _]. congruence.
  - intros [[[= ->] ?]|[[?|[n Hl]] Hno]]; [right|by left|right].
    + exists (Nonce (σ l)). by map_cases.
    + exists n. map_cases; [|done]. destruct Hno. eauto.
Qed.

(** What the queue tracks between the demotion and the promotion. *)
Lemma tracked_demoted σ σ' a a1 a2 n1 pr (del : list loc) l :
  aq_inv σ a → static_eq σ' σ → readyTx a1 = readyTx a → currentNonce a1 = n1 →
  notReadyTxs a1 = live n1 (notReadyTxs a) → demote_ready σ' a1 = (a2, pr) →
  (∀ l, l ∈ del ↔ ∃ n, notReadyTxs a !! n = Some l ∧ n < n1) →
  (tracked a2 l ↔ (pr = None ∧ readyTx a = Some l) ∨
     (notReadyTxs a !! Nonce (σ l) = Some l ∧ l ∉ del)) ∧
  (pr = None → readyTx a = Some l → l ∉ del).
Proof.
  intros [Hr Hn] Hs Hr1 Hc1 Hm1 Hd Hdel.
  assert ((∃ n, notReadyTxs a1 !! n = Some l) ↔
          notReadyTxs a !! Nonce (σ l) = Some l ∧ l ∉ del) as Hw.
  { rewrite Hm1, Hdel. setoid_rewrite live_lookup. split.
    - intros [n Hl]. case_decide; [|done]. destruct (Hn _ _ Hl) as [-> _]. split; [done|].
      intros (k & Hk & ?). destruct (Hn _ _ Hk), (Hn _ _ Hl). lia.
    - intros [Hl Hno]. exists (Nonce (σ l)). rewrite decide_True; [done|].
      apply Z.le_ngt. intros ?. apply Hno. eauto. }
  split.
  - rewrite <-Hw. pose proof (tracked_demote _ _ _ _ l Hd) as (Ht & Hm2 & _ & _ & Hold).
    destruct pr as [r|].
    + destruct (Hold r eq_refl) as [_ Hn2]. unfold tracked. rewrite Hn2, Hm2. naive_solver.
    + rewrite <-Hr1. transitivity (tracked a1 l); [naive_solver|]. unfold tracked. naive_solver.
  - intros -> Hl (n & Hk & Hlt)%Hdel. destruct (Hn _ _ Hk) as [<- _]. unfold demote_ready in Hd.
    rewrite Hr1, Hl, (static_Nonce _ _ Hs), Hc1, bool_decide_eq_true_2 in Hd by lia. done.
Qed.

Lemma update_nonce σ a nonce balance order σ' a' nr pr del :
  notReady_inv σ a → map_order (notReadyTxs a) order →
  updateCurrentNonceBalance σ a nonce balance order = (σ', a', nr, pr, del) →
  currentNonce a' = default (currentNonce a) nonce.
Proof.
  intros Hn Ho H.
  apply update_phases in H as (a1 & a2 & _ & _ & Hc1 & _ & _ & Hd & -> & _); try done.
  pose proof (tracked_demote _ _ _ _ 0%nat Hd) as (_ & _ & Hc2 & _).
  destruct (promote_fields σ' a2) as (Hc3 & _).
  unfold requeue_old. repeat case_match; simpl; congruence.
Qed.

(** What is tracked after the update, phase by phase. *)
Lemma update_tracked σ a nonce balance order σ' a' nr pr del l :
  aq_inv σ a → map_order (notReadyTxs a) order →
  updateCurrentNonceBalance σ a nonce balance order = (σ', a', nr, pr, del) →
  (tracked a' l ↔
     (pr = Some l ∧ currentNonce a' < Nonce (σ l)) ∨
     (((pr = None ∧ readyTx a = Some l) ∨ (notReadyTxs a !! Nonce (σ l) = Some l ∧ l ∉ del)) ∧
      ¬ ∃ r, pr = Some r ∧ currentNonce a' < Nonce (σ r) ∧
          notReadyTxs a !! Nonce (σ r) = Some l)) ∧
  (pr = None → readyTx a = Some l → l ∉ del) ∧
  (∀ r, pr = Some r → readyTx a = Some r).
Proof.
  intros Hinv Ho H. pose proof Hinv as [Hr Hn].
  apply update_phases in H
    as (a1 & a2 & Hs & Hr1 & Hc1 & _ & Hm1 & Hd & -> & Hnr & Hdel & Hfail); try done.
  set (n1 := default (currentNonce a) nonce) in *.
  pose proof (tracked_demote _ _ _ _ 0%nat Hd) as (_ & Hm2 & Hc2 & _ & Hold).
  destruct (promote_fields σ' a2) as (Hc3 & _ & Hm3).
  assert (aq_inv σ' (promote_notReady σ' a2)) as Hi3.
  { apply promote_notReady_inv. eapply demote_ready_inv; [|done]. by eapply live_notReady_inv. }
  destruct (tracked_demoted σ σ' a a1 a2 n1 pr del l Hinv Hs Hr1 Hc1 Hm1 Hd Hdel) as [Ht2 Hnd].
  rewrite (tracked_requeue σ' _ pr l Hi3), tracked_promote, Ht2.
  assert (currentNonce (requeue_old σ' (promote_notReady σ' a2) pr) = n1) as ->
    by (unfold requeue_old; repeat case_match; simpl; congruence).
  rewrite Hc3, Hc2, Hc1. setoid_rewrite (static_Nonce _ _ Hs).
  assert (∀ r, n1 < Nonce (σ r) →
    notReadyTxs (promote_notReady σ' a2) !! Nonce (σ r) = notReadyTxs a !! Nonce (σ r)) as Hbeyond.
  { intros r Hlt. rewrite Hm3, Hm2, Hm1, live_lookup by congruence || lia.
    by rewrite decide_True by lia. }
  split_and!; [|done|intros r Hp; rewrite <-Hr1; by destruct (Hold r Hp)].
  apply or_iff_compat_l, and_iff_compat_l, not_iff_compat.
  split; intros (r & ? & Hlt & ?); exists r; [rewrite <-Hbeyond|rewrite Hbeyond]; done.
Qed.



(** C38. Promotion is complete: after [updateCurrentNonceBalance] a queue has
    no ready transaction only if the transaction at its current nonce, if it
    holds one, costs more than the balance; and the ready transaction it
    returns has the new nonce and is affordable under the new balance. *)
Theorem update_promotes σ a nonce balance order σ' a' nr pr del :
  aq_inv σ a → map_order (notReadyTxs a) order →
  updateCurrentNonceBalance σ a nonce balance order = (σ', a', nr, pr, del) →
  currentNonce a' = default (currentNonce a) nonce ∧
  currentBalance a' = default (currentBalance a) balance ∧
  (∀ r, nr = Some r → readyTx a' = Some r ∧ Nonce (σ r) = currentNonce a' ∧
     Cost (σ r) ≤ currentBalance a') ∧
  (nr = None → ∀ l, notReadyTxs a' !! currentNonce a' = Some l →
     currentBalance a' < Cost (σ l)).
Proof.
  intros Hinv Ho H.
  destruct (updateCurrentNonceBalance_inv _ _ _ _ _ _ _ _ _ _ Hinv Ho H) as [[Hr' _] Hs].
  pose proof Hinv as [_ Hn].
  apply update_phases in H as (a1 & a2 & _ & _ & Hc1 & Hb1 & _ & Hd & Ha' & -> & _); try done.
  pose proof (tracked_demote _ _ _ _ 0%nat Hd) as (_ & _ & Hc2 & Hb2 & _).
  destruct (promote_fields σ' a2) as (Hc3 & Hb3 & _).
  set (a3 := promote_notReady σ' a2) in *.
  assert (currentNonce a' = currentNonce a3 ∧ currentBalance a' = currentBalance a3 ∧
          readyTx a' = readyTx a3 ∧
          notReadyTxs a' !! currentNonce a3 = notReadyTxs a3 !! currentNonce a3)
    as (Hc4 & Hb4 & Hr4 & Hm4).
  { subst a'. unfold requeue_old. destruct pr as [r|]; [|done].
    destruct (Z.ltb_spec (currentNonce a3) (Nonce (σ' r))); [|done].
    split_and!; try done. simpl. by rewrite lookup_insert_ne by lia. }
  split_and!; [congruence|congruence| |].
  - intros r Hr. destruct (Hr' r Hr). rewrite <-(static_Nonce _ _ Hs), <-(static_Cost _ _ Hs).
    done.
  - rewrite Hr4, Hc4, Hm4, Hb4, Hb3. intros Hr l Hl. rewrite <-(static_Cost _ _ Hs).
    unfold a3, promote_notReady in Hr, Hl. revert Hr Hl.
    destruct (readyTx a2) eqn:E; [by rewrite E|].
    destruct (notReadyTxs a2 !! currentNonce a2) as [x|] eqn:Hx; [|congruence].
    destruct (Z.leb_spec (Cost (σ' x)) (currentBalance a2)); simpl; [done|].
    intros _ ?. assert (x = l) as -> by congruence. done.
Qed.

Lemma update_promotes_witness :
  let '(σ', a', nr, pr, del) :=
    updateCurrentNonceBalance Samples.σ0 Samples.q0 (Some 6) (Some 55) [6] in
  nr = Some 2%nat ∧ ∀ r, nr = Some r → readyTx a' = Some r ∧
    Nonce (Samples.σ0 r) = currentNonce a' ∧ Cost (Samples.σ0 r) ≤ currentBalance a'.
Proof.
  destruct (updateCurrentNonceBalance _ _ _ _ _) as [[[[σ' a'] nr] pr] del] eqn:H.
  pose proof (update_promotes Samples.σ0 Samples.q0 (Some 6) (Some 55) [6]
                σ' a' nr pr del) as Hspec.
  split_and!; [vm_compute in H; by simplify_eq|].
  apply Hspec; [| |exact H].
  - apply Samples.q0_inv.
  - apply Samples.q0_order.
Defined.

(** A ready transaction that the new balance no longer covers, with the
    nonce unchanged, leaves the queue altogether: it is neither kept in
    [notReadyTxs] (as the comments of the function say) nor among the
    transactions to delete, so that the pool still has it as pending and
    nothing will process it. *)
Theorem update_loses_unaffordable_ready σ a r b order :
  aq_inv σ a → map_order (notReadyTxs a) order →
  readyTx a = Some r → notReadyTxs a !! currentNonce a = None → b < Cost (σ r) →
  ∃ σ' a', updateCurrentNonceBalance σ a None (Some b) order = (σ', a', None, Some r, []) ∧
    tracked a r ∧ ¬ tracked a' r.
Proof.
  intros Hinv Ho Hr Hfree Hb. pose proof Hinv as [Hrdy Hn].
  destruct (Hrdy _ Hr) as [Hnr _].
  destruct (updateCurrentNonceBalance σ a None (Some b) order)
    as [[[[σ' a'] nr] pr] del] eqn:H.
  exists σ', a'. unfold updateCurrentNonceBalance in H. simpl in H.
  unfold demote_ready, promote_notReady, requeue_old in H. simpl in H. rewrite Hr in H.
  rewrite bool_decide_eq_false_2, (proj2 (Z.ltb_lt _ _)) in H by (done || by intros []).
  simpl in H. rewrite Hfree in H. simpl in H.
  rewrite (proj2 (Z.ltb_ge _ _)) in H by lia. simplify_eq.
  split_and!; [done|by left|]. intros [?|[n Hl]]; [done|]. simpl in Hl.
  destruct (Hn _ _ Hl) as [? _]. congruence.
Qed.

Lemma update_loses_unaffordable_ready_witness :
  ∃ σ' a', updateCurrentNonceBalance Samples.σ0 Samples.q0 None (Some 40) [6] =
             (σ', a', None, Some 0%nat, []) ∧
    tracked Samples.q0 0%nat ∧ ¬ tracked a' 0%nat.
Proof.
  apply (update_loses_unaffordable_ready Samples.σ0 Samples.q0 0%nat 40 [6]); try done.
  - apply Samples.q0_inv.
  - apply Samples.q0_order.
Defined.

(** *** Expiry *)

Lemma expire_loop_spec σ maxTime clock order :
  ∀ i m txs m' txs' i',
  NoDup order → (∀ n l, m !! n = Some l → Nonce (σ l) = n) →
  expire_loop σ maxTime clock i order m txs = (m', txs', i') →
  m' ⊆ m ∧ txs ⊆ txs' ∧
  (∀ l, l ∈ txs' → l ∈ txs ∨
     ∃ k j, k ∈ order ∧ m !! k = Some l ∧ m' !! k = None ∧ ReceivedAt (σ l) + maxTime < clock j) ∧
  (∀ k l, m !! k = Some l → k ∉ order → m' !! k = Some l) ∧
  (∀ k l, m !! k = Some l → k ∈ order → ∃ j,
     (ReceivedAt (σ l) + maxTime < clock j ∧ m' !! k = None ∧ l ∈ txs') ∨
     (clock j ≤ ReceivedAt (σ l) + maxTime ∧ m' !! k = Some l)).
Proof.
  induction order as [|k order IH]; intros i m txs m' txs' i' Hnd Hm Hloop; simplify_eq/=.
  { split_and!; [done|done|by left|done|set_solver]. }
  apply NoDup_cons in Hnd as [Hk Hnd].
  destruct (m !! k) as [l0|] eqn:Hmk; [|].
  2: { apply IH in Hloop as (?&?&?&?&?); try done. split_and!; try done; set_solver. }
  pose proof (Hm _ _ Hmk) as Hnk.
  destruct (Z.ltb_spec (ReceivedAt (σ l0) + maxTime) (clock i)).
  - apply IH in Hloop as (Hsub & Htx & Hin & Hout & Hord); [|done|];
      last by (intros n l Hl; map_cases; apply Hm).
    rewrite Hnk in *.
    assert (m' !! k = None) as Hnone.
    { eapply lookup_weaken_None; [|done]. by rewrite lookup_delete_eq. }
    split_and!.
    + etrans; [done|]. apply delete_subseteq.
    + set_solver.
    + intros l Hl. destruct (Hin l Hl) as [Hl'|(k' & j & ? & Hd & ? & ?)].
      * apply elem_of_app in Hl' as [?| ->%list_elem_of_singleton]; [by left|].
        right. exists k, i. set_solver.
      * right. exists k', j. map_cases. set_solver.
    + intros k' l Hl Hk'. apply Hout; [|set_solver]. rewrite lookup_delete_ne; set_solver.
    + intros k' l Hl [->|Hk']%elem_of_cons.
      * exists i. left. simplify_eq. split_and!; [done|done|set_solver].
      * apply Hord; [|done]. rewrite lookup_delete_ne; [done|set_solver].
  - apply IH in Hloop as (Hsub & Htx & Hin & Hout & Hord); [|done|done].
    split_and!; [done|done| | |].
    + intros l Hl. destruct (Hin l Hl) as [?|(k' & j & ?)]; [by left|].
      right. exists k', j. set_solver.
    + intros k' l Hl Hk'. apply Hout; [done|set_solver].
    + intros k' l Hl [->|Hk']%elem_of_cons; [|by apply Hord].
      exists i. right. simplify_eq. split; [done|]. by apply Hout.
Qed.

Lemma expire_notReady σ a maxTime clock order lo hi m txs i :
  aq_inv σ a → map_order (notReadyTxs a) order → (∀ j, lo ≤ clock j ≤ hi) →
  expire_loop σ maxTime clock 0 order (notReadyTxs a) [] = (m, txs, i) →
  m ⊆ notReadyTxs a ∧
  (∀ l, l ∈ txs → ∃ k, notReadyTxs a !! k = Some l ∧ ReceivedAt (σ l) + maxTime < hi) ∧
  (∀ k l, notReadyTxs a !! k = Some l → ReceivedAt (σ l) + maxTime < lo →
     m !! k = None ∧ l ∈ txs) ∧
  (∀ k l, notReadyTxs a !! k = Some l → hi ≤ ReceivedAt (σ l) + maxTime → m !! k = Some l).
Proof.
  intros [Hr Hn] [Hnd Hord] Hclk Hloop.
  apply expire_loop_spec in Hloop as (Hsub & _ & Hin & _ & Hk);
    [|done|by intros n l Hl; destruct (Hn n l Hl)].
  split_and!; [done| | |].
  - intros l Hl. destruct (Hin l Hl) as [?%not_elem_of_nil|(k & j & ? & ? & ? & ?)]; [done|].
    exists k. split; [done|]. specialize (Hclk j). lia.
  - intros k l Hl Ht. destruct (Hk k l Hl) as [j [(?&?&?)|[? ?]]];
      [apply Hord; eauto|done|specialize (Hclk j); lia].
  - intros k l Hl Ht. destruct (Hk k l Hl) as [j [(?&?&?)|[? ?]]];
      [apply Hord; eauto|specialize (Hclk j); lia|done].
Qed.

(** [ExpireTransactions] with clock readings between [lo] and [hi]
    removes and returns every transaction received more than [maxTime] before
    [lo], keeps every one received at most [maxTime] before [hi], returns only
    transactions it tracked, and reports the ready transaction exactly when it
    removed it (the worker takes it out of the sorted list). *)
Theorem ExpireTransactions_spec σ a maxTime clock order lo hi a' txs prev :
  aq_inv σ a → map_order (notReadyTxs a) order → (∀ i, lo ≤ clock i ≤ hi) →
  ExpireTransactions σ a maxTime clock order = (a', txs, prev) →
  (∀ l, tracked a l → ReceivedAt (σ l) + maxTime < lo → l ∈ txs ∧ ¬ tracked a' l) ∧
  (∀ l, tracked a l → hi ≤ ReceivedAt (σ l) + maxTime → (l ∉ txs) ∧ tracked a' l) ∧
  (∀ l, l ∈ txs → tracked a l) ∧ (∀ l, tracked a' l → tracked a l) ∧
  (∀ r, prev = Some r ↔ readyTx a = Some r ∧ readyTx a' = None).
Proof.
  intros Hinv Hord Hclk H. unfold ExpireTransactions in H.
  destruct (expire_loop _ _ _ _ _ _ _) as [[m tx1] i] eqn:Hloop.
  eapply expire_notReady in Hloop as (Hsub & Hin & Hold & Hnew); [|done..].
  pose proof (Hclk i) as Hi.
  assert (notReadyTxs a' = m ∧ (∀ l, l ∈ txs ↔ l ∈ tx1 ∨ prev = Some l) ∧
    readyTx a' = (if prev is Some _ then None else readyTx a) ∧
    (∀ r, prev = Some r → readyTx a = Some r ∧ ReceivedAt (σ r) + maxTime < hi) ∧
    (∀ r, readyTx a = Some r → prev = None → lo ≤ ReceivedAt (σ r) + maxTime))
    as (Hm & Htx & Hr' & Hprev & Hkeep).
  { simpl in H. destruct (readyTx a) as [r|] eqn:Hra;
      [destruct (Z.ltb_spec (ReceivedAt (σ r) + maxTime) (clock i))|]; simplify_eq/=;
      split_and!; try done; try (intros l; rewrite ?elem_of_app, ?list_elem_of_singleton);
      naive_solver lia. }
  clear H. unfold tracked. rewrite Hm, Hr'. split_and!.
  - intros l Hl Ht. rewrite Htx. split.
    + destruct Hl as [Hl|[k Hl]]; [|left; by eapply Hold].
      destruct prev; [right; naive_solver|]. specialize (Hkeep _ Hl eq_refl). lia.
    + intros [Hl'|[k Hk]].
      * destruct prev; [done|]. specialize (Hkeep _ Hl' eq_refl). lia.
      * destruct (Hold k l) as [? _]; [by eapply lookup_weaken|done|congruence].
  - intros l Hl Ht. rewrite Htx. split.
    + intros [(k & ? & ?)%Hin|[? ?]%Hprev]; lia.
    + destruct Hl as [Hl|[k Hl]]; [left|right; eauto].
      destruct prev as [r|]; [|done]. destruct (Hprev r eq_refl). simplify_eq. lia.
  - intros l. rewrite Htx. intros [(k & ? & ?)%Hin|[? ?]%Hprev]; eauto.
  - intros l [Hl|[k Hk]]; [left; by destruct prev|right]. exists k. by eapply lookup_weaken.
  - intros r. destruct prev as [r'|]; [|naive_solver].
    destruct (Hprev r' eq_refl). naive_solver.
Qed.

Lemma ExpireTransactions_spec_witness :
  let '(a', txs, prev) := ExpireTransactions Samples.σ0 Samples.q0 30 (λ _, 40) [6] in
  txs = [0%nat] ∧ prev = Some 0%nat ∧ ∀ l, l ∈ txs → tracked Samples.q0 l.
Proof.
  destruct (ExpireTransactions _ _ _ _ _) as [[a' txs] prev] eqn:H.
  pose proof (ExpireTransactions_spec Samples.σ0 Samples.q0 30 (λ _, 40) [6] 40 40
                a' txs prev Samples.q0_inv Samples.q0_order) as Hspec.
  split_and!; [vm_compute in H; by simplify_eq .. |].
  apply Hspec; [lia|exact H].
Defined.

(** ** Reachable queues *)

(** One operation of a queue, with the store it may mutate. *)
Inductive aq_step `{!EthStrings} : store * addrQueue → store * addrQueue → Prop :=
  | step_addTx σ a tx a' res :
      addTx σ a tx = (a', res) → aq_step (σ, a) (σ, a')
  | step_addForcedTx σ a h : aq_step (σ, a) (σ, addForcedTx a h)
  | step_addPendingTxToStore σ a h : aq_step (σ, a) (σ, addPendingTxToStore a h)
  | step_Expire σ a maxTime clock order a' txs prev :
      map_order (notReadyTxs a) order →
      ExpireTransactions σ a maxTime clock order = (a', txs, prev) →
      aq_step (σ, a) (σ, a')
  | step_deleteTx σ a h order a' prev :
      map_order (notReadyTxs a) order →
      deleteTx σ a h order = (a', prev) → aq_step (σ, a) (σ, a')
  | step_deleteForcedTx σ a h : aq_step (σ, a) (σ, deleteForcedTx a h)
  | step_deletePendingTxToStore σ a h : aq_step (σ, a) (σ, deletePendingTxToStore a h)
  | step_update σ a nonce balance order σ' a' nr pr del :
      map_order (notReadyTxs a) order →
      updateCurrentNonceBalance σ a nonce balance order = (σ', a', nr, pr, del) →
      aq_step (σ, a) (σ', a')
  | step_UpdateTxZKCounters σ a h z order :
      map_order (notReadyTxs a) order →
      aq_step (σ, a) (UpdateTxZKCounters σ a h z order, a).

Lemma aq_step_inv `{!EthStrings} σ a σ' a' :
  aq_step (σ, a) (σ', a') → aq_inv σ a → aq_inv σ' a'.
Proof.
  inversion 1; subst; intros Hinv; eauto using addTx_inv, ExpireTransactions_inv, deleteTx_inv.
  - unfold deleteForcedTx. by case_decide.
  - unfold deletePendingTxToStore. by case_decide.
  - by eapply updateCurrentNonceBalance_inv.
  - by rewrite UpdateTxZKCounters_static.
Qed.

(** Whatever the operations and the orders in which maps are ranged over,
    a queue that starts empty satisfies its invariant: the ready transaction
    has the current nonce and is covered by the balance, and the not-ready ones
    are filed under their own nonce, which is not below the current one. *)
Theorem reachable_queue_inv `{!EthStrings} σ0 addr nonce balance σ a :
  rtc aq_step (σ0, newAddrQueue addr nonce balance) (σ, a) → aq_inv σ a.
Proof.
  intros Hsteps.
  assert (∀ s s', rtc aq_step s s' → aq_inv s.1 s.2 → aq_inv s'.1 s'.2) as Hind.
  { induction 1 as [|[σ1 a1] [σ2 a2] s3 Hstep _ IH]; [done|].
    intros. apply IH. by eapply aq_step_inv. }
  apply (Hind _ _ Hsteps), newAddrQueue_inv.
Qed.

Lemma reachable_queue_inv_witness :
  aq_inv Samples.σ0 (addTx Samples.σ0 (@newAddrQueue Samples.dec_strings 7 5 100) 0).1.
Proof.
  apply (@reachable_queue_inv Samples.dec_strings Samples.σ0 7 5 100).
  eapply rtc_l; [|apply rtc_refl]. eapply step_addTx. apply surjective_pairing.
Defined.

(** ** What the worker relies on

    For each operation: it tracks nothing new but the transaction added, and
    the previous and new ready transactions it returns describe the change of
    [readyTx]. *)

Definition ready_change (a a' : addrQueue) (prev new : option loc) : Prop :=
  (∀ p, prev = Some p → readyTx a = Some p) ∧
  (prev = None → readyTx a = None ∨ readyTx a' = readyTx a) ∧
  (new = readyTx a' ∨ (new = None ∧ prev = None ∧ readyTx a' = readyTx a)).

Lemma addTx_change σ a tx a' res :
  addTx σ a tx = (a', res) →
  fromStr a' = fromStr a ∧ (∀ l, tracked a' l → tracked a l ∨ l = tx) ∧
  match dropReason res with
  | Some _ => a' = a
  | None => ready_change a a' (prevReadyTx res) (newReadyTx res)
  end.
Proof.
  unfold addTx, ready_change, tracked. intros H.
  repeat case_match; simplify_eq/=; split_and!; try done; try naive_solver.
  all: intros x [?|[k ?]]; simplify_eq/=; eauto; map_cases; eauto.
Qed.

Lemma update_change σ a nonce balance order σ' a' nr pr del :
  notReady_inv σ a → map_order (notReadyTxs a) order →
  updateCurrentNonceBalance σ a nonce balance order = (σ', a', nr, pr, del) →
  (∀ l, tracked a' l → tracked a l) ∧ ready_change a a' pr nr.
Proof.
  intros Hn Ho H.
  apply update_phases in H
    as (a1 & a2 & Hs & Hr1 & Hc1 & _ & Hm1 & Hd & Ha' & Hnr & Hdel & Hfail); try done.
  assert (∀ l, tracked a1 l → tracked a l) as Ht1.
  { intros l [?|[n Hl]]; [left; congruence|]. right. exists n.
    rewrite Hm1, live_lookup in Hl. by case_decide. }
  assert (∀ p, pr = Some p → readyTx a = Some p) as Hp.
  { intros p ->. pose proof (tracked_demote _ _ _ _ 0%nat Hd) as (_ & _ & _ & _ & Hold).
    rewrite <-Hr1. by destruct (Hold p eq_refl). }
  assert (readyTx a' = readyTx (promote_notReady σ' a2)) as Hr'.
  { subst a'. unfold requeue_old. by repeat case_match. }
  split; [|split_and!; [done| |by left]].
  - intros l Hl. apply Ht1. apply (tracked_demote _ _ _ _ l Hd). subst a'.
    unfold requeue_old in Hl. destruct pr as [r|]; [|left; by eapply tracked_promote].
    case_match; [|left; by eapply tracked_promote].
    destruct Hl as [Hl|[n Hl]]; simpl in Hl.
    + left. eapply tracked_promote. by left.
    + map_cases; [by right|]. left. eapply tracked_promote. right. eauto.
  - intros ->. rewrite Hr', <-Hr1. revert Hd. unfold demote_ready, promote_notReady.
    destruct (readyTx a1) eqn:E; [|by left]. case_match; [done|]. intros [= <-].
    rewrite E. by right.
Qed.

Lemma update_fromStr σ a nonce balance order σ' a' nr pr del :
  updateCurrentNonceBalance σ a nonce balance order = (σ', a', nr, pr, del) →
  fromStr a' = fromStr a.
Proof.
  unfold updateCurrentNonceBalance, advance_nonce, demote_ready, promote_notReady, requeue_old.
  intros H. repeat case_match; simplify_eq/=; done.
Qed.

Lemma Expire_change σ a maxTime clock order a' txs prev :
  notReady_inv σ a →
  ExpireTransactions σ a maxTime clock order = (a', txs, prev) →
  fromStr a' = fromStr a ∧ (∀ l, tracked a' l → tracked a l) ∧ ready_change a a' prev None.
Proof.
  intros Hn H. unfold ExpireTransactions in H.
  destruct (expire_loop _ _ _ _ _ _ _) as [[m txs'] i] eqn:Hloop.
  apply expire_loop_lookup in Hloop; [|intros n l Hl; by apply Hn].
  assert (∀ r l, tracked (set_notReady (set_ready a r) m) l → r = Some l ∨ tracked a l) as Ht.
  { intros r l [?|[n Hl]]; [by left|]. right; right. exists n. by eapply lookup_weaken. }
  unfold ready_change. simpl in H.
  destruct (readyTx a) as [r|] eqn:Hr; [case_match|]; simplify_eq/=; rewrite ?Hr;
    split_and!; try done; try naive_solver.
  - intros l Hl. by destruct (Ht None l Hl).
  - intros l Hl. destruct (Ht (Some r) l); [|left; congruence|done].
    by destruct Hl as [?|?]; [left|right]; simpl in *; congruence || done.
  - intros l Hl. destruct (Ht None l); [|done|done].
    destruct Hl as [?|?]; [simpl in *; congruence|by right].
Qed.

Lemma deleteTx_change `{!EthStrings} σ a h order a' prev :
  deleteTx σ a h order = (a', prev) →
  fromStr a' = fromStr a ∧ (∀ l, tracked a' l → tracked a l) ∧ ready_change a a' prev None.
Proof.
  unfold deleteTx, ready_change, tracked. intros Hd.
  pose proof (delete_loop_subseteq σ (hash_String h) order (notReadyTxs a)) as Hsub.
  destruct (readyTx a) as [r|] eqn:Hr; [case_decide|]; simplify_eq/=; rewrite ?Hr;
    split_and!; try done; try naive_solver.
  all: intros l [?|[n Hl]]; [by left|right; exists n; by eapply lookup_weaken].
Qed.
