(* ===== verification/TxSortedList.v ===== *)
(** * The list of ready transactions sorted by gas price

    [sequencer/txsorted_list.go].  The structure keeps a map from hash strings
    to trackers and a slice in decreasing order of gas price.  The comparison
    functions dereference [e.list[e.sorted[i].HashStr]], which panics when the
    entry is missing: an operation returns [None] for a panic. *)

From S2P Require Import Prelude Resources TxTracker.

Module TxList.

Record txSortedList := mkTxSortedList {
  list : gmap string loc;
  sorted : Datatypes.list loc
}.

Definition newTxSortedList : txSortedList := mkTxSortedList ∅ [].

Definition isGreaterThan (σ : store) (tx1 tx2 : loc) : bool :=
  match GasPrice (σ tx1) ?= GasPrice (σ tx2) with Gt => true | _ => false end.

Definition isGreaterOrEqualThan (σ : store) (tx1 tx2 : loc) : bool :=
  match GasPrice (σ tx1) ?= GasPrice (σ tx2) with Lt => false | _ => true end.

(** [cmp(tx, e.list[e.sorted[i].HashStr])] *)
Definition cmp_at (σ : store) (cmp : loc → loc → bool) (e : txSortedList) (tx : loc)
    (i : nat) : option bool :=
  l ← sorted e !! i;
  l' ← list e !! HashStr (σ l);
  Some (cmp tx l').

(** The slice grows by one element, its tail from [i] moves up and [tx] is
    written at [i]. *)
Definition addSort (σ : store) (e : txSortedList) (tx : loc) : option txSortedList :=
  i ← sort_Search (length (sorted e)) (cmp_at σ (isGreaterThan σ) e tx);
  Some (mkTxSortedList (list e) (take i (sorted e) ++ tx :: drop i (sorted e))).

Definition add (σ : store) (e : txSortedList) (tx : loc) : option (txSortedList * bool) :=
  match list e !! HashStr (σ tx) with
  | None =>
      e' ← addSort σ (mkTxSortedList (<[HashStr (σ tx) := tx]> (list e)) (sorted e)) tx;
      Some (e', true)
  | Some _ => Some (e, false)
  end.

(** The loop of [delete] from index [i] on, over the rest of the slice: [None]
    is one of the two error exits. *)
Fixpoint delete_scan (σ : store) (tx : loc) (i : nat) (rest : Datatypes.list loc) :
    option nat :=
  match rest with
  | [] => None
  | s :: rest' =>
      if decide (GasPrice (σ s) = GasPrice (σ tx)) then
        if decide (HashStr (σ s) = HashStr (σ tx)) then Some i
        else delete_scan σ tx (S i) rest'
      else None
  end.

Definition delete (σ : store) (e : txSortedList) (tx : loc) : option (txSortedList * bool) :=
  match list e !! HashStr (σ tx) with
  | Some tx =>
      i ← sort_Search (length (sorted e)) (cmp_at σ (isGreaterOrEqualThan σ) e tx);
      match delete_scan σ tx i (drop i (sorted e)) with
      | Some i =>
          Some (mkTxSortedList (base.delete (HashStr (σ tx)) (list e))
                  (take i (sorted e) ++ drop (S i) (sorted e)), true)
      | None => Some (e, false)
      end
  | None => Some (e, false)
  end.

(** [e.sorted[i]]: [None] when the index is out of range. *)
Definition getByIndex (e : txSortedList) (i : nat) : option loc := sorted e !! i.

Definition len (e : txSortedList) : nat := length (sorted e).

Definition GetSorted (e : txSortedList) : Datatypes.list loc := sorted e.

(** ** Invariant *)

(** Decreasing gas price. *)
Definition desc (σ : store) : Datatypes.list loc → Prop :=
  StronglySorted (λ x y, GasPrice (σ y) ≤ GasPrice (σ x)).

Definition tl_inv (σ : store) (e : txSortedList) : Prop :=
  desc σ (sorted e) ∧
  (∀ x y, x ∈ sorted e → y ∈ sorted e → HashStr (σ x) = HashStr (σ y) → x = y) ∧
  NoDup (sorted e) ∧
  (∀ h l, list e !! h = Some l ↔ l ∈ sorted e ∧ HashStr (σ l) = h).

#[export] Instance desc_proper : Proper (static_eq ==> eq ==> iff) desc.
Proof.
  intros σ σ' Hs l ? <-. unfold desc.
  split; (induction 1 as [|x l' _ IH Hall]; constructor; [done|]);
    (eapply Forall_impl; [done|]); simpl; intros y Hy;
    by rewrite ?(static_GasPrice _ _ Hs) in *; rewrite ?(static_GasPrice _ _ Hs).
Qed.

#[export] Instance tl_inv_proper : Proper (static_eq ==> eq ==> iff) tl_inv.
Proof.
  intros σ σ' Hs e ? <-. unfold tl_inv. rewrite (desc_proper σ σ' Hs _ _ eq_refl).
  by setoid_rewrite (static_HashStr _ _ Hs).
Qed.

Lemma newTxSortedList_inv σ : tl_inv σ newTxSortedList.
Proof.
  split_and!; simpl.
  - constructor.
  - by intros x y ?%not_elem_of_nil.
  - constructor.
  - intros h l. rewrite lookup_empty. split; [done|]. by intros [?%not_elem_of_nil _].
Qed.

Lemma cmp_at_inv σ cmp e tx m k x :
  tl_inv σ e → sorted e !! k = Some x → m !! HashStr (σ x) = list e !! HashStr (σ x) →
  cmp_at σ cmp (mkTxSortedList m (sorted e)) tx k = Some (cmp tx x).
Proof.
  intros (_ & _ & _ & Hl) Hx Hm. unfold cmp_at. simpl. rewrite Hx. simpl. rewrite Hm.
  rewrite (proj2 (Hl (HashStr (σ x)) x)); [done|]. split; [|done].
  apply list_elem_of_lookup. eauto.
Qed.

(** Insertion as the specification has it: behind all transactions with at
    least the same gas price, before all with a lower one. *)
Definition inserted (σ : store) (tx : loc) (l l' : Datatypes.list loc) : Prop :=
  ∃ l1 l2, l = l1 ++ l2 ∧ l' = l1 ++ tx :: l2 ∧
    Forall (λ x, GasPrice (σ tx) ≤ GasPrice (σ x)) l1 ∧
    Forall (λ x, GasPrice (σ x) < GasPrice (σ tx)) l2.

Lemma isGreaterThan_spec σ x y : isGreaterThan σ x y = (GasPrice (σ y) <? GasPrice (σ x)).
Proof. unfold isGreaterThan. rewrite Z.compare_antisym. by unfold Z.ltb; destruct (_ ?= _). Qed.

Lemma isGreaterOrEqualThan_spec σ x y :
  isGreaterOrEqualThan σ x y = (GasPrice (σ y) <=? GasPrice (σ x)).
Proof.
  unfold isGreaterOrEqualThan. rewrite Z.compare_antisym. by unfold Z.leb; destruct (_ ?= _).
Qed.

Lemma desc_threshold σ (P : Z → bool) l :
  (∀ x y, y ≤ x → P x = true → P y = true) → desc σ l →
  StronglySorted (λ x y, P (GasPrice (σ x)) = true → P (GasPrice (σ y)) = true) l.
Proof.
  intros HP. induction 1 as [|x l _ IH Hall]; constructor; [done|].
  eapply Forall_impl; [done|]. simpl. eauto.
Qed.

Lemma insert_inv σ e tx l' :
  tl_inv σ e → (∀ x, x ∈ sorted e → HashStr (σ x) ≠ HashStr (σ tx)) →
  inserted σ tx (sorted e) l' →
  tl_inv σ (mkTxSortedList (<[HashStr (σ tx) := tx]> (list e)) l').
Proof.
  intros (Hdesc & Hinj & Hnd & Hl) Hnew (l1 & l2 & Hsplit & -> & H1 & H2).
  rewrite Hsplit in *. rewrite Forall_forall in H1, H2.
  unfold desc in *. rewrite StronglySorted_app in Hdesc. destruct Hdesc as (Hd & Hd1 & Hd2).
  split_and!; unfold desc; simpl.
  - apply StronglySorted_app_2; [|done|].
    + intros x y Hx [->|Hy]%elem_of_cons; [by apply H1|by apply Hd].
    + apply StronglySorted_cons. split; [|done]. apply Forall_forall. intros y Hy.
      specialize (H2 y Hy). lia.
  - intros x y. rewrite !elem_of_app, !elem_of_cons. set_solver.
  - rewrite <-Permutation_middle. apply NoDup_cons. split; [|done].
    intros Hin. by apply (Hnew tx).
  - intros h l. rewrite lookup_insert. case_decide as Heq.
    + subst h. split; [intros [= <-]; set_solver|]. intros [Hin Hh]. f_equal.
      apply elem_of_app in Hin. rewrite elem_of_cons in Hin.
      destruct Hin as [?|[->|?]]; [|done|]; exfalso; apply (Hnew l); set_solver.
    + rewrite Hl. set_solver.
Qed.

Lemma fresh_lookup σ e tx :
  tl_inv σ e → (∀ x, x ∈ sorted e → HashStr (σ x) ≠ HashStr (σ tx)) →
  list e !! HashStr (σ tx) = None.
Proof.
  intros (_ & _ & _ & Hl) Hnew. apply eq_None_not_Some. intros [x [Hx Hh]%Hl].
  by apply (Hnew x).
Qed.

(** [add] puts a new hash at its place in the order ... *)
Lemma add_new σ e tx :
  tl_inv σ e → (∀ x, x ∈ sorted e → HashStr (σ x) ≠ HashStr (σ tx)) →
  ∃ e', add σ e tx = Some (e', true) ∧ tl_inv σ e' ∧
    inserted σ tx (sorted e) (sorted e').
Proof.
  intros Hinv Hnew. pose proof Hinv as (Hdesc & Hinj & Hnd & Hl). unfold add.
  rewrite (fresh_lookup σ e tx) by done. unfold addSort. simpl.
  destruct (sort_Search_list (sorted e) (λ x, GasPrice (σ x) <? GasPrice (σ tx))
    (cmp_at σ (isGreaterThan σ) (mkTxSortedList (<[HashStr (σ tx):=tx]> (list e)) (sorted e)) tx))
    as (r & -> & Hle & Hlo & Hhi).
  { intros k x Hx. rewrite <-isGreaterThan_spec. apply cmp_at_inv; [done..|].
    apply lookup_insert_ne. intros Heq. apply (Hnew x); [|done].
    apply list_elem_of_lookup. eauto. }
  { by apply (desc_threshold σ (λ p, p <? GasPrice (σ tx))); [intros; lia|]. }
  assert (inserted σ tx (sorted e) (take r (sorted e) ++ tx :: drop r (sorted e))) as Hins.
  { exists (take r (sorted e)), (drop r (sorted e)). split_and!; [by rewrite take_drop|done| |];
      (eapply Forall_impl; [done|]); simpl; intros; lia. }
  eexists. split; [done|]. split; [|done]. by apply insert_inv.
Qed.

(** ... and ignores a hash that is there. *)
Lemma add_old σ e tx x :
  tl_inv σ e → x ∈ sorted e → HashStr (σ x) = HashStr (σ tx) → add σ e tx = Some (e, false).
Proof.
  intros (_ & _ & _ & Hl) Hx Hh. unfold add.
  by rewrite (proj2 (Hl (HashStr (σ tx)) x)).
Qed.

Lemma delete_scan_spec σ tx rest : ∀ i,
  tx ∈ rest → (∀ y, y ∈ rest → HashStr (σ y) = HashStr (σ tx) → y = tx) →
  desc σ rest → Forall (λ x, GasPrice (σ x) ≤ GasPrice (σ tx)) rest →
  ∃ j, delete_scan σ tx i rest = Some (i + j)%nat ∧ rest !! j = Some tx.
Proof.
  induction rest as [|s rest IH]; intros i Hin Hinj Hd Hall; [by apply not_elem_of_nil in Hin|].
  simpl. apply StronglySorted_cons in Hd as [Hs Hd]. apply Forall_cons in Hall as [Hle Hall].
  destruct (decide (s = tx)) as [->|Hne].
  { exists 0%nat. by rewrite !decide_True, Nat.add_0_r. }
  apply elem_of_cons in Hin as [?|Hin]; [congruence|].
  rewrite decide_True; last first.
  { rewrite Forall_forall in Hs. specialize (Hs _ Hin). lia. }
  rewrite decide_False by (intros ?; apply Hne, Hinj; set_solver).
  destruct (IH (S i)) as (j & -> & Hj); [done|set_solver|done|done|].
  exists (S j). split; [f_equal; lia|done].
Qed.

(** [delete] removes the transaction with the hash, wherever it is among the
    ones with its gas price ... *)
Lemma delete_old σ e tx x :
  tl_inv σ e → x ∈ sorted e → HashStr (σ x) = HashStr (σ tx) →
  ∃ e', delete σ e tx = Some (e', true) ∧ tl_inv σ e' ∧
    ∃ l1 l2, sorted e = l1 ++ x :: l2 ∧ sorted e' = l1 ++ l2.
Proof.
  intros Hinv Hx Hh. pose proof Hinv as (Hdesc & Hinj & Hnd & Hl). unfold delete.
  rewrite (proj2 (Hl (HashStr (σ tx)) x)) by done.
  destruct (sort_Search_list (sorted e) (λ y, GasPrice (σ y) <=? GasPrice (σ x))
    (cmp_at σ (isGreaterOrEqualThan σ) e x)) as (r & -> & Hle & Hlo & Hhi).
  { intros k y Hy. rewrite <-isGreaterOrEqualThan_spec. destruct e as [m s].
    by apply (cmp_at_inv σ _ (mkTxSortedList m s) x m). }
  { by apply (desc_threshold σ (λ p, p <=? GasPrice (σ x))); [intros; lia|]. }
  simpl. rewrite <-(take_drop r (sorted e)) in Hx. apply elem_of_app in Hx as [Hx|Hx].
  { rewrite Forall_forall in Hlo. specialize (Hlo _ Hx). lia. }
  destruct (delete_scan_spec σ x (drop r (sorted e)) r Hx) as (j & -> & Hj).
  { intros y Hy Hyx. apply Hinj; [| |done]; rewrite <-(take_drop r (sorted e)); set_solver. }
  { rewrite <-(take_drop r (sorted e)) in Hdesc. by eapply StronglySorted_app_1_r. }
  { eapply Forall_impl; [done|]. simpl. intros; lia. }
  rewrite lookup_drop in Hj. eexists. split; [done|].
  set (l1 := take (r + j) (sorted e)). set (l2 := drop (S (r + j)) (sorted e)).
  assert (sorted e = l1 ++ x :: l2) as Hsplit by (symmetry; by apply take_drop_middle).
  split; [|by exists l1, l2]. rewrite Hsplit in Hdesc, Hinj, Hnd, Hl.
  unfold desc in Hdesc. rewrite StronglySorted_app, StronglySorted_cons in Hdesc.
  destruct Hdesc as (Hd & Hd1 & Hdx & Hd2). split_and!; simpl.
  - apply StronglySorted_app_2; [set_solver|done|done].
  - set_solver.
  - rewrite <-Permutation_middle in Hnd. by apply NoDup_cons in Hnd as [_ ?].
  - rewrite <-Permutation_middle in Hnd. apply NoDup_cons in Hnd as [Hnx _].
    intros h l. rewrite lookup_delete. case_decide as Heq; [|rewrite Hl; set_solver].
    split; [done|]. intros [Hin Hh']. exfalso. apply Hnx.
    replace x with l; [done|]. apply Hinj; set_solver.
Qed.

(** ... and does nothing when the hash is not there. *)
Lemma delete_new σ e tx :
  tl_inv σ e → (∀ x, x ∈ sorted e → HashStr (σ x) ≠ HashStr (σ tx)) →
  delete σ e tx = Some (e, false).
Proof.
  intros Hinv Hnew. unfold delete. by rewrite (fresh_lookup σ e tx).
Qed.

(** ** Properties *)

(** [add] never panics and keeps the list sorted: it returns [true]
    exactly when no transaction with the same hash is there, and then inserts
    the new one behind all transactions that pay at least as much and before
    all that pay less (equal prices are served in order of arrival); otherwise
    it changes nothing. *)
Theorem add_correct σ e tx :
  tl_inv σ e →
  ∃ e' b, add σ e tx = Some (e', b) ∧ tl_inv σ e' ∧
    (b = true ↔ ∀ x, x ∈ sorted e → HashStr (σ x) ≠ HashStr (σ tx)) ∧
    (b = true → inserted σ tx (sorted e) (sorted e')) ∧ (b = false → e' = e).
Proof.
  intros Hinv.
  destruct (decide (Exists (λ x, HashStr (σ x) = HashStr (σ tx)) (sorted e)))
    as [(x & Hx & Hh)%Exists_exists|Hno].
  - exists e, false. split_and!; [by eapply add_old|done| |done|done]. naive_solver.
  - assert (∀ x, x ∈ sorted e → HashStr (σ x) ≠ HashStr (σ tx)) as Hnew.
    { intros x Hx Hh. apply Hno, Exists_exists. eauto. }
    destruct (add_new σ e tx) as (e' & ? & ? & ?); [done..|]. exists e', true. done.
Qed.

(** A store for the witnesses: tracker [l] pays [10 * l]. *)
Definition wit_store : store := λ l,
  sample_tx (Z.of_nat l) (pretty (Z.of_nat l)) 7 "7" 0 (10 * Z.of_nat l) 0 0 (res_const 1 1 1).

Lemma add_correct_witness :
  ∃ e' b, add wit_store newTxSortedList 3 = Some (e', b) ∧ tl_inv wit_store e' ∧
    sorted e' = [3%nat].
Proof.
  destruct (add_correct wit_store newTxSortedList 3 (newTxSortedList_inv _))
    as (e' & b & Hadd & Hinv & _).
  exists e', b. split_and!; [exact Hadd|exact Hinv|]. vm_compute in Hadd. by simplify_eq.
Defined.

(** [delete] never panics, never takes one of its two error exits on a
    hash that is in the map, and removes exactly the transaction with that
    hash: the rest of the list keeps its order. *)
Theorem delete_correct σ e tx :
  tl_inv σ e →
  ∃ e' b, delete σ e tx = Some (e', b) ∧ tl_inv σ e' ∧
    (b = true ↔ is_Some (list e !! HashStr (σ tx))) ∧
    sorted e' = filter (λ y, HashStr (σ y) ≠ HashStr (σ tx)) (sorted e).
Proof.
  intros Hinv. pose proof Hinv as (Hdesc & Hinj & Hnd & Hl).
  destruct (list e !! HashStr (σ tx)) as [x|] eqn:Hlk.
  - apply Hl in Hlk as [Hx Hh].
    destruct (delete_old σ e tx x) as (e' & ? & ? & l1 & l2 & Hs & Hs'); [done..|].
    exists e', true. split_and!; [done|done|split; [by eexists|done]|].
    rewrite Hs', Hs. rewrite Hs in Hinj, Hnd.
    rewrite <-Permutation_middle in Hnd. apply NoDup_cons in Hnd as [Hnx _].
    rewrite filter_app, filter_cons_False by (rewrite Hh; naive_solver).
    assert (∀ l : Datatypes.list loc, (∀ y, y ∈ l → y ∈ l1 ++ l2) →
      filter (λ y, HashStr (σ y) ≠ HashStr (σ tx)) l = l) as Hid.
    { intros l Hsub. apply filter_all. intros y Hy Hyh. apply Hnx.
      assert (y = x) as <- by (apply Hinj; [set_solver|set_solver|congruence]). by apply Hsub. }
    by rewrite !Hid by set_solver.
  - assert (∀ x, x ∈ sorted e → HashStr (σ x) ≠ HashStr (σ tx)) as Hnew.
    { intros x Hx Hh. rewrite (proj2 (Hl (HashStr (σ tx)) x)) in Hlk; done. }
    exists e, false. split_and!; [by apply delete_new|done| |].
    + split; [done|]. by intros [??].
    + symmetry. by apply filter_all.
Qed.

Lemma delete_correct_witness :
  ∃ e' b, delete wit_store (mkTxSortedList {["3" := 3%nat]} [3%nat]) 3 = Some (e', b) ∧
    b = true ∧ sorted e' = [].
Proof.
  destruct (delete_correct wit_store (mkTxSortedList {["3" := 3%nat]} [3%nat]) 3)
    as (e' & b & Hdel & _ & Hb & Hs).
  - split_and!; simpl.
    + repeat constructor.
    + set_solver.
    + apply NoDup_singleton.
    + intros h l. rewrite lookup_singleton. case_decide as Hh; split.
      * intros [= <-]. set_solver.
      * intros [->%list_elem_of_singleton _]. done.
      * done.
      * intros [->%list_elem_of_singleton Hl]. by vm_compute in Hl.
  - exists e', b. split_and!; [exact Hdel| |exact Hs]. apply Hb. by eexists.
Defined.

End TxList.
