(* ===== verification/Worker.v ===== *)
(** * The worker of the sequencer

    [sequencer/worker.go].  The worker keeps a queue per sender and the sorted
    list of the ready transactions.  Every method runs under [workerMutex]
    except [AddTxTracker], which releases it while it reads the state of a
    sender that has no queue yet: it is modelled in two halves, and the
    theorems are about every interleaving of the halves with the other
    operations.

    The worker uses the sorted list only through the interface [ReadyList],
    which [TxSortedList] discharges, and the node's state only through the Go
    interface [stateInterface]. *)

From S2P Require Import Prelude Resources TxTracker AddrQueue TxSortedList NetIP.

(** ** What the worker needs of a list of ready transactions *)

Class ReadyListOps (T : Type) := {
  rl_new : T;
  rl_add : store → T → loc → option (T * bool);
  rl_delete : store → T → loc → option (T * bool);
  rl_sorted : T → list loc
}.

Class ReadyList (T : Type) `{!ReadyListOps T} := {
  rl_inv : store → T → Prop;
  rl_inv_new σ : rl_inv σ rl_new ∧ rl_sorted rl_new = [];
  rl_inv_static σ σ' e : static_eq σ σ' → rl_inv σ e → rl_inv σ' e;
  rl_inj σ e x y : rl_inv σ e → x ∈ rl_sorted e → y ∈ rl_sorted e →
    HashStr (σ x) = HashStr (σ y) → x = y;
  rl_add_new σ e tx : rl_inv σ e →
    (∀ x, x ∈ rl_sorted e → HashStr (σ x) ≠ HashStr (σ tx)) →
    ∃ e', rl_add σ e tx = Some (e', true) ∧ rl_inv σ e' ∧
      ∀ l, l ∈ rl_sorted e' ↔ l = tx ∨ l ∈ rl_sorted e;
  rl_add_old σ e tx x : rl_inv σ e → x ∈ rl_sorted e → HashStr (σ x) = HashStr (σ tx) →
    rl_add σ e tx = Some (e, false);
  rl_delete_old σ e tx : rl_inv σ e → tx ∈ rl_sorted e →
    ∃ e', rl_delete σ e tx = Some (e', true) ∧ rl_inv σ e' ∧
      ∀ l, l ∈ rl_sorted e' ↔ l ≠ tx ∧ l ∈ rl_sorted e
}.

#[export] Instance txSortedList_ops : ReadyListOps TxList.txSortedList := {|
  rl_new := TxList.newTxSortedList;
  rl_add := TxList.add;
  rl_delete := TxList.delete;
  rl_sorted := TxList.sorted
|}.

#[export] Instance txSortedList_ready : ReadyList TxList.txSortedList.
Proof.
  refine {| rl_inv := TxList.tl_inv |}.
  - intros σ. split; [apply TxList.newTxSortedList_inv|done].
  - intros σ σ' e Hs Hi. by apply (TxList.tl_inv_proper σ σ' Hs e e eq_refl).
  - intros σ e x y (_ & Hinj & _). apply Hinj.
  - intros σ e tx Hinv Hnew.
    destruct (TxList.add_new σ e tx Hinv Hnew) as (e' & ? & ? & l1 & l2 & Hs & Hs' & _).
    exists e'. split_and!; [done|done|]. intros l. simpl. rewrite Hs, Hs'. set_solver.
  - intros σ e tx x Hinv Hx Hh. simpl. by eapply TxList.add_old.
  - intros σ e tx Hinv Hx.
    destruct (TxList.delete_old σ e tx tx Hinv Hx) as (e' & ? & ? & l1 & l2 & Hs & Hs');
      [done|].
    exists e'. split_and!; [done|done|]. intros l. simpl. rewrite Hs, Hs'.
    destruct Hinv as (_ & _ & Hnd & _). rewrite Hs, <-Permutation_middle in Hnd.
    apply NoDup_cons in Hnd as [? _]. set_solver.
Defined.

(** The part of the Go interface [stateInterface] that the worker calls. *)
Class stateInterface := {
  GetLastStateRoot : GoRes string Z;
  GetNonceByStateRoot : Z → Z → GoRes string Z;
  GetBalanceByStateRoot : Z → Z → GoRes string Z
}.

Inductive AddErr :=
  | ErrInvalidIP
  | ErrOutOfCounters
  | ErrGetLastStateRoot (err : string)
  | ErrGetNonceByStateRoot (err : string)
  | ErrGetBalanceByStateRoot (err : string)
  | ErrDropped (reason : DropReason).

Record InfoReadWrite := mkInfoReadWrite {
  infoAddress : Z;
  infoNonce : option Z;
  infoBalance : option Z
}.

Section worker.
Context `{!EthStrings} {T : Type} `{!ReadyListOps T}.

Record Worker := mkWorker {
  pool : gmap string addrQueue;
  txSortedList : T;
  batchConstraints : BatchConstraintsCfg
}.

Definition NewWorker (constraints : BatchConstraintsCfg) : Worker :=
  mkWorker ∅ rl_new constraints.

Definition set_queue (w : Worker) (k : string) (a : addrQueue) : Worker :=
  mkWorker (<[k := a]> (pool w)) (txSortedList w) (batchConstraints w).
Definition set_list (w : Worker) (e : T) : Worker :=
  mkWorker (pool w) e (batchConstraints w).

(** The removal of the previous ready transaction from the sorted list and
    the insertion of the new one, as three operations of the worker do it;
    the booleans are ignored by the source. *)
Definition relist (σ : store) (e : T) (prevReadyTx newReadyTx : option loc) : option T :=
  e ← match prevReadyTx with
      | Some p => fst <$> rl_delete σ e p
      | None => Some e
      end;
  match newReadyTx with
  | Some n => fst <$> rl_add σ e n
  | None => Some e
  end.

(** [AddTxTracker] up to the lookup of the queue: [Some err] is an early
    return. *)
Definition addTx_admit (σ : store) (w : Worker) (tx : loc) : option AddErr :=
  if bool_decide (IP (σ tx) ≠ "") && negb (IsValidIP (IP (σ tx)))
  then Some ErrInvalidIP
  else if negb (IsWithinConstraints (batchConstraints w) (ZKC (Resources_ (σ tx))))
  then Some ErrOutOfCounters
  else None.

(** The new queue, built from the state while the mutex is released;
    [nonce.Uint64()] keeps the low 64 bits. *)
Definition addTx_fetch `{!stateInterface} (σ : store) (tx : loc) : GoRes AddErr addrQueue :=
  root ← map_err ErrGetLastStateRoot GetLastStateRoot;
  nonce ← map_err ErrGetNonceByStateRoot (GetNonceByStateRoot (From (σ tx)) root);
  balance ← map_err ErrGetBalanceByStateRoot (GetBalanceByStateRoot (From (σ tx)) root);
  Ret (newAddrQueue (From (σ tx)) (wrap64 nonce) balance).

(** [AddTxTracker] from the point where it has a queue and the mutex. *)
Definition addTx_commit (σ : store) (w : Worker) (tx : loc) (addr : addrQueue) :
    option (Worker * option loc * option AddErr) :=
  let '(addr', res) := addTx σ addr tx in
  let w := set_queue w (FromStr (σ tx)) addr' in
  match dropReason res with
  | Some r => Some (w, replacedTx res, Some (ErrDropped r))
  | None =>
      e ← relist σ (txSortedList w) (prevReadyTx res) (newReadyTx res);
      Some (set_list w e, replacedTx res, None)
  end.

(** [AddTxTracker] when nothing happens while the mutex is released. *)
Definition AddTxTracker `{!stateInterface} (σ : store) (w : Worker) (tx : loc) :
    option (Worker * option loc * option AddErr) :=
  match addTx_admit σ w tx with
  | Some err => Some (w, None, Some err)
  | None =>
      match pool w !! FromStr (σ tx) with
      | Some addr => addTx_commit σ w tx addr
      | None =>
          match addTx_fetch σ tx with
          | Ret addr => addTx_commit σ (set_queue w (FromStr (σ tx)) addr) tx addr
          | Fail err => Some (w, None, Some err)
          | Panic => None
          end
      end
  end.

Definition applyAddressUpdate (σ : store) (w : Worker) (from : Z)
    (fromNonce fromBalance : option Z) (order : list Z) :
    option (store * Worker * option loc * option loc * list loc) :=
  match pool w !! addr_String from with
  | Some a =>
      let '(σ, a', newReadyTx, prevReadyTx, txsToDelete) :=
        updateCurrentNonceBalance σ a fromNonce fromBalance order in
      let w := set_queue w (addr_String from) a' in
      e ← relist σ (txSortedList w) prevReadyTx newReadyTx;
      Some (σ, set_list w e, newReadyTx, prevReadyTx, txsToDelete)
  | None => Some (σ, w, None, None, [])
  end.

(** The loop over the other touched addresses; [addrs] is the order in which
    Go visits them and [orders a] the one for the queue of [a]. *)
Fixpoint touched_loop (σ : store) (w : Worker) (from : Z)
    (touched : gmap Z InfoReadWrite) (addrs : list Z) (orders : Z → list Z)
    (txsToDelete : list loc) : option (store * Worker * list loc) :=
  match addrs with
  | [] => Some (σ, w, txsToDelete)
  | addr :: addrs' =>
      match touched !! addr with
      | None => touched_loop σ w from touched addrs' orders txsToDelete
      | Some info =>
          if decide (addr = from)
          then touched_loop σ w from touched addrs' orders txsToDelete
          else
            r ← applyAddressUpdate σ w addr None (infoBalance info) (orders addr);
            let '(σ, w, _, _, del) := r in
            touched_loop σ w from touched addrs' orders (txsToDelete ++ del)
      end
  end.

Definition UpdateAfterSingleSuccessfulTxExecution (σ : store) (w : Worker) (from : Z)
    (touched : gmap Z InfoReadWrite) (addrs : list Z) (orders : Z → list Z) :
    option (store * Worker * list loc) :=
  match touched !! from with
  | Some info =>
      r ← applyAddressUpdate σ w from (infoNonce info) (infoBalance info) (orders from);
      let '(σ, w, _, _, txsToDelete) := r in
      touched_loop σ w from touched addrs orders txsToDelete
  | None => touched_loop σ w from touched addrs orders []
  end.

(** The sanity check on the hash of the ready transaction only logs. *)
Definition MoveTxToNotReady (σ : store) (w : Worker) (txHash from : Z)
    (actualNonce actualBalance : option Z) (order : list Z) :
    option (store * Worker * list loc) :=
  r ← applyAddressUpdate σ w from actualNonce actualBalance order;
  let '(σ, w, _, _, txsToDelete) := r in
  Some (σ, w, txsToDelete).

Definition DeleteTx (σ : store) (w : Worker) (txHash addr : Z) (order : list Z) :
    option Worker :=
  match pool w !! addr_String addr with
  | Some a =>
      let '(a', deletedReadyTx) := deleteTx σ a txHash order in
      let w := set_queue w (addr_String addr) a' in
      e ← relist σ (txSortedList w) deletedReadyTx None;
      Some (set_list w e)
  | None => Some w
  end.

(** The operations on forced and pending transactions change one queue. *)
Definition DeleteForcedTx (w : Worker) (txHash addr : Z) : Worker :=
  match pool w !! addr_String addr with
  | Some a => set_queue w (addr_String addr) (deleteForcedTx a txHash)
  | None => w
  end.

Definition Worker_UpdateTxZKCounters (σ : store) (w : Worker) (txHash addr : Z)
    (counters : ZKCounters) (order : list Z) : store :=
  match pool w !! addr_String addr with
  | Some a => UpdateTxZKCounters σ a txHash counters order
  | None => σ
  end.

Definition AddPendingTxToStore (w : Worker) (txHash addr : Z) : Worker :=
  match pool w !! addr_String addr with
  | Some a => set_queue w (addr_String addr) (addPendingTxToStore a txHash)
  | None => w
  end.

Definition AddForcedTx (w : Worker) (txHash addr : Z) : Worker :=
  match pool w !! addr_String addr with
  | Some a => set_queue w (addr_String addr) (addForcedTx a txHash)
  | None => w
  end.

Definition DeletePendingTxToStore (w : Worker) (txHash addr : Z) : Worker :=
  match pool w !! addr_String addr with
  | Some a => set_queue w (addr_String addr) (deletePendingTxToStore a txHash)
  | None => w
  end.

(** [ExpireTransactions]: [addrs] is the order in which Go visits the
    queues; [clock k] and [orders k] serve the queue [k]. *)
Fixpoint Worker_expire_loop (σ : store) (w : Worker) (maxTime : Z)
    (clock : string → nat → Z) (orders : string → list Z) (addrs : list string)
    (txs : list loc) : option (Worker * list loc) :=
  match addrs with
  | [] => Some (w, txs)
  | k :: addrs' =>
      match pool w !! k with
      | None => Worker_expire_loop σ w maxTime clock orders addrs' txs
      | Some a =>
          let '(a', subTxs, prevReadyTx) :=
            ExpireTransactions σ a maxTime (clock k) (orders k) in
          let w := set_queue w k a' in
          e ← relist σ (txSortedList w) prevReadyTx None;
          let w := set_list w e in
          let w := if IsEmpty a'
                   then mkWorker (delete (fromStr a') (pool w)) (txSortedList w)
                          (batchConstraints w)
                   else w in
          Worker_expire_loop σ w maxTime clock orders addrs' (txs ++ subTxs)
      end
  end.

Definition Worker_ExpireTransactions (σ : store) (w : Worker) (maxTime : Z)
    (clock : string → nat → Z) (orders : string → list Z) (addrs : list string) :
    option (Worker * list loc) :=
  Worker_expire_loop σ w maxTime clock orders addrs [].
End worker.

Arguments Worker T : clear implicits.

(** ** Invariant *)

Section worker_inv.
Context `{!EthStrings} {T : Type} `{!ReadyListOps T, !ReadyList T}.
Implicit Types (σ : store) (w : Worker T).

(** A transaction hash determines its sender. *)
Definition hash_from (σ : store) : Prop :=
  ∀ l l', HashStr (σ l) = HashStr (σ l') → FromStr (σ l) = FromStr (σ l').

Definition queue_ok (σ : store) (k : string) (a : addrQueue) : Prop :=
  aq_inv σ a ∧ fromStr a = k ∧ ∀ l, tracked a l → FromStr (σ l) = k.

(** Every queue is well formed and filed under its sender, and the sorted list
    holds exactly the ready transactions of the queues. *)
Definition worker_inv (σ : store) (w : Worker T) : Prop :=
  (∀ k a, pool w !! k = Some a → queue_ok σ k a) ∧
  rl_inv σ (txSortedList w) ∧
  (∀ l, l ∈ rl_sorted (txSortedList w) ↔ ∃ k a, pool w !! k = Some a ∧ readyTx a = Some l).

#[export] Instance hash_from_proper : Proper (static_eq ==> iff) hash_from.
Proof.
  intros σ σ' Hs. unfold hash_from.
  by setoid_rewrite (static_HashStr _ _ Hs); setoid_rewrite (static_FromStr _ _ Hs).
Qed.

Lemma queue_ok_static σ σ' k a : static_eq σ' σ → queue_ok σ k a → queue_ok σ' k a.
Proof.
  intros Hs (Hi & Hf & Ht). split_and!; [|done|].
  - by apply (aq_inv_proper σ' σ Hs a a eq_refl).
  - intros l Hl. rewrite (static_FromStr _ _ Hs). by apply Ht.
Qed.

Lemma worker_inv_static σ σ' w : static_eq σ' σ → worker_inv σ w → worker_inv σ' w.
Proof.
  intros Hs (Hq & Hl & Hr). split_and!; [|by eapply rl_inv_static; [symmetry|]|done].
  intros k a Ha. by eapply queue_ok_static, Hq.
Qed.

Lemma NewWorker_inv σ c : worker_inv σ (NewWorker c).
Proof.
  destruct (rl_inv_new σ) as [Hi Hn]. split_and!; simpl; [|done|].
  - intros k a. by rewrite lookup_empty.
  - intros l. rewrite Hn. split; [by intros ?%not_elem_of_nil|].
    intros (k & a & Ha & _). by rewrite lookup_empty in Ha.
Qed.

(** A queue that changes without touching its ready transaction. *)
Lemma set_queue_inv σ w k a a' :
  worker_inv σ w → pool w !! k = Some a → queue_ok σ k a' → readyTx a' = readyTx a →
  worker_inv σ (set_queue w k a').
Proof.
  intros (Hq & Hl & Hr) Ha Ha' Heq. split_and!; simpl; [|done|].
  - intros k' x. rewrite lookup_insert. case_decide; subst; [by intros [= <-]|apply Hq].
  - intros l. rewrite Hr. split; intros (k' & x & Hx & Hrx).
    + destruct (decide (k' = k)) as [->|].
      * exists k, a'. rewrite lookup_insert_eq. split; congruence.
      * exists k', x. by rewrite lookup_insert_ne.
    + rewrite lookup_insert in Hx. case_decide; simplify_eq; [exists k', a|exists k', x];
        split; congruence.
Qed.

(** A new queue without a ready transaction. *)
Lemma new_queue_inv σ w k a :
  worker_inv σ w → pool w !! k = None → queue_ok σ k a → readyTx a = None →
  worker_inv σ (set_queue w k a).
Proof.
  intros (Hq & Hl & Hr) Hk Ha Hnone. split_and!; simpl; [|done|].
  - intros k' x. rewrite lookup_insert. case_decide; subst; [by intros [= <-]|apply Hq].
  - intros l. rewrite Hr. split; intros (k' & x & Hx & Hrx); exists k', x.
    + rewrite lookup_insert_ne by congruence. done.
    + rewrite lookup_insert in Hx. case_decide; simplify_eq. done.
Qed.

Lemma relist_elems σ e prev new :
  rl_inv σ e → (∀ p, prev = Some p → p ∈ rl_sorted e) →
  (∀ n x, new = Some n → x ∈ rl_sorted e → prev ≠ Some x →
     HashStr (σ x) = HashStr (σ n) → x = n) →
  ∃ e', relist σ e prev new = Some e' ∧ rl_inv σ e' ∧
    ∀ l, l ∈ rl_sorted e' ↔ (l ∈ rl_sorted e ∧ prev ≠ Some l) ∨ new = Some l.
Proof.
  intros Hi Hp Hn.
  assert (∃ e1, match prev with Some p => fst <$> rl_delete σ e p | None => Some e end = Some e1 ∧
            rl_inv σ e1 ∧ ∀ l, l ∈ rl_sorted e1 ↔ l ∈ rl_sorted e ∧ prev ≠ Some l)
    as (e1 & He1 & Hi1 & Hs1).
  { destruct prev as [p|]; [|exists e; naive_solver].
    destruct (rl_delete_old σ e p) as (e1 & He & ? & Hs); [by auto..|].
    exists e1. rewrite He. split_and!; [done|done|]. intros l. rewrite Hs. naive_solver. }
  unfold relist. rewrite He1. simpl.
  destruct new as [n|]; [|exists e1; naive_solver].
  destruct (decide (n ∈ rl_sorted e1)) as [Hin|Hnin].
  - exists e1. rewrite (rl_add_old σ e1 n n) by done. naive_solver.
  - destruct (rl_add_new σ e1 n Hi1) as (e2 & He & ? & Hs).
    { intros x [Hx Hpx]%Hs1 Hh. apply Hnin, Hs1. by rewrite <-(Hn n x). }
    exists e2. rewrite He. split_and!; [done|done|]. intros l. rewrite Hs. naive_solver.
Qed.

(** The sorted list follows the change of the ready transaction of a queue. *)
Lemma relist_inv σ w k a a' prev new :
  hash_from σ → worker_inv σ w → pool w !! k = Some a → queue_ok σ k a' →
  ready_change a a' prev new →
  ∃ e, relist σ (txSortedList w) prev new = Some e ∧
    worker_inv σ (set_list (set_queue w k a') e).
Proof.
  intros Hhash (Hq & Hl & Hr) Ha Ha' (Hp & Hnone & Hnew).
  assert (∀ k' x l, pool w !! k' = Some x → readyTx x = Some l → FromStr (σ l) = k') as Hfrom.
  { intros k' x l Hx Hrx. destruct (Hq _ _ Hx) as (_ & _ & Ht). apply Ht. by left. }
  destruct (relist_elems σ (txSortedList w) prev new) as (e & He & Hi & Hs); [done| | |].
  { intros p Hpp. apply Hr. eauto. }
  { intros n x Hn (k' & y & Hy & Hry)%Hr Hprev Hh.
    assert (readyTx a' = Some n) as Hn' by naive_solver.
    assert (k' = k) as ->.
    { destruct Ha' as (_ & _ & Ht'). rewrite <-(Hfrom k' y x), <-(Ht' n) by (done || by left).
      by apply Hhash. }
    destruct prev as [p|]; [specialize (Hp p eq_refl)|]; simplify_eq.
    destruct (Hnone eq_refl); congruence. }
  exists e. split; [done|]. split_and!; simpl; [|done|].
  - intros k' x. rewrite lookup_insert. case_decide; subst; [by intros [= <-]|apply Hq].
  - intros l. rewrite Hs, Hr. setoid_rewrite lookup_insert. split.
    + intros [[(k' & x & Hx & Hrx) Hpl]|Hl2].
      * destruct (decide (k = k')) as [->|Hne]; [|exists k', x; by rewrite decide_False].
        exists k', a'. rewrite decide_True by done. split; [done|]. simplify_eq.
        destruct prev as [p|]; [rewrite (Hp p eq_refl) in Hrx; congruence|].
        destruct (Hnone eq_refl); congruence.
      * exists k, a'. rewrite decide_True by done. naive_solver.
    + intros (k' & x & Hx & Hrx). case_decide as Hkk; simplify_eq.
      * destruct Hnew as [->|(-> & -> & Heq)]; [by right|]. left. split; [|done].
        exists k', a. split; congruence.
      * left. split; [eauto|]. intros ->. apply Hkk.
        rewrite <-(Hfrom k' x l), <-(Hfrom k a l) by auto. done.
Qed.

(** What [newTxTracker] establishes of the trackers. *)
Definition store_ok (σ : store) : Prop :=
  (∀ l, FromStr (σ l) = addr_String (From (σ l))) ∧ hash_from σ.

Lemma store_ok_static σ σ' : static_eq σ' σ → store_ok σ → store_ok σ'.
Proof.
  intros Hs [Hf Hh]. split; [|by apply (hash_from_proper σ' σ Hs)].
  intros l. specialize (Hf l). specialize (Hs l). unfold static in Hs. congruence.
Qed.

Lemma commit_inv σ w tx addr :
  store_ok σ → worker_inv σ w → pool w !! FromStr (σ tx) = Some addr →
  ∃ w' rep err, addTx_commit σ w tx addr = Some (w', rep, err) ∧ worker_inv σ w' ∧
    ∀ k, k ≠ FromStr (σ tx) → pool w' !! k = pool w !! k.
Proof.
  intros [_ Hh] Hw Ha. unfold addTx_commit.
  destruct (addTx σ addr tx) as [a' res] eqn:Hadd.
  destruct (addTx_change _ _ _ _ _ Hadd) as (Hf & Ht & Hres).
  pose proof Hw as (Hq & _). destruct (Hq _ _ Ha) as (Hai & Haf & Hat).
  assert (queue_ok σ (FromStr (σ tx)) a') as Ha'.
  { split_and!; [by eapply addTx_inv|congruence|].
    intros l Hl. by destruct (Ht l Hl) as [?%Hat| ->]. }
  destruct (dropReason res).
  - subst a'. eexists _, _, _. split; [done|]. split; [by eapply set_queue_inv|].
    intros k Hk. simpl. by rewrite lookup_insert_ne.
  - destruct (relist_inv σ w (FromStr (σ tx)) addr a' (prevReadyTx res) (newReadyTx res))
      as (e & He & Hw'); [done..|].
    simpl. rewrite He. eexists _, _, _. split; [done|]. split; [done|].
    intros k Hk. simpl. by rewrite lookup_insert_ne.
Qed.

Lemma fetch_queue_ok `{!stateInterface} σ tx addr :
  store_ok σ → addTx_fetch σ tx = Ret addr →
  queue_ok σ (FromStr (σ tx)) addr ∧ readyTx addr = None.
Proof.
  intros [Hf _] Hfe. unfold addTx_fetch in Hfe.
  apply GoRes_bind_ret in Hfe as (root & _ & Hfe).
  apply GoRes_bind_ret in Hfe as (nonce & _ & Hfe).
  apply GoRes_bind_ret in Hfe as (balance & _ & Hfe). simplify_eq. split; [|done].
  split_and!; [apply newAddrQueue_inv|by rewrite Hf|].
  intros l [?|[n Hn]]; simpl in *; [done|]. by rewrite lookup_empty in Hn.
Qed.

Lemma applyAddressUpdate_inv σ w from nonce balance order :
  store_ok σ → worker_inv σ w →
  (∀ a, pool w !! addr_String from = Some a → map_order (notReadyTxs a) order) →
  ∃ σ' w' nr pr del,
    applyAddressUpdate σ w from nonce balance order = Some (σ', w', nr, pr, del) ∧
    worker_inv σ' w' ∧ static_eq σ' σ ∧
    (∀ k, k ≠ addr_String from → pool w' !! k = pool w !! k) ∧
    (∀ k, pool w !! k = None → pool w' !! k = None).
Proof.
  intros Hok Hw Ho. unfold applyAddressUpdate.
  destruct (pool w !! addr_String from) as [a|] eqn:Ha;
    [|by exists σ, w, None, None, []].
  pose proof Hw as (Hq & _). destruct (Hq _ _ Ha) as (Hai & Haf & Hat).
  destruct (updateCurrentNonceBalance _ _ _ _ _) as [[[[σ' a'] nr] pr] del] eqn:Hu.
  destruct (update_change _ _ _ _ _ _ _ _ _ _ (proj2 Hai) (Ho a eq_refl) Hu) as [Ht Hch].
  destruct (updateCurrentNonceBalance_inv _ _ _ _ _ _ _ _ _ _ Hai (Ho a eq_refl) Hu)
    as [Hai' Hs].
  destruct (relist_inv σ' w (addr_String from) a a' pr nr) as (e & He & Hw'); [| |done| |done|].
  { by eapply store_ok_static. }
  { by eapply worker_inv_static. }
  { split_and!; [done|apply update_fromStr in Hu; congruence|].
    intros l Hl. rewrite (static_FromStr _ _ Hs). by apply Hat, Ht. }
  simpl. rewrite He. eexists _, _, _, _, _. split; [done|]. split_and!; [done|done| |].
  - intros k Hk. simpl. by rewrite lookup_insert_ne.
  - intros k Hk. simpl. rewrite lookup_insert_ne; [done|congruence].
Qed.

Lemma touched_loop_inv from touched orders addrs : ∀ σ w txs,
  store_ok σ → worker_inv σ w → NoDup addrs →
  (∀ addr a, addr ∈ addrs → pool w !! addr_String addr = Some a → addr ≠ from →
     map_order (notReadyTxs a) (orders addr)) →
  ∃ σ' w' del, touched_loop σ w from touched addrs orders txs = Some (σ', w', del) ∧
    worker_inv σ' w' ∧ static_eq σ' σ ∧ (∀ k, pool w !! k = None → pool w' !! k = None).
Proof.
  induction addrs as [|addr addrs IH]; intros σ w txs Hok Hw Hnd Ho; simpl.
  { by exists σ, w, txs. }
  apply NoDup_cons in Hnd as [Hni Hnd].
  destruct (touched !! addr) as [info|]; [|apply IH; set_solver].
  destruct (decide (addr = from)) as [->|Hne]; [apply IH; set_solver|].
  destruct (applyAddressUpdate_inv σ w addr None (infoBalance info) (orders addr))
    as (σ1 & w1 & nr & pr & del & -> & Hw1 & Hs1 & Hk1 & Hn1); [done|done|set_solver|].
  simpl. destruct (IH σ1 w1 (txs ++ del)) as (σ' & w' & del' & -> & ? & Hs & Hn);
    [by eapply store_ok_static|done|done| |].
  { intros addr' a Hin Ha' Hne'. rewrite Hk1 in Ha'; [apply Ho; set_solver|].
    intros Heq%(inj _). set_solver. }
  eexists _, _, _. split_and!; [done|done|by etrans|auto].
Qed.

(** The order in which Go visits the touched addresses and their queues. *)
Definition touched_orders (w : Worker T) (addrs : list Z) (orders : Z → list Z) : Prop :=
  NoDup addrs ∧ ∀ addr a, pool w !! addr_String addr = Some a →
    map_order (notReadyTxs a) (orders addr).

Lemma UpdateAfter_inv σ w from touched addrs orders :
  store_ok σ → worker_inv σ w → touched_orders w addrs orders →
  ∃ σ' w' del,
    UpdateAfterSingleSuccessfulTxExecution σ w from touched addrs orders = Some (σ', w', del) ∧
    worker_inv σ' w' ∧ static_eq σ' σ ∧ (∀ k, pool w !! k = None → pool w' !! k = None).
Proof.
  intros Hok Hw [Hnd Ho]. unfold UpdateAfterSingleSuccessfulTxExecution.
  destruct (touched !! from) as [info|]; [|apply touched_loop_inv; eauto].
  destruct (applyAddressUpdate_inv σ w from (infoNonce info) (infoBalance info) (orders from))
    as (σ1 & w1 & nr & pr & del & -> & Hw1 & Hs1 & Hk1 & Hn1); [by eauto..|].
  simpl. destruct (touched_loop_inv from touched orders addrs σ1 w1 del)
    as (σ' & w' & del' & -> & ? & ? & ?); [by eapply store_ok_static|done|done| |].
  { intros addr a _ Ha Hne. rewrite Hk1 in Ha; [by apply Ho|]. by intros ?%(inj _). }
  eexists _, _, _. split_and!; [done|done|by etrans|auto].
Qed.

Lemma DeleteTx_inv σ w txHash addr order :
  store_ok σ → worker_inv σ w →
  ∃ w', DeleteTx σ w txHash addr order = Some w' ∧ worker_inv σ w' ∧
    (∀ k, pool w !! k = None → pool w' !! k = None).
Proof.
  intros [_ Hh] Hw. unfold DeleteTx.
  destruct (pool w !! addr_String addr) as [a|] eqn:Ha; [|by exists w].
  destruct (deleteTx σ a txHash order) as [a' prev] eqn:Hd.
  destruct (deleteTx_change _ _ _ _ _ _ Hd) as (Hf & Ht & Hch).
  pose proof Hw as (Hq & _). destruct (Hq _ _ Ha) as (Hai & Haf & Hat).
  destruct (relist_inv σ w (addr_String addr) a a' prev None) as (e & He & Hw'); [done..| |done|].
  { split_and!; [by eapply deleteTx_inv|congruence|]. intros l Hl. by apply Hat, Ht. }
  simpl. rewrite He. eexists. split; [done|]. split; [done|].
  intros k Hk. simpl. rewrite lookup_insert_ne; [done|congruence].
Qed.

Definition drop_queue (w : Worker T) (k : string) : Worker T :=
  mkWorker (delete k (pool w)) (txSortedList w) (batchConstraints w).

Lemma drop_queue_inv σ w k a :
  worker_inv σ w → pool w !! k = Some a → IsEmpty a = true → worker_inv σ (drop_queue w k).
Proof.
  intros (Hq & Hl & Hr) Ha He. split_and!; simpl; [|done|].
  - intros k' x [_ Hx]%lookup_delete_Some. by apply Hq.
  - intros l. rewrite Hr. setoid_rewrite lookup_delete_Some.
    split; [|naive_solver]. intros (k' & x & Hx & Hrx). exists k', x. split_and!; [|done..].
    intros <-. simplify_eq. unfold IsEmpty in He. by rewrite Hrx in He.
Qed.

Lemma expire_loop_inv σ maxTime clock orders addrs : store_ok σ → ∀ w txs,
  worker_inv σ w →
  ∃ w' txs', Worker_expire_loop σ w maxTime clock orders addrs txs = Some (w', txs') ∧
    worker_inv σ w' ∧ (∀ k, pool w !! k = None → pool w' !! k = None).
Proof.
  intros [Hf Hh]. induction addrs as [|k addrs IH]; intros w txs Hw; simpl.
  { by exists w, txs. }
  destruct (pool w !! k) as [a|] eqn:Ha; [|by apply IH].
  destruct (ExpireTransactions _ _ _ _ _) as [[a' sub] prev] eqn:He.
  pose proof Hw as (Hq & _). destruct (Hq _ _ Ha) as (Hai & Haf & Hat).
  destruct (Expire_change _ _ _ _ _ _ _ _ (proj2 Hai) He) as (Hfs & Ht & Hch).
  destruct (relist_inv σ w k a a' prev None) as (e & Hre & Hw'); [done..| |done|].
  { split_and!; [by eapply ExpireTransactions_inv|congruence|]. intros l Hl. by apply Hat, Ht. }
  simpl in *. rewrite Hre. simpl. destruct (IsEmpty a') eqn:Hemp.
  - destruct (IH (drop_queue (set_list (set_queue w k a') e) (fromStr a')) (txs ++ sub))
      as (w' & txs' & Hl & ? & Hn).
    { eapply drop_queue_inv; [done| |done]. simpl. rewrite Hfs, Haf. apply lookup_insert_eq. }
    exists w', txs'. split_and!; [done|done|]. intros k' Hk'. apply Hn. simpl.
    rewrite lookup_delete_None, lookup_insert_ne; [auto|congruence].
  - destruct (IH _ (txs ++ sub) Hw') as (w' & txs' & Hl & ? & Hn).
    exists w', txs'. split_and!; [done|done|]. intros k' Hk'. apply Hn. simpl.
    rewrite lookup_insert_ne; [done|congruence].
Qed.

(** The operations on forced and pending transactions. *)
Definition side_op (σ : store) (f : addrQueue → addrQueue) : Prop :=
  ∀ a, readyTx (f a) = readyTx a ∧ notReadyTxs (f a) = notReadyTxs a ∧
    fromStr (f a) = fromStr a ∧ (aq_inv σ a → aq_inv σ (f a)).

Definition on_queue (w : Worker T) (addr : Z) (f : addrQueue → addrQueue) : Worker T :=
  match pool w !! addr_String addr with
  | Some a => set_queue w (addr_String addr) (f a)
  | None => w
  end.

Lemma on_queue_inv σ w addr f :
  side_op σ f → worker_inv σ w →
  worker_inv σ (on_queue w addr f) ∧
  ∀ k, pool w !! k = None → pool (on_queue w addr f) !! k = None.
Proof.
  intros Hf Hw. unfold on_queue.
  destruct (pool w !! addr_String addr) as [a|] eqn:Ha; [|done].
  destruct (Hf a) as (Hr & Hn & Hfs & Hi). pose proof Hw as (Hq & _).
  destruct (Hq _ _ Ha) as (Hai & Haf & Hat). split.
  - eapply set_queue_inv; [done..| |done]. split_and!; [by apply Hi|congruence|].
    unfold tracked. rewrite Hr, Hn. apply Hat.
  - intros k Hk. simpl. rewrite lookup_insert_ne; [done|congruence].
Qed.

Lemma side_ops σ h :
  side_op σ (λ a, deleteForcedTx a h) ∧ side_op σ (λ a, addForcedTx a h) ∧
  side_op σ (λ a, addPendingTxToStore a h) ∧ side_op σ (λ a, deletePendingTxToStore a h).
Proof.
  unfold side_op, deleteForcedTx, addForcedTx, addPendingTxToStore, deletePendingTxToStore.
  by split_and!; intros a; split_and!; repeat case_match.
Qed.
End worker_inv.

(** ** Interleavings *)

(** The worker's methods run under its mutex, so each is one step, except
    [AddTxTracker], which releases the mutex while it reads the state for an
    unknown sender: [ws_add_begin] is its part before, [ws_add_end] its part
    after, and [inflight] the calls in between.  [limit] bounds the number of
    calls of [AddTxTracker] that can be between the two parts. *)
Record wconfig (T : Type) := mkConfig {
  c_store : store;
  c_worker : Worker T;
  inflight : list (loc * addrQueue)
}.
Arguments mkConfig {T}.
Arguments c_store {T}.
Arguments c_worker {T}.
Arguments inflight {T}.

Section interleavings.
Context `{!EthStrings, !stateInterface} {T : Type} `{!ReadyListOps T, !ReadyList T}.
Implicit Types (σ : store) (w : Worker T) (fl : list (loc * addrQueue)).

Inductive wstep (limit : nat) : wconfig T → wconfig T → Prop :=
  | ws_add_found σ w fl tx addr w' rep err :
      addTx_admit σ w tx = None → pool w !! FromStr (σ tx) = Some addr →
      addTx_commit σ w tx addr = Some (w', rep, err) →
      wstep limit (mkConfig σ w fl) (mkConfig σ w' fl)
  | ws_add_begin σ w fl tx addr :
      addTx_admit σ w tx = None → pool w !! FromStr (σ tx) = None →
      addTx_fetch σ tx = Ret addr → (length fl < limit)%nat →
      wstep limit (mkConfig σ w fl) (mkConfig σ w ((tx, addr) :: fl))
  | ws_add_end σ w fl1 fl2 tx addr w' rep err :
      addTx_commit σ (set_queue w (FromStr (σ tx)) addr) tx addr = Some (w', rep, err) →
      wstep limit (mkConfig σ w (fl1 ++ (tx, addr) :: fl2)) (mkConfig σ w' (fl1 ++ fl2))
  | ws_update σ w fl from touched addrs orders σ' w' del :
      touched_orders w addrs orders →
      UpdateAfterSingleSuccessfulTxExecution σ w from touched addrs orders
        = Some (σ', w', del) →
      wstep limit (mkConfig σ w fl) (mkConfig σ' w' fl)
  | ws_move σ w fl h from nonce balance order σ' w' del :
      (∀ a, pool w !! addr_String from = Some a → map_order (notReadyTxs a) order) →
      MoveTxToNotReady σ w h from nonce balance order = Some (σ', w', del) →
      wstep limit (mkConfig σ w fl) (mkConfig σ' w' fl)
  | ws_delete σ w fl h addr order w' :
      DeleteTx σ w h addr order = Some w' →
      wstep limit (mkConfig σ w fl) (mkConfig σ w' fl)
  | ws_delete_forced σ w fl h addr :
      wstep limit (mkConfig σ w fl) (mkConfig σ (DeleteForcedTx w h addr) fl)
  | ws_counters σ w fl h addr z order :
      wstep limit (mkConfig σ w fl)
        (mkConfig (Worker_UpdateTxZKCounters σ w h addr z order) w fl)
  | ws_add_pending σ w fl h addr :
      wstep limit (mkConfig σ w fl) (mkConfig σ (AddPendingTxToStore w h addr) fl)
  | ws_add_forced σ w fl h addr :
      wstep limit (mkConfig σ w fl) (mkConfig σ (AddForcedTx w h addr) fl)
  | ws_delete_pending σ w fl h addr :
      wstep limit (mkConfig σ w fl) (mkConfig σ (DeletePendingTxToStore w h addr) fl)
  | ws_expire σ w fl maxTime clock orders addrs w' txs :
      Worker_ExpireTransactions σ w maxTime clock orders addrs = Some (w', txs) →
      wstep limit (mkConfig σ w fl) (mkConfig σ w' fl).

(** A queue under construction is empty and its sender has none yet. *)
Definition inflight_ok (σ : store) (w : Worker T) (fl : list (loc * addrQueue)) : Prop :=
  ∀ tx addr, (tx, addr) ∈ fl →
    queue_ok σ (FromStr (σ tx)) addr ∧ readyTx addr = None ∧ pool w !! FromStr (σ tx) = None.

Definition config_ok (c : wconfig T) : Prop :=
  store_ok (c_store c) ∧ worker_inv (c_store c) (c_worker c) ∧
  inflight_ok (c_store c) (c_worker c) (inflight c) ∧ (length (inflight c) ≤ 1)%nat.

Lemma inflight_ok_mono σ σ' w w' fl :
  static_eq σ' σ → (∀ k, pool w !! k = None → pool w' !! k = None) →
  inflight_ok σ w fl → inflight_ok σ' w' fl.
Proof.
  intros Hs Hn Hfl tx addr Hin. destruct (Hfl tx addr Hin) as (Hq & Hr & Hp).
  rewrite (static_FromStr _ _ Hs). split_and!; [by eapply queue_ok_static|done|auto].
Qed.

Lemma config_ok_mono σ σ' w w' fl :
  config_ok (mkConfig σ w fl) → static_eq σ' σ → worker_inv σ' w' →
  (∀ k, pool w !! k = None → pool w' !! k = None) → config_ok (mkConfig σ' w' fl).
Proof.
  intros (Hok & Hw & Hfl & Hlen) Hs Hw' Hn. split_and!; simpl in *; [|done| |done].
  - by eapply store_ok_static.
  - by eapply inflight_ok_mono.
Qed.

Lemma add_end_inv σ w tx addr :
  store_ok σ → worker_inv σ w → inflight_ok σ w [(tx, addr)] →
  ∃ w' rep err,
    addTx_commit σ (set_queue w (FromStr (σ tx)) addr) tx addr = Some (w', rep, err) ∧
    worker_inv σ w'.
Proof.
  intros Hok Hw Hfl. destruct (Hfl tx addr) as (Hq & Hr & Hp); [by left|].
  destruct (commit_inv σ (set_queue w (FromStr (σ tx)) addr) tx addr)
    as (w' & rep & err & ? & ? & _); [done| | |eauto].
  - by apply new_queue_inv.
  - apply lookup_insert_eq.
Qed.


Lemma wstep_config_ok c c' : wstep 1 c c' → config_ok c → config_ok c'.
Proof.
  intros Hst Hc. pose proof Hc as (Hok & Hw & Hfl & Hlen).
  destruct Hst as [σ w fl tx addr w' rep err _ Ha Hcm|σ w fl tx addr _ Hp Hfe Hlt
    |σ w fl1 fl2 tx addr w' rep err Hcm|σ w fl from touched addrs orders σ' w' del Ho Hu
    |σ w fl h from nonce balance order σ' w' del Ho Hu|σ w fl h addr order w' Hd
    |σ w fl h addr|σ w fl h addr z order|σ w fl h addr|σ w fl h addr|σ w fl h addr
    |σ w fl maxTime clock orders addrs w' txs He]; simpl in *.
  - destruct (commit_inv σ w tx addr) as (? & ? & ? & Hcm' & ? & Hk); [done..|].
    simplify_eq. eapply config_ok_mono; [done..|]. intros k Hn. rewrite Hk; congruence.
  - split_and!; simpl in *; [done|done| |lia]. destruct fl; [|simpl in *; lia].
    destruct (fetch_queue_ok σ tx addr) as [Hq Hr]; [done..|].
    intros tx' addr' [= -> ->]%list_elem_of_singleton. done.
  - destruct fl1 as [|? fl1]; [destruct fl2; [|simpl in *; lia]
      |rewrite length_app in Hlen; simpl in *; lia].
    destruct (add_end_inv σ w tx addr) as (? & ? & ? & Hcm' & ?); [done..|].
    simplify_eq. split_and!; simpl; [done|done| |lia]. by intros ?? ?%not_elem_of_nil.
  - destruct (UpdateAfter_inv σ w from touched addrs orders)
      as (? & ? & ? & Hu' & ? & ? & ?); [done..|].
    simplify_eq. by eapply config_ok_mono.
  - destruct (applyAddressUpdate_inv σ w from nonce balance order)
      as (? & ? & ? & ? & ? & Hu' & ? & ? & _ & ?); [done..|].
    unfold MoveTxToNotReady in Hu. rewrite Hu' in Hu. simplify_eq/=.
    by eapply config_ok_mono.
  - destruct (DeleteTx_inv σ w h addr order) as (? & ? & ? & ?); [done..|].
    simplify_eq. by eapply config_ok_mono.
  - destruct (on_queue_inv σ w addr _ (proj1 (side_ops σ h)) Hw).
    by eapply config_ok_mono.
  - assert (static_eq (Worker_UpdateTxZKCounters σ w h addr z order) σ) as Hs.
    { unfold Worker_UpdateTxZKCounters. case_match; [apply UpdateTxZKCounters_static|done]. }
    eapply config_ok_mono; [done|done| |done]. by eapply worker_inv_static.
  - destruct (on_queue_inv σ w addr _ (proj1 (proj2 (proj2 (side_ops σ h)))) Hw).
    by eapply config_ok_mono.
  - destruct (on_queue_inv σ w addr _ (proj1 (proj2 (side_ops σ h))) Hw).
    by eapply config_ok_mono.
  - destruct (on_queue_inv σ w addr _ (proj2 (proj2 (proj2 (side_ops σ h)))) Hw).
    by eapply config_ok_mono.
  - destruct (expire_loop_inv σ maxTime clock orders addrs Hok w [])
      as (? & ? & He' & ? & ?); [done|].
    unfold Worker_ExpireTransactions in He. simplify_eq. by eapply config_ok_mono.
Qed.

Lemma reachable_config_ok σ0 constraints c :
  store_ok σ0 → rtc (wstep 1) (mkConfig σ0 (NewWorker constraints) []) c → config_ok c.
Proof.
  intros Hok Hr. assert (config_ok (mkConfig σ0 (NewWorker constraints) [])) as Hinit.
  { split_and!; simpl; [done|apply NewWorker_inv| |lia]. by intros ?? ?%not_elem_of_nil. }
  revert Hinit. induction Hr; eauto using wstep_config_ok.
Qed.

(** C1. With one caller of [AddTxTracker], as in [loadFromPool], every
    interleaving of the worker's operations keeps the pool and the sorted list
    in agreement: each queue is well formed and holds transactions of its
    sender only, and the list holds exactly the ready transactions of the
    queues, whatever happens while the mutex is released. *)
Theorem worker_consistent σ0 constraints σ w fl :
  store_ok σ0 →
  rtc (wstep 1) (mkConfig σ0 (NewWorker constraints) []) (mkConfig σ w fl) →
  (∀ k a, pool w !! k = Some a → queue_ok σ k a) ∧
  rl_inv σ (txSortedList w) ∧
  (∀ l, l ∈ rl_sorted (txSortedList w) ↔ ∃ k a, pool w !! k = Some a ∧ readyTx a = Some l).
Proof. intros Hok Hr. apply (reachable_config_ok _ _ _ Hok Hr). Qed.

(** C33. With one caller of [AddTxTracker], and trackers whose hashes determine
    their senders, each operation of the worker that edits the sorted list
    returns in every reachable state, whatever the order in which Go visits
    its maps: [AddTxTracker] on both sides of the released mutex,
    [UpdateAfterSingleSuccessfulTxExecution], [MoveTxToNotReady], [DeleteTx]
    and [ExpireTransactions].  None of the slice accesses they reach is out of
    range. *)
Theorem worker_never_panics σ0 constraints σ w fl :
  store_ok σ0 →
  rtc (wstep 1) (mkConfig σ0 (NewWorker constraints) []) (mkConfig σ w fl) →
  (∀ tx addr, (tx, addr) ∈ fl →
     addTx_commit σ (set_queue w (FromStr (σ tx)) addr) tx addr ≠ None) ∧
  (∀ tx addr, pool w !! FromStr (σ tx) = Some addr → addTx_commit σ w tx addr ≠ None) ∧
  (∀ from touched addrs orders, touched_orders w addrs orders →
     UpdateAfterSingleSuccessfulTxExecution σ w from touched addrs orders ≠ None) ∧
  (∀ h from nonce balance order,
     (∀ a, pool w !! addr_String from = Some a → map_order (notReadyTxs a) order) →
     MoveTxToNotReady σ w h from nonce balance order ≠ None) ∧
  (∀ h addr order, DeleteTx σ w h addr order ≠ None) ∧
  (∀ maxTime clock orders addrs,
     Worker_ExpireTransactions σ w maxTime clock orders addrs ≠ None).
Proof.
  intros Hok0 Hr. destruct (reachable_config_ok _ _ _ Hok0 Hr) as (Hok & Hw & Hfl & Hlen).
  simpl in *. split_and!.
  - intros tx addr Hin. destruct (add_end_inv σ w tx addr) as (? & ? & ? & -> & _); [done..| |done].
    by intros ?? [= -> ->]%list_elem_of_singleton; apply Hfl.
  - intros tx addr Ha. by destruct (commit_inv σ w tx addr) as (? & ? & ? & -> & _).
  - intros from touched addrs orders Ho.
    by destruct (UpdateAfter_inv σ w from touched addrs orders) as (? & ? & ? & -> & _).
  - intros h from nonce balance order Ho. unfold MoveTxToNotReady.
    by destruct (applyAddressUpdate_inv σ w from nonce balance order)
      as (? & ? & ? & ? & ? & -> & _).
  - intros h addr order. by destruct (DeleteTx_inv σ w h addr order) as (? & -> & _).
  - intros maxTime clock orders addrs. unfold Worker_ExpireTransactions.
    by destruct (expire_loop_inv σ maxTime clock orders addrs Hok w []) as (? & ? & -> & _).
Qed.
End interleavings.

(** ** A concrete run *)

Module WorkerRun.
#[local] Existing Instance Samples.dec_strings.
#[local] Instance run_state : stateInterface :=
  {| GetLastStateRoot := Ret 1; GetNonceByStateRoot _ _ := Ret 5;
     GetBalanceByStateRoot _ _ := Ret 100 |}.
Definition run_constraints : BatchConstraintsCfg := cfg_const 300 120000 1000000 1000.
Definition w_init : Worker TxList.txSortedList := NewWorker run_constraints.
Definition run (limit : nat) : wconfig TxList.txSortedList → wconfig TxList.txSortedList → Prop :=
  rtc (wstep limit).
Definition q_new : addrQueue := newAddrQueue 7 5 100.

Lemma σ0_ok : store_ok Samples.σ0.
Proof.
  assert (∀ l, FromStr (Samples.σ0 l) = "7") as Hf by (by intros [|[|l]]).
  split; [by intros [|[|l]]|]. intros l l' _. by rewrite !Hf.
Qed.

(** The worker after tracker [tx] has been committed to the queue [a]. *)
Definition committed (w : Worker TxList.txSortedList) (tx : loc) (a : addrQueue) :
    Worker TxList.txSortedList :=
  match addTx_commit Samples.σ0 (set_queue w "7" a) tx a with
  | Some (w', _, _) => w'
  | None => w
  end.

Lemma run_one : run 1 (mkConfig Samples.σ0 w_init [])
                      (mkConfig Samples.σ0 (committed w_init 0 q_new) []).
Proof.
  eapply rtc_l; [apply (ws_add_begin 1 _ _ _ 0 q_new); [done..|simpl; lia]|].
  eapply rtc_once. by eapply (ws_add_end 1 _ _ [] [] 0).
Qed.

Lemma worker_consistent_witness :
  0%nat ∈ TxList.sorted (txSortedList (committed w_init 0 q_new)) ∧
  ∃ k a, pool (committed w_init 0 q_new) !! k = Some a ∧ readyTx a = Some 0%nat.
Proof.
  destruct (worker_consistent Samples.σ0 run_constraints Samples.σ0
              (committed w_init 0 q_new) [] σ0_ok run_one) as (_ & _ & Hr).
  assert (0%nat ∈ TxList.sorted (txSortedList (committed w_init 0 q_new))) as Hin by (by left).
  split; [exact Hin|]. apply (proj1 (Hr 0%nat)). exact Hin.
Defined.

Lemma worker_never_panics_witness :
  MoveTxToNotReady Samples.σ0 (committed w_init 0 q_new) 100 7 (Some 6) None [] ≠ None ∧
  DeleteTx Samples.σ0 (committed w_init 0 q_new) 100 7 [] ≠ None ∧
  Worker_ExpireTransactions Samples.σ0 (committed w_init 0 q_new) 1 (λ _ _, 1000)
    (λ _, []) ["7"] ≠ None.
Proof.
  destruct (worker_never_panics Samples.σ0 run_constraints Samples.σ0
              (committed w_init 0 q_new) [] σ0_ok run_one) as (_ & _ & _ & Hm & Hd & He).
  split_and!; [apply Hm|apply Hd|apply He].
  intros a Ha. assert (notReadyTxs a = ∅) as ->; [vm_compute in Ha; by simplify_eq|].
  split; [apply NoDup_nil_2|]. intros k. rewrite lookup_empty. split; [by intros ?%not_elem_of_nil|by intros [? ?]].
Defined.

(** The single caller is needed: when two calls of [AddTxTracker] for a
    new sender overlap in the window in which the mutex is released, the queue
    of the second overwrites the queue of the first, and a transaction stays
    in the sorted list, ready to be selected, that no queue holds. *)
Theorem overlapping_adds_orphan_ready :
  ∃ σ w l, run 2 (mkConfig Samples.σ0 w_init []) (mkConfig σ w []) ∧
    l ∈ rl_sorted (txSortedList w) ∧
    ∀ k a, pool w !! k = Some a → ¬ tracked a l.
Proof.
  exists Samples.σ0, (committed (committed w_init 0 q_new) 2 q_new), 0%nat. split_and!.
  - eapply rtc_l; [apply (ws_add_begin 2 _ _ _ 0 q_new); [done..|simpl; lia]|].
    eapply rtc_l; [apply (ws_add_begin 2 _ _ _ 2 q_new); [done..|simpl; lia]|].
    eapply rtc_l; [by eapply (ws_add_end 2 _ _ [(2%nat, q_new)] [] 0)|].
    eapply rtc_once. by eapply (ws_add_end 2 _ _ [] [] 2).
  - by left.
  - assert (pool (committed (committed w_init 0 q_new) 2 q_new) =
            {["7" := mkAddrQueue 7 "7" 5 100 None {[6 := 2%nat]} ∅ ∅]}) as -> by done.
    intros k a [_ <-]%lookup_singleton_Some. intros [Hr|[n Hn]]; [done|]. simpl in Hn.
    by apply lookup_singleton_Some in Hn as [_ ?].
Qed.
End WorkerRun.
