(* ===== verification/BestFit.v ===== *)
(** * The parallel search of the best fitting transaction

    [GetBestFittingTx] of [sequencer/worker.go].  One goroutine per CPU scans
    the sorted list, goroutine [n] the indices [n], [n + nGoRoutines], ...; they
    share [foundAt] and [tx] under a mutex and each has its own copy
    [bresources] of the remaining resources.  A thread is modelled by its
    program point; the code between two acquisitions of the mutex is one step,
    and any thread can run at any time.  The list does not change meanwhile:
    the caller holds the worker's mutex. *)

From S2P Require Import Prelude Resources TxTracker TxSortedList.

Inductive BestFitErr := ErrTransactionsListEmpty | ErrNoFittingTransaction.

(** Program points of the goroutine: before the condition of the loop, after
    the check of [foundAt], before the update of [foundAt], and returned. *)
Inductive thread :=
  | Head (i : nat) (bresources : BatchResources)
  | Try (i : nat) (bresources : BatchResources)
  | Publish (i : nat) (txCandidate : loc)
  | Done.

#[export] Instance thread_done_dec th : Decision (th = Done).
Proof. refine (match th with Done => left eq_refl | _ => right _ end); discriminate. Defined.

Record shared := mkShared { foundAt : Z; found_tx : option loc }.

Section search.
Context (σ : store) (e : TxList.txSortedList) (nGoRoutines : nat).

(** [None] is a panic: [getByIndex] out of range. *)
Definition thread_step (th : thread) (s : shared) : option (thread * shared) :=
  match th with
  | Head i bresources =>
      if decide (i < TxList.len e)%nat then
        if negb (foundAt s =? -1) && (foundAt s <? Z.of_nat i) then Some (Done, s)
        else Some (Try i bresources, s)
      else Some (Done, s)
  | Try i bresources =>
      txCandidate ← TxList.getByIndex e i;
      match BatchResources_Sub bresources (Resources_ (σ txCandidate)) with
      | (bresources', Some err) => Some (Head (i + nGoRoutines) bresources', s)
      | (_, None) => Some (Publish i txCandidate, s)
      end
  | Publish i txCandidate =>
      if (foundAt s =? -1) || (Z.of_nat i <? foundAt s)
      then Some (Done, mkShared (Z.of_nat i) (Some txCandidate))
      else Some (Done, s)
  | Done => Some (Done, s)
  end.

Record search := mkSearch { threads : list thread; sh : shared }.

(** One step of goroutine [t], which has not returned. *)
Inductive search_step : search → search → Prop :=
  | search_step_thread ths s t th th' s' :
      ths !! t = Some th → th ≠ Done → thread_step th s = Some (th', s') →
      search_step (mkSearch ths s) (mkSearch (<[t := th']> ths) s').

Definition search_init (resources : BatchResources) : search :=
  mkSearch ((λ n, Head n resources) <$> seq 0 nGoRoutines) (mkShared (-1) None).

Definition all_done (c : search) : Prop := Forall (λ th, th = Done) (threads c).

(** The code after [wg.Wait()]. *)
Definition search_result (c : search) : BestFitErr + loc :=
  match found_tx (sh c) with
  | Some tx => if foundAt (sh c) =? -1 then inl ErrNoFittingTransaction else inr tx
  | None => inl ErrNoFittingTransaction
  end.

(** The whole method: the outcomes it can have under any scheduling. *)
Definition GetBestFittingTx (resources : BatchResources) (res : BestFitErr + loc) : Prop :=
  if decide (TxList.len e = 0%nat) then res = inl ErrTransactionsListEmpty
  else ∃ c, rtc search_step (search_init resources) c ∧ all_done c ∧ res = search_result c.

(** ** Specification *)

(** The index [i] holds a transaction that fits. *)
Definition fits_at (resources : BatchResources) (i : nat) : Prop :=
  ∃ l, TxList.sorted e !! i = Some l ∧ fits (Resources_ (σ l)) resources.

Context (resources : BatchResources).
Hypothesis Hn : (0 < nGoRoutines)%nat.
Hypothesis Hres : res_ok resources.
Hypothesis Htxs : ∀ l, l ∈ TxList.sorted e → res_ok (Resources_ (σ l)).

Definition shared_ok (s : shared) : Prop :=
  (foundAt s = -1 ∧ found_tx s = None) ∨
  ∃ i l, foundAt s = Z.of_nat i ∧ found_tx s = Some l ∧
    TxList.sorted e !! i = Some l ∧ fits (Resources_ (σ l)) resources.

(** Thread [t] is at index [i] of its stride and nothing before it fits. *)
Definition scanned (t i : nat) : Prop :=
  (i mod nGoRoutines = t)%nat ∧
  ∀ j, (j < i)%nat → (j mod nGoRoutines = t)%nat → ¬ fits_at resources j.

Definition thread_ok (t : nat) (th : thread) (s : shared) : Prop :=
  match th with
  | Head i b => b = resources ∧ scanned t i
  | Try i b => b = resources ∧ scanned t i ∧ (i < TxList.len e)%nat
  | Publish i l =>
      scanned t i ∧ TxList.sorted e !! i = Some l ∧ fits (Resources_ (σ l)) resources
  | Done =>
      ∀ j, (j mod nGoRoutines = t)%nat → fits_at resources j →
        foundAt s ≠ -1 ∧ foundAt s ≤ Z.of_nat j
  end.

Definition search_ok (c : search) : Prop :=
  length (threads c) = nGoRoutines ∧ shared_ok (sh c) ∧
  ∀ t th, threads c !! t = Some th → thread_ok t th (sh c).

Lemma stride_next i j :
  (j mod nGoRoutines = i mod nGoRoutines → i ≤ j < i + nGoRoutines → j = i)%nat.
Proof.
  intros Hm [Hle Hlt].
  pose proof (Nat.div_mod i nGoRoutines ltac:(lia)).
  pose proof (Nat.div_mod j nGoRoutines ltac:(lia)).
  assert (i / nGoRoutines = j / nGoRoutines)%nat as Heq; [|congruence].
  apply Nat.le_antisymm; [by apply Nat.Div0.div_le_mono|]. apply Nat.lt_succ_r. nia.
Qed.

Lemma scanned_next t i :
  scanned t i → ¬ fits_at resources i → scanned t (i + nGoRoutines).
Proof.
  intros [Hi Hs] Hf. split.
  { rewrite <-Hi. rewrite <-(Nat.mul_1_l nGoRoutines) at 1. by apply Nat.Div0.mod_add. }
  intros j Hj Hjt. destruct (decide (j < i)%nat); [by apply Hs|].
  rewrite (stride_next i j); [done|congruence|lia].
Qed.

(** [foundAt] only decreases once set. *)
Definition found_mono (s s' : shared) : Prop :=
  foundAt s = -1 ∨ (foundAt s' ≠ -1 ∧ foundAt s' ≤ foundAt s).

Lemma thread_ok_mono t th s s' : found_mono s s' → thread_ok t th s → thread_ok t th s'.
Proof.
  intros Hm. destruct th as [i b|i b|i l|]; simpl; try done.
  intros Hd j Hj Hf. destruct (Hd j Hj Hf). destruct Hm as [|[]]; [done|]. split; [done|lia].
Qed.

Lemma shared_ok_nonneg s : shared_ok s → foundAt s ≠ -1 → 0 ≤ foundAt s.
Proof. intros [[]|(i & l & -> & _)]; [done|lia]. Qed.

Lemma fits_at_lookup i l :
  TxList.sorted e !! i = Some l → fits_at resources i ↔ fits (Resources_ (σ l)) resources.
Proof. unfold fits_at. intros Hl. split; [|eauto]. intros (l' & Hl' & ?). congruence. Qed.

Lemma thread_step_ok t th s :
  th ≠ Done → thread_ok t th s → shared_ok s →
  ∃ th' s', thread_step th s = Some (th', s') ∧ thread_ok t th' s' ∧ shared_ok s' ∧
    found_mono s s'.
Proof.
  intros Hnd Hth Hs. assert (found_mono s s) as Hrefl.
  { destruct (decide (foundAt s = -1)); [by left|by right]. }
  destruct th as [i b|i b|i l|]; simpl in *; [| | |done].
  - destruct Hth as (-> & Hm & Hsc). case_decide as Hi.
    + destruct (negb _ && _) eqn:Hc; eexists _, _; (split; [done|]); split_and!; try done.
      apply andb_prop in Hc as [Hc1%negb_true_iff%Z.eqb_neq Hc2%Z.ltb_lt].
      intros j Hj Hf. split; [done|]. destruct (decide (j < i)%nat); [by destruct (Hsc j)|lia].
    + eexists _, _; (split; [done|]); split_and!; try done.
      intros j Hj Hf. destruct (Hsc j); [|done|done]. destruct Hf as (l & Hl & _).
      apply lookup_lt_Some in Hl. unfold TxList.len in Hi. lia.
  - destruct Hth as (-> & Hsc & Hi). destruct (lookup_lt_is_Some_2 _ _ Hi) as [l Hl].
    unfold TxList.getByIndex. rewrite Hl. simpl.
    pose proof (Htxs l (list_elem_of_lookup_2 _ _ _ Hl)) as Hlok.
    destruct (decide (fits (Resources_ (σ l)) resources)) as [Hf|Hf].
    + destruct (BatchResources_Sub_fits resources _ Hres Hlok Hf) as (r' & -> & _).
      eexists _, _. split; [done|]. done.
    + destruct (BatchResources_Sub_nofit resources _ Hres Hlok Hf) as (er & ->).
      eexists _, _. split; [done|]. split_and!; [|done..]. split; [done|].
      apply scanned_next; [done|]. by rewrite (fits_at_lookup i l).
  - destruct Hth as ((Hm & Hsc) & Hl & Hf).
    destruct ((foundAt s =? -1) || (Z.of_nat i <? foundAt s)) eqn:Hc;
      eexists _, _; (split; [done|]).
    + split_and!; simpl.
      * intros j Hj Hfj. destruct (decide (j < i)%nat); [by destruct (Hsc j)|lia].
      * right. exists i, l. done.
      * apply orb_prop in Hc as [?%Z.eqb_eq|?%Z.ltb_lt]; [by left|right; simpl; lia].
    + apply orb_false_elim in Hc as [Hc1%Z.eqb_neq Hc2%Z.ltb_ge]. split_and!; try done.
      intros j Hj Hfj. split; [done|]. destruct (decide (j < i)%nat); [by destruct (Hsc j)|lia].
Qed.

Lemma search_init_ok : search_ok (search_init resources).
Proof.
  unfold search_ok. simpl. split_and!.
  - by rewrite length_fmap, length_seq.
  - by left.
  - intros t th Ht. apply list_lookup_fmap_Some in Ht as (i & -> & Hi).
    apply lookup_seq in Hi as [-> Hi]. simpl. split; [done|]. split; [by apply Nat.mod_small|].
    intros j Hj Hjt. rewrite Nat.mod_small in Hjt; lia.
Qed.

Lemma search_step_ok c c' : search_step c c' → search_ok c → search_ok c'.
Proof.
  intros [ths s t th th' s' Ht Hnd Hst] (Hlen & Hs & Hths). simpl in *.
  destruct (thread_step_ok t th s) as (th1 & s1 & Hst' & Hth' & Hs' & Hmono); [by auto..|].
  simplify_eq. split_and!; simpl; [by rewrite length_insert|done|].
  intros t' th2 Ht'. destruct (decide (t = t')) as [<-|Hne].
  - rewrite list_lookup_insert_eq in Ht' by (by eapply lookup_lt_Some). by simplify_eq.
  - rewrite list_lookup_insert_ne in Ht' by done. by eapply thread_ok_mono, Hths.
Qed.

Lemma search_reach_ok c :
  rtc search_step (search_init resources) c → search_ok c.
Proof.
  intros Hr. pose proof search_init_ok as H0. revert H0.
  induction Hr; eauto using search_step_ok.
Qed.

(** A goroutine that has not returned can run. *)
Lemma search_progress c :
  search_ok c → ¬ all_done c → ∃ c', search_step c c'.
Proof.
  intros (_ & Hs & Hths) Hnd. unfold all_done in Hnd.
  apply not_Forall_Exists, Exists_exists in Hnd as (th & Hin & Hth); [|apply _].
  apply list_elem_of_lookup in Hin as [t Ht].
  destruct (thread_step_ok t th (sh c)) as (th' & s' & Hst & _); [done|auto|done|].
  destruct c as [ths s]. eexists. by eapply search_step_thread.
Qed.

(** Steps a goroutine has left. *)
Definition weight (th : thread) : nat :=
  match th with
  | Head i _ => 2 + 3 * (TxList.len e - i)
  | Try i _ => 1 + 3 * (TxList.len e - i)
  | Publish _ _ => 1
  | Done => 0
  end.

Definition search_measure (c : search) : nat := sum_list_with weight (threads c).

Lemma thread_step_weight t th s th' s' :
  th ≠ Done → thread_ok t th s → thread_step th s = Some (th', s') →
  (weight th' < weight th)%nat.
Proof.
  intros Hnd Hth Hst. destruct th as [i b|i b|i l|]; simpl in *; [| | |done].
  - repeat case_match; simplify_eq/=; lia.
  - destruct Hth as (_ & _ & Hi). destruct (TxList.getByIndex e i); [|done].
    simpl in Hst. repeat case_match; simplify_eq/=; lia.
  - repeat case_match; simplify_eq/=; lia.
Qed.

Lemma search_step_measure c c' :
  search_ok c → search_step c c' → (search_measure c' < search_measure c)%nat.
Proof.
  intros Hok Hstep. destruct Hstep as [ths s t th th' s' Ht Hnd Hst].
  destruct Hok as (_ & _ & Hths). simpl in *.
  pose proof (thread_step_weight t th s th' s' Hnd (Hths _ _ Ht) Hst) as Hw.
  unfold search_measure. simpl.
  rewrite <-(take_drop_middle ths t th Ht) at 2.
  rewrite (insert_take_drop ths t th') by (by eapply lookup_lt_Some).
  rewrite !sum_list_with_app. simpl. lia.
Qed.

Lemma search_terminates k c c' :
  search_ok c → nsteps search_step k c c' → (k + search_measure c' ≤ search_measure c)%nat.
Proof.
  intros Hok Hk. induction Hk as [c|k c c1 c' Hst Hk IH]; [lia|].
  pose proof (search_step_measure c c1 Hok Hst).
  specialize (IH (search_step_ok _ _ Hst Hok)). lia.
Qed.

Lemma search_reaches_done : ∀ c, search_ok c → ∃ c', rtc search_step c c' ∧ all_done c'.
Proof.
  induction c as [c IH] using (well_founded_induction (Wf_nat.well_founded_ltof _ search_measure)).
  intros Hok.
  destruct (decide (Forall (λ th, th = Done) (threads c))) as [Hd|Hnd];
    [by exists c; split; [apply rtc_refl|]|].
  destruct (search_progress c Hok Hnd) as [c1 Hst].
  destruct (IH c1) as (c' & ? & ?).
  - by apply search_step_measure.
  - by eapply search_step_ok.
  - exists c'. split; [by eapply rtc_l|done].
Qed.

Lemma search_done_first c :
  search_ok c → all_done c →
  match search_result c with
  | inr tx => ∃ i, TxList.sorted e !! i = Some tx ∧ fits_at resources i ∧
      ∀ j, fits_at resources j → (i ≤ j)%nat
  | inl err => err = ErrNoFittingTransaction ∧ ∀ j, ¬ fits_at resources j
  end.
Proof.
  intros (Hlen & Hs & Hths) Hd.
  assert (∀ j, fits_at resources j → foundAt (sh c) ≠ -1 ∧ foundAt (sh c) ≤ Z.of_nat j) as Hmin.
  { intros j Hj. destruct (lookup_lt_is_Some_2 (threads c) (j mod nGoRoutines)%nat) as [th Hth].
    { rewrite Hlen. apply Nat.mod_upper_bound. lia. }
    pose proof (Hths _ _ Hth) as Hok.
    rewrite (Forall_lookup_1 _ _ _ _ Hd Hth) in Hok. by apply Hok. }
  unfold search_result. destruct Hs as [[Hf ->]|(i & l & Hf & -> & Hl & Hfit)].
  - split; [done|]. intros j Hj. by destruct (Hmin j Hj).
  - rewrite Hf. rewrite (proj2 (Z.eqb_neq _ _)) by lia. exists i.
    split_and!; [done|by exists l|]. intros j Hj. destruct (Hmin j Hj). lia.
Qed.
End search.

(** ** Properties *)

(** C6. Under every scheduling of the goroutines [GetBestFittingTx] returns
    the same answer, the first transaction of the sorted list that fits into
    the remaining resources: it fits, everything that comes before it in the
    list does not, and so no transaction of the list that fits pays a higher
    gas price.  It returns an error only if no transaction fits. *)
Theorem GetBestFittingTx_best σ e nGoRoutines resources res :
  (0 < nGoRoutines)%nat → res_ok resources →
  (∀ l, l ∈ TxList.sorted e → res_ok (Resources_ (σ l))) → TxList.tl_inv σ e →
  GetBestFittingTx σ e nGoRoutines resources res →
  match res with
  | inr tx => ∃ i, TxList.sorted e !! i = Some tx ∧
      fits (Resources_ (σ tx)) resources ∧
      (∀ j l, TxList.sorted e !! j = Some l → fits (Resources_ (σ l)) resources →
         (i ≤ j)%nat ∧ GasPrice (σ l) ≤ GasPrice (σ tx))
  | inl ErrTransactionsListEmpty => TxList.sorted e = []
  | inl ErrNoFittingTransaction =>
      TxList.sorted e ≠ [] ∧
      ∀ l, l ∈ TxList.sorted e → ¬ fits (Resources_ (σ l)) resources
  end.
Proof.
  intros Hn Hres Htxs Htl Hget. unfold GetBestFittingTx in Hget.
  case_decide as Hlen; [subst; by apply nil_length_inv|].
  destruct Hget as (c & Hr & Hd & ->).
  pose proof (search_reach_ok σ e _ _ Hn Hres Htxs c Hr) as Hok.
  pose proof (search_done_first σ e _ _ Hn c Hok Hd) as Hfirst.
  destruct (search_result c) as [err|tx].
  - destruct Hfirst as [-> Hnone]. split; [intros Hnil; apply Hlen; unfold TxList.len; by rewrite Hnil|].
    intros l [j Hj]%list_elem_of_lookup Hf. destruct (Hnone j). by exists l.
  - destruct Hfirst as (i & Hi & Hf & Hmin). exists i. split_and!; [done| |].
    { by rewrite (fits_at_lookup σ e resources i tx Hi) in Hf. }
    intros j l Hl Hfl. assert (i ≤ j)%nat as Hle by (apply Hmin; by exists l).
    split; [done|]. destruct (decide (i = j)) as [->|]; [by simplify_eq|].
    destruct Htl as (Hdesc & _).
    apply (StronglySorted_lt _ _ i j tx l Hdesc); [done|done|lia].
Qed.

(** C34. Every execution of the goroutines ends, after at most
    [nGoRoutines * (2 + 3 * len)] steps, and none of them panics: a goroutine
    that has not returned can always go on, so [GetBestFittingTx] returns. *)
Theorem GetBestFittingTx_terminates σ e nGoRoutines resources :
  (0 < nGoRoutines)%nat → res_ok resources →
  (∀ l, l ∈ TxList.sorted e → res_ok (Resources_ (σ l))) →
  (∀ k c, nsteps (search_step σ e nGoRoutines) k (search_init nGoRoutines resources) c →
     (k ≤ nGoRoutines * (2 + 3 * TxList.len e))%nat ∧
     (all_done c ∨ ∃ c', search_step σ e nGoRoutines c c')) ∧
  ∃ res, GetBestFittingTx σ e nGoRoutines resources res.
Proof.
  intros Hn Hres Htxs. pose proof (search_init_ok σ e _ resources Hn) as Hinit. split.
  - intros k c Hk. split.
    + pose proof (search_terminates σ e _ _ Hn Hres Htxs _ _ _ Hinit Hk) as Hm.
      assert (search_measure e (search_init nGoRoutines resources) ≤
              nGoRoutines * (2 + 3 * TxList.len e))%nat; [|lia].
      unfold search_measure, search_init. simpl.
      etrans; [apply (sum_list_with_bound _ _ (2 + 3 * TxList.len e))|].
      * intros th (i & -> & _)%list_elem_of_fmap. simpl. lia.
      * by rewrite length_fmap, length_seq.
    + destruct (decide (Forall (λ th, th = Done) (threads c))) as [|Hnd]; [by left|right].
      eapply search_progress; [done..| |done].
      eapply search_reach_ok; [done..|]. by eapply rtc_nsteps_2.
  - unfold GetBestFittingTx. case_decide; [by eexists|].
    destruct (search_reaches_done σ e _ _ Hn Hres Htxs _ Hinit) as (c & ? & ?).
    by exists (search_result c), c.
Qed.

(** ** A concrete schedule *)

Module BestFitRun.
(** Runs the threads in the given order. *)
Fixpoint run_schedule (σ : store) (e : TxList.txSortedList) (n : nat) (sched : list nat)
    (c : search) : option search :=
  match sched with
  | [] => Some c
  | t :: sched' =>
      th ← threads c !! t;
      if decide (th = Done) then None
      else
        r ← thread_step σ e n th (sh c);
        run_schedule σ e n sched' (mkSearch (<[t := r.1]> (threads c)) r.2)
  end.

Lemma run_schedule_steps σ e n sched : ∀ c c',
  run_schedule σ e n sched c = Some c' → rtc (search_step σ e n) c c'.
Proof.
  induction sched as [|t sched IH]; intros c c' Hr; simpl in Hr; [by simplify_eq|].
  destruct (threads c !! t) as [th|] eqn:Ht; [|done]. simpl in Hr.
  case_decide as Hnd; [done|].
  destruct (thread_step σ e n th (sh c)) as [[th' s']|] eqn:Hst; [|done].
  simpl in Hr. eapply rtc_l; [|by apply IH].
  destruct c as [ths s]. by eapply search_step_thread.
Qed.

(** Tracker [l] pays [10 * l]; tracker 3 pays most and does not fit. *)
Definition fit_store : store := λ l,
  sample_tx (Z.of_nat l) (pretty (Z.of_nat l)) 7 "7" 0 (10 * Z.of_nat l) 0 0
    (res_const 1 1 (if decide (l = 3%nat) then 1000 else 1)).
Definition fit_list : TxList.txSortedList :=
  TxList.mkTxSortedList {["3" := 3%nat; "2" := 2%nat; "1" := 1%nat]} [3; 2; 1]%nat.
Definition fit_res : BatchResources := res_const 100 50 10.

Lemma fit_res_ok l : res_ok (Resources_ (fit_store l)).
Proof. unfold fit_store. case_decide; res_unfold; res_solve. Qed.

Lemma fit_list_inv : TxList.tl_inv fit_store fit_list.
Proof.
  split_and!; simpl.
  - repeat constructor; vm_compute; discriminate.
  - intros x y _ _ Hxy. by apply (inj _), (inj _) in Hxy.
  - apply (bool_decide_unpack _). by vm_compute.
  - intros h l. rewrite !lookup_insert, lookup_singleton. split.
    + repeat case_decide; subst; intros [= <-]; split; done || set_solver.
    + intros [Hl <-]. rewrite !elem_of_cons in Hl.
      destruct Hl as [->|[->|[->|Hl]]]; [done..|by apply not_elem_of_nil in Hl].
Qed.

(** Thread 1 publishes index 1 before thread 0 leaves index 0. *)
Lemma fit_run : GetBestFittingTx fit_store fit_list 2 fit_res (inr 2%nat).
Proof.
  unfold GetBestFittingTx. simpl.
  destruct (run_schedule fit_store fit_list 2 [1; 1; 0; 1; 0; 0]%nat (search_init 2 fit_res))
    as [c|] eqn:Hc; vm_compute in Hc; [|done].
  exists c. split; [|injection Hc as <-; split; [by repeat constructor|done]].
  apply (run_schedule_steps _ _ _ [1; 1; 0; 1; 0; 0]%nat). injection Hc as <-. by vm_compute.
Qed.

Lemma GetBestFittingTx_best_witness :
  GetBestFittingTx fit_store fit_list 2 fit_res (inr 2%nat) ∧
  ∃ i, TxList.sorted fit_list !! i = Some 2%nat ∧
      fits (Resources_ (fit_store 2)) fit_res ∧
      (∀ j l, TxList.sorted fit_list !! j = Some l → fits (Resources_ (fit_store l)) fit_res →
         (i ≤ j)%nat ∧ GasPrice (fit_store l) ≤ GasPrice (fit_store 2)).
Proof.
  split; [exact fit_run|].
  apply (GetBestFittingTx_best fit_store fit_list 2 fit_res (inr 2%nat));
    [lia|res_unfold; res_solve|intros; apply fit_res_ok|exact fit_list_inv|exact fit_run].
Defined.

Lemma GetBestFittingTx_terminates_witness :
  ∃ res, GetBestFittingTx fit_store fit_list 2 fit_res res.
Proof.
  destruct (GetBestFittingTx_terminates fit_store fit_list 2 fit_res) as [_ Hr];
    [lia|res_unfold; res_solve|intros; apply fit_res_ok|exact Hr].
Defined.
End BestFitRun.
