(* ===== verification/GoEthereum.v ===== *)
(** * The parts of go-ethereum the codecs call

    The node builds on the packages [core/types] and [rlp] of go-ethereum,
    which are not part of its sources: they are the operations of a type class,
    with what the node relies on as laws, the accessors of a legacy
    transaction, the chain identifier of EIP-155 signatures and the RLP format
    of lists of strings.  [RefEthereum] is an executable instance that
    satisfies the laws. *)

From S2P Require Import Prelude Digits Hex.

(** [types.LegacyTx]; an address is a number below [2 ^ 160]. *)
Record LegacyTx := mkLegacyTx {
  l_Nonce : Z;
  l_GasPrice : Z;
  l_Gas : Z;
  l_To : option Z;
  l_Value : Z;
  l_Data : bytes;
  l_V : Z;
  l_R : Z;
  l_S : Z
}.

(** The values the node passes to [rlp.EncodeToBytes] in a list. *)
Inductive rlp_value :=
  | RUint (n : Z)
  | RBig (n : Z)
  | RAddr (a : option Z)
  | RBytes (bs : bytes).

Class GoEthereum := {
  Transaction : Type;
  NewTx : LegacyTx → Transaction;
  tx_Nonce : Transaction → Z;
  tx_GasPrice : Transaction → Z;
  tx_Gas : Transaction → Z;
  tx_To : Transaction → option Z;
  tx_Value : Transaction → Z;
  tx_Data : Transaction → bytes;
  tx_ChainId : Transaction → Z;
  RawSignatureValues : Transaction → Z * Z * Z;
  BytesToAddress : bytes → Z;
  rlp_EncodeToBytes : list rlp_value → string + bytes;
  rlp_DecodeBytes : bytes → string + list bytes
}.

(** The string a value becomes: numbers have no leading zeros, a nil address
    is the empty string. *)
Definition value_bytes (v : rlp_value) : bytes :=
  match v with
  | RUint n => digits 256 n
  | RBig n => digits 256 n
  | RAddr None => []
  | RAddr (Some a) => split_digits 256 20 a
  | RBytes bs => bs
  end.

Definition value_ok (v : rlp_value) : Prop :=
  match v with
  | RUint n => in_u64 n
  | RBig n => 0 ≤ n
  | RAddr a => ∀ x, a = Some x → 0 ≤ x < 2 ^ 160
  | RBytes bs => is_bytes bs
  end.

(** The header of an RLP list with a payload of [n] bytes. *)
Definition rlp_list_header (n : nat) : bytes :=
  if decide (n ≤ 55)%nat then [192 + Z.of_nat n]
  else let ds := digits 256 (Z.of_nat n) in 247 + Z.of_nat (length ds) :: ds.

Definition is_rlp_list (e : bytes) : Prop :=
  is_bytes e ∧ ∃ payload, e = rlp_list_header (length payload) ++ payload.

Class GoEthereumLaws `{!GoEthereum} : Prop := {
  NewTx_Nonce l : tx_Nonce (NewTx l) = l_Nonce l;
  NewTx_GasPrice l : tx_GasPrice (NewTx l) = l_GasPrice l;
  NewTx_Gas l : tx_Gas (NewTx l) = l_Gas l;
  NewTx_To l : tx_To (NewTx l) = l_To l;
  NewTx_Value l : tx_Value (NewTx l) = l_Value l;
  NewTx_Data l : tx_Data (NewTx l) = l_Data l;
  NewTx_Signature l : RawSignatureValues (NewTx l) = (l_V l, l_R l, l_S l);
  (** Unprotected transactions have chain identifier 0, the [V] of a protected
      one is [35 + 2 * chainID] plus the parity bit. *)
  NewTx_ChainId_unprotected l : l_V l = 27 ∨ l_V l = 28 → tx_ChainId (NewTx l) = 0;
  NewTx_ChainId_protected l c p :
    0 ≤ c → p = 0 ∨ p = 1 → l_V l = 35 + 2 * c + p → tx_ChainId (NewTx l) = c;
  BytesToAddress_20 bs :
    is_bytes bs → length bs = 20%nat → BytesToAddress bs = of_digits 256 bs;
  rlp_roundtrip vs :
    Forall value_ok vs →
    Z.of_nat (sum_list_with (λ v, 9 + length (value_bytes v))%nat vs) < 2 ^ 60 →
    ∃ e, rlp_EncodeToBytes vs = inr e ∧ is_rlp_list e ∧
      rlp_DecodeBytes e = inr (value_bytes <$> vs)
}.

(** ** A reference instance *)

Module RefEthereum.
Record RefTx := mkRefTx { ref_legacy : LegacyTx }.

Definition ref_ChainId (t : RefTx) : Z :=
  let v := l_V (ref_legacy t) in
  if decide (v = 27 ∨ v = 28) then 0 else (v - 35) / 2.

(** A string: a single byte below 128 is itself, otherwise a header with the
    length comes first. *)
Definition enc_string (bs : bytes) : bytes :=
  let n := length bs in
  match bs with
  | [b] => if b <? 128 then [b] else [129; b]
  | _ =>
      if decide (n ≤ 55)%nat then 128 + Z.of_nat n :: bs
      else let ds := digits 256 (Z.of_nat n) in
           183 + Z.of_nat (length ds) :: ds ++ bs
  end.

Definition ref_Encode (vs : list rlp_value) : string + bytes :=
  if existsb (λ v, match v with RBig n => n <? 0 | _ => false end) vs
  then inl "rlp: cannot encode negative big.Int"
  else
    let payload := vs ≫= (λ v, enc_string (value_bytes v)) in
    inr (rlp_list_header (length payload) ++ payload).

(** The first [n] bytes and the rest. *)
Definition take_n (n : Z) (bs : bytes) : option (bytes * bytes) :=
  if decide (0 ≤ n ≤ Z.of_nat (length bs))
  then Some (take (Z.to_nat n) bs, drop (Z.to_nat n) bs) else None.

(** The content of a string or list with a length of lengths. *)
Definition take_long (k : Z) (bs : bytes) : option (bytes * bytes) :=
  '(ds, rest) ← take_n k bs; take_n (of_digits 256 ds) rest.

Definition dec_string (bs : bytes) : option (bytes * bytes) :=
  match bs with
  | [] => None
  | b :: bs' =>
      if b <? 128 then Some ([b], bs')
      else if b <? 184 then take_n (b - 128) bs'
      else if b <? 192 then take_long (b - 183) bs'
      else None
  end.

Fixpoint dec_strings (fuel : nat) (bs : bytes) : option (list bytes) :=
  match fuel, bs with
  | _, [] => Some []
  | O, _ => None
  | S fuel', _ =>
      '(s, rest) ← dec_string bs; ss ← dec_strings fuel' rest; Some (s :: ss)
  end.

Definition ref_payload (bs : bytes) : option bytes :=
  match bs with
  | [] => None
  | b :: bs' =>
      '(p, rest) ← (if b <? 192 then None
                    else if b <? 248 then take_n (b - 192) bs' else take_long (b - 247) bs');
      if decide (rest = []) then Some p else None
  end.

Definition ref_Decode (bs : bytes) : string + list bytes :=
  match p ← ref_payload bs; dec_strings (length p) p with
  | Some ss => inr ss
  | None => inl "rlp: cannot decode"
  end.

Definition ref_ethereum : GoEthereum :=
  {| Transaction := RefTx; NewTx := mkRefTx;
     tx_Nonce t := l_Nonce (ref_legacy t); tx_GasPrice t := l_GasPrice (ref_legacy t);
     tx_Gas t := l_Gas (ref_legacy t); tx_To t := l_To (ref_legacy t);
     tx_Value t := l_Value (ref_legacy t); tx_Data t := l_Data (ref_legacy t);
     tx_ChainId := ref_ChainId;
     RawSignatureValues t := (l_V (ref_legacy t), l_R (ref_legacy t), l_S (ref_legacy t));
     BytesToAddress bs := of_digits 256 (drop (length bs - 20) bs);
     rlp_EncodeToBytes := ref_Encode; rlp_DecodeBytes := ref_Decode |}.

Lemma take_n_app bs rest : take_n (Z.of_nat (length bs)) (bs ++ rest) = Some (bs, rest).
Proof.
  unfold take_n. rewrite decide_True by (rewrite length_app; lia).
  by rewrite Nat2Z.id, take_app_length, drop_app_length.
Qed.

Lemma take_long_app bs rest :
  take_long (Z.of_nat (length (digits 256 (Z.of_nat (length bs)))))
    (digits 256 (Z.of_nat (length bs)) ++ bs ++ rest) = Some (bs, rest).
Proof.
  unfold take_long. rewrite take_n_app. simpl.
  rewrite of_digits_digits by lia. apply take_n_app.
Qed.

Lemma length_digits_bound n : Z.of_nat n < 2 ^ 62 → (length (digits 256 (Z.of_nat n)) ≤ 8)%nat.
Proof. intros. apply digits_length; lia. Qed.

Lemma length_digits_pos n : (0 < n)%nat → (0 < length (digits 256 (Z.of_nat n)))%nat.
Proof.
  intros Hn. destruct (digits 256 (Z.of_nat n)) eqn:He; [|simpl; lia].
  apply digits_nil in He; lia.
Qed.

Lemma dec_enc_string bs rest :
  is_bytes bs → Z.of_nat (length bs) < 2 ^ 62 →
  dec_string (enc_string bs ++ rest) = Some (bs, rest).
Proof.
  intros Hbs Hlen.
  assert (dec_string ((if decide (length bs ≤ 55)%nat then 128 + Z.of_nat (length bs) :: bs
      else let ds := digits 256 (Z.of_nat (length bs)) in
           183 + Z.of_nat (length ds) :: ds ++ bs) ++ rest) = Some (bs, rest)) as Hgen.
  { case_decide as H55; simpl.
    - rewrite (proj2 (Z.ltb_ge _ _)), (proj2 (Z.ltb_lt _ _)) by lia.
      rewrite Z.add_simpl_l. apply take_n_app.
    - pose proof (length_digits_bound _ Hlen). pose proof (length_digits_pos (length bs)).
      rewrite !(proj2 (Z.ltb_ge _ _)), (proj2 (Z.ltb_lt _ _)) by lia.
      rewrite <-app_assoc, Z.add_simpl_l. apply take_long_app. }
  destruct bs as [|b [|b' bs]]; [done| |done].
  simpl in Hgen |- *. destruct (Z.ltb_spec b 128) as [Hb|Hb]; [|done].
  simpl. by rewrite (proj2 (Z.ltb_lt _ _)).
Qed.

Lemma length_enc_string bs :
  Z.of_nat (length bs) < 2 ^ 62 →
  (1 ≤ length (enc_string bs) ≤ 9 + length bs)%nat.
Proof.
  intros Hlen. pose proof (length_digits_bound _ Hlen).
  destruct bs as [|b [|b' bs]]; [simpl; lia|simpl; case_match; simpl; lia|].
  unfold enc_string. case_decide; cbn [length] in *; [lia|].
  rewrite length_app. cbn [length]. lia.
Qed.

Lemma dec_enc_strings ss fuel :
  Forall (λ s, is_bytes s ∧ Z.of_nat (length s) < 2 ^ 62) ss →
  (length (ss ≫= enc_string) ≤ fuel)%nat →
  dec_strings fuel (ss ≫= enc_string) = Some ss.
Proof.
  intros Hss. revert fuel. induction Hss as [|s ss [Hs Hl] _ IH]; intros fuel Hf.
  { by destruct fuel. }
  rewrite bind_cons in Hf |- *. rewrite length_app in Hf.
  pose proof (length_enc_string s Hl) as Hlen.
  destruct fuel as [|fuel]; [lia|].
  destruct (enc_string s ++ (ss ≫= enc_string)) as [|b p] eqn:He.
  { apply (f_equal length) in He. rewrite length_app in He. simpl in He. lia. }
  rewrite <-He. cbn [dec_strings]. rewrite He, <-He, dec_enc_string by done. simpl.
  rewrite IH by lia. done.
Qed.

Lemma enc_string_bytes s :
  is_bytes s → Z.of_nat (length s) < 2 ^ 62 → is_bytes (enc_string s).
Proof.
  intros Hs Hl. pose proof (length_digits_bound _ Hl).
  assert (is_bytes (digits 256 (Z.of_nat (length s)))) by (apply digits_is_digits; lia).
  destruct s as [|b [|b' s]]; [by repeat constructor| |].
  - unfold enc_string. case_match; [done|]. by constructor.
  - unfold enc_string. case_decide; [constructor; [lia|done]|].
    constructor; [lia|]. by apply Forall_app.
Qed.

Lemma rlp_list_header_bytes n : Z.of_nat n < 2 ^ 62 → is_bytes (rlp_list_header n).
Proof.
  intros Hn. pose proof (length_digits_bound _ Hn). unfold rlp_list_header. case_decide.
  - constructor; [lia|constructor].
  - constructor; [lia|]. apply digits_is_digits. lia.
Qed.

Lemma ref_payload_header p :
  Z.of_nat (length p) < 2 ^ 62 → ref_payload (rlp_list_header (length p) ++ p) = Some p.
Proof.
  intros Hl. pose proof (length_digits_bound _ Hl). unfold rlp_list_header.
  case_decide as H55; simpl.
  - rewrite (proj2 (Z.ltb_ge _ _)), (proj2 (Z.ltb_lt _ _)), Z.add_simpl_l by lia.
    rewrite <-(app_nil_r p) at 2. by rewrite take_n_app.
  - pose proof (length_digits_pos (length p)).
    rewrite !(proj2 (Z.ltb_ge _ _)), Z.add_simpl_l by lia.
    rewrite <-(app_nil_r p) at 3. by rewrite take_long_app.
Qed.

Lemma value_bytes_ok v : value_ok v → is_bytes (value_bytes v).
Proof.
  destruct v as [n|n|[a|]|bs]; cbn [value_bytes value_ok]; intros Hv; try done.
  - apply digits_is_digits. lia.
  - apply digits_is_digits. lia.
  - apply split_digits_is_digits. lia.
  - constructor.
Qed.

Lemma ref_roundtrip vs :
  Forall value_ok vs →
  Z.of_nat (sum_list_with (λ v, 9 + length (value_bytes v))%nat vs) < 2 ^ 60 →
  ∃ e, ref_Encode vs = inr e ∧ is_rlp_list e ∧ ref_Decode e = inr (value_bytes <$> vs).
Proof.
  intros Hvs Hsum. unfold ref_Encode.
  destruct (existsb _ vs) eqn:Hex.
  { apply existsb_exists in Hex as (v & Hin & Hneg). apply list_elem_of_In in Hin.
    rewrite Forall_forall in Hvs. specialize (Hvs v Hin).
    destruct v; simpl in *; try done. apply Z.ltb_lt in Hneg. lia. }
  assert (vs ≫= (λ v, enc_string (value_bytes v)) = (value_bytes <$> vs) ≫= enc_string) as ->.
  { clear. induction vs as [|v vs IH]; [done|]. by rewrite fmap_cons, !bind_cons, IH. }
  assert (Forall (λ s, is_bytes s ∧ Z.of_nat (length s) < 2 ^ 62) (value_bytes <$> vs)) as Hss.
  { apply Forall_fmap, Forall_forall. intros v Hin. split.
    - apply value_bytes_ok. by eapply Forall_forall.
    - apply (sum_list_with_in _ (λ v, 9 + length (value_bytes v))%nat) in Hin. simpl in *. lia. }
  assert (length ((value_bytes <$> vs) ≫= enc_string) ≤
          sum_list_with (λ v, 9 + length (value_bytes v)) vs)%nat as Hlen.
  { clear Hsum Hvs Hex. induction vs as [|v vs IH]; [simpl; lia|].
    rewrite fmap_cons, Forall_cons in Hss. destruct Hss as [[_ Hv] Hss].
    rewrite fmap_cons, bind_cons, length_app. cbn [sum_list_with].
    specialize (IH Hss). pose proof (length_enc_string _ Hv). lia. }
  eexists. split; [done|]. split.
  - split; [|by eexists]. apply Forall_app. split; [apply rlp_list_header_bytes; lia|].
    clear -Hss. induction Hss as [|s ss [Hs Hl] _ IH]; [constructor|].
    rewrite bind_cons. apply Forall_app. split; [by apply enc_string_bytes|done].
  - unfold ref_Decode. rewrite ref_payload_header by lia. simpl.
    by rewrite dec_enc_strings.
Qed.

Lemma ref_laws : @GoEthereumLaws ref_ethereum.
Proof.
  split; try done; simpl; unfold ref_ChainId; simpl.
  - intros l Hl. by rewrite decide_True.
  - intros l c p Hc Hp Hl. rewrite decide_False by lia. rewrite Hl.
    replace (35 + 2 * c + p - 35) with (c * 2 + p) by lia.
    rewrite Z.div_add_l, Z.div_small by lia. lia.
  - intros bs _ ->. by rewrite Nat.sub_diag, drop_0.
  - apply ref_roundtrip.
Qed.
End RefEthereum.
