(* ===== verification/TxCodec.v ===== *)
(** * The encoding of transactions in batches

    [state/helper.go] and [RlpFieldsToLegacyTx] of [state/transaction.go]: the
    format of the batches before Etrog and of the forced batches, a sequence of
    RLP lists each followed by the signature and, from Dragonfruit on, by the
    effective percentage. *)

From S2P Require Import Prelude Digits Hex GoEthereum.

Inductive CodecErr :=
  | ErrTxTypeNotSupported
  | ErrInvalidData
  | ErrInvalidRLP
  | ErrInvalidBatchV2
  | ErrBatchV2DontStartWithChangeL2Block
  | ErrRlp (e : string)
  | ErrHex (e : HexErr)
  | ErrNum (e : NumError).

Definition double : Z := 2.
Definition ether155V : Z := 27.
Definition etherPre155V : Z := 35.
Definition MaxEffectivePercentage : Z := 255.
Definition headerByteLength : Z := 1.
Definition sLength : Z := 32.
Definition rLength : Z := 32.
Definition vLength : Z := 1.
Definition c0 : Z := 192.
Definition ff : Z := 255.
Definition shortRlp : Z := 55.
Definition f7 : Z := 247.
Definition EfficiencyPercentageByteLength : Z := 1.

Definition FORKID_BLUEBERRY : Z := 4.
Definition FORKID_DRAGONFRUIT : Z := 5.
Definition FORKID_INCABERRY : Z := 6.
Definition FORKID_ETROG : Z := 7.

(** A result [(v, err)] of a library as an outcome. *)
Definition lift_sum {E A} (f : E → CodecErr) (r : E + A) : GoRes CodecErr A :=
  match r with inl e => Fail (f e) | inr a => Ret a end.
Definition lift_num (r : Z * option NumError) : GoRes CodecErr Z :=
  match r with (_, Some e) => Fail (ErrNum e) | (n, None) => Ret n end.

Section codec.
Context `{!GoEthereum}.

Definition IsPreEIP155Tx (tx : Transaction) : bool :=
  let '(v, _, _) := RawSignatureValues tx in
  (big_Uint64 (tx_ChainId tx) =? 0) && ((big_Uint64 v =? 27) || (big_Uint64 v =? 28)).

Definition prepareRPLTxData (tx : Transaction) : GoRes CodecErr bytes :=
  let '(v, r, s) := RawSignatureValues tx in
  let sign := 1 -₆₄ Z.land (big_Uint64 v) 1 in
  let rlpFieldsToEncode :=
    [RUint (tx_Nonce tx); RBig (tx_GasPrice tx); RUint (tx_Gas tx); RAddr (tx_To tx);
     RBig (tx_Value tx); RBytes (tx_Data tx)] ++
    (if negb (IsPreEIP155Tx tx) then [RBig (tx_ChainId tx); RUint 0; RUint 0] else []) in
  txCodedRlp ← lift_sum ErrRlp (rlp_EncodeToBytes rlpFieldsToEncode);
  let newV := ether155V + sign in
  let newRPadded := pad_text 64 (Text r) in
  let newSPadded := pad_text 64 (Text s) in
  let newVPadded := pad_text 2 (Text newV) in
  map_err ErrHex
    (DecodeString (EncodeToString txCodedRlp ++ newRPadded ++ newSPadded ++ newVPadded)).

(** The loop of [EncodeTransactions] from transaction number [i] on. *)
Fixpoint encode_loop (txs : list Transaction) (i : Z) (effectivePercentages : list Z)
    (forkID : Z) (batchL2Data : bytes) : GoRes CodecErr bytes :=
  match txs with
  | [] => Ret batchL2Data
  | tx :: txs' =>
      txData ← prepareRPLTxData tx;
      let batchL2Data := batchL2Data ++ txData in
      if FORKID_DRAGONFRUIT <=? forkID then
        p ← index effectivePercentages i;
        effectivePercentageAsHex ← map_err ErrHex (DecodeHex (nat_text p));
        encode_loop txs' (i + 1) effectivePercentages forkID
          (batchL2Data ++ effectivePercentageAsHex)
      else encode_loop txs' (i + 1) effectivePercentages forkID batchL2Data
  end.

Definition EncodeTransactions (txs : list Transaction) (effectivePercentages : list Z)
    (forkID : Z) : GoRes CodecErr bytes :=
  encode_loop txs 0 effectivePercentages forkID [].

Fixpoint encode_without_loop (txs : list Transaction) (batchL2Data : bytes) :
    GoRes CodecErr bytes :=
  match txs with
  | [] => Ret batchL2Data
  | tx :: txs' => txData ← prepareRPLTxData tx; encode_without_loop txs' (batchL2Data ++ txData)
  end.

Definition EncodeTransactionsWithoutEffectivePercentage (txs : list Transaction) :
    GoRes CodecErr bytes := encode_without_loop txs [].

Definition EncodeTransactionWithoutEffectivePercentage (tx : Transaction) :
    GoRes CodecErr bytes := EncodeTransactionsWithoutEffectivePercentage [tx].

Definition EncodeTransaction (tx : Transaction) (effectivePercentage forkID : Z) :
    GoRes CodecErr bytes := EncodeTransactions [tx] [effectivePercentage] forkID.

(** The signature of [EncodeUnsignedTransaction] is a constant. *)
Definition unsigned_v : Z := 0x1c.
Definition unsigned_r : Z :=
  0xa54492cfacf71aef702421b7fbc70636537a7b2fbe5718c5ed970a001bb7756b.
Definition unsigned_s : Z :=
  0x2e9fb27acc75955b898f0b12ec52aa34bf08f01db654374484b80bf12f0d841e.

Definition EncodeUnsignedTransaction (tx : Transaction) (chainID : Z)
    (forcedNonce : option Z) (forkID : Z) : GoRes CodecErr bytes :=
  let sign := 1 -₆₄ Z.land (big_Uint64 unsigned_v) 1 in
  let nonce := default (tx_Nonce tx) forcedNonce in
  txCodedRlp ← lift_sum ErrRlp (rlp_EncodeToBytes
    [RUint nonce; RBig (tx_GasPrice tx); RUint (tx_Gas tx); RAddr (tx_To tx);
     RBig (tx_Value tx); RBytes (tx_Data tx); RBig chainID; RUint 0; RUint 0]);
  let newV := ether155V + sign in
  let newRPadded := pad_text 64 (Text unsigned_r) in
  let newSPadded := pad_text 64 (Text unsigned_s) in
  let newVPadded := pad_text 2 (Text newV) in
  let effectivePercentageAsHex :=
    if forkID <? FORKID_DRAGONFRUIT then [] else nat_text MaxEffectivePercentage in
  map_err ErrHex
    (DecodeString (EncodeToString txCodedRlp ++ newRPadded ++ newSPadded ++ newVPadded ++
                   effectivePercentageAsHex)).

Definition RlpFieldsToLegacyTx (fields : list bytes) (v r s : bytes) :
    GoRes CodecErr LegacyTx :=
  match fields with
  | nonce :: gasPrice :: gas :: to :: value :: data :: rest =>
      let txV :=
        match rest with
        | chainID :: _ =>
            let a := of_digits 256 chainID * double in
            let b := of_digits 256 v - ether155V in
            let c := a + etherPre155V in
            b + c
        | [] => of_digits 256 v
        end in
      Ret (mkLegacyTx (big_Uint64 (of_digits 256 nonce)) (of_digits 256 gasPrice)
             (big_Uint64 (of_digits 256 gas))
             (match to with [] => None | _ => Some (BytesToAddress to) end)
             (of_digits 256 value) data txV (of_digits 256 r) (of_digits 256 s))
  | _ => Fail ErrTxTypeNotSupported
  end.

(** What one round of the loop of [DecodeTxs] can do: return early without
    an error, or decode a transaction and go on at [endPos]. *)
Inductive round := Stop | Next (endPos : Z) (tx : Transaction) (efficiency : list Z).

(** The length of the RLP list at [pos], without its header byte; [None] is
    the return with a nil error when the length bytes are cut off. *)
Definition decode_length (txsData : bytes) (pos num : Z) : GoRes CodecErr (option Z) :=
  let txDataLength := Z.of_nat (length txsData) in
  let len := num -₆₄ c0 in
  if shortRlp <? len then
    if txDataLength <? (pos +₆₄ 1 +₆₄ num -₆₄ f7) then Ret None
    else
      lengthBytes ← slice txsData (pos +₆₄ 1) (pos +₆₄ 1 +₆₄ num -₆₄ f7);
      n ← lift_num (ParseUint (EncodeToString lengthBytes) 16);
      if (n +₆₄ num) <? f7 then Fail ErrInvalidData
      else Ret (Some (n +₆₄ num -₆₄ f7))
  else Ret (Some len).

(** The efficiency percentage after the signature. *)
Definition decode_efficiency (txsData : bytes) (forkID start endPos : Z) :
    GoRes CodecErr (list Z) :=
  if FORKID_DRAGONFRUIT <=? forkID then
    efficiencyPercentage ← slice txsData start endPos;
    p ← index efficiencyPercentage 0;
    Ret [p]
  else Ret [].

(** The transaction between [pos] and [endPos]. *)
Definition decode_fields (txsData : bytes) (forkID pos len endPos : Z) :
    GoRes CodecErr round :=
  fullDataTx ← slice (E := CodecErr) txsData pos endPos;
  let dataStart := pos +₆₄ len +₆₄ headerByteLength in
  txInfo ← slice txsData pos dataStart;
  rData ← slice txsData dataStart (dataStart +₆₄ rLength);
  sData ← slice txsData (dataStart +₆₄ rLength) (dataStart +₆₄ rLength +₆₄ sLength);
  vData ← slice txsData (dataStart +₆₄ rLength +₆₄ sLength)
            (dataStart +₆₄ rLength +₆₄ sLength +₆₄ vLength);
  efficiency ← decode_efficiency txsData forkID
                 (dataStart +₆₄ rLength +₆₄ sLength +₆₄ vLength) endPos;
  rlpFields ← lift_sum (λ _ : string, ErrInvalidData) (rlp_DecodeBytes txInfo);
  legacyTx ← RlpFieldsToLegacyTx rlpFields vData rData sData;
  Ret (Next endPos (NewTx legacyTx) efficiency).

Definition decode_round (txsData : bytes) (forkID pos : Z) : GoRes CodecErr round :=
  let txDataLength := Z.of_nat (length txsData) in
  header ← slice txsData pos (pos +₆₄ 1);
  num ← lift_num (ParseUint (EncodeToString header) 16);
  if num <? c0 then Fail ErrInvalidData
  else
    l ← decode_length txsData pos num;
    match l with
    | None => Ret Stop
    | Some len =>
        let endPos := pos +₆₄ len +₆₄ rLength +₆₄ sLength +₆₄ vLength +₆₄ headerByteLength in
        let endPos := if FORKID_DRAGONFRUIT <=? forkID
                      then endPos +₆₄ EfficiencyPercentageByteLength else endPos in
        if txDataLength <? endPos then Fail ErrInvalidData
        else if endPos <? pos then Fail ErrInvalidData
        else decode_fields txsData forkID pos len endPos
    end.

(** The loop of [DecodeTxs]; [None] is lack of fuel. *)
Fixpoint decode_loop (fuel : nat) (txsData : bytes) (forkID pos : Z)
    (txs : list Transaction) (efficiencyPercentages : list Z) :
    option (GoRes CodecErr (list Transaction * bytes * list Z)) :=
  match fuel with
  | O => None
  | S fuel' =>
      if pos <? Z.of_nat (length txsData) then
        match decode_round txsData forkID pos with
        | Ret Stop => Some (Ret ([], txsData, []))
        | Ret (Next endPos tx efficiency) =>
            decode_loop fuel' txsData forkID endPos (txs ++ [tx])
              (efficiencyPercentages ++ efficiency)
        | Fail e => Some (Fail e)
        | Panic => Some Panic
        end
      else Some (Ret (txs, txsData, efficiencyPercentages))
  end.

(** Every round ends after the position it starts at, so that one unit of fuel
    per byte and one for the exit are enough. *)
Definition DecodeTxs (txsData : bytes) (forkID : Z) :
    GoRes CodecErr (list Transaction * bytes * list Z) :=
  if decide (txsData = []) then Ret ([], txsData, [])
  else default Panic (decode_loop (S (length txsData)) txsData forkID 0 [] []).
End codec.

(** [CheckLogOrder], on the indices of the logs: sorting logs with equal
    indices can permute them, but not change the sequence of indices. *)
Definition CheckLogOrder (logs : list Z) : bool :=
  let logsAux := merge_sort Z.le logs in
  if decide (length logs ≠ length logsAux) then false
  else forallb (λ p : Z * Z, p.1 =? p.2) (zip logsAux logs).

(** ** Safety of the decoder *)

Lemma digit_in_nonneg base c d : digit_in base c = Some d → 0 ≤ d.
Proof.
  unfold digit_in. case_decide; [intros ?%xdigit_range; lia|].
  unfold digit_of. case_match; intros; simplify_eq; lia.
Qed.

Lemma ParseUint_range s base n : 0 ≤ base → ParseUint s base = (n, None) → in_u64 n.
Proof.
  intros Hbase. unfold ParseUint. destruct s as [|c s]; [done|].
  assert (∀ s m, in_u64 m → ParseUint_go base s m = (n, None) → in_u64 n) as Hgo.
  { clear -Hbase. induction s as [|c s IH]; intros m Hm; simpl; [by intros [= <-]|].
    destruct (digit_in base c) as [d|] eqn:Hd; [|done].
    apply digit_in_nonneg in Hd. destruct (Z.leb_spec (2 ^ 64) (m * base + d)); [done|].
    apply IH. unfold in_u64 in *. nia. }
  apply Hgo. unfold in_u64. lia.
Qed.

Lemma ParseUint_byte b :
  0 ≤ b < 256 → ParseUint (EncodeToString [b]) 16 = (b, None).
Proof.
  intros Hb. apply (ParseUint_bytes [b]); [by constructor|done|]. unfold of_digits. simpl. lia.
Qed.

(** The bytes an efficiency percentage takes. *)
Definition eff_size (forkID : Z) : Z := if FORKID_DRAGONFRUIT <=? forkID then 1 else 0.

Lemma eff_size_range forkID : 0 ≤ eff_size forkID ≤ 1.
Proof. unfold eff_size. case_match; lia. Qed.

(** The end of a transaction, before any overflow. *)
Lemma endPos_eq forkID pos len :
  (if FORKID_DRAGONFRUIT <=? forkID
   then pos +₆₄ len +₆₄ rLength +₆₄ sLength +₆₄ vLength +₆₄ headerByteLength
          +₆₄ EfficiencyPercentageByteLength
   else pos +₆₄ len +₆₄ rLength +₆₄ sLength +₆₄ vLength +₆₄ headerByteLength) =
  wrap64 (pos + len + 66 + eff_size forkID).
Proof.
  unfold eff_size, rLength, sLength, vLength, headerByteLength, EfficiencyPercentageByteLength.
  case_match; wrap_flat; f_equal; lia.
Qed.

Section safety.
Context `{!GoEthereum} (txsData : bytes) (forkID : Z).
Hypothesis Hbytes : is_bytes txsData.
Hypothesis Hlen : Z.of_nat (length txsData) < 2 ^ 63.

(** The header byte at a position inside the data. *)
Lemma header_byte pos :
  0 ≤ pos < Z.of_nat (length txsData) →
  ∃ b rest, drop (Z.to_nat pos) txsData = b :: rest ∧ 0 ≤ b < 256 ∧
    slice (E := CodecErr) txsData pos (pos +₆₄ 1) = Ret [b].
Proof.
  intros Hpos. wrap_small.
  destruct (slice_ok (E := CodecErr) txsData pos (pos + 1)) as (r & -> & _ & ->); [lia..|].
  destruct (drop (Z.to_nat pos) txsData) as [|b rest] eqn:Hd.
  { apply (f_equal length) in Hd. rewrite length_drop in Hd. simpl in Hd. lia. }
  exists b, rest. split; [done|]. split.
  - pose proof (Forall_drop _ (Z.to_nat pos) _ Hbytes) as Hf. rewrite Hd in Hf.
    by apply Forall_cons in Hf as [? _].
  - by rewrite Z.add_simpl_l.
Qed.

Lemma decode_length_safe pos num :
  0 ≤ pos < Z.of_nat (length txsData) → c0 ≤ num < 256 →
  match decode_length txsData pos num with
  | Panic => False
  | Ret (Some len) => 0 ≤ len ≤ 2 ^ 64 - 248
  | _ => True
  end.
Proof.
  unfold decode_length, c0, f7, shortRlp. intros Hpos Hnum. wrap_small.
  destruct (Z.ltb_spec 55 (num - 192)) as [Hs|Hs]; [|lia].
  wrap_small.
  destruct (Z.ltb_spec (Z.of_nat (length txsData)) (pos + 1 + num - 247)) as [|He]; [done|].
  destruct (slice_ok (E := CodecErr) txsData (pos + 1) (pos + 1 + num - 247))
    as (r & -> & _ & _); [lia..|].
  simpl. unfold lift_num. destruct (ParseUint _ 16) as [n [e|]] eqn:Hp; simpl; [done|].
  apply ParseUint_range in Hp; [|lia]. unfold in_u64 in Hp.
  assert (0 ≤ n + num < 2 ^ 65) as Hsum by lia.
  destruct (wrap64_cases _ Hsum) as [[Hw ?]|[Hw ?]]; rewrite Hw;
    match goal with |- context [?x <? 247] => destruct (Z.ltb_spec x 247) end;
    wrap_small; done || lia.
Qed.

Lemma decode_efficiency_safe start endPos :
  0 ≤ start → endPos = start + eff_size forkID → endPos ≤ Z.of_nat (length txsData) →
  ∃ eff, decode_efficiency txsData forkID start endPos = Ret eff ∧
    Z.of_nat (length eff) = eff_size forkID.
Proof.
  intros H0 -> He. unfold decode_efficiency, eff_size in *. case_match; [|by eexists].
  slice_step e He'. destruct e as [|p e]; [simpl in *; lia|]. by eexists.
Qed.

Lemma decode_fields_safe pos len :
  0 ≤ pos → 0 ≤ len → pos + len + 66 + eff_size forkID ≤ Z.of_nat (length txsData) →
  match decode_fields txsData forkID pos len (pos + len + 66 + eff_size forkID) with
  | Panic => False
  | Ret (Next endPos _ efficiency) =>
      pos < endPos ≤ Z.of_nat (length txsData) ∧ Z.of_nat (length efficiency) = eff_size forkID
  | _ => True
  end.
Proof.
  intros Hpos Hl He. pose proof (eff_size_range forkID).
  unfold decode_fields, rLength, sLength, vLength, headerByteLength. wrap_small.
  slice_step r1 Hr1. slice_step r2 Hr2. slice_step r3 Hr3. slice_step r4 Hr4. slice_step r5 Hr5.
  destruct (decode_efficiency_safe (pos + len + 1 + 32 + 32 + 1) (pos + len + 66 + eff_size forkID))
    as (eff & -> & Heff); [lia..|].
  go_bind. destruct (rlp_DecodeBytes _) as [|fields]; simpl; [done|].
  unfold RlpFieldsToLegacyTx. do 6 (destruct fields as [|? fields]; [done|]). simpl.
  split; [lia|done].
Qed.

Lemma decode_round_safe pos :
  0 ≤ pos < Z.of_nat (length txsData) →
  match decode_round txsData forkID pos with
  | Panic => False
  | Ret (Next endPos _ efficiency) =>
      pos < endPos ≤ Z.of_nat (length txsData) ∧ Z.of_nat (length efficiency) = eff_size forkID
  | _ => True
  end.
Proof.
  intros Hpos. unfold decode_round. pose proof (eff_size_range forkID).
  destruct (header_byte pos Hpos) as (b & rest & _ & Hb & ->). go_bind.
  rewrite ParseUint_byte by done. cbn [lift_num]. go_bind.
  destruct (Z.ltb_spec b c0) as [|Hc]; [done|].
  pose proof (decode_length_safe pos b Hpos ltac:(lia)) as Hl.
  destruct (decode_length txsData pos b) as [[len|]|e|]; go_bind; try done.
  rewrite endPos_eq.
  destruct (Z.ltb_spec (Z.of_nat (length txsData)) (wrap64 (pos + len + 66 + eff_size forkID)))
    as [|Hle]; [done|].
  destruct (Z.ltb_spec (wrap64 (pos + len + 66 + eff_size forkID)) pos) as [|Hge]; [done|].
  destruct (wrap64_cases (pos + len + 66 + eff_size forkID)) as [[Hw ?]|[Hw ?]];
    [lia| |exfalso; lia].
  rewrite Hw in *. apply decode_fields_safe; lia.
Qed.

Lemma decode_loop_safe fuel pos txs effs :
  0 ≤ pos ≤ Z.of_nat (length txsData) →
  Z.of_nat (length txsData) - pos < Z.of_nat fuel →
  Z.of_nat (length effs) = eff_size forkID * Z.of_nat (length txs) →
  match decode_loop fuel txsData forkID pos txs effs with
  | None | Some Panic => False
  | Some (Ret (txs', data, effs')) =>
      data = txsData ∧ Z.of_nat (length effs') = eff_size forkID * Z.of_nat (length txs')
  | Some (Fail _) => True
  end.
Proof.
  revert pos txs effs. induction fuel as [|fuel IH]; intros pos txs effs Hpos Hf Heff; [lia|].
  cbn [decode_loop]. destruct (Z.ltb_spec pos (Z.of_nat (length txsData))) as [Hlt|]; [|done].
  pose proof (decode_round_safe pos ltac:(lia)) as Hr.
  destruct (decode_round txsData forkID pos) as [[|endPos tx eff]|e|]; try done.
  - split; [done|]. simpl. lia.
  - destruct Hr as [Hend Hl]. apply IH; [lia|lia|].
    rewrite !length_app, !Nat2Z.inj_add, Heff, Hl. simpl. lia.
Qed.
End safety.

Lemma DecodeTxs_outcome `{!GoEthereum} txsData forkID :
  is_bytes txsData → Z.of_nat (length txsData) < 2 ^ 63 →
  match DecodeTxs txsData forkID with
  | Panic => False
  | Ret (txs, data, efficiencyPercentages) =>
      data = txsData ∧
      Z.of_nat (length efficiencyPercentages) = eff_size forkID * Z.of_nat (length txs)
  | Fail _ => True
  end.
Proof.
  intros Hb Hl. unfold DecodeTxs. case_decide as Hnil; [split; [done|simpl; lia]|].
  pose proof (decode_loop_safe txsData forkID Hb Hl (S (length txsData)) 0 [] []) as Hs.
  destruct (decode_loop _ _ _ _ _ _) as [[[[txs data] effs]|e|]|]; apply Hs; simpl; lia.
Qed.

(** C30. [DecodeTxs] returns on every input: the loop ends, no slice
    expression is out of range, whatever the length fields of the data claim
    and although the positions are computed with wrap-around, and from
    Dragonfruit on there is one percentage per transaction (before, none). *)
Theorem DecodeTxs_safe `{!GoEthereum} txsData forkID :
  is_bytes txsData → Z.of_nat (length txsData) < 2 ^ 63 →
  is_Some (decode_loop (S (length txsData)) txsData forkID 0 [] []) ∧
  match DecodeTxs txsData forkID with
  | Panic => False
  | Ret (txs, data, efficiencyPercentages) =>
      data = txsData ∧
      Z.of_nat (length efficiencyPercentages) =
        (if FORKID_DRAGONFRUIT <=? forkID then 1 else 0) * Z.of_nat (length txs)
  | Fail _ => True
  end.
Proof.
  intros Hb Hl. split; [|by apply DecodeTxs_outcome].
  pose proof (decode_loop_safe txsData forkID Hb Hl (S (length txsData)) 0 [] []) as Hs.
  destruct (decode_loop _ _ _ _ _ _) as [r|]; [done|]. exfalso. apply Hs; simpl; lia.
Qed.

Lemma DecodeTxs_safe_witness :
  let data := [255; 255; 255; 255; 255; 255; 255; 255; 255; 0; 0; 0] in
  match @DecodeTxs RefEthereum.ref_ethereum data FORKID_ETROG with Panic => False | _ => True end.
Proof.
  pose proof (@DecodeTxs_safe RefEthereum.ref_ethereum
    [255; 255; 255; 255; 255; 255; 255; 255; 255; 0; 0; 0] FORKID_ETROG) as Hs.
  destruct Hs as [_ Hs]; [apply (bool_decide_unpack _); by vm_compute|by vm_compute|].
  cbv zeta. destruct (DecodeTxs _ _) as [[[? ?] ?]| |]; [exact I|exact I|exact Hs].
Defined.

(** When the length bytes of a transaction are cut off, [DecodeTxs]
    returns the error variable of an earlier call, which is nil: the data is
    accepted and all transactions, also those before, are dropped. *)
Theorem DecodeTxs_truncated_accepted `{!GoEthereum} b rest forkID :
  is_bytes (b :: rest) → f7 < b → Z.of_nat (length rest) < b - f7 →
  DecodeTxs (b :: rest) forkID = Ret ([], b :: rest, []).
Proof.
  intros Hb Hf Hr. pose proof Hb as [Hb0 _]%Forall_cons. unfold f7 in *.
  unfold DecodeTxs. rewrite decide_False by done.
  remember (length (b :: rest)) as fuel eqn:Hfuel.
  cbn [decode_loop]. rewrite (proj2 (Z.ltb_lt _ _)) by (cbn [length]; lia).
  unfold decode_round.
  destruct (header_byte (b :: rest) Hb ltac:(cbn [length]; lia) 0) as (b' & rest' & Hd & _ & ->);
    [cbn [length]; lia|].
  injection Hd as <- _. go_bind.
  rewrite ParseUint_byte by done. cbn [lift_num]. go_bind.
  unfold c0. rewrite (proj2 (Z.ltb_ge _ _)) by lia.
  unfold decode_length, c0, f7, shortRlp. wrap_small.
  rewrite !(proj2 (Z.ltb_lt _ _)) by (cbn [length]; lia). done.
Qed.

Lemma DecodeTxs_truncated_accepted_witness :
  @DecodeTxs RefEthereum.ref_ethereum [249; 1] FORKID_ETROG = Ret ([], [249; 1], []).
Proof.
  apply (@DecodeTxs_truncated_accepted RefEthereum.ref_ethereum 249 [1] FORKID_ETROG);
    [apply (bool_decide_unpack _); by vm_compute|by vm_compute|by vm_compute].
Defined.

(** ** Round trip *)

(** The legacy transactions the node accepts: machine words, 256 bit numbers
    and a signature of an unprotected or an EIP-155 transaction. *)
Record legacy_ok (l : LegacyTx) : Prop := {
  ok_Nonce : in_u64 (l_Nonce l);
  ok_Gas : in_u64 (l_Gas l);
  ok_GasPrice : 0 ≤ l_GasPrice l < 2 ^ 256;
  ok_Value : 0 ≤ l_Value l < 2 ^ 256;
  ok_To a : l_To l = Some a → 0 ≤ a < 2 ^ 160;
  ok_Data : is_bytes (l_Data l);
  ok_Data_size : Z.of_nat (length (l_Data l)) < 2 ^ 32;
  ok_R : 0 ≤ l_R l < 2 ^ 256;
  ok_S : 0 ≤ l_S l < 2 ^ 256;
  ok_V : l_V l = 27 ∨ l_V l = 28 ∨ 35 ≤ l_V l < 2 ^ 256
}.

Section roundtrip.
Context `{!GoEthereum, !GoEthereumLaws}.

Definition unprotected (l : LegacyTx) : bool := (l_V l =? 27) || (l_V l =? 28).

Definition fields_of (l : LegacyTx) : list rlp_value :=
  [RUint (l_Nonce l); RBig (l_GasPrice l); RUint (l_Gas l); RAddr (l_To l);
   RBig (l_Value l); RBytes (l_Data l)] ++
  (if unprotected l then [] else [RBig ((l_V l - 35) / 2); RUint 0; RUint 0]).

Definition sig_v (l : LegacyTx) : Z := 28 - Z.land (l_V l) 1.
Definition sig_bytes (l : LegacyTx) : bytes :=
  split_digits 256 32 (l_R l) ++ split_digits 256 32 (l_S l) ++ [sig_v l].

Lemma land_1 z : Z.land z 1 = z mod 2.
Proof. apply (Z.land_ones z 1). lia. Qed.

Lemma ChainId_eq l :
  legacy_ok l → tx_ChainId (NewTx l) = if unprotected l then 0 else (l_V l - 35) / 2.
Proof.
  intros [_ _ _ _ _ _ _ _ _ HV]. unfold unprotected.
  destruct (Z.eqb_spec (l_V l) 27), (Z.eqb_spec (l_V l) 28); simpl;
    try (apply NewTx_ChainId_unprotected; lia).
  apply (NewTx_ChainId_protected l ((l_V l - 35) / 2) ((l_V l - 35) mod 2)).
  - apply Z.div_pos; lia.
  - pose proof (Z.mod_pos_bound (l_V l - 35) 2). lia.
  - pose proof (Z.div_mod (l_V l - 35) 2). lia.
Qed.

Lemma IsPreEIP155Tx_eq l : legacy_ok l → IsPreEIP155Tx (NewTx l) = unprotected l.
Proof.
  intros Hok. unfold IsPreEIP155Tx. rewrite NewTx_Signature, ChainId_eq by done.
  destruct Hok as [_ _ _ _ _ _ _ _ _ HV]. unfold unprotected, big_Uint64, wrap64.
  destruct (Z.eqb_spec (l_V l) 27) as [->|H27]; [done|].
  destruct (Z.eqb_spec (l_V l) 28) as [->|H28]; [done|]. simpl.
  set (c := (l_V l - 35) / 2). set (p := (l_V l - 35) mod 2).
  pose proof (Z.div_mod (l_V l - 35) 2 ltac:(lia)) as Hdm.
  pose proof (Z.mod_pos_bound (l_V l - 35) 2 ltac:(lia)) as Hp.
  fold c p in Hdm, Hp. assert (0 ≤ c) by (apply Z.div_pos; lia).
  destruct (Z.eqb_spec (Z.abs c mod 2 ^ 64) 0) as [Hc|]; [|done]. simpl.
  rewrite Z.abs_eq in Hc by lia. rewrite Z.abs_eq by lia.
  apply Z.mod_divide in Hc as [k Hk]; [|lia].
  assert (l_V l mod 2 ^ 64 = 35 + p) as ->.
  { replace (l_V l) with (35 + p + 2 * k * 2 ^ 64) by lia.
    rewrite Z.mod_add by lia. apply Z.mod_small. lia. }
  rewrite !(proj2 (Z.eqb_neq _ _)) by lia. done.
Qed.

Lemma fields_of_ok l :
  legacy_ok l →
  Forall value_ok (fields_of l) ∧
  Z.of_nat (sum_list_with (λ v, 9 + length (value_bytes v))%nat (fields_of l)) < 2 ^ 60.
Proof.
  intros Hok. pose proof Hok as [? ? ? ? ? ? ? ? ? HV].
  assert (∀ n, n < 2 ^ 256 → (length (digits 256 n) ≤ 32)%nat) as Hlen.
  { intros n Hn. apply digits_length; lia. }
  assert (length (value_bytes (RAddr (l_To l))) ≤ 20)%nat.
  { destruct (l_To l); [|simpl; lia]. cbn [value_bytes]. rewrite length_split_digits. done. }
  unfold fields_of, in_u64 in *.
  pose proof (Hlen (l_Nonce l)). pose proof (Hlen (l_Gas l)). pose proof (Hlen (l_GasPrice l)).
  pose proof (Hlen (l_Value l)). pose proof (Hlen ((l_V l - 35) / 2)).
  pose proof (Z.div_le_upper_bound (l_V l - 35) 2 (l_V l)).
  pose proof (Z.div_pos (l_V l - 35) 2).
  unfold unprotected. destruct (Z.eqb_spec (l_V l) 27), (Z.eqb_spec (l_V l) 28);
    cbn [orb app]; (split; [repeat (constructor; [cbn [value_ok]; unfold in_u64; try done; lia|]); constructor|]);
    cbn [sum_list_with]; cbn [value_bytes] in *; change (digits 256 0) with (@nil Z);
    cbn [length]; lia.
Qed.

Lemma sig_v_range l : 27 ≤ sig_v l ≤ 28.
Proof. unfold sig_v. rewrite land_1. pose proof (Z.mod_pos_bound (l_V l) 2). lia. Qed.

Lemma sig_bytes_ok l : is_bytes (sig_bytes l).
Proof.
  pose proof (sig_v_range l). unfold is_bytes, is_digits, sig_bytes. rewrite !Forall_app, Forall_singleton.
  split_and!; try apply split_digits_is_digits; lia.
Qed.

Lemma length_sig_bytes l : length (sig_bytes l) = 65%nat.
Proof. unfold sig_bytes. by rewrite !length_app, !length_split_digits. Qed.

(** The signature is written in hexadecimal with padding and read back as
    bytes. *)
Lemma decode_signature e l :
  is_bytes e → legacy_ok l →
  DecodeString (EncodeToString e ++ pad_text 64 (Text (l_R l)) ++ pad_text 64 (Text (l_S l)) ++
                pad_text 2 (Text (sig_v l))) = Ret (e ++ sig_bytes l).
Proof.
  intros He Hok. pose proof (sig_v_range l). destruct Hok.
  rewrite (pad_Text 64 32), (pad_Text 64 32), (pad_Text 2 1) by lia.
  replace (split_digits 256 1 (sig_v l)) with [sig_v l].
  2: { unfold split_digits. simpl. by rewrite Z.mod_small by lia. }
  rewrite <-!EncodeToString_app. apply DecodeString_EncodeToString.
  apply Forall_app. split; [done|]. apply sig_bytes_ok.
Qed.

Lemma prepare_eq l e :
  legacy_ok l → rlp_EncodeToBytes (fields_of l) = inr e → is_bytes e →
  prepareRPLTxData (NewTx l) = Ret (e ++ sig_bytes l).
Proof.
  intros Hok He Hb. unfold prepareRPLTxData.
  rewrite NewTx_Signature, IsPreEIP155Tx_eq by done.
  assert ([RUint (tx_Nonce (NewTx l)); RBig (tx_GasPrice (NewTx l)); RUint (tx_Gas (NewTx l));
           RAddr (tx_To (NewTx l)); RBig (tx_Value (NewTx l)); RBytes (tx_Data (NewTx l))] ++
          (if negb (unprotected l) then [RBig (tx_ChainId (NewTx l)); RUint 0; RUint 0] else [])
          = fields_of l) as ->.
  { rewrite NewTx_Nonce, NewTx_GasPrice, NewTx_Gas, NewTx_To, NewTx_Value, NewTx_Data, ChainId_eq
      by done. unfold fields_of. by destruct (unprotected l). }
  rewrite He. cbn [lift_sum]. go_bind.
  assert (ether155V + (1 -₆₄ Z.land (big_Uint64 (l_V l)) 1) = sig_v l) as ->.
  { unfold sig_v, ether155V, big_Uint64, wrap64 at 2. rewrite !land_1.
    rewrite Z.mod_mod_divide by (by exists (2 ^ 63)).
    pose proof (ok_V _ Hok). rewrite Z.abs_eq by lia.
    pose proof (Z.mod_pos_bound (l_V l) 2). wrap_small. lia. }
  by rewrite decode_signature.
Qed.

Lemma big_Uint64_digits n : in_u64 n → big_Uint64 (of_digits 256 (digits 256 n)) = n.
Proof.
  unfold in_u64. intros Hn. unfold big_Uint64.
  rewrite of_digits_digits, Z.abs_eq by lia. by apply wrap64_small.
Qed.

Lemma fields_roundtrip l :
  legacy_ok l →
  RlpFieldsToLegacyTx (value_bytes <$> fields_of l) [sig_v l]
    (split_digits 256 32 (l_R l)) (split_digits 256 32 (l_S l)) = Ret l.
Proof.
  intros Hok. pose proof (sig_v_range l) as Hv.
  assert (of_digits 256 [sig_v l] = sig_v l) as Hsv by (cbn; lia).
  assert (match value_bytes (RAddr (l_To l)) with
          | [] => None | _ => Some (BytesToAddress (value_bytes (RAddr (l_To l)))) end = l_To l)
    as Hto.
  { pose proof (ok_To _ Hok) as Ha. destruct (l_To l) as [a|]; [|done]. cbn [value_bytes].
    rewrite BytesToAddress_20 by (apply split_digits_is_digits || rewrite length_split_digits; lia).
    rewrite split_digits_small by (lia || by apply Ha).
    destruct (split_digits 256 20 a) eqn:He; [|done].
    apply (f_equal length) in He. rewrite length_split_digits in He. done. }
  destruct Hok as [? ? ? ? ? ? ? ? ? HV].
  unfold fields_of, RlpFieldsToLegacyTx. rewrite fmap_app. cbn [fmap list_fmap app].
  rewrite Hto, Hsv, !split_digits_small by lia. cbn [value_bytes].
  rewrite !big_Uint64_digits, !of_digits_digits by (done || lia).
  unfold unprotected, sig_v in *. rewrite land_1 in *. unfold double, ether155V, etherPre155V.
  destruct (Z.eqb_spec (l_V l) 27) as [E27|], (Z.eqb_spec (l_V l) 28) as [E28|]; cbn [orb];
    [lia|by destruct l; simpl in *; subst..|].
  rewrite fmap_cons. cbn [value_bytes]. rewrite of_digits_digits by (try apply Z.div_pos; lia).
  replace (28 - l_V l mod 2 - 27 + ((l_V l - 35) / 2 * 2 + 35)) with (l_V l)
    by (Z.to_euclidean_division_equations; lia).
  by destruct l.
Qed.

(** The two forms of the header. *)
Lemma rlp_list_cases e :
  is_rlp_list e → Z.of_nat (length e) < 2 ^ 63 →
  ∃ num e', e = num :: e' ∧
    ((num = 192 + Z.of_nat (length e') ∧ Z.of_nat (length e') ≤ 55) ∨
     (∃ ds p, e' = ds ++ p ∧ num = 247 + Z.of_nat (length ds) ∧ is_bytes ds ∧
        (1 ≤ length ds ≤ 8)%nat ∧ of_digits 256 ds = Z.of_nat (length p))).
Proof.
  intros (_ & p & ->) Hlen. unfold rlp_list_header in *. case_decide.
  - eexists _, p. split; [done|]. left. lia.
  - rewrite length_app in Hlen. eexists _, _. split; [done|]. right.
    exists (digits 256 (Z.of_nat (length p))), p. split_and!; [done|done| | | |].
    + apply digits_is_digits. lia.
    + destruct (digits _ _) eqn:He; [|simpl; lia]. apply digits_nil in He; lia.
    + apply digits_length; lia.
    + apply of_digits_digits; lia.
Qed.

Lemma decode_length_rlp pre e post :
  is_rlp_list e → Z.of_nat (length (pre ++ e ++ post)) < 2 ^ 63 →
  ∃ num e', e = num :: e' ∧ 192 ≤ num < 256 ∧
    decode_length (pre ++ e ++ post) (Z.of_nat (length pre)) num =
      Ret (Some (Z.of_nat (length e'))).
Proof.
  intros He Hlen. pose proof Hlen as Hlen'. rewrite !length_app in Hlen'.
  destruct (rlp_list_cases e He ltac:(lia)) as (num & e' & -> & Hc).
  exists num, e'. split; [done|]. unfold decode_length, c0, f7, shortRlp.
  cbn [length] in Hlen'. destruct Hc as [[-> Hs]|(ds & p & -> & -> & Hds & Hk & Hn)].
  - split; [lia|]. wrap_small.
    rewrite (proj2 (Z.ltb_ge _ _)) by lia. do 2 f_equal. lia.
  - split; [lia|]. rewrite length_app in Hlen'. wrap_small.
    rewrite (proj2 (Z.ltb_lt _ _)), (proj2 (Z.ltb_ge _ _)) by
      (rewrite ?length_app; cbn [length]; rewrite ?length_app; lia).
    rewrite (slice_at (pre ++ [247 + Z.of_nat (length ds)]) ds (p ++ post));
      [|rewrite <-!app_assoc; cbn [app]; by rewrite <-!app_assoc
       |rewrite ?length_app; cbn [length]; lia..].
    go_bind.
    rewrite ParseUint_bytes; [|done|by intros ->; simpl in *; lia|lia].
    cbn [lift_num]. go_bind. rewrite Hn. wrap_small.
    rewrite (proj2 (Z.ltb_ge _ _)) by lia. rewrite length_app. do 2 f_equal. lia.
Qed.

Definition eff_bytes (forkID eff : Z) : bytes :=
  if FORKID_DRAGONFRUIT <=? forkID then [eff] else [].

Lemma decode_fields_tx pre e l eff post forkID :
  legacy_ok l → rlp_DecodeBytes e = inr (value_bytes <$> fields_of l) → (0 < length e)%nat →
  Z.of_nat (length (pre ++ e ++ sig_bytes l ++ eff_bytes forkID eff ++ post)) < 2 ^ 63 →
  let endPos := Z.of_nat (length (pre ++ e ++ sig_bytes l ++ eff_bytes forkID eff)) in
  decode_fields (pre ++ e ++ sig_bytes l ++ eff_bytes forkID eff ++ post) forkID
    (Z.of_nat (length pre)) (Z.of_nat (length e) - 1) endPos =
  Ret (Next endPos (NewTx l) (eff_bytes forkID eff)).
Proof.
  intros Hok Hdec He Hlen endPos. unfold endPos in *. clear endPos.
  set (data := pre ++ e ++ _) in Hlen |- *.
  pose proof Hlen as Hlen'. unfold data in Hlen'.
  rewrite !length_app, length_sig_bytes in Hlen'. rewrite !length_app, length_sig_bytes.
  unfold decode_fields, rLength, sLength, vLength, headerByteLength. wrap_small.
  set (R := split_digits 256 32 (l_R l)). set (S := split_digits 256 32 (l_S l)).
  assert (length R = 32%nat ∧ length S = 32%nat) as [HR HS]
    by (unfold R, S; by rewrite !length_split_digits).
  assert (data = pre ++ e ++ R ++ S ++ [sig_v l] ++ eff_bytes forkID eff ++ post) as Hdata.
  { unfold data, sig_bytes. by rewrite <-!app_assoc. }
  pose proof (length_sig_bytes l) as Hsig.
  slice_head pre (e ++ sig_bytes l ++ eff_bytes forkID eff) post.
  rewrite Hdata.
  slice_head pre e (R ++ S ++ [sig_v l] ++ eff_bytes forkID eff ++ post).
  slice_head (pre ++ e) R (S ++ [sig_v l] ++ eff_bytes forkID eff ++ post).
  slice_head (pre ++ e ++ R) S ([sig_v l] ++ eff_bytes forkID eff ++ post).
  slice_head (pre ++ e ++ R ++ S) [sig_v l] (eff_bytes forkID eff ++ post).
  assert (decode_efficiency (pre ++ e ++ R ++ S ++ [sig_v l] ++ eff_bytes forkID eff ++ post)
    forkID (Z.of_nat (length pre) + (Z.of_nat (length e) - 1) + 1 + 32 + 32 + 1)
    (Z.of_nat (length pre + (length e + (65 + length (eff_bytes forkID eff)))))
    = Ret (eff_bytes forkID eff)) as ->.
  { unfold decode_efficiency, eff_bytes in *. destruct (FORKID_DRAGONFRUIT <=? forkID); [|done].
    by slice_head (pre ++ e ++ R ++ S ++ [sig_v l]) [eff] post. }
  go_bind. rewrite Hdec. cbn [lift_sum]. go_bind. unfold R, S.
  by rewrite fields_roundtrip.
Qed.


(** A transaction followed by its signature and percentage is decoded. *)
Lemma decode_round_tx pre e l eff post forkID :
  legacy_ok l → rlp_DecodeBytes e = inr (value_bytes <$> fields_of l) → is_rlp_list e →
  Z.of_nat (length (pre ++ e ++ sig_bytes l ++ eff_bytes forkID eff ++ post)) < 2 ^ 63 →
  decode_round (pre ++ e ++ sig_bytes l ++ eff_bytes forkID eff ++ post) forkID
    (Z.of_nat (length pre)) =
  Ret (Next (Z.of_nat (length (pre ++ e ++ sig_bytes l ++ eff_bytes forkID eff))) (NewTx l)
        (eff_bytes forkID eff)).
Proof.
  intros Hok Hdec He Hlen.
  destruct (decode_length_rlp pre e (sig_bytes l ++ eff_bytes forkID eff ++ post) He Hlen)
    as (num & e' & -> & Hnum & Hdl).
  set (data := pre ++ _) in *. unfold decode_round.
  assert (slice (E := CodecErr) data (Z.of_nat (length pre)) (Z.of_nat (length pre) + 1)
          = Ret [num]) as Hhead by (by apply (slice_at pre [num] (e' ++ sig_bytes l ++ eff_bytes forkID eff ++ post))).
  pose proof Hlen as Hlen'. unfold data in Hlen'.
  rewrite !length_app, length_sig_bytes in Hlen'. cbn [length] in Hlen'.
  rewrite (wrap64_small (Z.of_nat (length pre) + 1)) by (unfold in_u64; lia).
  rewrite Hhead. go_bind. rewrite ParseUint_byte by lia. cbn [lift_num]. go_bind.
  unfold c0. rewrite (proj2 (Z.ltb_ge num 192)) by lia. rewrite Hdl. go_bind.
  rewrite endPos_eq. assert (Z.of_nat (length (eff_bytes forkID eff)) = eff_size forkID) as Heff.
  { unfold eff_bytes, eff_size. by case_match. }
  set (endPos := Z.of_nat (length (pre ++ _))).
  assert (endPos = Z.of_nat (length pre) + Z.of_nat (length e') + 66 + eff_size forkID) as Hend.
  { unfold endPos. rewrite !length_app, length_sig_bytes. cbn [length]. lia. }
  rewrite <-Hend, wrap64_small by (unfold in_u64; lia).
  rewrite !(proj2 (Z.ltb_ge _ _)) by
    (unfold data; rewrite ?length_app, ?length_sig_bytes; cbn [length]; lia).
  pose proof (decode_fields_tx pre (num :: e') l eff post forkID Hok Hdec) as Hf.
  cbn [length] in Hf. replace (Z.of_nat (S (length e')) - 1) with (Z.of_nat (length e')) in Hf by lia.
  by apply Hf; [lia|].
Qed.

(** The encoding of a list of transactions with their percentages. *)
Fixpoint enc_txs (forkID : Z) (es : list (bytes * LegacyTx * Z)) : bytes :=
  match es with
  | [] => []
  | (e, l, eff) :: es' => e ++ sig_bytes l ++ eff_bytes forkID eff ++ enc_txs forkID es'
  end.

(** [e] is the RLP list of the fields of [l]. *)
Definition encodes (x : bytes * LegacyTx * Z) : Prop :=
  let '(e, l, eff) := x in
  legacy_ok l ∧ 0 ≤ eff < 256 ∧ is_rlp_list e ∧
  rlp_EncodeToBytes (fields_of l) = inr e ∧
  rlp_DecodeBytes e = inr (value_bytes <$> fields_of l).

Lemma decode_loop_txs forkID es : Forall encodes es → ∀ fuel pre txs effs,
  Z.of_nat (length (pre ++ enc_txs forkID es)) < 2 ^ 63 → (length es < fuel)%nat →
  decode_loop fuel (pre ++ enc_txs forkID es) forkID (Z.of_nat (length pre)) txs effs =
  Some (Ret (txs ++ ((λ x, NewTx x.1.2) <$> es), pre ++ enc_txs forkID es,
             effs ++ (es ≫= λ x, eff_bytes forkID x.2))).
Proof.
  induction 1 as [|[[e l] eff] es (Hok & Heff & He & Henc & Hdec) _ IH];
    intros fuel pre txs effs Hlen Hf; (destruct fuel as [|fuel]; [simpl in Hf; lia|]);
    cbn [decode_loop enc_txs].
  { rewrite app_nil_r, Z.ltb_irrefl. simpl. by rewrite !app_nil_r. }
  cbn [enc_txs] in Hlen.
  assert (0 < length e)%nat.
  { destruct He as (_ & p & ->). unfold rlp_list_header. case_decide; simpl; lia. }
  rewrite (proj2 (Z.ltb_lt _ _)) by (rewrite !length_app; lia).
  rewrite decode_round_tx by done.
  set (pre' := pre ++ e ++ sig_bytes l ++ eff_bytes forkID eff).
  assert (pre ++ e ++ sig_bytes l ++ eff_bytes forkID eff ++ enc_txs forkID es =
          pre' ++ enc_txs forkID es) as Heq by (unfold pre'; by rewrite <-!app_assoc).
  rewrite Heq in Hlen |- *. rewrite IH by (done || simpl in Hf; lia).
  rewrite fmap_cons, bind_cons, <-!app_assoc. done.
Qed.

Lemma encode_ok l eff :
  legacy_ok l → 0 ≤ eff < 256 → ∃ e, encodes (e, l, eff).
Proof.
  intros Hok Heff. destruct (fields_of_ok l Hok) as [Hv Hs].
  destruct (rlp_roundtrip (fields_of l) Hv Hs) as (e & He & Hl & Hd).
  exists e. split_and!; try done; try lia.
Qed.

Lemma DecodeHex_byte p : 0 ≤ p < 256 → DecodeHex (nat_text p) = Ret [p].
Proof.
  revert p. apply (range_cases _ 256). apply (bool_decide_unpack _). by vm_compute.
Qed.

Lemma encode_loop_txs forkID es : Forall encodes es → ∀ effs i acc,
  (∀ k x, es !! k = Some x → effs !! (Z.to_nat i + k)%nat = Some x.2) → 0 ≤ i →
  encode_loop ((λ x, NewTx x.1.2) <$> es) i effs forkID acc = Ret (acc ++ enc_txs forkID es).
Proof.
  induction 1 as [|[[e l] eff] es (Hok & Heff & He & Henc & Hdec) _ IH]; intros effs i acc Hi Hi0.
  { simpl. by rewrite app_nil_r. }
  rewrite fmap_cons. cbn [encode_loop enc_txs fst snd].
  rewrite (prepare_eq l e) by (done || apply He). go_bind.
  assert (∀ k x, es !! k = Some x → effs !! (Z.to_nat (i + 1) + k)%nat = Some x.2) as Hi'.
  { intros k x Hk. rewrite <-(Hi (S k) x Hk). f_equal. lia. }
  unfold eff_bytes. case_match.
  - unfold index. rewrite (proj2 (Z.leb_le _ _)) by lia.
    specialize (Hi 0%nat (e, l, eff) eq_refl). rewrite Nat.add_0_r in Hi. rewrite Hi.
    go_bind. cbn [snd]. rewrite DecodeHex_byte by done. go_bind.
    rewrite IH by (done || lia). by rewrite <-!app_assoc.
  - rewrite IH by (done || lia). by rewrite <-!app_assoc.
Qed.

Lemma encodes_list ls effs :
  Forall legacy_ok ls → Forall (λ p, 0 ≤ p < 256) effs → length effs = length ls →
  ∃ es, Forall encodes es ∧ ls = (λ x, x.1.2) <$> es ∧ effs = snd <$> es.
Proof.
  intros Hls. revert effs. induction Hls as [|l ls Hl _ IH]; intros [|p effs] Heffs Hlen; try done.
  { by exists []. }
  apply Forall_cons in Heffs as [Hp Heffs].
  destruct (IH effs Heffs) as (es & Hes & -> & ->); [by simpl in Hlen; lia|].
  destruct (encode_ok l p Hl Hp) as [e He]. exists ((e, l, p) :: es). by split; [constructor|].
Qed.

Lemma length_enc_txs forkID es : Forall encodes es → (length es ≤ length (enc_txs forkID es))%nat.
Proof.
  induction 1 as [|[[e l] eff] es (_ & _ & (_ & p & ->) & _) _ IH]; [done|].
  cbn [enc_txs length]. rewrite !length_app, length_sig_bytes. lia.
Qed.

Lemma bind_eff_bytes forkID es :
  es ≫= (λ x : bytes * LegacyTx * Z, eff_bytes forkID x.2) =
  if FORKID_DRAGONFRUIT <=? forkID then snd <$> es else [].
Proof.
  unfold eff_bytes. case_match; (induction es as [|x es IH]; [done|]);
    rewrite ?fmap_cons, bind_cons, IH; done.
Qed.

Lemma DecodeTxs_enc forkID es :
  Forall encodes es → Z.of_nat (length (enc_txs forkID es)) < 2 ^ 63 →
  DecodeTxs (enc_txs forkID es) forkID =
    Ret ((λ x, NewTx x.1.2) <$> es, enc_txs forkID es,
         if FORKID_DRAGONFRUIT <=? forkID then snd <$> es else []).
Proof.
  intros Hes Hlen. pose proof (length_enc_txs forkID es Hes). unfold DecodeTxs.
  rewrite <-bind_eff_bytes. case_decide as Hnil.
  { rewrite Hnil in *. destruct es; [done|simpl in *; lia]. }
  pose proof (decode_loop_txs forkID es Hes (S (length (enc_txs forkID es))) [] [] []) as Hl.
  cbn [app length] in Hl. change (Z.of_nat 0) with 0 in Hl. by rewrite Hl by lia.
Qed.
End roundtrip.

(** C11. Decoding inverts encoding, before Dragonfruit and after: for any list
    of well-formed legacy transactions, unprotected or with an EIP-155
    signature, [EncodeTransactions] succeeds and [DecodeTxs] recovers the
    transactions with all their fields and signatures and the percentages. *)
Theorem DecodeTxs_EncodeTransactions `{!GoEthereum, !GoEthereumLaws} ls effs forkID :
  Forall legacy_ok ls → Forall (λ p, 0 ≤ p < 256) effs → length effs = length ls →
  ∃ data, EncodeTransactions (NewTx <$> ls) effs forkID = Ret data ∧
    (Z.of_nat (length data) < 2 ^ 63 →
     DecodeTxs data forkID =
       Ret (NewTx <$> ls, data, if FORKID_DRAGONFRUIT <=? forkID then effs else [])).
Proof.
  intros Hls Heffs Hlen. destruct (encodes_list ls effs Hls Heffs Hlen) as (es & Hes & -> & ->).
  exists (enc_txs forkID es). rewrite <-list_fmap_compose. split.
  - unfold EncodeTransactions. rewrite <-(app_nil_l (enc_txs forkID es)).
    apply encode_loop_txs; [done| |lia]. intros k x Hx. by apply list_lookup_fmap_Some; eauto.
  - intros Hl. by rewrite DecodeTxs_enc.
Qed.

(** A transaction of the chain 1101 and an unprotected contract creation. *)
Definition sample_legacy : LegacyTx :=
  mkLegacyTx 7 1000000000 21000 (Some 4660) (10 ^ 18) [] (35 + 2 * 1101) (2 ^ 250 + 5) 99.
Definition sample_creation : LegacyTx :=
  mkLegacyTx 0 0 100000 None 0 (seqZ 0 100) 28 1 (2 ^ 255).

Lemma sample_legacy_ok : legacy_ok sample_legacy.
Proof.
  split; simpl; unfold in_u64; try lia; [|constructor].
  intros a [= <-]. lia.
Qed.

Lemma sample_creation_ok : legacy_ok sample_creation.
Proof.
  split; simpl; unfold in_u64; try lia; [done|].
  apply (bool_decide_unpack _). by vm_compute.
Qed.

Lemma DecodeTxs_EncodeTransactions_witness :
  let G := RefEthereum.ref_ethereum in
  let txs := @NewTx G <$> [sample_legacy; sample_creation] in
  ∃ data, @EncodeTransactions G txs [255; 0] FORKID_ETROG = Ret data ∧
    Z.of_nat (length data) < 2 ^ 63 ∧
    @DecodeTxs G data FORKID_ETROG = Ret (txs, data, [255; 0]).
Proof.
  cbv zeta.
  destruct (@DecodeTxs_EncodeTransactions RefEthereum.ref_ethereum RefEthereum.ref_laws
              [sample_legacy; sample_creation] [255; 0] FORKID_ETROG) as (data & He & Hd).
  - exact (Forall_cons_2 _ _ _ sample_legacy_ok
             (Forall_cons_2 _ _ _ sample_creation_ok (Forall_nil_2 _))).
  - repeat constructor; lia.
  - done.
  - assert (Z.of_nat (length data) < 2 ^ 63) as Hl.
    { vm_compute in He. injection He as <-. by vm_compute. }
    exists data. split; [exact He|]. split; [exact Hl|]. exact (Hd Hl).
Defined.

(** [CheckLogOrder] holds exactly of logs in ascending order of index. *)
Theorem CheckLogOrder_sorted logs : CheckLogOrder logs = true ↔ Sorted Z.le logs.
Proof.
  unfold CheckLogOrder. pose proof (merge_sort_Permutation Z.le logs) as Hp.
  rewrite decide_False by (intros Hne; apply Hne; by rewrite Hp).
  assert (forallb (λ p : Z * Z, p.1 =? p.2) (zip (merge_sort Z.le logs) logs) = true ↔
          merge_sort Z.le logs = logs) as ->.
  { apply Permutation_length in Hp. revert Hp. generalize (merge_sort Z.le logs).
    induction logs as [|x logs IH]; intros [|y l] Hl; simpl in *; try done.
    rewrite andb_true_iff, Z.eqb_eq, IH by lia. naive_solver. }
  split.
  - intros <-. apply Sorted_merge_sort. apply _.
  - intros Hs. apply (Sorted_unique Z.le); [apply Sorted_merge_sort; apply _|done|done].
Qed.
