(* ===== verification/BatchV2.v ===== *)
(** * The encoding of Etrog batches

    [state/encoding_batch_v2.go]: a batch is a sequence of L2 blocks, each with
    a header (the marker [changeL2Block], the increment of the timestamp and
    the index of the L1 info tree, four bytes each) followed by its
    transactions in the format of [TxCodec] with the efficiency percentage. *)

From S2P Require Import Prelude Digits Hex GoEthereum TxCodec.
From coqutil Require Import Z.bitblast.

Section batch.
Context `{!GoEthereum}.

Record L2TxRaw := mkL2TxRaw { rawTx : Transaction; EfficiencyPercentage : Z }.

Record L2BlockRaw := mkL2BlockRaw {
  DeltaTimestamp : Z;
  IndexL1InfoTree : Z;
  Transactions : list L2TxRaw
}.

Definition BatchRawV2 := list L2BlockRaw.
Definition ForcedBatchRawV2 := list L2TxRaw.

Definition changeL2Block : Z := 11.

(** ** Encoding *)

(** [byte(value >> 24)] and so on. *)
Definition serializeUint32 (value : Z) : bytes :=
  [wrap8 (Z.shiftr value 24); wrap8 (Z.shiftr value 16); wrap8 (Z.shiftr value 8); wrap8 value].

Definition EncodeBlockHeaderV2 (batchData : bytes) (block : L2BlockRaw) : bytes :=
  batchData ++ [changeL2Block] ++ serializeUint32 (DeltaTimestamp block) ++
  serializeUint32 (IndexL1InfoTree block).

Definition encodeTxRLP (batchData : bytes) (tx : L2TxRaw) : GoRes CodecErr bytes :=
  rlpTx ← prepareRPLTxData (rawTx tx);
  Ret (batchData ++ rlpTx ++ [EfficiencyPercentage tx]).

Fixpoint encode_block_txs (batchData : bytes) (txs : list L2TxRaw) : GoRes CodecErr bytes :=
  match txs with
  | [] => Ret batchData
  | tx :: txs' => batchData ← encodeTxRLP batchData tx; encode_block_txs batchData txs'
  end.

Fixpoint encode_blocks (batchData : bytes) (blocks : list L2BlockRaw) : GoRes CodecErr bytes :=
  match blocks with
  | [] => Ret batchData
  | block :: blocks' =>
      let batchData := EncodeBlockHeaderV2 batchData block in
      batchData ← encode_block_txs batchData (Transactions block);
      encode_blocks batchData blocks'
  end.

(** A nil batch is [None]. *)
Definition EncodeBatchV2 (batch : option BatchRawV2) : GoRes CodecErr bytes :=
  match batch with
  | None => Fail ErrInvalidBatchV2
  | Some [] => Fail ErrInvalidBatchV2
  | Some blocks => encode_blocks [] blocks
  end.

(** ** Decoding *)

Definition deserializeUint32 (txsData : bytes) (pos : Z) : GoRes CodecErr (Z * Z) :=
  if Z.of_nat (length txsData) - pos <? 4 then Fail ErrInvalidBatchV2
  else
    b0 ← index txsData pos;
    b1 ← index txsData (pos + 1);
    b2 ← index txsData (pos + 2);
    b3 ← index txsData (pos + 3);
    Ret (pos + 4, Z.lor (Z.lor (Z.lor (Z.shiftl b0 24) (Z.shiftl b1 16)) (Z.shiftl b2 8)) b3).

Definition decodeBlockHeader (txsData : bytes) (pos : Z) : GoRes CodecErr (Z * L2BlockRaw) :=
  '(pos, deltaTimestamp) ← deserializeUint32 txsData pos;
  '(pos, indexL1InfoTree) ← deserializeUint32 txsData pos;
  Ret (pos, mkL2BlockRaw deltaTimestamp indexL1InfoTree []).

Definition decodeRLPListLengthFromOffset (txsData : bytes) (offset : Z) : GoRes CodecErr Z :=
  let txDataLength := Z.of_nat (length txsData) in
  num ← index txsData offset;
  if num <? c0 then Fail ErrInvalidRLP
  else
    let len := num -₆₄ c0 in
    len ←
      (if shortRlp <? len then
         let pos64 := wrap64 offset in
         let lengthInByteOfSize := num -₆₄ f7 in
         if txDataLength <? (pos64 +₆₄ headerByteLength +₆₄ lengthInByteOfSize)
         then Fail ErrInvalidRLP
         else
           lengthBytes ← slice txsData (pos64 +₆₄ 1) (pos64 +₆₄ 1 +₆₄ lengthInByteOfSize);
           n ← lift_num (ParseUint (EncodeToString lengthBytes) 16);
           Ret (n +₆₄ num -₆₄ f7)
       else Ret len);
    Ret (len +₆₄ headerByteLength).

Definition decodeTxRLP (txsData : bytes) (offset : Z) : GoRes CodecErr (Z * L2TxRaw) :=
  len ← decodeRLPListLengthFromOffset txsData offset;
  let endPos := wrap64 offset +₆₄ len +₆₄ rLength +₆₄ sLength +₆₄ vLength
                  +₆₄ EfficiencyPercentageByteLength in
  if Z.of_nat (length txsData) <? endPos then Fail ErrInvalidBatchV2
  else
    fullDataTx ← slice (E := CodecErr) txsData offset endPos;
    let dataStart := wrap64 offset +₆₄ len in
    txInfo ← slice txsData offset dataStart;
    rData ← slice txsData dataStart (dataStart +₆₄ rLength);
    sData ← slice txsData (dataStart +₆₄ rLength) (dataStart +₆₄ rLength +₆₄ sLength);
    vData ← slice txsData (dataStart +₆₄ rLength +₆₄ sLength)
              (dataStart +₆₄ rLength +₆₄ sLength +₆₄ vLength);
    efficiencyPercentage ← index txsData (dataStart +₆₄ rLength +₆₄ sLength +₆₄ vLength);
    rlpFields ← lift_sum ErrRlp (rlp_DecodeBytes txInfo);
    legacyTx ← RlpFieldsToLegacyTx rlpFields vData rData sData;
    Ret (endPos, mkL2TxRaw (NewTx legacyTx) efficiencyPercentage).

(** [append(blocks, *currentBlock)] when there is one. *)
Definition close_block (blocks : list L2BlockRaw) (currentBlock : option L2BlockRaw) :
    list L2BlockRaw :=
  match currentBlock with Some b => blocks ++ [b] | None => blocks end.

Definition add_tx (b : L2BlockRaw) (tx : L2TxRaw) : L2BlockRaw :=
  mkL2BlockRaw (DeltaTimestamp b) (IndexL1InfoTree b) (Transactions b ++ [tx]).

(** One round of the loop of [DecodeBatchV2]. *)
Definition batch_round (txsData : bytes) (pos : Z) (blocks : list L2BlockRaw)
    (currentBlock : option L2BlockRaw) :
    GoRes CodecErr (Z * list L2BlockRaw * option L2BlockRaw) :=
  b ← index txsData pos;
  if decide (b = changeL2Block) then
    '(pos, newBlock) ← decodeBlockHeader txsData (pos + 1);
    Ret (pos, close_block blocks currentBlock, Some newBlock)
  else
    match currentBlock with
    | None =>
        match decodeTxRLP txsData pos with
        | Ret _ => Fail ErrBatchV2DontStartWithChangeL2Block
        | Fail _ => Fail ErrInvalidBatchV2
        | Panic => Panic
        end
    | Some cur =>
        '(pos, tx) ← decodeTxRLP txsData pos;
        Ret (pos, blocks, Some (add_tx cur tx))
    end.

(** [None] is lack of fuel. *)
Fixpoint batch_loop (fuel : nat) (txsData : bytes) (pos : Z) (blocks : list L2BlockRaw)
    (currentBlock : option L2BlockRaw) : option (GoRes CodecErr BatchRawV2) :=
  match fuel with
  | O => None
  | S fuel' =>
      if pos <? Z.of_nat (length txsData) then
        match batch_round txsData pos blocks currentBlock with
        | Ret (pos, blocks, currentBlock) => batch_loop fuel' txsData pos blocks currentBlock
        | Fail e => Some (Fail e)
        | Panic => Some Panic
        end
      else Some (Ret (close_block blocks currentBlock))
  end.

(** Every round that does not return ends after the position it starts at. *)
Definition DecodeBatchV2 (txsData : bytes) : GoRes CodecErr BatchRawV2 :=
  default Panic (batch_loop (S (length txsData)) txsData 0 [] None).

Fixpoint zip_forced (txs : list Transaction) (i : Z) (efficiencyPercentages : list Z)
    (acc : ForcedBatchRawV2) : GoRes CodecErr ForcedBatchRawV2 :=
  match txs with
  | [] => Ret acc
  | tx :: txs' =>
      p ← index efficiencyPercentages i;
      zip_forced txs' (i + 1) efficiencyPercentages (acc ++ [mkL2TxRaw tx p])
  end.

Definition DecodeForcedBatchV2 (txsData : bytes) : GoRes CodecErr ForcedBatchRawV2 :=
  '(txs, _, efficiencyPercentages) ← DecodeTxs txsData FORKID_ETROG;
  if decide (length efficiencyPercentages ≠ length txs) then Fail ErrInvalidRLP
  else zip_forced txs 0 efficiencyPercentages [].
End batch.

(** ** Lemmas *)

Lemma serialize_word v :
  in_u32 v →
  Z.lor (Z.lor (Z.lor (Z.shiftl (wrap8 (Z.shiftr v 24)) 24) (Z.shiftl (wrap8 (Z.shiftr v 16)) 16))
           (Z.shiftl (wrap8 (Z.shiftr v 8)) 8)) (wrap8 v) = v.
Proof.
  unfold in_u32, wrap8. intros Hv. rewrite <-(Z.mod_small v (2 ^ 32)) at 5 by lia.
  rewrite <-!Z.land_ones by lia. Z.bitblast.
Qed.

Lemma deserialize_serialize pre v post :
  in_u32 v →
  deserializeUint32 (pre ++ serializeUint32 v ++ post) (Z.of_nat (length pre)) =
    Ret (Z.of_nat (length pre) + 4, v).
Proof.
  intros Hv. unfold deserializeUint32, serializeUint32.
  rewrite (proj2 (Z.ltb_ge _ _)) by (rewrite length_app; cbn [length app]; lia).
  cbn [app]. set (b0 := wrap8 (Z.shiftr v 24)). set (b1 := wrap8 (Z.shiftr v 16)).
  set (b2 := wrap8 (Z.shiftr v 8)). set (b3 := wrap8 v).
  index_head pre b0 (b1 :: b2 :: b3 :: post).
  index_head (pre ++ [b0]) b1 (b2 :: b3 :: post).
  index_head (pre ++ [b0; b1]) b2 (b3 :: post).
  index_head (pre ++ [b0; b1; b2]) b3 post.
  unfold b0, b1, b2, b3. by rewrite serialize_word.
Qed.

Section roundtrip.
Context `{!GoEthereum, !GoEthereumLaws}.

Lemma decodeBlockHeader_eq pre d i post :
  in_u32 d → in_u32 i →
  decodeBlockHeader (pre ++ serializeUint32 d ++ serializeUint32 i ++ post)
    (Z.of_nat (length pre)) = Ret (Z.of_nat (length pre) + 8, mkL2BlockRaw d i []).
Proof.
  intros Hd Hi. unfold decodeBlockHeader. rewrite deserialize_serialize by done. go_bind.
  rewrite app_assoc.
  replace (Z.of_nat (length pre) + 4) with (Z.of_nat (length (pre ++ serializeUint32 d)))
    by (rewrite length_app; simpl; lia).
  rewrite deserialize_serialize by done. go_bind. rewrite length_app. simpl. do 2 f_equal. lia.
Qed.

Lemma decodeRLPListLength_eq pre e post :
  is_rlp_list e → Z.of_nat (length (pre ++ e ++ post)) < 2 ^ 63 →
  decodeRLPListLengthFromOffset (pre ++ e ++ post) (Z.of_nat (length pre)) =
    Ret (Z.of_nat (length e)).
Proof.
  intros He Hlen. pose proof Hlen as Hlen'. rewrite !length_app in Hlen'.
  destruct (rlp_list_cases e He ltac:(lia)) as (num & e' & -> & Hc). cbn [length] in Hlen'.
  unfold decodeRLPListLengthFromOffset, c0, f7, shortRlp, headerByteLength.
  index_head pre num (e' ++ post).
  destruct Hc as [[-> Hs]|(ds & p & -> & -> & Hds & Hk & Hn)].
  - rewrite (proj2 (Z.ltb_ge _ _)) by lia. wrap_small.
    rewrite (proj2 (Z.ltb_ge _ _)) by lia. go_bind. wrap_small. f_equal. cbn [length]. lia.
  - rewrite length_app in Hlen'. rewrite (proj2 (Z.ltb_ge _ _)) by lia. wrap_small.
    rewrite (proj2 (Z.ltb_lt _ _)), (proj2 (Z.ltb_ge _ _)) by
      (rewrite ?length_app; cbn [length]; rewrite ?length_app; lia).
    rewrite (slice_at (pre ++ [247 + Z.of_nat (length ds)]) ds (p ++ post));
      [|rewrite <-!app_assoc; cbn [app]; by rewrite <-!app_assoc
       |rewrite ?length_app; cbn [length]; lia..].
    go_bind. rewrite ParseUint_bytes; [|done|by intros ->; simpl in *; lia|lia].
    cbn [lift_num]. go_bind. rewrite Hn. wrap_small. cbn [length]. rewrite length_app.
    f_equal. lia.
Qed.

Lemma decodeTxRLP_eq pre e l eff post :
  encodes (e, l, eff) →
  Z.of_nat (length (pre ++ e ++ sig_bytes l ++ [eff] ++ post)) < 2 ^ 63 →
  decodeTxRLP (pre ++ e ++ sig_bytes l ++ [eff] ++ post) (Z.of_nat (length pre)) =
    Ret (Z.of_nat (length (pre ++ e ++ sig_bytes l ++ [eff])), mkL2TxRaw (NewTx l) eff).
Proof.
  intros (Hok & Heff & He & _ & Hdec) Hlen. pose proof Hlen as Hlen'.
  rewrite !length_app, length_sig_bytes in Hlen'. cbn [length] in Hlen'.
  unfold decodeTxRLP. rewrite decodeRLPListLength_eq by done. go_bind.
  unfold rLength, sLength, vLength, EfficiencyPercentageByteLength. wrap_small.
  set (R := split_digits 256 32 (l_R l)). set (S := split_digits 256 32 (l_S l)).
  assert (length R = 32%nat ∧ length S = 32%nat) as [HR HS]
    by (unfold R, S; by rewrite !length_split_digits).
  pose proof (length_sig_bytes l) as Hsig.
  rewrite (proj2 (Z.ltb_ge _ _)) by (rewrite !length_app, Hsig; cbn [length]; lia).
  slice_head pre (e ++ sig_bytes l ++ [eff]) post.
  slice_head pre e (sig_bytes l ++ [eff] ++ post).
  change (sig_bytes l) with (R ++ S ++ [sig_v l]) at 1 2 3 4.
  slice_head (pre ++ e) R (S ++ [sig_v l] ++ [eff] ++ post).
  slice_head (pre ++ e ++ R) S ([sig_v l] ++ [eff] ++ post).
  slice_head (pre ++ e ++ R ++ S) [sig_v l] ([eff] ++ post).
  index_head (pre ++ e ++ R ++ S ++ [sig_v l]) eff post.
  rewrite Hdec. cbn [lift_sum]. go_bind. unfold R, S. rewrite fields_roundtrip by done. go_bind.
  rewrite !length_app, Hsig. cbn [length]. do 2 f_equal. lia.
Qed.

(** A block with the encodings of its transactions. *)
Definition block_spec : Type := Z * Z * list (bytes * LegacyTx * Z).

Definition raw_tx (x : bytes * LegacyTx * Z) : L2TxRaw := mkL2TxRaw (NewTx x.1.2) x.2.
Definition raw_block (b : block_spec) : L2BlockRaw :=
  mkL2BlockRaw b.1.1 b.1.2 (raw_tx <$> b.2).
Definition enc_block (b : block_spec) : bytes :=
  [changeL2Block] ++ serializeUint32 b.1.1 ++ serializeUint32 b.1.2 ++ enc_txs FORKID_ETROG b.2.
Definition block_ok (b : block_spec) : Prop :=
  in_u32 b.1.1 ∧ in_u32 b.1.2 ∧ Forall encodes b.2.

(** Rounds of the loop a batch takes. *)
Definition rounds (bs : list block_spec) : nat := sum_list_with (λ b, S (length b.2)) bs.

Lemma batch_loop_txs es : Forall encodes es → ∀ fuel pre post blocks cur,
  Z.of_nat (length (pre ++ enc_txs FORKID_ETROG es ++ post)) < 2 ^ 63 →
  batch_loop (length es + fuel) (pre ++ enc_txs FORKID_ETROG es ++ post)
    (Z.of_nat (length pre)) blocks (Some cur) =
  batch_loop fuel (pre ++ enc_txs FORKID_ETROG es ++ post)
    (Z.of_nat (length (pre ++ enc_txs FORKID_ETROG es))) blocks
    (Some (mkL2BlockRaw (DeltaTimestamp cur) (IndexL1InfoTree cur)
             (Transactions cur ++ (raw_tx <$> es)))).
Proof.
  induction 1 as [|[[e l] eff] es Henc _ IH]; intros fuel pre post blocks cur Hlen.
  { simpl. rewrite !app_nil_r. by destruct cur. }
  cbn [enc_txs length Nat.add batch_loop] in *.
  change (eff_bytes FORKID_ETROG eff) with [eff] in *.
  set (pre' := pre ++ e ++ sig_bytes l ++ [eff]) in *.
  assert (pre ++ (e ++ sig_bytes l ++ [eff] ++ enc_txs FORKID_ETROG es) ++ post =
          pre' ++ enc_txs FORKID_ETROG es ++ post) as Heq
    by (unfold pre'; by rewrite <-!app_assoc).
  pose proof Henc as (_ & _ & He & _ & _).
  destruct (rlp_list_cases e He) as (num & e' & Hnum & Hc).
  { rewrite !length_app in Hlen. lia. }
  rewrite (proj2 (Z.ltb_lt _ _)) by (rewrite Heq; unfold pre'; rewrite !length_app; cbn [length]; lia).
  unfold batch_round. rewrite (index_at pre (e' ++ sig_bytes l ++ [eff] ++ enc_txs FORKID_ETROG es
    ++ post) _ num); [|rewrite Hnum; cbn [app]; rewrite <-?app_assoc; done|done]. go_bind.
  rewrite decide_False by (unfold changeL2Block; destruct Hc as [?|(? & ? & ?)]; lia).
  rewrite <-!app_assoc in Hlen |- *. rewrite decodeTxRLP_eq by done. go_bind.
  fold pre'. rewrite <-!app_assoc in Heq. rewrite Heq in Hlen |- *. rewrite IH by done.
  f_equal.
  - f_equal. unfold pre'. by rewrite <-!app_assoc.
  - unfold add_tx. simpl. by rewrite <-app_assoc.
Qed.

Lemma batch_loop_blocks bs : Forall block_ok bs → ∀ k pre blocks cur,
  Z.of_nat (length (pre ++ (bs ≫= enc_block))) < 2 ^ 63 →
  batch_loop (rounds bs + S k) (pre ++ (bs ≫= enc_block)) (Z.of_nat (length pre)) blocks cur =
  Some (Ret (close_block blocks cur ++ (raw_block <$> bs))).
Proof.
  induction 1 as [|[[d i] es] bs (Hd & Hi & Hes) _ IH]; intros k pre blocks cur Hlen.
  { simpl. rewrite !app_nil_r, Z.ltb_irrefl. done. }
  rewrite bind_cons in Hlen |- *. unfold enc_block at 1 in Hlen. unfold enc_block at 1.
  cbn [fst snd] in *. rewrite <-!app_assoc in Hlen |- *.
  cbn [rounds sum_list_with snd Nat.add batch_loop].
  rewrite (proj2 (Z.ltb_lt _ _)) by (rewrite !length_app; cbn [length]; lia).
  unfold batch_round. rewrite (index_at pre (serializeUint32 d ++ serializeUint32 i ++
    enc_txs FORKID_ETROG es ++ (bs ≫= enc_block)) _ changeL2Block) by done. go_bind.
  rewrite decide_True by done.
  set (pre1 := pre ++ [changeL2Block]).
  set (pre2 := pre1 ++ serializeUint32 d ++ serializeUint32 i).
  assert (pre ++ [changeL2Block] ++ serializeUint32 d ++ serializeUint32 i ++
          enc_txs FORKID_ETROG es ++ (bs ≫= enc_block) =
          pre1 ++ serializeUint32 d ++ serializeUint32 i ++
          enc_txs FORKID_ETROG es ++ (bs ≫= enc_block)) as Heq1
    by (unfold pre1; by rewrite <-!app_assoc).
  assert (pre1 ++ serializeUint32 d ++ serializeUint32 i ++
          enc_txs FORKID_ETROG es ++ (bs ≫= enc_block) =
          pre2 ++ enc_txs FORKID_ETROG es ++ (bs ≫= enc_block)) as Heq2
    by (unfold pre2; by rewrite <-!app_assoc).
  replace (Z.of_nat (length pre) + 1) with (Z.of_nat (length pre1))
    by (unfold pre1; rewrite length_app; cbn [length]; lia).
  rewrite Heq1 in Hlen |- *. rewrite decodeBlockHeader_eq by done. go_bind.
  replace (Z.of_nat (length pre1) + 8) with (Z.of_nat (length pre2))
    by (unfold pre2; rewrite !length_app; cbn [length serializeUint32]; lia).
  rewrite Heq2 in Hlen |- *. rewrite <-Nat.add_assoc, batch_loop_txs by done.
  rewrite app_assoc in Hlen |- *. rewrite IH by done.
  do 2 f_equal. simpl. by rewrite <-app_assoc.
Qed.

Lemma encode_block_txs_eq es : Forall encodes es → ∀ acc,
  encode_block_txs acc (raw_tx <$> es) = Ret (acc ++ enc_txs FORKID_ETROG es).
Proof.
  induction 1 as [|[[e l] eff] es (Hok & _ & He & Henc & _) _ IH]; intros acc.
  { simpl. by rewrite app_nil_r. }
  rewrite fmap_cons. cbn [encode_block_txs enc_txs]. unfold encodeTxRLP. cbn [rawTx raw_tx fst snd].
  rewrite (prepare_eq l e) by (done || apply He). go_bind. rewrite IH.
  change (eff_bytes FORKID_ETROG eff) with [eff]. by rewrite <-!app_assoc.
Qed.

Lemma encode_blocks_eq bs : Forall block_ok bs → ∀ acc,
  encode_blocks acc (raw_block <$> bs) = Ret (acc ++ (bs ≫= enc_block)).
Proof.
  induction 1 as [|[[d i] es] bs (_ & _ & Hes) _ IH]; intros acc.
  { simpl. by rewrite app_nil_r. }
  rewrite fmap_cons, bind_cons. cbn [encode_blocks]. unfold EncodeBlockHeaderV2.
  cbn [raw_block Transactions DeltaTimestamp IndexL1InfoTree fst snd].
  rewrite encode_block_txs_eq by done. go_bind. rewrite IH. unfold enc_block at 1.
  cbn [fst snd]. by rewrite <-!app_assoc.
Qed.

Definition tx_ok (tx : L2TxRaw) : Prop :=
  (∃ l, legacy_ok l ∧ rawTx tx = NewTx l) ∧ 0 ≤ EfficiencyPercentage tx < 256.

Definition raw_block_ok (b : L2BlockRaw) : Prop :=
  in_u32 (DeltaTimestamp b) ∧ in_u32 (IndexL1InfoTree b) ∧ Forall tx_ok (Transactions b).

Lemma txs_spec txs : Forall tx_ok txs → ∃ es, txs = raw_tx <$> es ∧ Forall encodes es.
Proof.
  induction 1 as [|[tx eff] txs [(l & Hl & Htx) Heff] _ (es & -> & Hes)]; [by exists []|].
  destruct (encode_ok l eff Hl Heff) as [e He]. exists ((e, l, eff) :: es).
  simpl in Htx. subst tx. by split; [|constructor].
Qed.

Lemma blocks_spec blocks :
  Forall raw_block_ok blocks → ∃ bs, blocks = raw_block <$> bs ∧ Forall block_ok bs.
Proof.
  induction 1 as [|[d i txs] blocks (Hd & Hi & Htxs) _ (bs & -> & Hbs)]; [by exists []|].
  destruct (txs_spec txs Htxs) as (es & -> & Hes). exists ((d, i, es) :: bs).
  by split; [|constructor].
Qed.

Lemma rounds_length bs :
  Forall block_ok bs → (rounds bs ≤ length (bs ≫= enc_block))%nat.
Proof.
  induction 1 as [|[[d i] es] bs (_ & _ & Hes) _ IH]; [done|].
  rewrite bind_cons, length_app. unfold enc_block at 1. rewrite !length_app.
  pose proof (length_enc_txs FORKID_ETROG es Hes). cbn [rounds sum_list_with fst snd length] in *.
  unfold rounds in IH. lia.
Qed.
End roundtrip.

(** ** Termination of the decoder *)

Lemma slice_ret {E A} (s : list A) a b r :
  slice (E := E) s a b = Ret r → 0 ≤ a ≤ b ∧ b ≤ Z.of_nat (length s).
Proof.
  unfold slice. case_match eqn:Hc; [|done]. intros _.
  apply andb_prop in Hc as [[?%Z.leb_le ?%Z.leb_le]%andb_prop ?%Z.leb_le]. lia.
Qed.

Lemma index_ret {E A} (s : list A) i x :
  index (E := E) s i = Ret x → 0 ≤ i < Z.of_nat (length s).
Proof.
  unfold index. destruct (Z.leb_spec 0 i); [|done].
  destruct (s !! Z.to_nat i) eqn:Hi; [|done]. apply lookup_lt_Some in Hi. lia.
Qed.

(** A sum that does not decrease did not overflow. *)
Lemma wrap64_nonneg_add a n : in_u64 a → 0 ≤ n < 2 ^ 64 → a ≤ a +₆₄ n → a +₆₄ n = a + n.
Proof.
  unfold in_u64. intros Ha Hn Hle. destruct (wrap64_cases (a + n)) as [[-> _]|[Hw _]]; lia.
Qed.

(** Opens a sequence of computations that returns. *)
Ltac bind_inv H :=
  repeat match type of H with
  | mbind _ _ = Ret _ => apply GoRes_bind_ret in H as (? & ? & H)
  end.

Section termination.
Context `{!GoEthereum} (txsData : bytes).
Hypothesis Hlen : Z.of_nat (length txsData) < 2 ^ 63.

Lemma decodeTxRLP_progress offset endPos tx :
  decodeTxRLP txsData offset = Ret (endPos, tx) → offset < endPos.
Proof.
  intros H'. unfold decodeTxRLP in H'. apply GoRes_bind_ret in H' as (len & _ & H').
  destruct (Z.ltb_spec (Z.of_nat (length txsData)) (wrap64 offset +₆₄ len +₆₄ rLength +₆₄ sLength
    +₆₄ vLength +₆₄ EfficiencyPercentageByteLength)) as [|Hend]; [done|].
  apply GoRes_bind_ret in H' as (r1 & Hr1%slice_ret & H').
  apply GoRes_bind_ret in H' as (r2 & Hr2%slice_ret & H').
  apply GoRes_bind_ret in H' as (r3 & Hr3%slice_ret & H').
  apply GoRes_bind_ret in H' as (r4 & Hr4%slice_ret & H').
  apply GoRes_bind_ret in H' as (r5 & Hr5%slice_ret & H').
  apply GoRes_bind_ret in H' as (r6 & Hr6%index_ret & H').
  bind_inv H'. injection H' as <- _.
  set (d := wrap64 offset +₆₄ len) in *.
  unfold rLength, sLength, vLength, EfficiencyPercentageByteLength in *.
  pose proof (wrap64_range (wrap64 offset + len)) as Hd. fold d in Hd.
  rewrite (wrap64_nonneg_add d 32) in * by (done || lia).
  rewrite (wrap64_nonneg_add (d + 32) 32) in * by (unfold in_u64; lia).
  rewrite (wrap64_nonneg_add (d + 32 + 32) 1) in * by (unfold in_u64; lia).
  rewrite wrap64_small by (unfold in_u64; lia). lia.
Qed.

Lemma deserializeUint32_pos pos pos' v :
  deserializeUint32 txsData pos = Ret (pos', v) → pos' = pos + 4.
Proof.
  unfold deserializeUint32. case_match; [done|]. intros H'. bind_inv H'. by simplify_eq.
Qed.

Lemma batch_round_progress pos blocks cur pos' blocks' cur' :
  batch_round txsData pos blocks cur = Ret (pos', blocks', cur') → pos < pos'.
Proof.
  unfold batch_round. intros H'. apply GoRes_bind_ret in H' as (b & _ & H').
  case_decide.
  - apply GoRes_bind_ret in H' as ([p nb] & Hh & H'). injection H' as -> _ _.
    unfold decodeBlockHeader in Hh.
    apply GoRes_bind_ret in Hh as ([p1 ?] & ->%deserializeUint32_pos & Hh).
    apply GoRes_bind_ret in Hh as ([p2 ?] & ->%deserializeUint32_pos & Hh).
    injection Hh as <- _. lia.
  - destruct cur as [cur|]; [|by destruct (decodeTxRLP txsData pos)].
    apply GoRes_bind_ret in H' as ([p tx] & Ht%decodeTxRLP_progress & H'). by simplify_eq.
Qed.

Lemma batch_loop_total fuel pos blocks cur :
  Z.max 0 (Z.of_nat (length txsData) - pos) < Z.of_nat fuel →
  is_Some (batch_loop fuel txsData pos blocks cur).
Proof.
  revert pos blocks cur. induction fuel as [|fuel IH]; intros pos blocks cur Hf; [lia|].
  cbn [batch_loop]. destruct (Z.ltb_spec pos (Z.of_nat (length txsData))); [|by eexists].
  destruct (batch_round txsData pos blocks cur) as [[[pos' blocks'] cur']| |] eqn:Hr;
    [|by eexists..].
  apply batch_round_progress in Hr. apply IH; lia.
Qed.
End termination.

(** ** Properties *)

(** C12. Decoding inverts encoding for Etrog batches: a batch of well-formed
    blocks and transactions is encoded without error, and [DecodeBatchV2]
    recovers every block header, transaction, signature and percentage. *)
Theorem DecodeBatchV2_EncodeBatchV2 `{!GoEthereum, !GoEthereumLaws} blocks :
  blocks ≠ [] → Forall raw_block_ok blocks →
  ∃ data, EncodeBatchV2 (Some blocks) = Ret data ∧
    (Z.of_nat (length data) < 2 ^ 63 → DecodeBatchV2 data = Ret blocks).
Proof.
  intros Hne Hok. destruct (blocks_spec blocks Hok) as (bs & -> & Hbs).
  exists (bs ≫= enc_block). split.
  - unfold EncodeBatchV2. destruct (raw_block <$> bs) eqn:He; [done|].
    rewrite <-He. by rewrite encode_blocks_eq.
  - intros Hlen. unfold DecodeBatchV2. pose proof (rounds_length bs Hbs).
    replace (S (length (bs ≫= enc_block)))
      with (rounds bs + S (length (bs ≫= enc_block) - rounds bs))%nat by lia.
    pose proof (batch_loop_blocks bs Hbs (length (bs ≫= enc_block) - rounds bs) [] [] None) as Hl.
    cbn [app length] in Hl. change (Z.of_nat 0) with 0 in Hl. by rewrite Hl.
Qed.

Lemma DecodeBatchV2_EncodeBatchV2_witness :
  let G := RefEthereum.ref_ethereum in
  let tx l eff := @mkL2TxRaw G (@NewTx G l) eff in
  let blocks := [@mkL2BlockRaw G 12 0 [tx sample_legacy 255; tx sample_creation 1];
                 @mkL2BlockRaw G (2 ^ 32 - 1) 7 []] in
  ∃ data, @EncodeBatchV2 G (Some blocks) = Ret data ∧ Z.of_nat (length data) < 2 ^ 63 ∧
    @DecodeBatchV2 G data = Ret blocks.
Proof.
  cbv zeta.
  match goal with |- ∃ d, EncodeBatchV2 (Some ?b) = _ ∧ _ => set (blocks := b) end.
  destruct (@DecodeBatchV2_EncodeBatchV2 RefEthereum.ref_ethereum RefEthereum.ref_laws blocks)
    as (data & He & Hd); [done| |].
  - unfold blocks. repeat (apply Forall_cons; split); try apply Forall_nil_2;
      (split; [unfold in_u32; simpl; lia|split; [unfold in_u32; simpl; lia|]]); simpl;
      repeat (apply Forall_cons; split); try apply Forall_nil_2;
      (split; [|simpl; lia]); [exists sample_legacy|exists sample_creation];
      (split; [apply sample_legacy_ok || apply sample_creation_ok|done]).
  - assert (Z.of_nat (length data) < 2 ^ 63) as Hl.
    { vm_compute in He. injection He as <-. by vm_compute. }
    exists data. split; [exact He|]. split; [exact Hl|]. exact (Hd Hl).
Defined.

(** C39. The loop of [DecodeBatchV2] ends on every input: every round that
    does not return moves forward, although the end of a transaction is
    computed with wrap-around. *)
Theorem DecodeBatchV2_terminates `{!GoEthereum} txsData :
  Z.of_nat (length txsData) < 2 ^ 63 →
  ∃ r, batch_loop (S (length txsData)) txsData 0 [] None = Some r ∧ DecodeBatchV2 txsData = r.
Proof.
  intros Hlen. destruct (batch_loop_total txsData Hlen (S (length txsData)) 0 [] None) as [r Hr];
    [lia|]. exists r. split; [done|]. unfold DecodeBatchV2. by rewrite Hr.
Qed.

(** Eighteen bytes: a block header and the header of an RLP list that claims a
    length of [2 ^ 64 - 84] bytes. *)
Definition overflowing_batch : bytes :=
  [11; 0; 0; 0; 0; 0; 0; 0; 0; 255; 255; 255; 255; 255; 255; 255; 255; 172].

Lemma DecodeBatchV2_terminates_witness :
  ∃ r, @batch_loop RefEthereum.ref_ethereum 19 overflowing_batch 0 [] None = Some r ∧
    @DecodeBatchV2 RefEthereum.ref_ethereum overflowing_batch = r.
Proof.
  apply (@DecodeBatchV2_terminates RefEthereum.ref_ethereum overflowing_batch). by vm_compute.
Defined.

(** [DecodeBatchV2] lacks the check of [DecodeTxs] that the end of a
    transaction is not before its start: an eighteen byte batch whose length
    field makes the end wrap around passes the bounds check and panics in a
    slice expression. *)
Theorem DecodeBatchV2_overflow_panics `{!GoEthereum} :
  DecodeBatchV2 overflowing_batch = Panic ∧
  DecodeTxs (drop 9 overflowing_batch) FORKID_ETROG = Fail ErrInvalidData.
Proof. split; reflexivity. Qed.

Lemma zip_forced_eq `{!GoEthereum} txs : ∀ effs i acc,
  (length txs + Z.to_nat i ≤ length effs)%nat → 0 ≤ i →
  zip_forced txs i effs acc = Ret (acc ++ zip_with mkL2TxRaw txs (drop (Z.to_nat i) effs)).
Proof.
  induction txs as [|tx txs IH]; intros effs i acc Hl Hi; simpl; [by rewrite app_nil_r|].
  destruct (drop (Z.to_nat i) effs) as [|p effs'] eqn:Hd.
  { apply (f_equal length) in Hd. rewrite length_drop in Hd. simpl in *. lia. }
  assert (effs !! Z.to_nat i = Some p) as Hp.
  { rewrite <-(Nat.add_0_r (Z.to_nat i)), <-lookup_drop, Hd. done. }
  unfold index. rewrite (proj2 (Z.leb_le _ _)), Hp by lia. go_bind.
  rewrite IH by (simpl in Hl; lia). rewrite <-app_assoc. simpl. do 3 f_equal.
  replace (Z.to_nat (i + 1)) with (Z.to_nat i + 1)%nat by lia.
  by rewrite <-drop_drop, Hd.
Qed.

(** [DecodeForcedBatchV2] never panics, its sanity check never fires and
    it pairs each transaction that [DecodeTxs] returns with its percentage. *)
Theorem DecodeForcedBatchV2_spec `{!GoEthereum} txsData :
  is_bytes txsData → Z.of_nat (length txsData) < 2 ^ 63 →
  (∃ txs effs, DecodeTxs txsData FORKID_ETROG = Ret (txs, txsData, effs) ∧
     length effs = length txs ∧
     DecodeForcedBatchV2 txsData = Ret (zip_with mkL2TxRaw txs effs)) ∨
  (∃ e, DecodeTxs txsData FORKID_ETROG = Fail e ∧ DecodeForcedBatchV2 txsData = Fail e).
Proof.
  intros Hb Hl. pose proof (DecodeTxs_outcome txsData FORKID_ETROG Hb Hl) as Ho.
  unfold DecodeForcedBatchV2. destruct (DecodeTxs txsData FORKID_ETROG) as [[[txs d] effs]|e|];
    [|right; by exists e|done].
  destruct Ho as [-> Ho]. change (eff_size FORKID_ETROG) with 1 in Ho.
  left. exists txs, effs. split; [done|]. split; [lia|]. go_bind.
  rewrite decide_False by lia. by rewrite zip_forced_eq by lia.
Qed.

(** A forced batch with one transaction. *)
Definition sample_forced : bytes :=
  let G := RefEthereum.ref_ethereum in
  match @EncodeTransactions G [@NewTx G sample_legacy] [255] FORKID_ETROG with
  | Ret data => data
  | _ => []
  end.

Lemma DecodeForcedBatchV2_spec_witness :
  (∃ txs effs, @DecodeTxs RefEthereum.ref_ethereum sample_forced FORKID_ETROG =
       Ret (txs, sample_forced, effs) ∧
     length effs = length txs ∧
     @DecodeForcedBatchV2 RefEthereum.ref_ethereum sample_forced =
       Ret (zip_with (@mkL2TxRaw RefEthereum.ref_ethereum) txs effs)) ∨
  (∃ e, @DecodeTxs RefEthereum.ref_ethereum sample_forced FORKID_ETROG = Fail e ∧
     @DecodeForcedBatchV2 RefEthereum.ref_ethereum sample_forced = Fail e).
Proof.
  apply (@DecodeForcedBatchV2_spec RefEthereum.ref_ethereum sample_forced);
    [apply (bool_decide_unpack _); by vm_compute|by vm_compute].
Defined.
