(* ===== verification/NewTracker.v ===== *)
(** * Creation of transaction trackers

    [newTxTracker] of [sequencer/txtracker.go] and [GetSender] of
    [state/transaction.go].  The recovery of the sender from a signature, the
    hash and the cost of a transaction are operations of go-ethereum. *)

From S2P Require Import Prelude Digits Hex GoEthereum TxCodec BatchV2.
From S2P Require Import Resources TxTracker AddrQueue.

Class EthSigner `{!GoEthereum} := {
  EIP155Signer_Sender : Z → Transaction → string + Z;
  tx_Hash : Transaction → Z;
  tx_Cost : Transaction → Z
}.

Inductive TrackerErr := ErrSender (e : string) | ErrEncode (e : CodecErr).

Section tracker.
Context `{!GoEthereum, !EthSigner, !EthStrings}.

Definition GetSender (tx : Transaction) : GoRes TrackerErr Z :=
  match EIP155Signer_Sender (tx_ChainId tx) tx with
  | inl e => Fail (ErrSender e)
  | inr sender => Ret sender
  end.

(** [now] is [time.Now()]. *)
Definition newTxTracker (now : Z) (tx : Transaction) (counters : ZKCounters) (ip : string) :
    GoRes TrackerErr TxTracker :=
  addr ← GetSender tx;
  rawTx ← map_err ErrEncode (EncodeTransactionWithoutEffectivePercentage tx);
  Ret (mkTxTracker (tx_Hash tx) (hash_String (tx_Hash tx)) addr (addr_String addr)
         (tx_Nonce tx) (tx_Gas tx) (tx_GasPrice tx) (tx_Cost tx)
         {| ZKC := counters;
            Bytes := wrap64 (Z.of_nat (length rawTx)) +₆₄ EfficiencyPercentageByteLength |}
         rawTx now ip None 0 0 false
         (mkEGPLog false 0 0 0 0 0 0 0 0 0 false false false 0 0 "") 0 0 0).

(** The bytes a tracker accounts for are exactly those its transaction
    adds to the data of an Etrog batch, whatever the percentage, and its text
    fields are those of its sender and hash. *)
Theorem newTxTracker_accounts now tx counters ip t :
  newTxTracker now tx counters ip = Ret t → Z.of_nat (length (RawTx t)) < 2 ^ 63 →
  (∀ batchData p, ∃ batchData', encodeTxRLP batchData (mkL2TxRaw tx p) = Ret batchData' ∧
     Z.of_nat (length batchData') = Z.of_nat (length batchData) + Bytes (Resources_ t)) ∧
  ZKC (Resources_ t) = counters ∧
  FromStr t = addr_String (From t) ∧ HashStr t = hash_String (Hash t).
Proof.
  intros Ht Hl. unfold newTxTracker in Ht. apply GoRes_bind_ret in Ht as (addr & _ & Ht).
  unfold EncodeTransactionWithoutEffectivePercentage,
    EncodeTransactionsWithoutEffectivePercentage in Ht. cbn [encode_without_loop] in Ht.
  destruct (prepareRPLTxData tx) as [raw| |] eqn:Hp; [|done..].
  simplify_eq/=. split; [|done]. intros batchData p. unfold encodeTxRLP. cbn [rawTx].
  rewrite Hp. eexists. split; [done|]. unfold EfficiencyPercentageByteLength.
  wrap_small. rewrite !length_app. simpl. lia.
Qed.
End tracker.

Module TrackerRun.
Definition run_signer : @EthSigner RefEthereum.ref_ethereum :=
  {| EIP155Signer_Sender _ _ := inr 7; tx_Hash _ := 100; tx_Cost _ := 50 |}.

Lemma newTxTracker_accounts_witness :
  ∃ t, @newTxTracker RefEthereum.ref_ethereum run_signer Samples.dec_strings 5
         (@NewTx RefEthereum.ref_ethereum sample_legacy) (zk_const 1 1) "" = Ret t ∧
    Bytes (Resources_ t) = 112 ∧ FromStr t = addr_String (EthStrings := Samples.dec_strings) 7.
Proof.
  destruct (@newTxTracker RefEthereum.ref_ethereum run_signer Samples.dec_strings 5
              (@NewTx RefEthereum.ref_ethereum sample_legacy) (zk_const 1 1) "") as [t| |] eqn:Ht;
    [|by vm_compute in Ht..].
  destruct (@newTxTracker_accounts RefEthereum.ref_ethereum run_signer Samples.dec_strings 5
    (@NewTx RefEthereum.ref_ethereum sample_legacy) (zk_const 1 1) "" t Ht)
    as (_ & _ & Hf & _).
  - vm_compute in Ht. injection Ht as <-. by vm_compute.
  - exists t. split; [done|]. vm_compute in Ht. injection Ht as <-. by split; vm_compute.
Defined.
End TrackerRun.
