(* ===== verification/L1InfoTree.v ===== *)
(** * The L1 info tree

    [l1infotree/tree.go] and [l1infotree/hash.go]: an append-only Merkle tree
    of fixed height whose empty leaves are zero.  [BuildL1InfoRoot] computes
    the root from all leaves, [AddLeaf] keeps one sibling per level and updates
    the root incrementally, [ComputeMerkleProof] gives the siblings of a leaf
    and initialises those of the incremental tree.  The hash of two nodes
    (Keccak-256 of golang.org/x/crypto) is a parameter. *)

From S2P Require Import Prelude Digits Hex.

Inductive TreeErr := ErrManyRoots | ErrLeafCount | ErrCountMismatch.

Section tree.
Context {H : Type} (Hash : H → H → H) (zero : H).

Record L1InfoTree := mkTree {
  height : nat;
  zeroHashes : list H;
  count : Z;
  siblings : list H;
  currentRoot : H
}.

(** The loop of [generateZeroHashes] with [n] rounds to go. *)
Fixpoint zero_loop (n : nat) (last : H) : list H :=
  match n with
  | O => []
  | S n' => let z := Hash last last in z :: zero_loop n' z
  end.
Definition generateZeroHashes (height : nat) : list H := zero :: zero_loop height zero.

(** A node of the level above: its hash and its children. *)
Definition node3 : Type := H * H * H.

(** Panics on a level of odd length: [leaves[right]] is out of range. *)
Fixpoint buildIntermediate (leaves : list H) : GoRes TreeErr (list node3 * list H) :=
  match leaves with
  | [] => Ret ([], [])
  | [_] => Panic
  | l :: r :: rest =>
      '(nodes, hashes) ← buildIntermediate rest;
      Ret ((Hash l r, l, r) :: nodes, Hash l r :: hashes)
  end.

(** [if len(leaves)%2 == 1 { leaves = append(leaves, mt.zeroHashes[h]) }] *)
Definition pad_level (mt : L1InfoTree) (h : nat) (leaves : list H) : GoRes TreeErr (list H) :=
  if Z.of_nat (length leaves) mod 2 =? 1
  then z ← or_panic (zeroHashes mt !! h); Ret (leaves ++ [z])
  else Ret leaves.

(** The levels from [h] on, with [n] levels to go. *)
Fixpoint build_loop (mt : L1InfoTree) (n h : nat) (ns : list node3) (leaves : list H) :
    GoRes TreeErr (list node3 * list H) :=
  match n with
  | O => Ret (ns, leaves)
  | S n' =>
      leaves ← pad_level mt h leaves;
      '(ns, leaves) ← buildIntermediate leaves;
      build_loop mt n' (S h) ns leaves
  end.

Definition first_leaves (mt : L1InfoTree) (leaves : list H) : GoRes TreeErr (list H) :=
  match leaves with
  | [] => z ← or_panic (zeroHashes mt !! 0%nat); Ret [z]
  | _ => Ret leaves
  end.

(** [ns[0][0]] when there is one node. *)
Definition single_root (ns : list node3) : GoRes TreeErr H :=
  match ns with
  | [(hash, _, _)] => Ret hash
  | _ => Fail ErrManyRoots
  end.

Definition BuildL1InfoRoot (mt : L1InfoTree) (leaves : list H) : GoRes TreeErr H :=
  leaves ← first_leaves mt leaves;
  '(ns, _) ← build_loop mt (height mt) 0 [] leaves;
  single_root ns.

(** The sibling recorded at one level: the index is beyond the leaves when the
    proof is for the next free position.  The index and the converted length
    are [uint32]: a level of [2 ^ 32] leaves counts as empty here. *)
Definition level_sibling (index : Z) (leaves sibs : list H) : GoRes TreeErr (list H) :=
  if index mod 2 =? 1 then
    s ← Prelude.index leaves (index -₃₂ 1); Ret (sibs ++ [s])
  else if 1 <? Z.of_nat (length leaves) then
    if wrap32 (Z.of_nat (length leaves)) <=? index then
      s ← Prelude.index leaves (index -₃₂ 1); Ret (sibs ++ [s])
    else
      s ← Prelude.index leaves (index +₃₂ 1); Ret (sibs ++ [s])
  else Ret sibs.

Fixpoint proof_loop (mt : L1InfoTree) (n h : nat) (index : Z) (sibs : list H)
    (ns : list node3) (leaves : list H) : GoRes TreeErr (list H * list node3) :=
  match n with
  | O => Ret (sibs, ns)
  | S n' =>
      leaves ← pad_level mt h leaves;
      sibs ← level_sibling index leaves sibs;
      '(ns, leaves) ← buildIntermediate leaves;
      proof_loop mt n' (S h) (index / 2) sibs ns leaves
  end.

Definition ComputeMerkleProof (mt : L1InfoTree) (gerIndex : Z) (leaves : list H) :
    GoRes TreeErr (list H * H) :=
  leaves ← first_leaves mt leaves;
  '(sibs, ns) ← proof_loop mt (height mt) 0 gerIndex [] [] leaves;
  root ← single_root ns;
  Ret (sibs, root).

(** The loop of [AddLeaf]: the siblings are updated in place. *)
Fixpoint add_loop (zeroHashes : list H) (n h : nat) (index : Z) (cur : H)
    (isFilledSubTree : bool) (sibs : list H) : GoRes TreeErr (H * list H) :=
  match n with
  | O => Ret (cur, sibs)
  | S n' =>
      if 0 <? Z.land index (Z.shiftl 1 (Z.of_nat h)) then
        s ← or_panic (sibs !! h);
        add_loop zeroHashes n' (S h) index (Hash s cur) isFilledSubTree sibs
      else
        sibs ← (if isFilledSubTree
                then _ ← or_panic (sibs !! h); Ret (<[h := cur]> sibs)
                else Ret sibs);
        z ← or_panic (zeroHashes !! h);
        add_loop zeroHashes n' (S h) index (Hash cur z) false sibs
  end.

(** The tree after the call and the outcome of the call. *)
Definition AddLeaf (mt : L1InfoTree) (index : Z) (leaf : H) : L1InfoTree * GoRes TreeErr H :=
  if decide (index ≠ count mt) then (mt, Fail ErrLeafCount)
  else
    match add_loop (zeroHashes mt) (height mt) 0 index leaf true (siblings mt) with
    | Ret (cur, sibs) =>
        (mkTree (height mt) (zeroHashes mt) (count mt +₃₂ 1) sibs cur, Ret cur)
    | Fail e => (mt, Fail e)
    | Panic => (mt, Panic)
    end.

Definition initSiblings (mt : L1InfoTree) (initialLeaves : list H) :
    GoRes TreeErr (list H * H) :=
  if decide (count mt ≠ wrap32 (Z.of_nat (length initialLeaves))) then Fail ErrCountMismatch
  else if decide (count mt = 0) then
    root ← BuildL1InfoRoot mt initialLeaves;
    Ret (take (height mt) (zeroHashes mt), root)
  else ComputeMerkleProof mt (count mt) initialLeaves.

Definition NewL1InfoTree (height : nat) (initialLeaves : list H) : GoRes TreeErr L1InfoTree :=
  let mt := mkTree height (generateZeroHashes height) (wrap32 (Z.of_nat (length initialLeaves)))
              [] zero in
  '(sibs, root) ← initSiblings mt initialLeaves;
  Ret (mkTree height (zeroHashes mt) (count mt) sibs root).

Definition GetCurrentRootCountAndSiblings (mt : L1InfoTree) : H * Z * list H :=
  (currentRoot mt, count mt, siblings mt).

(** ** Specification: the perfect tree over the leaves padded with zeros *)

Fixpoint zeros (h : nat) : H :=
  match h with O => zero | S h' => Hash (zeros h') (zeros h') end.

(** Node number [i] of level [h]. *)
Fixpoint node (L : list H) (h : nat) (i : Z) : H :=
  match h with
  | O => default zero (L !! Z.to_nat i)
  | S h' => Hash (node L h' (2 * i)) (node L h' (2 * i + 1))
  end.

(** The root that a leaf and its siblings determine. *)
Fixpoint proof_root (index : Z) (cur : H) (sibs : list H) : H :=
  match sibs with
  | [] => cur
  | s :: sibs' =>
      proof_root (index / 2) (if index mod 2 =? 1 then Hash s cur else Hash cur s) sibs'
  end.

(** The state of the incremental tree over the leaves [L]: where a bit of the
    count is set, the sibling is the root of the complete subtree to the left
    of the next leaf. *)
Definition tree_inv (mt : L1InfoTree) (L : list H) : Prop :=
  zeroHashes mt = generateZeroHashes (height mt) ∧
  count mt = wrap32 (Z.of_nat (length L)) ∧
  length (siblings mt) = height mt ∧
  (∀ h, (h < height mt)%nat → Z.testbit (Z.of_nat (length L)) (Z.of_nat h) = true →
     siblings mt !! h = Some (node L h (Z.of_nat (length L) / 2 ^ Z.of_nat h - 1))) ∧
  currentRoot mt = node L (height mt) 0.

(** ** Lemmas on the specification *)

Lemma zero_loop_lookup n k h :
  (h < n)%nat → zero_loop n (zeros k) !! h = Some (zeros (S (k + h))).
Proof.
  revert k h. induction n as [|n IH]; intros k h Hh; [lia|].
  destruct h as [|h]; cbn [zero_loop lookup list_lookup].
  - by rewrite Nat.add_0_r.
  - change (Hash (zeros k) (zeros k)) with (zeros (S k)).
    rewrite Nat.add_succ_r. apply IH. lia.
Qed.

Lemma zeroHashes_lookup n h : (h ≤ n)%nat → generateZeroHashes n !! h = Some (zeros h).
Proof. intros Hh. destruct h as [|h]; [done|]. apply (zero_loop_lookup n 0). lia. Qed.

Lemma length_generateZeroHashes n : length (generateZeroHashes n) = S n.
Proof.
  unfold generateZeroHashes. simpl. f_equal. generalize zero.
  induction n as [|n IH]; intros z; simpl; auto.
Qed.

Lemma node_zero L h i :
  0 ≤ i → Z.of_nat (length L) ≤ i * 2 ^ Z.of_nat h → node L h i = zeros h.
Proof.
  revert i. induction h as [|h IH]; intros i Hi Hl; cbn [node zeros].
  - rewrite lookup_ge_None_2; [done|]. simpl in Hl. lia.
  - rewrite Nat2Z.inj_succ, Z.pow_succ_r in Hl by lia.
    pose proof (Z.pow_pos_nonneg 2 (Z.of_nat h)). rewrite !IH by nia. done.
Qed.

(** Nodes over leaves that are present do not change when leaves are added. *)
Lemma node_prefix L L' h i :
  0 ≤ i → (i + 1) * 2 ^ Z.of_nat h ≤ Z.of_nat (length L) → node (L ++ L') h i = node L h i.
Proof.
  revert i. induction h as [|h IH]; intros i Hi Hl; cbn [node].
  - rewrite lookup_app_l; [done|]. simpl in Hl. lia.
  - rewrite Nat2Z.inj_succ, Z.pow_succ_r in Hl by lia.
    pose proof (Z.pow_pos_nonneg 2 (Z.of_nat h)). rewrite !IH by nia. done.
Qed.

(** The first [n] nodes of a level. *)
Definition level (L : list H) (h : nat) (n : nat) : list H := node L h <$> seqZ 0 (Z.of_nat n).

Lemma length_level L h n : length (level L h n) = n.
Proof. unfold level. rewrite length_fmap, length_seqZ. lia. Qed.

Lemma level_lookup L h n i :
  0 ≤ i < Z.of_nat n → level L h n !! Z.to_nat i = Some (node L h i).
Proof.
  intros Hi. unfold level. rewrite list_lookup_fmap, lookup_seqZ_lt by lia. simpl.
  do 2 f_equal. lia.
Qed.

Lemma level_S L h n : level L h (S n) = level L h n ++ [node L h (Z.of_nat n)].
Proof.
  unfold level. by rewrite seqZ_S, fmap_app, Z.add_0_l.
Qed.

Lemma buildIntermediate_from L h a k :
  ∃ ns, buildIntermediate (node L h <$> seqZ (2 * a) (2 * Z.of_nat k)) =
      Ret (ns, node L (S h) <$> seqZ a (Z.of_nat k)) ∧
    (λ x : node3, x.1.1) <$> ns = node L (S h) <$> seqZ a (Z.of_nat k).
Proof.
  revert a. induction k as [|k IH]; intros a; [by exists []|].
  rewrite (seqZ_cons (2 * a)), (seqZ_cons (Z.succ (2 * a))), (seqZ_cons a) by lia.
  destruct (IH (Z.succ a)) as (ns & Hb & Hns).
  replace (Z.succ (Z.succ (2 * a))) with (2 * Z.succ a) by lia.
  replace (Z.pred (Z.pred (2 * Z.of_nat (S k)))) with (2 * Z.of_nat k) by lia.
  replace (Z.pred (Z.of_nat (S k))) with (Z.of_nat k) by lia.
  rewrite !fmap_cons. cbn [buildIntermediate]. rewrite Hb. go_bind.
  eexists. split.
  - done.
  - by rewrite fmap_cons, Hns.
Qed.

Lemma buildIntermediate_level L h k :
  ∃ ns, buildIntermediate (level L h (2 * k)) = Ret (ns, level L (S h) k) ∧
    (λ x : node3, x.1.1) <$> ns = level L (S h) k.
Proof.
  destruct (buildIntermediate_from L h 0 k) as (ns & Hb & Hns). exists ns.
  unfold level. replace (Z.of_nat (2 * k)) with (2 * Z.of_nat k) by lia. done.
Qed.

(** The number of nodes of a level: halved, rounded up. *)
Definition half_up (n : nat) : nat := Nat.div2 (S n).

Lemma half_up_bounds n : (2 * half_up n = n ∨ 2 * half_up n = S n)%nat.
Proof.
  unfold half_up. pose proof (Nat.div2_odd (S n)) as Hd. destruct (Nat.odd (S n)); cbn [Nat.b2n] in Hd; lia.
Qed.

(** The padded level has an even number of nodes. *)
Lemma pad_level_eq mt L h n :
  zeroHashes mt = generateZeroHashes (height mt) → (h < height mt)%nat →
  Z.of_nat (length L) ≤ Z.of_nat n * 2 ^ Z.of_nat h →
  pad_level mt h (level L h n) = Ret (level L h (2 * half_up n)).
Proof.
  intros Hz Hh Hl. unfold pad_level. rewrite length_level.
  destruct (half_up_bounds n) as [He|He].
  - rewrite He. replace (Z.of_nat n mod 2) with 0; [done|].
    rewrite <-He, Nat2Z.inj_mul, Z.mul_comm, Z_mod_mult. done.
  - replace (Z.of_nat n mod 2) with 1.
    2: { replace (Z.of_nat n) with (1 + (Z.of_nat (half_up n) - 1) * 2) by lia.
         by rewrite Z.mod_add. }
    rewrite Z.eqb_refl, Hz, zeroHashes_lookup by lia. go_bind.
    rewrite He, level_S. by rewrite node_zero by lia.
Qed.

Section levels.
Context (mt : L1InfoTree) (L : list H).
Hypothesis Hz : zeroHashes mt = generateZeroHashes (height mt).

(** The nodes of the next level cover the leaves if those of this one do. *)
Lemma half_up_covers h n :
  Z.of_nat (length L) ≤ Z.of_nat n * 2 ^ Z.of_nat h →
  Z.of_nat (length L) ≤ Z.of_nat (half_up n) * 2 ^ Z.of_nat (S h).
Proof.
  intros Hl. rewrite Nat2Z.inj_succ, Z.pow_succ_r by lia.
  pose proof (Z.pow_pos_nonneg 2 (Z.of_nat h)). destruct (half_up_bounds n); nia.
Qed.

(** The number of nodes after [k] levels. *)
Fixpoint nodes_after (k n : nat) : nat :=
  match k with O => n | S k' => nodes_after k' (half_up n) end.

Lemma build_loop_levels k h n ns :
  (h + k = height mt)%nat → (0 < k)%nat →
  Z.of_nat (length L) ≤ Z.of_nat n * 2 ^ Z.of_nat h →
  ∃ ns', build_loop mt k h ns (level L h n) =
      Ret (ns', level L (height mt) (nodes_after k n)) ∧
    (λ x : node3, x.1.1) <$> ns' = level L (height mt) (nodes_after k n).
Proof.
  revert h n ns. induction k as [|k IH]; intros h n ns Hk Hpos Hl; [lia|].
  cbn [build_loop nodes_after]. rewrite pad_level_eq by (done || lia). go_bind.
  destruct (buildIntermediate_level L h (half_up n)) as (ns1 & -> & Hns1). go_bind.
  destruct k as [|k].
  - exists ns1. replace (height mt) with (S h) by lia. done.
  - apply IH; [lia|lia|]. by apply half_up_covers.
Qed.

Lemma single_root_level ns h :
  (λ x : node3, x.1.1) <$> ns = level L h 1 → single_root ns = Ret (node L h 0).
Proof.
  intros Hns. destruct ns as [|[[a b] c] [|x ns]]; [done| |done].
  cbn in Hns. by injection Hns as ->.
Qed.

Lemma nodes_after_1 k n :
  Z.of_nat n ≤ 2 ^ Z.of_nat k → (0 < n)%nat → nodes_after k n = 1%nat.
Proof.
  revert n. induction k as [|k IH]; intros n Hn Hpos; cbn [nodes_after]; [simpl in Hn; lia|].
  rewrite Nat2Z.inj_succ, Z.pow_succ_r in Hn by lia.
  apply IH; destruct (half_up_bounds n); lia.
Qed.

Lemma nodes_after_lower k n : Z.of_nat n ≤ Z.of_nat (nodes_after k n) * 2 ^ Z.of_nat k.
Proof.
  revert n. induction k as [|k IH]; intros n; cbn [nodes_after]; [simpl; lia|].
  rewrite Nat2Z.inj_succ, Z.pow_succ_r by lia. specialize (IH (half_up n)).
  destruct (half_up_bounds n); nia.
Qed.

Definition first_nodes : nat := Nat.max 1 (length L).

Lemma first_leaves_level : first_leaves mt L = Ret (level L 0 first_nodes).
Proof.
  unfold first_leaves, first_nodes. destruct L as [|x L'] eqn:HL.
  { rewrite Hz. done. }
  f_equal. apply list_eq. intros i. destruct (decide (i < length (x :: L'))%nat) as [Hi|Hi].
  - replace i with (Z.to_nat (Z.of_nat i)) at 2 by lia.
    rewrite level_lookup by (cbn [length] in *; lia). cbn [node]. rewrite Nat2Z.id.
    destruct (lookup_lt_is_Some_2 _ _ Hi) as [y Hy]. by rewrite Hy.
  - rewrite !lookup_ge_None_2; [done| |lia]. rewrite length_level. cbn [length] in *. lia.
Qed.

Lemma first_nodes_covers : Z.of_nat (length L) ≤ Z.of_nat first_nodes * 2 ^ Z.of_nat 0.
Proof. unfold first_nodes. simpl. lia. Qed.

Lemma BuildL1InfoRoot_eq :
  (0 < height mt)%nat →
  BuildL1InfoRoot mt L =
    if decide (Z.of_nat (length L) ≤ 2 ^ Z.of_nat (height mt))
    then Ret (node L (height mt) 0) else Fail ErrManyRoots.
Proof.
  intros Hh. unfold BuildL1InfoRoot. rewrite first_leaves_level. go_bind.
  destruct (build_loop_levels (height mt) 0 first_nodes [] ltac:(lia) Hh first_nodes_covers)
    as (ns & -> & Hns). go_bind.
  pose proof (Z.pow_pos_nonneg 2 (Z.of_nat (height mt))).
  case_decide as Hc.
  - rewrite nodes_after_1 in Hns by (unfold first_nodes; lia). by apply single_root_level.
  - pose proof (nodes_after_lower (height mt) first_nodes) as Hlow.
    apply (f_equal length) in Hns. rewrite length_fmap, length_level in Hns.
    destruct ns as [|[[? ?] ?] [|? ns]]; [done| |done]. simpl in Hns. rewrite <-Hns in Hlow.
    unfold first_nodes in Hlow. lia.
Qed.

(** The sibling of node [i] in a level of [n] nodes, or that of the next free
    position when [i = n]. *)
Definition sib (h : nat) (i : Z) (n : nat) : H :=
  if i mod 2 =? 1 then node L h (i - 1)
  else if Z.of_nat (2 * half_up n) <=? i then node L h (i - 1) else node L h (i + 1).

Fixpoint sibs_of (k h : nat) (i : Z) (n : nat) : list H :=
  match k with
  | O => []
  | S k' => sib h i n :: sibs_of k' (S h) (i / 2) (half_up n)
  end.

Lemma index_level h n i : 0 ≤ i < Z.of_nat n → Prelude.index (E := TreeErr) (level L h n) i = Ret (node L h i).
Proof.
  intros Hi. unfold Prelude.index. rewrite (proj2 (Z.leb_le _ _)), level_lookup by lia. done.
Qed.

(** The level is below [2 ^ 32] nodes where its length is looked at. *)
Definition fits32 (i : Z) (n : nat) : Prop :=
  Z.of_nat n ≤ 2 ^ 32 ∧ (i mod 2 = 1 ∨ Z.of_nat (2 * half_up n) < 2 ^ 32).

Lemma fits32_half i n : fits32 i n → fits32 (i / 2) (half_up n).
Proof.
  intros [Hn _]. pose proof (half_up_bounds n). pose proof (half_up_bounds (half_up n)).
  split; [lia|right; lia].
Qed.

Lemma level_sibling_eq h i n sibs :
  0 ≤ i ≤ Z.of_nat n → (0 < n)%nat → fits32 i n →
  level_sibling i (level L h (2 * half_up n)) sibs = Ret (sibs ++ [sib h i n]).
Proof.
  intros Hi Hn [Hle H32]. unfold level_sibling, sib. rewrite length_level.
  pose proof (half_up_bounds n) as Hb. pose proof (Z.mod_pos_bound i 2).
  pose proof (Z.div_mod i 2).
  destruct (Z.eqb_spec (i mod 2) 1) as [Ho|He].
  - rewrite wrap32_small by (unfold in_u32; lia). by rewrite index_level by lia.
  - destruct H32 as [?|H32]; [done|]. rewrite (proj2 (Z.ltb_lt _ _)) by lia.
    rewrite (wrap32_small (Z.of_nat _)) by (unfold in_u32; lia).
    destruct (Z.leb_spec (Z.of_nat (2 * half_up n)) i);
      rewrite wrap32_small by (unfold in_u32; lia); by rewrite index_level by lia.
Qed.

Lemma half_index i n :
  0 ≤ i ≤ Z.of_nat n → 0 ≤ i / 2 ≤ Z.of_nat (half_up n).
Proof.
  intros Hi. pose proof (half_up_bounds n). split; [apply Z.div_pos; lia|].
  apply Z.div_le_upper_bound; lia.
Qed.

Lemma half_up_pos n : (0 < n)%nat → (0 < half_up n)%nat.
Proof. pose proof (half_up_bounds n). lia. Qed.

Lemma proof_loop_levels k h i n sibs ns :
  (h + k = height mt)%nat → (0 < k)%nat → 0 ≤ i ≤ Z.of_nat n → (0 < n)%nat → fits32 i n →
  Z.of_nat (length L) ≤ Z.of_nat n * 2 ^ Z.of_nat h →
  ∃ ns', proof_loop mt k h i sibs ns (level L h n) = Ret (sibs ++ sibs_of k h i n, ns') ∧
    (λ x : node3, x.1.1) <$> ns' = level L (height mt) (nodes_after k n).
Proof.
  revert h i n sibs ns. induction k as [|k IH]; intros h i n sibs ns Hk Hpos Hi Hn H32 Hl; [lia|].
  cbn [proof_loop nodes_after sibs_of]. rewrite pad_level_eq by (done || lia). go_bind.
  rewrite level_sibling_eq by done. go_bind.
  destruct (buildIntermediate_level L h (half_up n)) as (ns1 & -> & Hns1). go_bind.
  destruct k as [|k].
  - exists ns1. replace (height mt) with (S h) by lia. cbn [proof_loop sibs_of]. done.
  - destruct (IH (S h) (i / 2) (half_up n) (sibs ++ [sib h i n]) ns1) as (ns' & Hp & Hns');
      [lia|lia|by apply half_index|by apply half_up_pos|by apply fits32_half|by apply half_up_covers|].
    exists ns'. rewrite Hp. by rewrite <-app_assoc.
Qed.

Lemma length_sibs_of k h i n : length (sibs_of k h i n) = k.
Proof. revert h i n. induction k as [|k IH]; intros; simpl; auto. Qed.

(** The siblings of a node determine the root. *)
Lemma proof_root_sibs k h i n :
  0 ≤ i < Z.of_nat n →
  proof_root i (node L h i) (sibs_of k h i n) = node L (h + k) (i / 2 ^ Z.of_nat k).
Proof.
  revert h i n. induction k as [|k IH]; intros h i n Hi.
  { simpl. by rewrite Nat.add_0_r, Z.div_1_r. }
  cbn [sibs_of proof_root]. rewrite Nat.add_succ_r, <-Nat.add_succ_l.
  rewrite Nat2Z.inj_succ, Z.pow_succ_r, <-Z.div_div by lia.
  assert (0 ≤ i / 2 < Z.of_nat (half_up n)) as Hi2.
  { pose proof (half_up_bounds n). split; [apply Z.div_pos; lia|].
    apply Z.div_lt_upper_bound; lia. }
  rewrite <-(IH (S h) (i / 2) (half_up n) Hi2). f_equal.
  pose proof (Z.div_mod i 2 ltac:(lia)) as Hdm. pose proof (Z.mod_pos_bound i 2 ltac:(lia)).
  unfold sib. cbn [node]. destruct (Z.eqb_spec (i mod 2) 1) as [Ho|He].
  - f_equal; f_equal; lia.
  - pose proof (half_up_bounds n). rewrite (proj2 (Z.leb_gt _ _)) by lia. f_equal; f_equal; lia.
Qed.

(** Where a bit of the index is set the sibling is the node to the left. *)
Lemma sibs_of_bit k h i n j :
  0 ≤ i → (j < k)%nat → Z.testbit i (Z.of_nat j) = true →
  sibs_of k h i n !! j = Some (node L (h + j) (i / 2 ^ Z.of_nat j - 1)).
Proof.
  revert h i n j. induction k as [|k IH]; intros h i n j Hi Hj Hb; [lia|].
  destruct j as [|j]; cbn [sibs_of lookup list_lookup].
  - unfold sib. change (Z.of_nat 0) with 0 in *. rewrite Z.bit0_odd in Hb.
    rewrite Nat.add_0_r, Z.pow_0_r, Z.div_1_r.
    apply Z.odd_spec in Hb as [m ->]. rewrite Z.add_comm, Z.mul_comm, Z.mod_add by lia. done.
  - rewrite Nat.add_succ_r, <-Nat.add_succ_l.
    rewrite Nat2Z.inj_succ, Z.pow_succ_r, <-Z.div_div by lia.
    apply IH; [apply Z.div_pos; lia|lia|].
    rewrite <-Hb, Z.div2_bits by lia. f_equal. lia.
Qed.
End levels.

(** ** The incremental tree *)

Lemma land_bit index h :
  (0 <? Z.land index (Z.shiftl 1 (Z.of_nat h))) = Z.testbit index (Z.of_nat h).
Proof.
  rewrite Z.shiftl_1_l. destruct (Z.testbit index (Z.of_nat h)) eqn:Hb.
  - apply Z.ltb_lt. assert (0 ≤ Z.land index (2 ^ Z.of_nat h)) by (apply Z.land_nonneg; right; lia).
    assert (Z.land index (2 ^ Z.of_nat h) ≠ 0); [|lia].
    intros Hz. apply (f_equal (λ z, Z.testbit z (Z.of_nat h))) in Hz.
    rewrite Z.land_spec, Hb, Z.pow2_bits_true, Z.bits_0 in Hz by lia. done.
  - apply Z.ltb_ge. assert (Z.land index (2 ^ Z.of_nat h) = 0) as ->; [|lia].
    apply Z.bits_inj'. intros n Hn. rewrite Z.land_spec, Z.bits_0.
    destruct (decide (n = Z.of_nat h)) as [->|]; [by rewrite Hb|].
    rewrite Z.pow2_bits_false by lia. apply andb_false_r.
Qed.

Lemma testbit_div c h : 0 ≤ h → Z.testbit c h = Z.odd (c / 2 ^ h).
Proof. intros. by rewrite Z.testbit_odd, Z.shiftr_div_pow2. Qed.

Lemma div_succ c h : c / 2 ^ Z.of_nat (S h) = c / 2 ^ Z.of_nat h / 2.
Proof. rewrite Nat2Z.inj_succ, Z.pow_succ_r, Z.mul_comm, Z.div_div by lia. done. Qed.

(** Adding one to a number whose low [h] bits are set. *)
Lemma carry c h :
  0 ≤ c → (c + 1) mod 2 ^ Z.of_nat h = 0 →
  (c + 1) / 2 ^ Z.of_nat h = c / 2 ^ Z.of_nat h + 1.
Proof.
  intros Hc Hm. pose proof (Z.pow_pos_nonneg 2 (Z.of_nat h) ltac:(lia) ltac:(lia)).
  pose proof (Z.div_mod (c + 1) (2 ^ Z.of_nat h) ltac:(lia)) as Hdm. rewrite Hm in Hdm.
  set (q := (c + 1) / 2 ^ Z.of_nat h) in *.
  assert (c / 2 ^ Z.of_nat h = q - 1); [|lia]. symmetry.
  apply (Z.div_unique c (2 ^ Z.of_nat h) (q - 1) (2 ^ Z.of_nat h - 1)); lia.
Qed.

Section add_leaf.
Context (mt : L1InfoTree) (L : list H) (leaf : H).
Let c := Z.of_nat (length L).
Let L' := L ++ [leaf].
Hypothesis Hcap : c < 2 ^ Z.of_nat (height mt).

(** The siblings at level [h] of the loop: those above are still the old ones,
    those below the new ones, and the carry of the increment of the count is
    still to come as long as the subtree is filled. *)
Definition sibs_inv (h : nat) (filled : bool) (sibs : list H) : Prop :=
  length sibs = height mt ∧
  (∀ j, (h ≤ j < height mt)%nat → Z.testbit c (Z.of_nat j) = true →
     sibs !! j = Some (node L' j (c / 2 ^ Z.of_nat j - 1))) ∧
  (∀ j, (j < h)%nat → Z.testbit (c + 1) (Z.of_nat j) = true →
     sibs !! j = Some (node L' j ((c + 1) / 2 ^ Z.of_nat j - 1))) ∧
  if filled then (c + 1) mod 2 ^ Z.of_nat h = 0
  else (c + 1) / 2 ^ Z.of_nat h = c / 2 ^ Z.of_nat h.

(** The parent of the node on the path to the new leaf. *)
Lemma path_right h :
  Z.testbit c (Z.of_nat h) = true →
  Hash (node L' h (c / 2 ^ Z.of_nat h - 1)) (node L' h (c / 2 ^ Z.of_nat h)) =
  node L' (S h) (c / 2 ^ Z.of_nat (S h)).
Proof.
  intros Hb. rewrite testbit_div in Hb by lia. apply Z.odd_spec in Hb as [m Hm].
  rewrite div_succ. cbn [node]. rewrite Hm.
  replace ((2 * m + 1) / 2) with m by (apply (Z.div_unique _ _ _ 1); lia).
  f_equal; f_equal; lia.
Qed.

Lemma path_left h :
  Z.testbit c (Z.of_nat h) = false →
  Hash (node L' h (c / 2 ^ Z.of_nat h)) (zeros h) = node L' (S h) (c / 2 ^ Z.of_nat (S h)).
Proof.
  intros Hb. rewrite testbit_div, <-Z.negb_even, negb_false_iff in Hb by lia.
  apply Z.even_spec in Hb as [m Hm]. rewrite div_succ. cbn [node]. rewrite Hm.
  replace (2 * m / 2) with m by (apply (Z.div_unique _ _ _ 0); lia). f_equal.
  pose proof (Z.pow_pos_nonneg 2 (Z.of_nat h) ltac:(lia) ltac:(lia)).
  pose proof (Z.div_mod c (2 ^ Z.of_nat h) ltac:(lia)) as Hdm. rewrite Hm in Hdm.
  pose proof (Z.mod_pos_bound c (2 ^ Z.of_nat h) ltac:(lia)).
  assert (0 ≤ m) by nia.
  symmetry. apply node_zero; [lia|]. unfold L'. rewrite length_app. cbn [length]. unfold c in *. nia.
Qed.

Lemma c_nonneg : 0 ≤ c.
Proof. unfold c. lia. Qed.

Lemma sibs_inv_set h filled sibs :
  sibs_inv h filled sibs → (h < height mt)%nat → Z.testbit c (Z.of_nat h) = true →
  sibs_inv (S h) filled sibs.
Proof.
  intros (Hlen & Hhi & Hlo & Hf) Hh Hb. pose proof c_nonneg. split_and!; [done| | |].
  - intros j Hj. apply Hhi. lia.
  - intros j Hj Hbj. destruct (decide (j = h)) as [->|]; [|apply Hlo; [lia|done]].
    destruct filled.
    + rewrite testbit_div, carry, Z.odd_add in Hbj by (done || lia).
      rewrite testbit_div in Hb by lia. by rewrite Hb in Hbj.
    + rewrite Hf. apply Hhi; [lia|done].
  - rewrite testbit_div in Hb by lia. destruct filled.
    + apply Z.odd_spec in Hb as [m Hm]. pose proof (carry c h ltac:(lia) Hf) as Hc.
      pose proof (Z.pow_pos_nonneg 2 (Z.of_nat h) ltac:(lia) ltac:(lia)).
      pose proof (Z.div_mod (c + 1) (2 ^ Z.of_nat h) ltac:(lia)) as Hdm.
      rewrite Hf, Hc, Hm in Hdm. rewrite Nat2Z.inj_succ, Z.pow_succ_r by lia.
      apply Z.mod_divide; [lia|]. exists (m + 1). lia.
    + by rewrite !div_succ, Hf.
Qed.

Lemma sibs_inv_clear h filled sibs :
  sibs_inv h filled sibs → (h < height mt)%nat → Z.testbit c (Z.of_nat h) = false →
  sibs_inv (S h) false
    (if filled then <[h := node L' h (c / 2 ^ Z.of_nat h)]> sibs else sibs).
Proof.
  intros (Hlen & Hhi & Hlo & Hf) Hh Hb. pose proof c_nonneg. destruct filled.
  - pose proof (carry c h ltac:(lia) Hf) as Hc. split_and!.
    + by rewrite length_insert.
    + intros j Hj Hbj. rewrite list_lookup_insert_ne by lia. apply Hhi; [lia|done].
    + intros j Hj Hbj. destruct (decide (j = h)) as [->|].
      * rewrite list_lookup_insert_eq by lia. rewrite Hc. do 2 f_equal. lia.
      * rewrite <-(Z.mod_pow2_bits_low (c + 1) (Z.of_nat h)), Hf, Z.bits_0 in Hbj by lia. done.
    + rewrite !div_succ, Hc. rewrite testbit_div, <-Z.negb_even, negb_false_iff in Hb by lia.
      apply Z.even_spec in Hb as [m ->].
      rewrite (Z.mul_comm 2 m), Z.div_add_l, Z.div_mul by lia. change (1 / 2) with 0. lia.
  - split_and!; [done| | |].
    + intros j Hj. apply Hhi. lia.
    + intros j Hj Hbj. destruct (decide (j = h)) as [->|]; [|apply Hlo; [lia|done]].
      rewrite testbit_div, Hf, <-testbit_div, Hb in Hbj by lia. done.
    + by rewrite !div_succ, Hf.
Qed.

Lemma add_loop_spec n h filled sibs :
  (h + n = height mt)%nat → sibs_inv h filled sibs →
  ∃ sibs' filled',
    add_loop (generateZeroHashes (height mt)) n h c (node L' h (c / 2 ^ Z.of_nat h)) filled sibs =
      Ret (node L' (height mt) (c / 2 ^ Z.of_nat (height mt)), sibs') ∧
    sibs_inv (height mt) filled' sibs'.
Proof.
  revert h filled sibs. induction n as [|n IH]; intros h filled sibs Hn Hinv; cbn [add_loop].
  { rewrite Nat.add_0_r in Hn. subst h. by exists sibs, filled. }
  rewrite land_bit. destruct (Z.testbit c (Z.of_nat h)) eqn:Hb.
  - pose proof Hinv as (_ & Hhi & _). rewrite (Hhi h) by (done || lia). go_bind.
    rewrite path_right by done. apply IH; [lia|]. apply sibs_inv_set; [done|lia|done].
  - pose proof (sibs_inv_clear h filled sibs Hinv ltac:(lia) Hb) as Hinv'.
    pose proof Hinv as (Hlen & _). rewrite zeroHashes_lookup by lia.
    destruct filled; go_bind.
    + destruct (lookup_lt_is_Some_2 sibs h ltac:(lia)) as [s ->]. go_bind.
      rewrite path_left by done. apply IH; [lia|done].
    + rewrite path_left by done. apply IH; [lia|done].
Qed.
End add_leaf.

(** The abstract state of a tree is the list of its leaves. *)
Lemma AddLeaf_inv mt L leaf :
  tree_inv mt L → Z.of_nat (length L) < 2 ^ Z.of_nat (height mt) →
  Z.of_nat (length L) < 2 ^ 32 →
  ∃ mt', AddLeaf mt (count mt) leaf = (mt', Ret (currentRoot mt')) ∧
    tree_inv mt' (L ++ [leaf]) ∧ height mt' = height mt.
Proof.
  intros (Hz & Hc & Hlen & Hs & Hroot) Hcap H32. unfold AddLeaf.
  rewrite decide_False by (intros Hne; by apply Hne).
  rewrite Hc, wrap32_small by (unfold in_u32; lia).
  destruct (add_loop_spec mt L leaf (height mt) 0 true (siblings mt)) as (sibs' & f & Ha & Hinv).
  { done. }
  { split_and!; [done| |lia|by rewrite Z.mod_1_r].
    intros j Hj Hb. rewrite Hs by (done || lia). f_equal. symmetry.
    pose proof (Z.pow_pos_nonneg 2 (Z.of_nat j) ltac:(lia) ltac:(lia)).
    rewrite testbit_div in Hb by lia. apply Z.odd_spec in Hb as [m Hm].
    pose proof (Z.div_pos (Z.of_nat (length L)) (2 ^ Z.of_nat j) ltac:(lia) ltac:(lia)).
    apply node_prefix; [lia|].
    pose proof (Z.mul_div_le (Z.of_nat (length L)) (2 ^ Z.of_nat j) ltac:(lia)). lia. }
  rewrite Z.div_1_r in Ha. cbn [node] in Ha.
  rewrite Nat2Z.id, lookup_app_r, Nat.sub_diag in Ha by lia. cbn in Ha. rewrite Hz.
  rewrite Ha, Z.div_small by lia.
  exists (mkTree (height mt) (generateZeroHashes (height mt)) (Z.of_nat (length L) +₃₂ 1) sibs'
            (node (L ++ [leaf]) (height mt) 0)).
  split; [done|]. split; [|done].
  destruct Hinv as (Hlen' & _ & Hlo & _). split_and!; simpl; [done| |done| |done].
  - rewrite length_app. simpl. f_equal. lia.
  - intros h Hh Hb. rewrite length_app, Nat2Z.inj_add in *. by apply Hlo.
Qed.

(** The next free position of a tree that is not full is odd when the padded
    leaves are [2 ^ 32]. *)
Lemma fits32_next L :
  Z.of_nat (length L) < 2 ^ 32 → fits32 (Z.of_nat (length L)) (first_nodes L).
Proof.
  intros Hl. unfold first_nodes. split; [lia|].
  pose proof (half_up_bounds (Nat.max 1 (length L))).
  pose proof (Z.div_mod (Z.of_nat (length L)) 2). pose proof (Z.mod_pos_bound (Z.of_nat (length L)) 2).
  destruct (decide (Z.of_nat (length L) = 2 ^ 32 - 1)) as [->|]; [by left|right; lia].
Qed.

Lemma NewL1InfoTree_inv ht leaves :
  (0 < ht)%nat → Z.of_nat (length leaves) ≤ 2 ^ Z.of_nat ht →
  Z.of_nat (length leaves) < 2 ^ 32 →
  ∃ mt, NewL1InfoTree ht leaves = Ret mt ∧ tree_inv mt leaves ∧ height mt = ht.
Proof.
  intros Hh Hcap H32. unfold NewL1InfoTree, initSiblings. cbn [count zeroHashes].
  rewrite decide_False by (intros Hne; by apply Hne).
  rewrite wrap32_small by (unfold in_u32; lia).
  set (mt0 := mkTree _ _ _ _ _). case_decide as H0.
  - rewrite BuildL1InfoRoot_eq by done. rewrite decide_True by done. go_bind.
    eexists. split; [done|]. split; [|done]. split_and!; simpl; [done| | | |done].
    + by rewrite wrap32_small by (unfold in_u32; lia).
    + rewrite length_take. pose proof (length_generateZeroHashes ht). simpl in *. lia.
    + intros h _ Hb. rewrite H0, Z.bits_0 in Hb. done.
  - unfold ComputeMerkleProof. rewrite first_leaves_level by done. go_bind.
    change (height mt0) with ht.
    destruct (proof_loop_levels mt0 leaves eq_refl ht 0 (Z.of_nat (length leaves))
      (first_nodes leaves) [] []) as (ns & -> & Hns);
      [done|done|unfold first_nodes; lia|unfold first_nodes; lia
      |by apply fits32_next|apply first_nodes_covers|].
    go_bind. rewrite nodes_after_1 in Hns by (unfold first_nodes; lia).
    rewrite (single_root_level leaves ns ht) by done. go_bind.
    eexists. split; [done|]. split; [|done]. split_and!; simpl; [done| | | |done].
    + by rewrite wrap32_small by (unfold in_u32; lia).
    + apply length_sibs_of.
    + intros h Hlt Hb. rewrite (sibs_of_bit leaves) by (done || lia). done.
Qed.
End tree.

(** ** Properties *)

Section properties.
Context {H : Type} `{!EqDecision H} (Hash : H → H → H) (zero : H).

(** The leaves in the order in which the synchronizer appends them. *)
Fixpoint add_all (mt : L1InfoTree) (ls : list H) : GoRes TreeErr L1InfoTree :=
  match ls with
  | [] => Ret mt
  | l :: ls' =>
      match AddLeaf Hash mt (count mt) l with
      | (mt', Ret _) => add_all mt' ls'
      | (_, Fail e) => Fail e
      | (_, Panic) => Panic
      end
  end.

Lemma add_all_inv ls : ∀ mt L,
  tree_inv Hash zero mt L → Z.of_nat (length (L ++ ls)) ≤ 2 ^ Z.of_nat (height mt) →
  Z.of_nat (length (L ++ ls)) < 2 ^ 32 →
  ∃ mt', add_all mt ls = Ret mt' ∧ tree_inv Hash zero mt' (L ++ ls) ∧ height mt' = height mt.
Proof.
  induction ls as [|l ls IH]; intros mt L Hinv Hcap H32; simpl.
  { exists mt. by rewrite app_nil_r. }
  rewrite length_app in *. cbn [length] in *.
  destruct (AddLeaf_inv Hash zero mt L l Hinv) as (mt1 & -> & Hinv1 & Hh); [lia|lia|].
  destruct (IH mt1 (L ++ [l]) Hinv1) as (mt' & -> & Hinv' & Hh').
  { rewrite Hh, !length_app. cbn [length]. lia. }
  { rewrite !length_app. cbn [length]. lia. }
  exists mt'. rewrite <-app_assoc in Hinv'. split_and!; [done|done|congruence].
Qed.

(** C24. The incremental root is the root of the whole tree: a tree created
    over any leaves and extended one leaf at a time never fails within its
    capacity and has the root that [BuildL1InfoRoot] computes from all the
    leaves, and so the root of a tree created over all of them at once. *)
Theorem AddLeaf_refines_BuildL1InfoRoot ht init ls :
  (0 < ht)%nat → Z.of_nat (length (init ++ ls)) ≤ 2 ^ Z.of_nat ht →
  Z.of_nat (length (init ++ ls)) < 2 ^ 32 →
  ∃ mt mt' mt'', NewL1InfoTree Hash zero ht init = Ret mt ∧ add_all mt ls = Ret mt' ∧
    NewL1InfoTree Hash zero ht (init ++ ls) = Ret mt'' ∧
    BuildL1InfoRoot Hash mt' (init ++ ls) = Ret (currentRoot mt') ∧
    currentRoot mt'' = currentRoot mt' ∧
    count mt' = Z.of_nat (length (init ++ ls)).
Proof.
  intros Hh Hcap H32. pose proof Hcap as Hcap'. pose proof H32 as H32'.
  rewrite length_app in Hcap', H32'.
  destruct (NewL1InfoTree_inv Hash zero ht init) as (mt & Hnew & Hinv & Hht); [lia..|].
  destruct (NewL1InfoTree_inv Hash zero ht (init ++ ls)) as (mt'' & Hnew' & Hinv'' & Hht''); [done..|].
  destruct (add_all_inv ls mt init Hinv) as (mt' & Hadd & Hinv' & Hht'); [by rewrite Hht|done|].
  destruct Hinv' as (Hz & Hc & _ & _ & Hr). destruct Hinv'' as (_ & _ & _ & _ & Hr'').
  exists mt, mt', mt''. split_and!; try done.
  - rewrite (BuildL1InfoRoot_eq Hash zero) by (done || congruence || lia).
    rewrite decide_True by (by rewrite Hht', Hht). congruence.
  - congruence.
  - by rewrite Hc, wrap32_small by (unfold in_u32; lia).
Qed.

(** Two openings of one position under the same root give a collision. *)
Lemma proof_root_binding sibs : ∀ sibs' i x y,
  length sibs = length sibs' → proof_root Hash i x sibs = proof_root Hash i y sibs' →
  x = y ∨ ∃ a b a' b', (a, b) ≠ (a', b') ∧ Hash a b = Hash a' b'.
Proof.
  induction sibs as [|s sibs IH]; intros [|s' sibs'] i x y Hl Hr; try done; [by left|].
  simpl in Hl, Hr. destruct (IH sibs' _ _ _ ltac:(lia) Hr) as [Hh|]; [|by right].
  destruct (decide (x = y)) as [|Hne]; [by left|right].
  case_match; [exists s, x, s', y|exists x, s, y, s']; (split; [congruence|done]).
Qed.

Lemma fits32_leaves (L : list H) i :
  Z.of_nat (length L) ≤ 2 ^ 32 ∧ (i mod 2 = 1 ∨ Z.of_nat (length L) ≤ 2 ^ 32 - 2) →
  fits32 i (first_nodes L).
Proof.
  intros [Hl Hi]. unfold first_nodes. split; [lia|].
  pose proof (half_up_bounds (Nat.max 1 (length L))). destruct Hi; [by left|right; lia].
Qed.

(** Beyond these bounds the proof is wrong: in a level of [2 ^ 32] nodes the
    node at an even position other than zero gets the node before it in place
    of the one after it. *)
Lemma level_sibling_wraps (leaves sibs : list H) i s :
  Z.of_nat (length leaves) = 2 ^ 32 → i mod 2 = 0 → 0 < i < 2 ^ 32 →
  leaves !! Z.to_nat (i - 1) = Some s →
  level_sibling i leaves sibs = Ret (sibs ++ [s]).
Proof.
  intros Hl He Hi Hs. unfold level_sibling. rewrite He, Hl. cbn [Z.eqb].
  change (wrap32 (2 ^ 32)) with 0. rewrite (proj2 (Z.ltb_lt 1 _)), (proj2 (Z.leb_le 0 i)) by lia.
  rewrite wrap32_small by (unfold in_u32; lia). unfold Prelude.index.
  by rewrite (proj2 (Z.leb_le 0 _)), Hs by lia.
Qed.

(** C26. [ComputeMerkleProof] is correct for every leaf: the proof has one
    sibling per level, its root is the one [BuildL1InfoRoot] computes, the leaf
    and the siblings reproduce it, and any proof of the same length that leads
    another value at that position to the root exhibits a hash collision.  The
    tree has a level at least and room for the leaves, and at most
    [2 ^ 32 - 2] leaves, or the position is odd and there are at most
    [2 ^ 32]: the padded leaves are counted in 32 bits. *)
Theorem ComputeMerkleProof_correct mt L i leaf :
  zeroHashes mt = generateZeroHashes Hash zero (height mt) → (0 < height mt)%nat →
  Z.of_nat (length L) ≤ 2 ^ Z.of_nat (height mt) → 0 ≤ i → L !! Z.to_nat i = Some leaf →
  Z.of_nat (length L) ≤ 2 ^ 32 ∧ (i mod 2 = 1 ∨ Z.of_nat (length L) ≤ 2 ^ 32 - 2) →
  ∃ sibs root, ComputeMerkleProof Hash mt i L = Ret (sibs, root) ∧
    length sibs = height mt ∧ BuildL1InfoRoot Hash mt L = Ret root ∧
    proof_root Hash i leaf sibs = root ∧
    ∀ leaf' sibs', length sibs' = height mt → proof_root Hash i leaf' sibs' = root →
      leaf' = leaf ∨ ∃ a b a' b', (a, b) ≠ (a', b') ∧ Hash a b = Hash a' b'.
Proof.
  intros Hz Hh Hcap Hi Hleaf H32. pose proof (lookup_lt_Some _ _ _ Hleaf).
  unfold ComputeMerkleProof. rewrite (first_leaves_level Hash zero) by done. go_bind.
  destruct (proof_loop_levels Hash zero mt L Hz (height mt) 0 i (first_nodes L) [] [])
    as (ns & -> & Hns);
    [done|done|unfold first_nodes; lia|unfold first_nodes; lia
    |by apply fits32_leaves|apply first_nodes_covers|].
  go_bind. pose proof (Z.pow_pos_nonneg 2 (Z.of_nat (height mt))).
  rewrite nodes_after_1 in Hns by (unfold first_nodes; lia).
  rewrite (single_root_level Hash zero L ns (height mt)) by done. go_bind.
  pose proof (proof_root_sibs Hash zero L (height mt) 0 i (first_nodes L)
    ltac:(unfold first_nodes; lia)) as Hr.
  rewrite Z.div_small in Hr by lia. cbn [node Nat.add] in Hr. rewrite Hleaf in Hr. simpl in Hr.
  eexists _, _. split; [done|]. split; [apply length_sibs_of|]. split_and!.
  - rewrite (BuildL1InfoRoot_eq Hash zero) by done. by rewrite decide_True.
  - done.
  - intros leaf' sibs' Hl Hr'. rewrite <-Hr in Hr'.
    destruct (proof_root_binding sibs' _ _ _ _ (eq_trans Hl (eq_sym (length_sibs_of _ _ _ _ _ _ _)))
                Hr'); [by left|by right].
Qed.
End properties.

Module TreeRun.
Definition h2 (a b : Z) : Z := 2 * a + 3 * b + 1.

Lemma AddLeaf_refines_BuildL1InfoRoot_witness :
  ∃ mt mt' mt'', NewL1InfoTree h2 0 3 [5; 6; 7] = Ret mt ∧ add_all h2 mt [8; 9] = Ret mt' ∧
    NewL1InfoTree h2 0 3 [5; 6; 7; 8; 9] = Ret mt'' ∧
    BuildL1InfoRoot h2 mt' [5; 6; 7; 8; 9] = Ret (currentRoot mt') ∧
    currentRoot mt'' = currentRoot mt' ∧ count mt' = 5.
Proof.
  apply (AddLeaf_refines_BuildL1InfoRoot h2 0 3 [5; 6; 7] [8; 9]); simpl; lia.
Defined.

Lemma ComputeMerkleProof_correct_witness :
  let mt := mkTree 3 (generateZeroHashes h2 0 3) 5 [] 0 in
  ∃ sibs root, ComputeMerkleProof h2 mt 3 [5; 6; 7; 8; 9] = Ret (sibs, root) ∧
    proof_root h2 3 8 sibs = root ∧ BuildL1InfoRoot h2 mt [5; 6; 7; 8; 9] = Ret root.
Proof.
  destruct (ComputeMerkleProof_correct h2 0 (mkTree 3 (generateZeroHashes h2 0 3) 5 [] 0)
              [5; 6; 7; 8; 9] 3 8) as (sibs & root & Hp & _ & Hb & Hr & _);
    [done|simpl; lia|simpl; lia|lia|done|simpl; lia|].
  exists sibs, root. auto.
Defined.
End TreeRun.

(** ** Leaves *)

(** [keccak] is [keccak256.Hash] of go-iden3-crypto, applied to the
    concatenation of its arguments; hashes are lists of 32 bytes. *)
Definition HashLeafData (keccak : bytes → bytes) (ger prevBlockHash : bytes)
    (minTimestamp : Z) : bytes :=
  keccak (ger ++ prevBlockHash ++ split_digits 256 8 minTimestamp).

(** Different leaves have different preimages. *)
Lemma HashLeafData_preimage ger prev ts ger' prev' ts' :
  length ger = 32%nat → length ger' = 32%nat → length prev = 32%nat → length prev' = 32%nat →
  in_u64 ts → in_u64 ts' →
  ger ++ prev ++ split_digits 256 8 ts = ger' ++ prev' ++ split_digits 256 8 ts' →
  ger = ger' ∧ prev = prev' ∧ ts = ts'.
Proof.
  unfold in_u64. intros Hg Hg' Hp Hp' Hts Hts' Heq.
  apply app_inj_1 in Heq as [-> Heq]; [|lia]. apply app_inj_1 in Heq as [-> Heq]; [|lia].
  split_and!; [done..|]. apply (f_equal (of_digits 256)) in Heq.
  by rewrite !split_digits_small in Heq by lia.
Qed.
