(* ===== verification/L1Sync.v ===== *)
(** * The parallel synchronizer of L1 data

    [synchronizer/l1_parallel_sync]: [block_range.go], [l1_live_block_ranges.go],
    [l1_syncstatus.go], [l1_filter_send_orderer_results_to_synchronizer.go] and
    the parts of [l1_rollup_info_producer.go] and [l1_worker_etherman.go] that
    use them.  The producer hands ranges of L1 blocks to workers, keeps the
    ranges in process and those to retry, and sends the results to the consumer
    in order.  Block numbers are [uint64]; [log.Fatal], which ends the process,
    is [None]. *)

From S2P Require Import Prelude.

(** ** Block ranges *)

Definition latestBlockNumber : Z := 2 ^ 64 - 1.
Definition invalidBlockNumber : Z := 0.
Definition invalidLastBlock : Z := 0.
Definition maximumBlockDistanceFromLatestToFinalized : Z := 96.

Inductive RangeErr :=
  | errBlockRangeInvalidIsNil
  | errBlockRangeInvalidIsZero
  | errBlockRangeInvalidIsWrong
  | errBlockRangeInvalidOverlap
  | errBlockRangeNotFound
  | errBlockRangeIsEmpty.

Record blockRange := mkRange { fromBlock : Z; toBlock : Z }.

#[export] Instance blockRange_eq_dec : EqDecision blockRange.
Proof. solve_decision. Defined.

Definition br_len (b : blockRange) : Z :=
  if (toBlock b =? latestBlockNumber) || (fromBlock b =? latestBlockNumber) then 0
  else toBlock b -₆₄ fromBlock b +₆₄ 1.

(** A nil pointer is [None]. *)
Definition br_isValid (b : option blockRange) : option RangeErr :=
  match b with
  | None => Some errBlockRangeInvalidIsNil
  | Some b =>
      if (fromBlock b =? invalidBlockNumber) || (toBlock b =? invalidBlockNumber)
      then Some errBlockRangeInvalidIsZero
      else if toBlock b <? fromBlock b then Some errBlockRangeInvalidIsWrong
      else None
  end.

Definition br_overlaps (b br : blockRange) : bool :=
  (fromBlock b <=? toBlock br) && (fromBlock br <=? toBlock b).

(** ** Live ranges *)

Definition liveBlockRanges := list blockRange.

Definition live_overlaps (l : liveBlockRanges) (br : blockRange) : bool :=
  existsb (λ r, br_overlaps r br) l.

Definition addBlockRange (l : liveBlockRanges) (br : blockRange) : liveBlockRanges + RangeErr :=
  match br_isValid (Some br) with
  | Some err => inr err
  | None => if live_overlaps l br then inr errBlockRangeInvalidOverlap else inl (l ++ [br])
  end.

Fixpoint removeBlockRange (l : liveBlockRanges) (br : blockRange) : liveBlockRanges + RangeErr :=
  match l with
  | [] => inr errBlockRangeNotFound
  | r :: l' =>
      if decide (r = br) then inl l'
      else match removeBlockRange l' br with
           | inl l'' => inl (r :: l'')
           | inr err => inr err
           end
  end.

Definition getFirstBlockRange (l : liveBlockRanges) : blockRange + RangeErr :=
  match l with [] => inr errBlockRangeIsEmpty | r :: _ => inl r end.

(** The loop of [getSuperBlockRange]: index 0 initialises both bounds. *)
Definition getSuperBlockRange (l : liveBlockRanges) : option blockRange :=
  let res :=
    match l with
    | [] => mkRange invalidBlockNumber invalidBlockNumber
    | r :: _ =>
        foldl (λ acc x,
            mkRange (if fromBlock x <? fromBlock acc then fromBlock x else fromBlock acc)
                    (if toBlock acc <? toBlock x then toBlock x else toBlock acc)) r l
    end in
  match br_isValid (Some res) with None => Some res | Some _ => None end.

(** ** Status of the synchronization *)

Record syncStatus := mkSyncStatus {
  lastBlockStoreOnStateDB : Z;
  highestBlockRequested : Z;
  lastBlockOnL1 : Z;
  amountOfBlocksInEachRange : Z;
  processingRanges : liveBlockRanges;
  errorRanges : liveBlockRanges
}.

Definition newSyncStatus (lastBlockStoreOnStateDB amountOfBlocksInEachRange : Z) : syncStatus :=
  mkSyncStatus lastBlockStoreOnStateDB lastBlockStoreOnStateDB invalidLastBlock
    amountOfBlocksInEachRange [] [].

Definition set_stored (s : syncStatus) (n : Z) : syncStatus :=
  mkSyncStatus n (highestBlockRequested s) (lastBlockOnL1 s) (amountOfBlocksInEachRange s)
    (processingRanges s) (errorRanges s).
Definition set_requested (s : syncStatus) (n : Z) : syncStatus :=
  mkSyncStatus (lastBlockStoreOnStateDB s) n (lastBlockOnL1 s) (amountOfBlocksInEachRange s)
    (processingRanges s) (errorRanges s).
Definition set_lastL1 (s : syncStatus) (n : Z) : syncStatus :=
  mkSyncStatus (lastBlockStoreOnStateDB s) (highestBlockRequested s) n
    (amountOfBlocksInEachRange s) (processingRanges s) (errorRanges s).
Definition set_processing (s : syncStatus) (l : liveBlockRanges) : syncStatus :=
  mkSyncStatus (lastBlockStoreOnStateDB s) (highestBlockRequested s) (lastBlockOnL1 s)
    (amountOfBlocksInEachRange s) l (errorRanges s).
Definition set_errors (s : syncStatus) (l : liveBlockRanges) : syncStatus :=
  mkSyncStatus (lastBlockStoreOnStateDB s) (highestBlockRequested s) (lastBlockOnL1 s)
    (amountOfBlocksInEachRange s) (processingRanges s) l.

Definition ss_Reset (s : syncStatus) (n : Z) : syncStatus :=
  set_processing (set_requested (set_stored s n) n) [].

Definition HaveRequiredAllBlocksToBeSynchronized (s : syncStatus) : bool :=
  lastBlockOnL1 s <=? highestBlockRequested s.

Definition IsNodeFullySynchronizedWithL1 (s : syncStatus) : bool :=
  if lastBlockOnL1 s =? invalidLastBlock then false
  else (lastBlockOnL1 s <=? highestBlockRequested s) &&
       bool_decide (length (errorRanges s) = 0%nat) &&
       bool_decide (length (processingRanges s) = 0%nat).

Definition getNextRangeOnlyRetriesUnsafe (s : syncStatus) : syncStatus * option blockRange :=
  match getFirstBlockRange (errorRanges s) with
  | inr _ => (s, None)
  | inl br =>
      if toBlock br =? latestBlockNumber then
        match removeBlockRange (errorRanges s) br with
        | inl l => (set_errors s l, None)
        | inr _ => (s, None)
        end
      else (s, Some br)
  end.

Definition max_to (l : liveBlockRanges) (res : Z) : Z :=
  foldl (λ res r, if res <? toBlock r then toBlock r else res) res l.

Definition getHighestBlockRequestedUnsafe (s : syncStatus) : Z :=
  max_to (errorRanges s) (max_to (processingRanges s) invalidBlockNumber).

Definition getNextBlockRangeFromUnsafe (lastBlockInState lastBlockInL1 amount : Z) : blockRange :=
  let fromBlock := lastBlockInState +₆₄ 1 in
  let toBlock := Z.min lastBlockInL1 (fromBlock +₆₄ amount) in
  let toBlock := if toBlock =? lastBlockInL1 then latestBlockNumber else toBlock in
  mkRange fromBlock toBlock.

Definition GetNextRange (s : syncStatus) : option (syncStatus * option blockRange) :=
  let '(s, blockRangeToRetry) := getNextRangeOnlyRetriesUnsafe s in
  match blockRangeToRetry with
  | Some br => Some (s, Some br)
  | None =>
      if lastBlockOnL1 s =? invalidLastBlock then Some (s, None)
      else if lastBlockOnL1 s <=? highestBlockRequested s then Some (s, None)
      else if getHighestBlockRequestedUnsafe s =? latestBlockNumber then Some (s, None)
      else
        let br := getNextBlockRangeFromUnsafe
                    (Z.max (lastBlockStoreOnStateDB s) (getHighestBlockRequestedUnsafe s))
                    (lastBlockOnL1 s) (amountOfBlocksInEachRange s) in
        match br_isValid (Some br) with
        | Some _ => None
        | None => Some (s, Some br)
        end
  end.

Definition OnStartedNewWorker (s : syncStatus) (br : blockRange) : option syncStatus :=
  let s := match removeBlockRange (errorRanges s) br with
           | inl l => set_errors s l
           | inr _ => s
           end in
  match addBlockRange (processingRanges s) br with
  | inr _ => None
  | inl l =>
      let s := set_processing s l in
      Some (if toBlock br =? latestBlockNumber then set_requested s (lastBlockOnL1 s)
            else if highestBlockRequested s <? toBlock br then set_requested s (toBlock br)
            else s)
  end.

Definition OnFinishWorker (s : syncStatus) (br : blockRange) (successful : bool)
    (highestBlockNumberInResponse : Z) : option (syncStatus * bool) :=
  match removeBlockRange (processingRanges s) br with
  | inr _ => Some (s, false)
  | inl l =>
      let s := set_processing s l in
      if successful then
        Some (if negb (highestBlockNumberInResponse =? invalidBlockNumber) &&
                 (lastBlockStoreOnStateDB s <? highestBlockNumberInResponse)
              then set_stored s highestBlockNumberInResponse else s, true)
      else
        match addBlockRange (errorRanges s) br with
        | inr _ => None
        | inl l => Some (set_errors s l, true)
        end
  end.

Record onNewLastBlockResponse := mkNewLastBlock {
  fullRange : blockRange;
  extendedRange : option blockRange
}.

Definition OnNewLastBlockOnL1 (s : syncStatus) (lastBlock : Z) :
    syncStatus * onNewLastBlockResponse :=
  let full := mkRange (lastBlockStoreOnStateDB s) lastBlock in
  if lastBlockOnL1 s =? invalidLastBlock then
    (set_lastL1 s lastBlock,
     mkNewLastBlock full (Some (mkRange (lastBlockStoreOnStateDB s) lastBlock)))
  else
    let oldLastBlock := lastBlockOnL1 s in
    if oldLastBlock <? lastBlock then
      (set_lastL1 s lastBlock,
       mkNewLastBlock full (Some (mkRange (oldLastBlock +₆₄ 1) lastBlock)))
    else if lastBlock =? oldLastBlock then (set_lastL1 s lastBlock, mkNewLastBlock full None)
    else (s, mkNewLastBlock (mkRange (lastBlockStoreOnStateDB s) oldLastBlock) None).

Definition DoesItHaveAllTheNeedDataToWork (s : syncStatus) : bool :=
  negb (lastBlockOnL1 s =? invalidLastBlock) &&
  negb (lastBlockStoreOnStateDB s =? invalidBlockNumber).

Inductive VerifyErr := errSyncChunkSizeMustBeGreaterThanZero | errStartingBlockNumberMustBeDefined.

Definition ss_Verify (s : syncStatus) : option VerifyErr :=
  if amountOfBlocksInEachRange s =? 0 then Some errSyncChunkSizeMustBeGreaterThanZero
  else if lastBlockStoreOnStateDB s =? invalidBlockNumber
  then Some errStartingBlockNumberMustBeDefined
  else None.

Definition BlockNumberIsInsideUnsafeArea (s : syncStatus) (blockNumber : Z) : bool :=
  let blockNumber := if blockNumber =? invalidBlockNumber then highestBlockRequested s
                     else blockNumber in
  (lastBlockOnL1 s -₆₄ blockNumber) <? maximumBlockDistanceFromLatestToFinalized.

(** ** Results of the workers *)

(** The numbers of the blocks in the response and of the last block. *)
Record rollupInfoByBlockRangeResult := mkResult {
  resRange : blockRange;
  blocks : list Z;
  lastBlockOfRange : option Z
}.

Definition getRealHighestBlockNumberInResponse (r : rollupInfoByBlockRangeResult) : Z :=
  let highest := foldl (λ h b, if h <? b then b else h) invalidBlockNumber (blocks r) in
  match lastBlockOfRange r with
  | Some n => if highest <? n then n else highest
  | None => highest
  end.

Definition getHighestBlockNumberInResponse (r : rollupInfoByBlockRangeResult) : Z :=
  if negb (toBlock (resRange r) =? latestBlockNumber) then toBlock (resRange r)
  else getRealHighestBlockNumberInResponse r.

Inductive eventEnum := eventNone | eventStop | eventProducerIsFullySynced.

(** A message has data or control information. *)
Inductive L1SyncMessage :=
  | MsgData (data : rollupInfoByBlockRangeResult)
  | MsgControl (event : eventEnum).

(** ** The filter that orders the results *)

Record filterToSend := mkFilter {
  lastBlockOnSynchronizer : Z;
  pendingResults : list L1SyncMessage
}.

Definition newFilter (n : Z) : filterToSend := mkFilter n [].
Definition filter_Reset (n : Z) : filterToSend := mkFilter n [].

Definition matchNextBlockUnsafe (last : Z) (r : rollupInfoByBlockRangeResult) : bool :=
  fromBlock (resRange r) =? last +₆₄ 1.

(** The loop over the pending results from index [i] on: the index of the one
    that can be sent. *)
Fixpoint find_send (last : Z) (i : nat) (pending : list L1SyncMessage) : option (nat * L1SyncMessage) :=
  match pending with
  | [] => None
  | m :: pending' =>
      match m with
      | MsgData d =>
          if matchNextBlockUnsafe last d then Some (i, m) else find_send last (S i) pending'
      | MsgControl _ =>
          if decide (i = 0%nat) then Some (i, m) else find_send last (S i) pending'
      end
  end.

(** [setLastBlockOnSynchronizerCorrespondingLatBlockRangeSendUnsafe] *)
Definition set_last (last : Z) (m : L1SyncMessage) : Z :=
  match m with
  | MsgData d =>
      let highestBlockNumber := getHighestBlockNumberInResponse d in
      if highestBlockNumber =? invalidBlockNumber then last else highestBlockNumber
  | MsgControl _ => last
  end.

(** [sendResultIfPossibleUnsafe]: every round removes a pending result, so
    that one unit of fuel for each is enough; [None] is lack of fuel. *)
Fixpoint send_loop (fuel : nat) (f : filterToSend) (previous : list L1SyncMessage) :
    option (filterToSend * list L1SyncMessage) :=
  match fuel with
  | O => None
  | S fuel' =>
      match find_send (lastBlockOnSynchronizer f) 0 (pendingResults f) with
      | None => Some (f, previous)
      | Some (i, m) =>
          send_loop fuel'
            (mkFilter (set_last (lastBlockOnSynchronizer f) m) (delete i (pendingResults f)))
            (previous ++ [m])
      end
  end.

Definition sendResultIfPossibleUnsafe (f : filterToSend) (previous : list L1SyncMessage) :
    filterToSend * list L1SyncMessage :=
  default (f, previous) (send_loop (S (length (pendingResults f))) f previous).

(** The check of the data only logs. *)
Definition Filter (f : filterToSend) (data : L1SyncMessage) : filterToSend * list L1SyncMessage :=
  let f := mkFilter (lastBlockOnSynchronizer f) (pendingResults f ++ [data]) in
  sendResultIfPossibleUnsafe f [].

(** ** Requests of a worker *)

Inductive requestLastBlockMode :=
  | requestLastBlockModeNone
  | requestLastBlockModeIfNoBlocksInAnswer
  | requestLastBlockModeAlways.

Definition mustRequestLastBlock (mode : requestLastBlockMode) (lenBlocks lastBlockRequest : Z) : bool :=
  match mode with
  | requestLastBlockModeNone => false
  | requestLastBlockModeIfNoBlocksInAnswer =>
      (lenBlocks =? 0) && negb (lastBlockRequest =? latestBlockNumber)
  | requestLastBlockModeAlways => negb (lastBlockRequest =? latestBlockNumber)
  end.

(** ** The producer *)

Inductive producerStatusEnum :=
  | producerIdle | producerWorking | producerSynchronized | producerNoRunning | producerReseting.

#[export] Instance producerStatusEnum_eq_dec : EqDecision producerStatusEnum.
Proof. solve_decision. Defined.

Inductive producerCmd := producerNop | producerStop | producerReset (param1 : Z).

(** [outgoing] is the content of the channel to the consumer, of capacity
    [channelCap]; [delivered] records what the consumer took from it since the
    last reset. *)
Record producer := mkProducer {
  p_status : producerStatusEnum;
  p_sync : syncStatus;
  p_filter : filterToSend;
  channelCap : nat;
  outgoing : list L1SyncMessage;
  delivered : list L1SyncMessage
}.

Definition with_status (p : producer) (st : producerStatusEnum) : producer :=
  mkProducer st (p_sync p) (p_filter p) (channelCap p) (outgoing p) (delivered p).
Definition with_sync (p : producer) (s : syncStatus) : producer :=
  mkProducer (p_status p) s (p_filter p) (channelCap p) (outgoing p) (delivered p).
Definition with_filter (p : producer) (f : filterToSend) : producer :=
  mkProducer (p_status p) (p_sync p) f (channelCap p) (outgoing p) (delivered p).

Definition sendPackages (p : producer) (l : list L1SyncMessage) : producer :=
  mkProducer (p_status p) (p_sync p) (p_filter p) (channelCap p) (outgoing p ++ l) (delivered p).

Definition setStatus (p : producer) (newStatus : producerStatusEnum) : producer :=
  let previousStatus := p_status p in
  let p := with_status p newStatus in
  if decide (previousStatus = newStatus) then p
  else if decide (newStatus = producerSynchronized)
  then sendPackages p [MsgControl eventProducerIsFullySynced]
  else p.

Definition emptyChannel (p : producer) : producer :=
  mkProducer (p_status p) (p_sync p) (p_filter p) (channelCap p) [] (delivered p).

Definition newProducer (SyncChunkSize : Z) (cap : nat) : producer :=
  mkProducer producerNoRunning (newSyncStatus invalidBlockNumber SyncChunkSize)
    (newFilter invalidBlockNumber) cap [] [].

(** [Reset], called by another goroutine: it queues the command that makes the
    producer call [resetUnsafe]. *)
Definition Producer_Reset (p : producer) : producer := emptyChannel (setStatus p producerReseting).

(** A reset starts a new record of deliveries. *)
Definition resetUnsafe (p : producer) (startingBlockNumber : Z) : producer :=
  let p := setStatus p producerReseting in
  let p := with_sync p (ss_Reset (p_sync p) startingBlockNumber) in
  let p := emptyChannel p in
  let p := with_filter p (filter_Reset startingBlockNumber) in
  let p := setStatus p producerIdle in
  mkProducer (p_status p) (p_sync p) (p_filter p) (channelCap p) (outgoing p) [].

Definition stopUnsafe (p : producer) : producer := setStatus p producerNoRunning.

Definition executeCmd (p : producer) (cmd : producerCmd) : producer * bool :=
  match cmd with
  | producerStop => (stopUnsafe p, false)
  | producerReset n => (resetUnsafe p n, true)
  | producerNop => (p, true)
  end.

Definition canISendNewRequestsUnsafe (p : producer) : bool :=
  negb (bool_decide (channelCap p < length (pendingResults (p_filter p)) + length (outgoing p))%nat).

Record requestRollupInfoByBlockRange := mkRequest {
  reqRange : blockRange;
  requestLastBlockIfNoBlocksInAnswer : requestLastBlockMode;
  requestPreviousBlock : bool
}.

(** In the area of reorgs the previous and the last block are asked for too. *)
Definition new_request (s : syncStatus) (br : blockRange) : requestRollupInfoByBlockRange :=
  if BlockNumberIsInsideUnsafeArea s (fromBlock br)
  then mkRequest br requestLastBlockModeAlways true
  else mkRequest br requestLastBlockModeIfNoBlocksInAnswer false.

(** The loop of [launchWork] with [free] idle workers: the request that finds
    all of them busy is given up.  The requests of the launched workers are
    returned. *)
Fixpoint launch_loop (free : nat) (allowNewRequests : bool) (s : syncStatus)
    (launched : list requestRollupInfoByBlockRange) :
    option (syncStatus * list requestRollupInfoByBlockRange) :=
  r ← (if allowNewRequests then GetNextRange s else Some (getNextRangeOnlyRetriesUnsafe s));
  match r with
  | (s, None) => Some (s, launched)
  | (s, Some br) =>
      let request := new_request s br in
      match free with
      | O => Some (s, launched)
      | S free' =>
          s ← OnStartedNewWorker s br;
          launch_loop free' allowNewRequests s (launched ++ [request])
      end
  end.

Definition launchWork (p : producer) (free : nat) :
    option (producer * list requestRollupInfoByBlockRange) :=
  '(s, launched) ← launch_loop free (canISendNewRequestsUnsafe p) (p_sync p) [];
  Some (with_sync p s, launched).

Definition onNewLastBlock (p : producer) (lastBlock : Z) : producer :=
  with_sync p (OnNewLastBlockOnL1 (p_sync p) lastBlock).1.

(** The outcome of the request for the last block, when one is due. *)
Inductive renewal := NotElapsed | LastBlockFailed | LastBlock (block : Z).

(** The log line before the check of the error reads the block of the result,
    which is nil after an error. *)
Definition renewLastBlockOnL1IfNeeded (p : producer) (r : renewal) : option producer :=
  match r with
  | NotElapsed => Some p
  | LastBlockFailed => None
  | LastBlock n => Some (onNewLastBlock p n)
  end.

Definition onResponseRollupInfo (p : producer) (result : rollupInfoByBlockRangeResult)
    (isOk : bool) : option producer :=
  if decide (p_status p = producerReseting) then Some p
  else
    let highest := if isOk then getHighestBlockNumberInResponse result else invalidBlockNumber in
    '(s, valid) ← OnFinishWorker (p_sync p) (resRange result) isOk highest;
    let p := with_sync p s in
    if negb valid then Some p
    else if isOk then
      let '(f, outgoingPackages) := Filter (p_filter p) (MsgData result) in
      Some (sendPackages (with_filter p f) outgoingPackages)
    else Some p.

(** What a step selects, and what it meets: the requests for the last block,
    in the order of the calls, and the idle workers at each [launchWork]. *)
Inductive step_event :=
  | EvCanceled
  | EvCmd (cmd : producerCmd)
  | EvTimeout
  | EvResponse (result : rollupInfoByBlockRangeResult) (isOk : bool).

Record step_env := mkEnv {
  env_event : step_event;
  env_renew1 : renewal;
  env_renew2 : renewal;
  env_free1 : nat;
  env_free2 : nat
}.

Definition step_select (p : producer) (ev : step_event) : option (producer * bool) :=
  match ev with
  | EvCanceled => Some (p, false)
  | EvCmd cmd => Some (executeCmd p cmd)
  | EvTimeout => Some (p, true)
  | EvResponse result isOk => p ← onResponseRollupInfo p result isOk; Some (p, true)
  end.

Definition step_status (p : producer) (env : step_env) : option producer :=
  match p_status p with
  | producerIdle =>
      p ← renewLastBlockOnL1IfNeeded p (env_renew1 env);
      Some (if DoesItHaveAllTheNeedDataToWork (p_sync p) then setStatus p producerWorking else p)
  | producerWorking =>
      '(p, _) ← launchWork p (env_free1 env);
      p ← (if HaveRequiredAllBlocksToBeSynchronized (p_sync p)
           then renewLastBlockOnL1IfNeeded p (env_renew1 env) else Some p);
      p ← (if BlockNumberIsInsideUnsafeArea (p_sync p) invalidBlockNumber
           then renewLastBlockOnL1IfNeeded p (env_renew2 env) else Some p);
      if IsNodeFullySynchronizedWithL1 (p_sync p) then Some (setStatus p producerSynchronized)
      else '(p, _) ← launchWork p (env_free2 env); Some p
  | producerSynchronized =>
      p ← renewLastBlockOnL1IfNeeded p (env_renew1 env);
      '(p, launched) ← launchWork p (env_free1 env);
      Some (if decide (0 < length launched)%nat then setStatus p producerWorking else p)
  | producerNoRunning | producerReseting => Some p
  end.

Definition step (p : producer) (env : step_env) : option (producer * bool) :=
  let p := if decide (p_status p = producerNoRunning) then with_status p producerIdle else p in
  '(p, go) ← step_select p (env_event env);
  if negb go then Some (p, false)
  else p ← step_status p env; Some (p, true).

(** The consumer takes the first message of the channel. *)
Definition consume (p : producer) : option producer :=
  match outgoing p with
  | [] => None
  | m :: l => Some (mkProducer (p_status p) (p_sync p) (p_filter p) (channelCap p) l (delivered p ++ [m]))
  end.

(** ** Counting the ranges that hold a block *)

Definition holds (b : Z) (r : blockRange) : Prop := fromBlock r ≤ b ≤ toBlock r.

#[export] Instance holds_dec b r : Decision (holds b r).
Proof. unfold holds. apply _. Defined.

Definition count (b : Z) (l : list blockRange) : nat := length (filter (holds b) l).

(** Ranges in process or to be retried. *)
Definition live (s : syncStatus) : list blockRange := processingRanges s ++ errorRanges s.

(** The blocks a result accounts for. *)
Definition done_range (r : rollupInfoByBlockRangeResult) : blockRange :=
  mkRange (fromBlock (resRange r)) (getHighestBlockNumberInResponse r).

Definition msg_data (m : L1SyncMessage) : option rollupInfoByBlockRangeResult :=
  match m with MsgData d => Some d | MsgControl _ => None end.

Definition data_of (l : list L1SyncMessage) : list rollupInfoByBlockRangeResult := omap msg_data l.

(** The last block asked for so far. *)
Definition frontier (s : syncStatus) : Z :=
  Z.max (lastBlockStoreOnStateDB s) (getHighestBlockRequestedUnsafe s).

(** Block numbers of the chain are far from the end of [uint64]. *)
Definition block_bound : Z := 2 ^ 62.

Definition range_ok (start : Z) (r : blockRange) : Prop :=
  start < fromBlock r ≤ toBlock r ∧ fromBlock r ≤ block_bound ∧
  (toBlock r < block_bound ∨ toBlock r = latestBlockNumber).

(** A worker that was asked for the blocks from [fromBlock] to the latest
    answers with none or with some of them. *)
Definition result_ok (r : rollupInfoByBlockRangeResult) : Prop :=
  toBlock (resRange r) = latestBlockNumber →
  getHighestBlockNumberInResponse r = invalidBlockNumber ∨
  fromBlock (resRange r) ≤ getHighestBlockNumberInResponse r < block_bound.

Record sync_inv (start : Z) (s : syncStatus) (done : list blockRange) : Prop := {
  inv_start : 0 < start ≤ lastBlockStoreOnStateDB s;
  inv_stored : lastBlockStoreOnStateDB s < block_bound;
  inv_lastL1 : 0 ≤ lastBlockOnL1 s < block_bound;
  inv_amount : 0 ≤ amountOfBlocksInEachRange s < block_bound;
  inv_live : Forall (range_ok start) (live s);
  inv_latest : Forall (λ r, toBlock r = latestBlockNumber →
                            lastBlockStoreOnStateDB s < fromBlock r) (live s);
  inv_done : Forall (λ r, start < fromBlock r ∧ toBlock r ≤ lastBlockStoreOnStateDB s ∧
                          (toBlock r = 0 ∨ fromBlock r ≤ toBlock r)) done;
  inv_once : ∀ b, count b (live s ++ done) =
                  if bool_decide (start < b ≤ frontier s) then 1%nat else 0%nat
}.

(** *** Counting *)

#[export] Instance count_perm b : Proper (Permutation ==> eq) (count b).
Proof. intros l1 l2 Hl. unfold count. by rewrite Hl. Qed.

Lemma count_app b l1 l2 : count b (l1 ++ l2) = (count b l1 + count b l2)%nat.
Proof. unfold count. by rewrite filter_app, length_app. Qed.

Lemma count_cons b r l :
  count b (r :: l) = ((if decide (holds b r) then 1 else 0) + count b l)%nat.
Proof. unfold count. rewrite filter_cons. by case_decide. Qed.

Lemma count_zero b l : (∀ r, r ∈ l → ¬ holds b r) → count b l = 0%nat.
Proof.
  induction l as [|r l IH]; intros Hl; [done|].
  rewrite count_cons, decide_False by (apply Hl; set_solver).
  apply IH. set_solver.
Qed.

Lemma count_pos b l r : r ∈ l → holds b r → (1 ≤ count b l)%nat.
Proof.
  intros Hr Hb. apply elem_of_Permutation in Hr as [l' ->].
  rewrite count_cons, decide_True by done. lia.
Qed.

(** *** The highest block *)

Lemma max_to_spec l res :
  res ≤ max_to l res ∧ (∀ r, r ∈ l → toBlock r ≤ max_to l res) ∧
  (max_to l res = res ∨ ∃ r, r ∈ l ∧ toBlock r = max_to l res).
Proof.
  revert res. induction l as [|r l IH]; intros res; cbn.
  - split; [lia|]. split; [set_solver|by left].
  - destruct (IH (if res <? toBlock r then toBlock r else res)) as (H1 & H2 & H3).
    unfold max_to in *.
    split; [destruct (Z.ltb_spec res (toBlock r)); lia|]. split.
    + intros r' [->|Hr']%elem_of_cons; [destruct (Z.ltb_spec res (toBlock r)); lia|auto].
    + destruct H3 as [->|(r' & Hr' & Heq)]; [|right; exists r'; set_solver].
      destruct (Z.ltb_spec res (toBlock r)); [right; exists r; set_solver|by left].
Qed.

Lemma highest_spec s :
  0 ≤ getHighestBlockRequestedUnsafe s ∧
  (∀ r, r ∈ live s → toBlock r ≤ getHighestBlockRequestedUnsafe s) ∧
  (getHighestBlockRequestedUnsafe s = 0 ∨
   ∃ r, r ∈ live s ∧ toBlock r = getHighestBlockRequestedUnsafe s).
Proof.
  unfold getHighestBlockRequestedUnsafe, live.
  destruct (max_to_spec (processingRanges s) invalidBlockNumber) as (H1 & H2 & H3).
  destruct (max_to_spec (errorRanges s) (max_to (processingRanges s) invalidBlockNumber))
    as (G1 & G2 & G3).
  unfold invalidBlockNumber in *.
  split; [lia|]. split.
  - intros r [Hr|Hr]%elem_of_app; [specialize (H2 _ Hr); lia|auto].
  - destruct G3 as [->|(r & Hr & Heq)]; [|right; exists r; set_solver].
    destruct H3 as [->|(r & Hr & Heq)]; [by left|right; exists r; set_solver].
Qed.

(** The frontier depends on the live ranges as a set only. *)
Lemma frontier_unique s n :
  lastBlockStoreOnStateDB s ≤ n → (∀ r, r ∈ live s → toBlock r ≤ n) → 0 ≤ n →
  (n = lastBlockStoreOnStateDB s ∨ ∃ r, r ∈ live s ∧ toBlock r = n) → frontier s = n.
Proof.
  intros H1 H2 H0 H3. unfold frontier. destruct (highest_spec s) as (G1 & G2 & G3).
  assert (getHighestBlockRequestedUnsafe s ≤ n).
  { destruct G3 as [->|(r & Hr & <-)]; auto. }
  destruct H3 as [->|(r & Hr & <-)]; [lia|]. specialize (G2 _ Hr). lia.
Qed.

Lemma frontier_bounds s :
  lastBlockStoreOnStateDB s ≤ frontier s ∧ (∀ r, r ∈ live s → toBlock r ≤ frontier s) ∧
  0 ≤ frontier s ∧
  (lastBlockStoreOnStateDB s < 0 ∨ frontier s = lastBlockStoreOnStateDB s ∨
   ∃ r, r ∈ live s ∧ toBlock r = frontier s).
Proof.
  unfold frontier. destruct (highest_spec s) as (H1 & H2 & H3).
  split; [lia|]. split; [intros r Hr; specialize (H2 r Hr); lia|]. split; [lia|].
  destruct (Z.max_spec (lastBlockStoreOnStateDB s) (getHighestBlockRequestedUnsafe s))
    as [[Hlt ->]|[Hle ->]]; [|auto].
  destruct H3 as [H0|H3]; [left; lia|auto].
Qed.

(** *** Adding and removing ranges *)

Lemma removeBlockRange_spec l r :
  (∃ l', removeBlockRange l r = inl l' ∧ l ≡ₚ r :: l') ∨
  (removeBlockRange l r = inr errBlockRangeNotFound ∧ r ∉ l).
Proof.
  induction l as [|x l IH]; cbn; [right; set_solver|].
  case_decide as Hx; [subst; left; eauto|].
  destruct IH as [(l' & -> & Hl)|[-> Hr]]; [left|right; set_solver].
  exists (x :: l'). split; [done|]. rewrite Hl. constructor.
Qed.

Lemma live_overlaps_false l br :
  (∀ r, r ∈ l → ¬ br_overlaps r br) → live_overlaps l br = false.
Proof.
  intros Hl. apply not_true_is_false. unfold live_overlaps.
  rewrite existsb_exists. intros (r & Hr & Ho).
  apply (Hl r); [by apply list_elem_of_In|by rewrite Ho].
Qed.

Lemma br_isValid_ok br : 0 < fromBlock br ≤ toBlock br → br_isValid (Some br) = None.
Proof.
  intros Hbr. unfold br_isValid, invalidBlockNumber.
  destruct (Z.eqb_spec (fromBlock br) 0), (Z.eqb_spec (toBlock br) 0); try lia. cbn [orb].
  by destruct (Z.ltb_spec (toBlock br) (fromBlock br)); [lia|].
Qed.

Lemma overlaps_common r br :
  fromBlock r ≤ toBlock r → fromBlock br ≤ toBlock br → br_overlaps r br →
  ∃ b, holds b r ∧ holds b br.
Proof.
  unfold br_overlaps, holds. intros H1 H2 [H3 H4]%Is_true_true%andb_prop.
  exists (Z.max (fromBlock r) (fromBlock br)). lia.
Qed.

(** *** Preservation of the invariant *)

Lemma once_le start s done b : sync_inv start s done → (count b (live s ++ done) ≤ 1)%nat.
Proof. intros Hinv. rewrite (inv_once _ _ _ Hinv). case_bool_decide; lia. Qed.

(** Two places of the list of live ranges hold no common block. *)
Lemma live_disjoint start s done r l o b :
  sync_inv start s done → live s ≡ₚ r :: l → o ∈ l → holds b r → ¬ holds b o.
Proof.
  intros Hinv Hl Ho Hr Hb. pose proof (once_le _ _ _ b Hinv) as Hle.
  rewrite count_app, Hl, count_cons, decide_True in Hle by done.
  pose proof (count_pos b l o Ho Hb). lia.
Qed.

Lemma live_range_ok start s done r : sync_inv start s done → r ∈ live s → range_ok start r.
Proof. intros Hinv. revert r. apply Forall_forall, (inv_live _ _ _ Hinv). Qed.

(** Nothing lies beyond a range up to the latest block. *)
Lemma below_latest start s done r l :
  sync_inv start s done → live s ≡ₚ r :: l → toBlock r = latestBlockNumber →
  lastBlockStoreOnStateDB s < fromBlock r ∧ ∀ o, o ∈ l → toBlock o < fromBlock r.
Proof.
  intros Hinv Hl Hr. assert (r ∈ live s) as Hrl by (rewrite Hl; set_solver). split.
  - pose proof (inv_latest _ _ _ Hinv) as H6. rewrite Forall_forall in H6. auto.
  - intros o Ho. assert (o ∈ live s) as Hol by (rewrite Hl; set_solver).
    pose proof (live_range_ok _ _ _ _ Hinv Hrl) as (Hr1 & _ & _).
    pose proof (live_range_ok _ _ _ _ Hinv Hol) as (Ho1 & Ho2 & Ho3).
    destruct (decide (toBlock o < fromBlock r)) as [|Hge]; [done|].
    destruct (live_disjoint _ _ _ _ _ _ (Z.max (fromBlock o) (fromBlock r)) Hinv Hl Ho);
      unfold holds; unfold latestBlockNumber, block_bound in *; lia.
Qed.

Lemma latest_frontier start s done r l :
  sync_inv start s done → live s ≡ₚ r :: l → toBlock r = latestBlockNumber →
  frontier s = latestBlockNumber.
Proof.
  intros Hinv Hl Hr. destruct (below_latest _ _ _ _ _ Hinv Hl Hr) as [Hb1 Hb2].
  assert (range_ok start r) as (Hr1 & Hr2 & _)
    by (eapply live_range_ok; [done|rewrite Hl; set_solver]).
  apply frontier_unique; unfold latestBlockNumber, block_bound in *; try lia.
  - intros o. rewrite Hl. intros [->|Ho]%elem_of_cons; [lia|]. specialize (Hb2 o Ho). lia.
  - right. exists r. rewrite Hl. split; [set_solver|done].
Qed.

Lemma inv_same_live start s s' done :
  lastBlockStoreOnStateDB s' = lastBlockStoreOnStateDB s →
  amountOfBlocksInEachRange s' = amountOfBlocksInEachRange s →
  0 ≤ lastBlockOnL1 s' < block_bound → live s' ≡ₚ live s →
  sync_inv start s done → sync_inv start s' done.
Proof.
  intros Hst Ham Hl1 Hl Hinv. destruct Hinv as [H1 H2 H3 H4 H5 H6 H7 H8].
  assert (frontier s' = frontier s) as Hf.
  { destruct (frontier_bounds s) as (F1 & F2 & F3 & F4).
    apply frontier_unique; [lia| |lia|].
    - intros r. rewrite Hl. auto.
    - destruct F4 as [?|[->|(r & Hr & ?)]]; [lia|auto|]. right. exists r. by rewrite Hl. }
  constructor; rewrite ?Hst, ?Ham, ?Hl, ?Hf; auto.
  intros b. rewrite Hl. apply H8.
Qed.

(** A range up to the latest block ends, with the blocks up to [h]; without
    any when [h] is 0. *)
Lemma inv_latest_gone start s s' done r l h :
  sync_inv start s done → live s ≡ₚ r :: l → toBlock r = latestBlockNumber →
  live s' ≡ₚ l → lastBlockOnL1 s' = lastBlockOnL1 s →
  amountOfBlocksInEachRange s' = amountOfBlocksInEachRange s →
  h < block_bound → h = 0 ∨ fromBlock r ≤ h →
  lastBlockStoreOnStateDB s' = Z.max (lastBlockStoreOnStateDB s) h →
  sync_inv start s' (done ++ [mkRange (fromBlock r) h]).
Proof.
  intros Hinv Hl Hr Hl' Hl1 Ham Hh1 Hh2 Hst.
  destruct (below_latest _ _ _ _ _ Hinv Hl Hr) as [Hb1 Hb2].
  assert (range_ok start r) as Hrok by (eapply live_range_ok; [done|rewrite Hl; set_solver]).
  pose proof Hinv as [H1 H2 H3 H4 H5 H6 H7 H8].
  rewrite Hl in H5, H6. apply Forall_cons in H5 as [_ H5]. apply Forall_cons in H6 as [_ H6].
  destruct (frontier_bounds s') as (F1 & F2 & F3 & F4).
  assert (frontier s' < fromBlock r ∧ h = 0 ∨ frontier s' = h ∧ fromBlock r ≤ h) as HF.
  { assert (∀ o, o ∈ live s' → toBlock o < fromBlock r) as Hlo by (intros o; rewrite Hl'; auto).
    destruct Hh2; [left|right]; split; try lia.
    - destruct F4 as [?|[?|(o & Ho & ?)]]; [lia|lia|]. specialize (Hlo o Ho). lia.
    - destruct F4 as [?|[?|(o & Ho & ?)]]; [lia|lia|]. specialize (Hlo o Ho). lia. }
  assert (∀ b, frontier s' < b → count b (l ++ done) = 0%nat) as Hbig.
  { intros b Hb. apply count_zero. intros o [Ho|Ho]%elem_of_app [_ Hle].
    - rewrite <- Hl' in Ho. specialize (F2 o Ho). lia.
    - rewrite Forall_forall in H7. specialize (H7 o Ho). lia. }
  constructor; rewrite ?Hl1, ?Ham, ?Hl', ?Hst; try done; try lia.
  - rewrite Forall_forall. intros o Ho Hto. specialize (Hb2 o Ho).
    destruct Hrok as (_ & Hrok & _). unfold latestBlockNumber, block_bound in *. lia.
  - rewrite Forall_app, Forall_singleton. cbn. destruct Hrok. split; [|lia].
    apply (Forall_impl _ _ _ H7). lia.
  - intros b. specialize (H8 b). specialize (Hbig b).
    rewrite (latest_frontier _ _ _ _ _ Hinv Hl Hr), Hl in H8. cbn [app] in H8.
    rewrite count_cons in H8. rewrite Hl', app_assoc, count_app, count_cons.
    change (count b []) with 0%nat. unfold holds in *. cbn [fromBlock toBlock].
    destruct Hrok. unfold latestBlockNumber, block_bound in *.
    repeat case_bool_decide; repeat case_decide; lia.
Qed.

Lemma inv_drop_empty start s done r :
  toBlock r < fromBlock r → sync_inv start s (done ++ [r]) → sync_inv start s done.
Proof.
  intros Hr [H1 H2 H3 H4 H5 H6 H7 H8]. rewrite Forall_app in H7. destruct H7 as [H7 _].
  constructor; auto.
  intros b. rewrite <- H8, app_assoc, (count_app b (live s ++ done)), count_cons, decide_False.
  - cbn. lia.
  - unfold holds. lia.
Qed.

(** A bounded range ends with all its blocks. *)
Lemma inv_bounded_gone start s s' done r l :
  sync_inv start s done → live s ≡ₚ r :: l → toBlock r < block_bound →
  live s' ≡ₚ l → lastBlockOnL1 s' = lastBlockOnL1 s →
  amountOfBlocksInEachRange s' = amountOfBlocksInEachRange s →
  lastBlockStoreOnStateDB s' = Z.max (lastBlockStoreOnStateDB s) (toBlock r) →
  sync_inv start s' (done ++ [r]).
Proof.
  intros Hinv Hl Hr Hl' Hl1 Ham Hst.
  assert (∀ o, o ∈ l → toBlock o = latestBlockNumber → toBlock r < fromBlock o) as Hlate.
  { intros o Ho Hto. apply elem_of_Permutation in Ho as [l2 Hl2].
    refine (proj2 (below_latest _ _ _ o (r :: l2) Hinv _ Hto) r _); [|set_solver].
    rewrite Hl, Hl2. constructor. }
  assert (range_ok start r) as (Hr1 & Hr2 & _)
    by (eapply live_range_ok; [done|rewrite Hl; set_solver]).
  pose proof Hinv as [H1 H2 H3 H4 H5 H6 H7 H8].
  rewrite Hl in H5, H6. apply Forall_cons in H5 as [_ H5]. apply Forall_cons in H6 as [_ H6].
  assert (frontier s' = frontier s) as Hf.
  { destruct (frontier_bounds s) as (F1 & F2 & F3 & F4).
    pose proof (F2 r ltac:(rewrite Hl; set_solver)) as Fr.
    apply frontier_unique; [lia| |lia|].
    - intros o. rewrite Hl'. intros Ho. apply F2. rewrite Hl. set_solver.
    - destruct F4 as [?|[?|(o & Ho & Hto)]]; [lia|left; lia|].
      rewrite Hl in Ho. apply elem_of_cons in Ho as [->|Ho]; [left; lia|].
      right. exists o. by rewrite Hl'. }
  constructor; rewrite ?Hl1, ?Ham, ?Hl', ?Hst, ?Hf; try done; try lia.
  - rewrite Forall_forall in H6 |- *. intros o Ho Hto.
    specialize (H6 o Ho Hto). specialize (Hlate o Ho Hto). lia.
  - rewrite Forall_app, Forall_singleton. split; [|lia]. apply (Forall_impl _ _ _ H7). lia.
  - intros b. rewrite <- H8, Hl', Hl, app_assoc. rewrite (Permutation_app_comm _ [r]). done.
Qed.

Lemma retries_inv start s done s' o :
  sync_inv start s done → getNextRangeOnlyRetriesUnsafe s = (s', o) →
  sync_inv start s' done ∧ (∀ br, o = Some br → br ∈ errorRanges s').
Proof.
  intros Hinv. unfold getNextRangeOnlyRetriesUnsafe.
  destruct (errorRanges s) as [|r l] eqn:He; cbn [getFirstBlockRange];
    [intros [= <- <-]; done|].
  destruct (Z.eqb_spec (toBlock r) latestBlockNumber) as [Hto|Hto];
    [|intros [= <- <-]; split; [done|]; intros br [= <-]; rewrite He; set_solver].
  cbn [removeBlockRange]. rewrite decide_True by done. intros [= <- <-]. split; [|done].
  assert (live s ≡ₚ r :: (processingRanges s ++ l)) as Hl
    by (unfold live; rewrite He; symmetry; apply Permutation_middle).
  destruct (inv_start _ _ _ Hinv).
  assert (range_ok start r) as (Hr1 & _ & _)
    by (eapply live_range_ok; [done|rewrite Hl; set_solver]).
  apply (inv_drop_empty _ _ _ (mkRange (fromBlock r) 0)); [cbn; lia|].
  eapply (inv_latest_gone _ s); try done; try (cbn; lia).
Qed.

(** A new range begins right after the frontier. *)
Definition next_new (s : syncStatus) (br : blockRange) : Prop :=
  frontier s < block_bound ∧ fromBlock br = frontier s + 1 ∧
  (toBlock br = latestBlockNumber ∨ fromBlock br ≤ toBlock br < block_bound).

Lemma frontier_small start s done :
  sync_inv start s done → getHighestBlockRequestedUnsafe s ≠ latestBlockNumber →
  frontier s < block_bound.
Proof.
  intros Hinv Hne. unfold frontier. pose proof (inv_stored _ _ _ Hinv).
  destruct (highest_spec s) as (_ & _ & [->|(r & Hr & Hto)]); [unfold block_bound in *; lia|].
  pose proof (live_range_ok _ _ _ _ Hinv Hr) as (_ & _ & [?|?]); lia.
Qed.

Lemma GetNextRange_inv start s done :
  sync_inv start s done →
  ∃ s' o, GetNextRange s = Some (s', o) ∧ sync_inv start s' done ∧
          ∀ br, o = Some br → br ∈ errorRanges s' ∨ next_new s' br.
Proof.
  intros Hinv0. unfold GetNextRange.
  destruct (getNextRangeOnlyRetriesUnsafe s) as [s1 o] eqn:Hs1.
  destruct (retries_inv _ _ _ _ _ Hinv0 Hs1) as [Hinv Ho]. clear Hinv0 Hs1 s.
  destruct o as [br|]; [eexists _, _; split; [done|]; split; [done|]; intros ? [= <-]; auto|].
  destruct (Z.eqb_spec (lastBlockOnL1 s1) invalidLastBlock); [by eexists _, _|].
  destruct (Z.leb_spec (lastBlockOnL1 s1) (highestBlockRequested s1)); [by eexists _, _|].
  destruct (Z.eqb_spec (getHighestBlockRequestedUnsafe s1) latestBlockNumber) as [|Hne];
    [by eexists _, _|].
  pose proof (frontier_small _ _ _ Hinv Hne) as Hfr.
  pose proof (inv_start _ _ _ Hinv). pose proof (inv_lastL1 _ _ _ Hinv).
  pose proof (inv_amount _ _ _ Hinv). destruct (frontier_bounds s1) as (F1 & _ & _ & _).
  fold (frontier s1).
  assert (next_new s1 (getNextBlockRangeFromUnsafe (frontier s1) (lastBlockOnL1 s1)
                         (amountOfBlocksInEachRange s1))) as Hnew.
  { unfold next_new, getNextBlockRangeFromUnsafe, block_bound in *. cbn [fromBlock toBlock].
    wrap_small. destruct (Z.eqb_spec (Z.min (lastBlockOnL1 s1)
      (frontier s1 + 1 + amountOfBlocksInEachRange s1)) (lastBlockOnL1 s1)); lia. }
  destruct Hnew as (N1 & N2 & N3). set (br := getNextBlockRangeFromUnsafe _ _ _) in *.
  rewrite br_isValid_ok by (unfold latestBlockNumber, block_bound in *; lia).
  eexists _, _. split; [done|]. split; [done|]. intros ? [= <-]. right. done.
Qed.

Lemma addBlockRange_ok start l br :
  0 ≤ start → fromBlock br ≤ toBlock br → start < fromBlock br →
  Forall (range_ok start) l → (∀ b o, o ∈ l → holds b br → ¬ holds b o) →
  addBlockRange l br = inl (l ++ [br]).
Proof.
  intros H0 H1 H2 Hl Hd. unfold addBlockRange. rewrite br_isValid_ok by lia.
  rewrite live_overlaps_false; [done|]. intros o Ho Hov.
  rewrite Forall_forall in Hl. destruct (Hl o Ho) as (Ho1 & _).
  destruct (overlaps_common o br) as (b & Hb1 & Hb2); [lia|lia|done|].
  by apply (Hd b o).
Qed.

Lemma inv_add_new start s s' done br :
  sync_inv start s done → next_new s br → live s' ≡ₚ br :: live s →
  lastBlockStoreOnStateDB s' = lastBlockStoreOnStateDB s →
  amountOfBlocksInEachRange s' = amountOfBlocksInEachRange s →
  lastBlockOnL1 s' = lastBlockOnL1 s → sync_inv start s' done.
Proof.
  intros Hinv (N1 & N2 & N3) Hl Hst Ham Hl1.
  destruct (frontier_bounds s) as (F1 & F2 & F3 & F4).
  pose proof Hinv as [H1 H2 H3 H4 H5 H6 H7 H8].
  assert (frontier s' = toBlock br) as Hf.
  { unfold latestBlockNumber, block_bound in *. apply frontier_unique; [lia| |lia|].
    - intros o. rewrite Hl. intros [->|Ho]%elem_of_cons; [lia|]. specialize (F2 o Ho). lia.
    - right. exists br. rewrite Hl. set_solver. }
  constructor; rewrite ?Hst, ?Ham, ?Hl1, ?Hl, ?Hf; try done.
  - apply Forall_cons. split; [|done].
    unfold range_ok, latestBlockNumber, block_bound in *. lia.
  - apply Forall_cons. split; [lia|done].
  - intros b. specialize (H8 b). rewrite Hl. cbn [app]. rewrite count_cons.
    unfold holds, latestBlockNumber, block_bound in *.
    repeat case_bool_decide; case_decide; lia.
Qed.

(** The part of [OnStartedNewWorker] after the range left the errors. *)
Lemma start_worker_ok start s s1 done br :
  sync_inv start s done → (br ∈ live s ∨ next_new s br) →
  (live s ≡ₚ br :: live s1 ∨ s1 = s ∧ next_new s br) →
  ∃ l, addBlockRange (processingRanges s1) br = inl l ∧
       l = processingRanges s1 ++ [br].
Proof.
  intros Hinv Hbr Hs1. eexists. split; [|done].
  pose proof (inv_start _ _ _ Hinv). pose proof (inv_live _ _ _ Hinv) as H5.
  destruct (frontier_bounds s) as (F1 & F2 & F3 & F4).
  assert (start < fromBlock br ≤ toBlock br).
  { destruct Hbr as [Hbr|(N1 & N2 & N3)].
    - by destruct (live_range_ok _ _ _ _ Hinv Hbr).
    - unfold latestBlockNumber, block_bound in *. lia. }
  apply (addBlockRange_ok start); [lia|lia|lia| |].
  - destruct Hs1 as [Hl|[-> _]]; [rewrite Hl in H5; apply Forall_cons in H5 as [_ H5]|];
      unfold live in H5; rewrite Forall_app in H5; apply H5.
  - intros b o Ho Hb. assert (o ∈ live s1) as Hol by (unfold live; set_solver).
    destruct Hs1 as [Hl|[-> (N1 & N2 & N3)]]; [by eapply live_disjoint|].
    specialize (F2 o Hol). unfold holds in *. lia.
Qed.

Lemma OnStartedNewWorker_inv start s done br :
  sync_inv start s done → br ∈ errorRanges s ∨ next_new s br →
  ∃ s', OnStartedNewWorker s br = Some s' ∧ sync_inv start s' done.
Proof.
  intros Hinv Hbr. unfold OnStartedNewWorker.
  set (s1 := match removeBlockRange _ _ with inl _ => _ | inr _ => _ end).
  assert (live s ≡ₚ br :: live s1 ∨ s1 = s ∧ next_new s br) as Hs1.
  { unfold s1. destruct (removeBlockRange_spec (errorRanges s) br) as [(l & -> & Hl)|[-> Hn]].
    - left. unfold live. cbn [processingRanges errorRanges set_errors].
      rewrite Hl. symmetry. apply Permutation_middle.
    - right. split; [done|]. by destruct Hbr. }
  assert (s1 = s ∨ ∃ l, s1 = set_errors s l) as Hs1'
    by (unfold s1; destruct (removeBlockRange _ _); eauto).
  destruct (start_worker_ok start s s1 done br Hinv) as (l & -> & ->); [|done|].
  { destruct Hbr; [left; unfold live; set_solver|by right]. }
  eexists. split; [done|].
  apply (inv_same_live _ (set_processing s1 (processingRanges s1 ++ [br])));
    try by repeat case_match.
  { destruct Hs1' as [->|[? ->]]; repeat case_match; apply (inv_lastL1 _ _ _ Hinv). }
  assert (live (set_processing s1 (processingRanges s1 ++ [br])) ≡ₚ br :: live s1) as Hl2.
  { unfold live. cbn [processingRanges errorRanges set_processing]. rewrite <- app_assoc.
    symmetry. apply Permutation_middle. }
  destruct Hs1 as [Hl|[-> Hn]].
  - apply (inv_same_live _ s); [..|done]; destruct Hs1' as [->|[? ->]]; try done;
      try apply (inv_lastL1 _ _ _ Hinv); by rewrite Hl.
  - by eapply inv_add_new.
Qed.

(** A successful answer moves the range to the blocks that are done. *)
Lemma finished_inv start s s' done res :
  sync_inv start s done → result_ok res → live s ≡ₚ resRange res :: live s' →
  lastBlockStoreOnStateDB s' =
    Z.max (lastBlockStoreOnStateDB s) (getHighestBlockNumberInResponse res) →
  lastBlockOnL1 s' = lastBlockOnL1 s →
  amountOfBlocksInEachRange s' = amountOfBlocksInEachRange s →
  sync_inv start s' (done ++ [done_range res]).
Proof.
  intros Hinv Hres Hl E1 E2 E3. unfold done_range, result_ok in *.
  set (br := resRange res) in *. set (h := getHighestBlockNumberInResponse res) in *.
  pose proof (inv_start _ _ _ Hinv).
  assert (range_ok start br) as (R1 & R2 & [R3|R3])
    by (eapply live_range_ok; [done|rewrite Hl; set_solver]).
  - assert (h = toBlock br) as Hh.
    { unfold h, getHighestBlockNumberInResponse. fold br.
      destruct (Z.eqb_spec (toBlock br) latestBlockNumber); [|done].
      unfold latestBlockNumber, block_bound in *. lia. }
    rewrite Hh in *. replace (mkRange (fromBlock br) (toBlock br)) with br by by destruct br.
    by eapply inv_bounded_gone.
  - eapply inv_latest_gone; try done;
      destruct (Hres R3) as [->|?]; unfold invalidBlockNumber, block_bound in *; lia.
Qed.

Lemma OnFinishWorker_inv start s done res ok :
  sync_inv start s done → result_ok res →
  ∃ s' v, OnFinishWorker s (resRange res) ok
            (if ok then getHighestBlockNumberInResponse res else invalidBlockNumber) = Some (s', v) ∧
          sync_inv start s' (if v && ok then done ++ [done_range res] else done).
Proof.
  intros Hinv Hres. unfold OnFinishWorker.
  destruct (removeBlockRange_spec (processingRanges s) (resRange res))
    as [(l & -> & Hl)|[-> Hn]]; [|by eexists _, _].
  assert (live s ≡ₚ resRange res :: live (set_processing s l)) as Hlive
    by (unfold live; rewrite Hl; done).
  pose proof (inv_start _ _ _ Hinv). destruct ok.
  - eexists _, _. split; [done|]. cbn [andb]. set (h := getHighestBlockNumberInResponse res).
    unfold invalidBlockNumber. cbn [lastBlockStoreOnStateDB set_processing].
    apply (finished_inv _ s); try done; fold h;
      destruct (Z.eqb_spec h 0), (Z.ltb_spec (lastBlockStoreOnStateDB s) h); cbn; try done; lia.
  - assert (range_ok start (resRange res)) as [Hrok _]
      by (eapply live_range_ok; [done|rewrite Hlive; set_solver]).
    pose proof (inv_live _ _ _ Hinv) as H5. unfold live in H5. rewrite Forall_app in H5.
    rewrite (addBlockRange_ok start); [|lia|lia|lia|apply H5|].
    + eexists _, _. split; [done|]. cbn [andb].
      apply (inv_same_live _ s); try done; [apply (inv_lastL1 _ _ _ Hinv)|].
      rewrite Hlive. unfold live. cbn [processingRanges errorRanges set_processing set_errors].
      rewrite app_assoc. symmetry. apply Permutation_cons_append.
    + intros b o Ho Hb. eapply live_disjoint; [done|done| |done].
      unfold live. cbn [processingRanges errorRanges set_processing]. set_solver.
Qed.

Lemma OnNewLastBlockOnL1_inv start s done n :
  0 ≤ n < block_bound → sync_inv start s done →
  sync_inv start (OnNewLastBlockOnL1 s n).1 done.
Proof.
  intros Hn Hinv. unfold OnNewLastBlockOnL1. pose proof (inv_lastL1 _ _ _ Hinv).
  repeat case_match; cbn [fst]; (apply (inv_same_live _ s)); done.
Qed.

(** *** The filter *)

(** The messages of [l] continue block [last], and [last'] is the block after
    which the next ones continue. *)
Fixpoint in_order (last : Z) (l : list L1SyncMessage) (last' : Z) : Prop :=
  match l with
  | [] => last' = last
  | m :: l =>
      (∀ d, m = MsgData d → fromBlock (resRange d) = last + 1) ∧ in_order (set_last last m) l last'
  end.

Definition high_ok (d : rollupInfoByBlockRangeResult) : Prop :=
  0 ≤ getHighestBlockNumberInResponse d < block_bound.

Lemma in_order_app last l1 mid l2 last' :
  in_order last l1 mid → in_order mid l2 last' → in_order last (l1 ++ l2) last'.
Proof.
  revert last. induction l1 as [|m l1 IH]; cbn; [by intros ? ->|].
  intros last [H1 H2] H3. split; [done|]. by apply IH.
Qed.

Lemma find_send_Some last i l j m :
  find_send last i l = Some (j, m) →
  ∃ k, j = (i + k)%nat ∧ l !! k = Some m ∧
       ∀ d, m = MsgData d → fromBlock (resRange d) = last +₆₄ 1.
Proof.
  revert i. induction l as [|x l IH]; intros i; cbn; [done|].
  assert (∀ o, find_send last (S i) l = o → o = Some (j, m) →
    ∃ k, j = (i + k)%nat ∧ (x :: l) !! k = Some m ∧
         ∀ d, m = MsgData d → fromBlock (resRange d) = last +₆₄ 1) as Hrec.
  { intros ? <- H. destruct (IH _ H) as (k & -> & Hk & Hd). exists (S k).
    split; [lia|]. by split. }
  destruct x as [d|e].
  - unfold matchNextBlockUnsafe. destruct (Z.eqb_spec (fromBlock (resRange d)) (last +₆₄ 1));
      [|by apply Hrec].
    intros [= <- <-]. exists 0%nat. split; [lia|]. split; [done|]. by intros ? [= <-].
  - case_decide; [|by apply Hrec]. intros [= <- <-]. exists 0%nat. split; [lia|]. by split.
Qed.

Lemma find_send_None last i l :
  find_send last i l = None → ∀ d, MsgData d ∈ l → fromBlock (resRange d) ≠ last +₆₄ 1.
Proof.
  revert i. induction l as [|x l IH]; intros i; cbn; [set_solver|].
  destruct x as [d|e].
  - unfold matchNextBlockUnsafe.
    destruct (Z.eqb_spec (fromBlock (resRange d)) (last +₆₄ 1)) as [|Hne]; [done|].
    intros Hl d' [[= ->]|Hd']%elem_of_cons; [done|by eapply IH].
  - case_decide; [done|]. intros Hl d' [?|Hd']%elem_of_cons; [done|by eapply IH].
Qed.

Lemma set_last_bound last m :
  0 ≤ last < block_bound → (∀ d, m = MsgData d → high_ok d) → 0 ≤ set_last last m < block_bound.
Proof.
  intros Hlast Hm. destruct m as [d|e]; cbn; [|done].
  specialize (Hm d eq_refl). unfold high_ok in Hm. by case_match.
Qed.

Lemma send_loop_spec fuel f previous :
  (length (pendingResults f) < fuel)%nat → 0 ≤ lastBlockOnSynchronizer f < block_bound →
  (∀ d, MsgData d ∈ pendingResults f → high_ok d) →
  ∃ f' out, send_loop fuel f previous = Some (f', previous ++ out) ∧
    in_order (lastBlockOnSynchronizer f) out (lastBlockOnSynchronizer f') ∧
    pendingResults f ≡ₚ out ++ pendingResults f' ∧
    find_send (lastBlockOnSynchronizer f') 0 (pendingResults f') = None.
Proof.
  revert f previous. induction fuel as [|fuel IH]; intros f previous Hfuel Hlast Hok; [lia|].
  cbn [send_loop]. destruct (find_send _ 0 _) as [[i m]|] eqn:Hfind.
  - destruct (find_send_Some _ _ _ _ _ Hfind) as (k & -> & Hk & Hm). cbn [Nat.add].
    pose proof (delete_Permutation _ _ _ Hk) as Hperm.
    edestruct (IH (mkFilter (set_last (lastBlockOnSynchronizer f) m)
                     (delete k (pendingResults f))) (previous ++ [m]))
      as (f' & out & -> & Ho & Hp & Hn).
    + apply Permutation_length in Hperm. cbn in *. lia.
    + apply set_last_bound; [done|]. intros d ->. apply Hok. rewrite Hperm. set_solver.
    + intros d Hd. apply Hok. rewrite Hperm. cbn in Hd. set_solver.
    + exists f', (m :: out). rewrite <- app_assoc. cbn [pendingResults] in Hp. split; [done|].
      split; [|split; [by rewrite Hperm, Hp|done]].
      cbn in Ho |- *. split; [|done]. intros d Hd. rewrite (Hm d Hd).
      unfold block_bound in *. by wrap_small.
  - exists f, []. rewrite app_nil_r. done.
Qed.

Lemma Filter_spec f data f' out :
  0 ≤ lastBlockOnSynchronizer f < block_bound →
  (∀ d, MsgData d ∈ data :: pendingResults f → high_ok d) → Filter f data = (f', out) →
  in_order (lastBlockOnSynchronizer f) out (lastBlockOnSynchronizer f') ∧
  data :: pendingResults f ≡ₚ out ++ pendingResults f' ∧
  find_send (lastBlockOnSynchronizer f') 0 (pendingResults f') = None.
Proof.
  intros Hlast Hok. unfold Filter, sendResultIfPossibleUnsafe. cbn [pendingResults].
  set (f1 := mkFilter _ _).
  destruct (send_loop_spec (S (length (pendingResults f ++ [data]))) f1 [])
    as (f2 & out2 & -> & Ho & Hp & Hn); [cbn; lia|done|cbn; set_solver|].
  cbn [default app]. intros [= <- <-]. split; [done|]. split; [|done].
  rewrite <- Hp. cbn. apply Permutation_cons_append.
Qed.

(** ** The producer *)

(** The messages that went to the channel since the last reset. *)
Definition sent (p : producer) : list L1SyncMessage := delivered p ++ outgoing p.

Definition results (p : producer) : list blockRange :=
  done_range <$> data_of (sent p ++ pendingResults (p_filter p)).

Record producer_inv (start : Z) (p : producer) : Prop := {
  pi_sync : sync_inv start (p_sync p) (results p);
  pi_order : in_order start (sent p) (lastBlockOnSynchronizer (p_filter p));
  pi_quiet : find_send (lastBlockOnSynchronizer (p_filter p)) 0 (pendingResults (p_filter p)) = None
}.

Definition renew_ok (r : renewal) : Prop :=
  match r with
  | NotElapsed => True
  | LastBlockFailed => False
  | LastBlock n => 0 ≤ n < block_bound
  end.

(** A reset starts a new epoch and is no event of one. *)
Definition event_ok (ev : step_event) : Prop :=
  match ev with
  | EvCmd (producerReset _) => False
  | EvResponse result _ => result_ok result
  | _ => True
  end.

Definition env_ok (env : step_env) : Prop :=
  event_ok (env_event env) ∧ renew_ok (env_renew1 env) ∧ renew_ok (env_renew2 env).

(** What is assumed of the requests for the last block, which may fail. *)
Definition renew_bounded (r : renewal) : Prop :=
  match r with LastBlock n => 0 ≤ n < block_bound | _ => True end.

Definition env_bounded (env : step_env) : Prop :=
  renew_bounded (env_renew1 env) ∧ renew_bounded (env_renew2 env).

(** The producer with the block of its last reset: none before the first one
    and from each call of [Reset] to the execution of its command. *)
Abbreviation config := (option Z * producer)%type.

(** The steps of the producer, of the consumer and of the caller of [Reset].
    The command of a reset is executed when no range waits for a retry. *)
Inductive cstep : config → config → Prop :=
  | cstep_step st p env p' go :
      event_ok (env_event env) → env_bounded env → step p env = Some (p', go) →
      cstep (st, p) (st, p')
  | cstep_consume st p p' : consume p = Some p' → cstep (st, p) (st, p')
  | cstep_call st p : cstep (st, p) (None, Producer_Reset p)
  | cstep_reset st p env n p' go :
      env_event env = EvCmd (producerReset n) → 0 < n < block_bound → env_bounded env →
      errorRanges (p_sync p) = [] → step p env = Some (p', go) →
      cstep (st, p) (Some n, p').

#[export] Instance data_of_perm : Proper (Permutation ==> Permutation) data_of.
Proof. intros l1 l2 Hl. unfold data_of. by rewrite Hl. Qed.

Lemma data_of_app l1 l2 : data_of (l1 ++ l2) = data_of l1 ++ data_of l2.
Proof. apply omap_app. Qed.

Lemma elem_of_data_of d l : d ∈ data_of l ↔ MsgData d ∈ l.
Proof.
  unfold data_of. rewrite list_elem_of_omap. split; [|by intros Hd; exists (MsgData d)].
  by intros ([d'|e] & Hm & [= ->]).
Qed.

Lemma inv_done_perm start s d1 d2 : d1 ≡ₚ d2 → sync_inv start s d1 → sync_inv start s d2.
Proof.
  intros Hd [H1 H2 H3 H4 H5 H6 H7 H8]. constructor; auto; [by rewrite <- Hd|].
  intros b. by rewrite <- Hd.
Qed.

Lemma done_high_ok start s d l :
  sync_inv start s (done_range <$> data_of l) → MsgData d ∈ l → high_ok d.
Proof.
  intros Hinv Hd%elem_of_data_of. pose proof (inv_done _ _ _ Hinv) as H7.
  rewrite Forall_fmap, Forall_forall in H7. specialize (H7 d Hd). cbn in H7.
  pose proof (inv_stored _ _ _ Hinv). pose proof (inv_start _ _ _ Hinv).
  unfold high_ok. lia.
Qed.

Lemma in_order_bounds start s l last :
  sync_inv start s (done_range <$> data_of l) →
  ∀ l1 l2 a, l = l1 ++ l2 → in_order a l1 last → start ≤ a ≤ lastBlockStoreOnStateDB s →
  a ≤ last ≤ lastBlockStoreOnStateDB s ∧ (∀ d, MsgData d ∈ l1 → getHighestBlockNumberInResponse d ≤ last).
Proof.
  intros Hinv l1 l2 a Hl. pose proof (inv_done _ _ _ Hinv) as H7.
  pose proof (inv_start _ _ _ Hinv).
  rewrite Forall_fmap, Forall_forall in H7. cbn in H7.
  assert (∀ d, MsgData d ∈ l1 → start < fromBlock (resRange d) ∧
            getHighestBlockNumberInResponse d ≤ lastBlockStoreOnStateDB s ∧
            (getHighestBlockNumberInResponse d = 0 ∨
             fromBlock (resRange d) ≤ getHighestBlockNumberInResponse d)) as Hd.
  { intros d Hd. apply H7, elem_of_data_of. subst. set_solver. }
  clear H7 Hl Hinv. revert a. induction l1 as [|m l1 IH]; intros a; cbn [in_order].
  - intros -> Ha. split; [lia|set_solver].
  - intros [Hm Ho] Ha.
    assert (a ≤ set_last a m ≤ lastBlockStoreOnStateDB s ∧
            ∀ d, MsgData d = m → getHighestBlockNumberInResponse d ≤ set_last a m) as [Hs1 Hs2].
    { destruct m as [d|e]; cbn; [|split; [lia|done]]. specialize (Hm d eq_refl).
      specialize (Hd d ltac:(set_solver)). unfold invalidBlockNumber.
      destruct (Z.eqb_spec (getHighestBlockNumberInResponse d) 0);
        (split; [lia|]); intros ? [= ->]; lia. }
    destruct (IH ltac:(set_solver) _ Ho ltac:(lia)) as [I1 I2]. split; [lia|].
    intros d [Hdm|Hdl]%elem_of_cons; [specialize (Hs2 d Hdm); lia|auto].
Qed.

Lemma producer_last_bounds start p :
  producer_inv start p →
  start ≤ lastBlockOnSynchronizer (p_filter p) ≤ lastBlockStoreOnStateDB (p_sync p) ∧
  ∀ d, MsgData d ∈ sent p →
       getHighestBlockNumberInResponse d ≤ lastBlockOnSynchronizer (p_filter p).
Proof.
  intros [Hs Ho Hq]. pose proof (inv_start _ _ _ Hs).
  eapply (in_order_bounds _ _ _ _ Hs _ _ start eq_refl Ho). lia.
Qed.

(** *** Preservation *)

Lemma with_sync_inv start p s :
  producer_inv start p → sync_inv start s (results p) → producer_inv start (with_sync p s).
Proof. intros [H1 H2 H3] Hs. by constructor. Qed.

Lemma setStatus_inv start p st : producer_inv start p → producer_inv start (setStatus p st).
Proof.
  intros [H1 H2 H3]. unfold setStatus. case_decide; [by constructor|].
  case_decide; [|by constructor]. unfold sendPackages, with_status.
  assert (sent p ++ [MsgControl eventProducerIsFullySynced] =
          delivered p ++ outgoing p ++ [MsgControl eventProducerIsFullySynced]) as Heq
    by (unfold sent; by rewrite <- app_assoc).
  constructor; unfold results, sent; cbn; rewrite <- ?Heq; [|by eapply in_order_app|done].
  unfold results in H1. rewrite !data_of_app in *. cbn. by rewrite app_nil_r.
Qed.

Lemma launch_loop_inv start done free allow s n :
  sync_inv start s done →
  ∃ s' n', launch_loop free allow s n = Some (s', n') ∧ sync_inv start s' done.
Proof.
  revert s n. induction free as [|free IH]; intros s n Hinv;
    assert (∃ s1 o, (if allow then GetNextRange s else Some (getNextRangeOnlyRetriesUnsafe s))
                    = Some (s1, o) ∧ sync_inv start s1 done ∧
              ∀ br, o = Some br → br ∈ errorRanges s1 ∨ next_new s1 br)
      as (s1 & o & Hnext & Hinv1 & Ho).
  1, 3: destruct allow; [by apply GetNextRange_inv|];
    destruct (getNextRangeOnlyRetriesUnsafe s) as [s1 o] eqn:Hr;
    destruct (retries_inv _ _ _ _ _ Hinv Hr) as [? Hbr]; exists s1, o;
    split; [done|]; split; [done|]; intros br Hb; left; by apply Hbr.
  all: cbn [launch_loop]; rewrite Hnext; cbn [mbind option_bind];
    destruct o as [br|]; [|by eexists _, _].
  - by eexists _, _.
  - destruct (OnStartedNewWorker_inv _ _ _ br Hinv1) as (s2 & -> & Hinv2); [by apply Ho|].
    cbn [mbind option_bind]. by apply IH.
Qed.

Lemma launchWork_inv start p free :
  producer_inv start p →
  ∃ p' n, launchWork p free = Some (p', n) ∧ producer_inv start p'.
Proof.
  intros Hp. unfold launchWork.
  destruct (launch_loop_inv start (results p) free (canISendNewRequestsUnsafe p) (p_sync p) [])
    as (s & n & -> & Hs); [apply Hp|].
  eexists _, _. split; [done|]. by apply with_sync_inv.
Qed.

Lemma renew_inv start p r :
  producer_inv start p → renew_ok r →
  ∃ p', renewLastBlockOnL1IfNeeded p r = Some p' ∧ producer_inv start p'.
Proof.
  intros Hp Hr. destruct r as [| |n]; cbn in *; [by eexists|done|].
  eexists. split; [done|]. apply with_sync_inv; [done|].
  apply OnNewLastBlockOnL1_inv; [done|apply Hp].
Qed.

Lemma Filter_inv start p s result f out :
  producer_inv start p → sync_inv start s (results p ++ [done_range result]) →
  Filter (p_filter p) (MsgData result) = (f, out) →
  producer_inv start (sendPackages (with_filter (with_sync p s) f) out).
Proof.
  intros Hp Hs Hf. pose proof (producer_last_bounds _ _ Hp) as [Hb _].
  pose proof (inv_start _ _ _ (pi_sync _ _ Hp)). pose proof (inv_stored _ _ _ (pi_sync _ _ Hp)).
  assert (results p ++ [done_range result] =
          done_range <$> data_of ((sent p ++ pendingResults (p_filter p)) ++ [MsgData result])) as Hr
    by (unfold results; by rewrite (data_of_app _ [_]), fmap_app).
  rewrite Hr in Hs.
  destruct (Filter_spec (p_filter p) (MsgData result) f out) as (Ho & Hperm & Hn); [lia| |done|].
  { intros d Hd. apply (done_high_ok _ _ _ _ Hs). set_solver. }
  destruct Hp as [H1 H2 H3].
  constructor; unfold results, sent; cbn; rewrite ?app_assoc; fold (sent p);
    [|by eapply in_order_app|done].
  eapply inv_done_perm; [|exact Hs]. apply fmap_Permutation, data_of_perm.
  rewrite <- !app_assoc. rewrite <- Hperm. by rewrite (Permutation_app_comm _ [MsgData _]).
Qed.

Lemma onResponseRollupInfo_inv start p result isOk :
  producer_inv start p → result_ok result →
  ∃ p', onResponseRollupInfo p result isOk = Some p' ∧ producer_inv start p'.
Proof.
  intros Hp Hok. unfold onResponseRollupInfo. case_decide; [by eexists|].
  destruct (OnFinishWorker_inv _ _ _ _ isOk (pi_sync _ _ Hp) Hok) as (s & v & -> & Hs).
  cbn [mbind option_bind]. destruct v, isOk; cbn [negb andb] in *;
    try (eexists; split; [done|]; by apply with_sync_inv).
  cbn [p_filter with_sync]. destruct (Filter _ _) as [f out] eqn:Hf.
  eexists. split; [done|]. by eapply Filter_inv.
Qed.

Lemma step_select_inv start p ev :
  producer_inv start p → event_ok ev →
  ∃ p' go, step_select p ev = Some (p', go) ∧ producer_inv start p'.
Proof.
  intros Hp Hev. destruct ev as [|cmd| |result isOk]; cbn [step_select];
    try (by eexists _, _).
  - destruct cmd; cbn in *; [by eexists _, _| |done].
    eexists _, _. split; [done|]. by apply setStatus_inv.
  - destruct (onResponseRollupInfo_inv _ _ _ isOk Hp Hev) as (p' & -> & Hp').
    by eexists _, _.
Qed.

Lemma step_status_inv start p env :
  producer_inv start p → env_ok env →
  ∃ p', step_status p env = Some p' ∧ producer_inv start p'.
Proof.
  intros Hp (_ & Hr1 & Hr2). unfold step_status. destruct (p_status p); try by eexists.
  - destruct (renew_inv _ _ _ Hp Hr1) as (p1 & -> & Hp1). eexists. split; [done|].
    case_match; [by apply setStatus_inv|done].
  - destruct (launchWork_inv _ _ (env_free1 env) Hp) as (p1 & n & -> & Hp1).
    cbn [mbind option_bind].
    assert (∀ q r (c : bool), producer_inv start q → renew_ok r →
      ∃ q', (if c then renewLastBlockOnL1IfNeeded q r else Some q) = Some q' ∧ producer_inv start q')
      as Hrenew by (intros q r [] ??; [by apply renew_inv|by eexists]).
    destruct (Hrenew p1 _ (HaveRequiredAllBlocksToBeSynchronized (p_sync p1)) Hp1 Hr1)
      as (p2 & -> & Hp2). cbn [mbind option_bind].
    destruct (Hrenew p2 _ (BlockNumberIsInsideUnsafeArea (p_sync p2) invalidBlockNumber) Hp2 Hr2)
      as (p3 & -> & Hp3). cbn [mbind option_bind].
    case_match; [eexists; split; [done|]; by apply setStatus_inv|].
    destruct (launchWork_inv _ _ (env_free2 env) Hp3) as (p4 & m & -> & Hp4). by eexists.
  - destruct (renew_inv _ _ _ Hp Hr1) as (p1 & -> & Hp1). cbn [mbind option_bind].
    destruct (launchWork_inv _ _ (env_free1 env) Hp1) as (p2 & n & -> & Hp2).
    eexists. split; [done|]. case_decide; [by apply setStatus_inv|done].
Qed.

Lemma step_inv start p env :
  producer_inv start p → env_ok env →
  ∃ p' go, step p env = Some (p', go) ∧ producer_inv start p'.
Proof.
  intros Hp Henv. unfold step.
  assert (producer_inv start (if decide (p_status p = producerNoRunning)
            then with_status p producerIdle else p)) as Hp0
    by (case_decide; [destruct Hp; by constructor|done]).
  set (p0 := if decide _ then _ else _) in *. clearbody p0.
  destruct (step_select_inv _ _ _ Hp0 (proj1 Henv)) as (p1 & go & -> & Hp1).
  cbn [mbind option_bind]. destruct go; cbn [negb]; [|by eexists _, _].
  destruct (step_status_inv _ _ _ Hp1 Henv) as (p2 & -> & Hp2). by eexists _, _.
Qed.

Lemma reset_inv p start :
  0 < start < block_bound → errorRanges (p_sync p) = [] →
  0 ≤ lastBlockOnL1 (p_sync p) < block_bound →
  0 ≤ amountOfBlocksInEachRange (p_sync p) < block_bound →
  producer_inv start (resetUnsafe p start).
Proof.
  intros Hs He Hl Ha. unfold resetUnsafe, setStatus, ss_Reset.
  repeat case_decide; try done;
    (constructor; unfold results, sent; cbn; [|done|done]).
  all: constructor; unfold live; cbn; rewrite ?He; try done; try lia; try constructor.
  all: intros b; case_bool_decide as Hb; [|done];
    unfold frontier, getHighestBlockRequestedUnsafe, invalidBlockNumber in Hb; cbn in Hb;
    rewrite He in Hb; cbn in Hb; lia.
Qed.

Lemma consume_inv start p p' : producer_inv start p → consume p = Some p' → producer_inv start p'.
Proof.
  intros Hp Hc. unfold consume in Hc. destruct (outgoing p) as [|m l] eqn:Ho; [done|].
  injection Hc as <-. destruct Hp as [H1 H2 H3]. unfold results, sent in *. rewrite Ho in *.
  constructor; unfold results, sent; cbn; rewrite <- ?app_assoc; cbn; try done.
  by rewrite <- app_assoc in H1.
Qed.

(** A step that returns has met no failed request for the last block. *)
Definition met (r : renewal) : renewal := match r with LastBlockFailed => NotElapsed | _ => r end.
Definition met_env (env : step_env) : step_env :=
  mkEnv (env_event env) (met (env_renew1 env)) (met (env_renew2 env)) (env_free1 env) (env_free2 env).

Lemma renew_met p r p' :
  renewLastBlockOnL1IfNeeded p r = Some p' → renewLastBlockOnL1IfNeeded p (met r) = Some p'.
Proof. by destruct r. Qed.

Lemma step_status_met p env p' :
  step_status p env = Some p' → step_status p (met_env env) = Some p'.
Proof.
  unfold step_status, met_env. cbn [env_renew1 env_renew2 env_free1 env_free2].
  destruct (p_status p); try done.
  - intros (p1 & Hr & H)%bind_Some. by rewrite (renew_met _ _ _ Hr).
  - intros ([p1 n] & -> & H)%bind_Some. cbn [mbind option_bind].
    apply bind_Some in H as (p2 & Hr1 & (p3 & Hr2 & H)%bind_Some).
    assert (∀ (c : bool) q r q', (if c then renewLastBlockOnL1IfNeeded q r else Some q) = Some q' →
      (if c then renewLastBlockOnL1IfNeeded q (met r) else Some q) = Some q') as Hmet
      by (intros []; auto using renew_met).
    by rewrite (Hmet _ _ _ _ Hr1); cbn [mbind option_bind]; rewrite (Hmet _ _ _ _ Hr2).
  - intros (p1 & Hr & H)%bind_Some. by rewrite (renew_met _ _ _ Hr).
Qed.

Lemma step_met p env r : step p env = Some r → step p (met_env env) = Some r.
Proof.
  unfold step. cbn [env_event met_env]. destruct (step_select _ _) as [[p1 go]|]; [|done].
  cbn [mbind option_bind]. destruct go; cbn [negb]; [|done].
  intros (p2 & Hs & H)%bind_Some. by rewrite (step_status_met _ _ _ Hs).
Qed.

Lemma met_ok env : event_ok (env_event env) → env_bounded env → env_ok (met_env env).
Proof.
  intros He [H1 H2]. split_and!; [done|..]; unfold met_env; cbn [env_renew1 env_renew2];
    [by destruct (env_renew1 env)|by destruct (env_renew2 env)].
Qed.

(** The numbers that a reset takes over. *)
Definition numbers_ok (p : producer) : Prop :=
  0 ≤ lastBlockOnL1 (p_sync p) < block_bound ∧
  0 ≤ amountOfBlocksInEachRange (p_sync p) < block_bound.

Definition config_inv (c : config) : Prop :=
  numbers_ok c.2 ∧ ∀ start, c.1 = Some start → producer_inv start c.2.

Definition same_numbers (s s' : syncStatus) : Prop :=
  lastBlockOnL1 s' = lastBlockOnL1 s ∧
  amountOfBlocksInEachRange s' = amountOfBlocksInEachRange s.

Lemma GetNextRange_numbers s s' o :
  GetNextRange s = Some (s', o) → same_numbers s s'.
Proof.
  unfold GetNextRange, getNextRangeOnlyRetriesUnsafe. intros H.
  repeat case_match; by simplify_eq/=.
Qed.

Lemma retries_numbers s s' o :
  getNextRangeOnlyRetriesUnsafe s = (s', o) → same_numbers s s'.
Proof.
  unfold getNextRangeOnlyRetriesUnsafe. intros H. repeat case_match; by simplify_eq/=.
Qed.

Lemma OnStartedNewWorker_numbers s br s' : OnStartedNewWorker s br = Some s' → same_numbers s s'.
Proof. unfold OnStartedNewWorker. intros H. repeat case_match; by simplify_eq/=. Qed.

Lemma launch_loop_numbers free allow : ∀ s n s' n',
  launch_loop free allow s n = Some (s', n') → same_numbers s s'.
Proof.
  induction free as [|free IH]; intros s n s' n' H; cbn [launch_loop] in H;
    apply bind_Some in H as ([s1 o] & Hn & H);
    assert (same_numbers s s1) as [H1 H2]
      by (destruct allow; [by eapply GetNextRange_numbers|simplify_eq; by eapply retries_numbers]);
    destruct o as [br|]; simplify_eq; try done.
  apply bind_Some in H as (s2 & Hw & H). apply OnStartedNewWorker_numbers in Hw as [H3 H4].
  apply IH in H as [H5 H6]. split; congruence.
Qed.

Lemma setStatus_numbers p st : numbers_ok (setStatus p st) ↔ numbers_ok p.
Proof. unfold setStatus. by repeat case_decide. Qed.

Lemma launchWork_numbers p free p' n :
  launchWork p free = Some (p', n) → numbers_ok p → numbers_ok p'.
Proof.
  unfold launchWork. intros ([s l] & Hl & H)%bind_Some [H1 H2]. simplify_eq.
  apply launch_loop_numbers in Hl as [H3 H4]. unfold numbers_ok. cbn. by rewrite H3, H4.
Qed.

Lemma renew_numbers p r p' :
  renewLastBlockOnL1IfNeeded p r = Some p' → renew_bounded r → numbers_ok p → numbers_ok p'.
Proof.
  destruct r as [| |n]; cbn; intros H Hr [H1 H2]; simplify_eq; try done.
  unfold numbers_ok, onNewLastBlock, OnNewLastBlockOnL1. cbn.
  repeat case_match; cbn; split; done.
Qed.

Lemma step_status_numbers p env p' :
  step_status p env = Some p' → env_bounded env → numbers_ok p → numbers_ok p'.
Proof.
  unfold step_status. intros H [Hr1 Hr2] Hp. destruct (p_status p); simplify_eq; try done.
  - apply bind_Some in H as (p1 & Hr & H). simplify_eq.
    pose proof (renew_numbers _ _ _ Hr Hr1 Hp). case_match; [by apply setStatus_numbers|done].
  - apply bind_Some in H as ([p1 n] & Hl & (p2 & Hq1 & (p3 & Hq2 & H)%bind_Some)%bind_Some).
    assert (numbers_ok p3) as H3.
    { apply launchWork_numbers in Hl; [|done].
      assert (numbers_ok p2) by (destruct (HaveRequiredAllBlocksToBeSynchronized _);
        simplify_eq; [by eapply renew_numbers|done]).
      destruct (BlockNumberIsInsideUnsafeArea _ _); simplify_eq; [by eapply renew_numbers|done]. }
    case_match; simplify_eq; [by apply setStatus_numbers|].
    apply bind_Some in H as ([p4 m] & Hl' & H). simplify_eq. by eapply launchWork_numbers.
  - apply bind_Some in H as (p1 & Hr & ([p2 n] & Hl & H)%bind_Some). simplify_eq.
    apply launchWork_numbers in Hl; [|by eapply renew_numbers].
    case_decide; [by apply setStatus_numbers|done].
Qed.

Lemma step_select_numbers p ev p' go :
  step_select p ev = Some (p', go) → numbers_ok p → numbers_ok p'.
Proof.
  intros H [H1 H2]. destruct ev as [|cmd| |result isOk]; cbn in H; simplify_eq; try done.
  - destruct cmd; cbn in H; simplify_eq; try done; unfold stopUnsafe, resetUnsafe, setStatus;
      by repeat case_decide.
  - apply bind_Some in H as (p1 & H & Hp). simplify_eq. unfold onResponseRollupInfo in H.
    case_decide; simplify_eq; [done|]. apply bind_Some in H as ([s v] & Hf & H).
    assert (same_numbers (p_sync p) s) as [H3 H4].
    { unfold OnFinishWorker in Hf. repeat case_match; by simplify_eq/=. }
    unfold numbers_ok. rewrite <-H3, <-H4 in *. repeat case_match; by simplify_eq/=.
Qed.

Lemma step_numbers p env p' go :
  step p env = Some (p', go) → env_bounded env → numbers_ok p → numbers_ok p'.
Proof.
  unfold step. intros ([p1 g] & Hs & H)%bind_Some Henv Hp.
  apply step_select_numbers in Hs; [|by case_decide].
  destruct g; cbn [negb] in H; simplify_eq; [|done].
  apply bind_Some in H as (p2 & Hs2 & H). simplify_eq. by eapply step_status_numbers.
Qed.

(** The command of a reset is the reset followed by a step that selects nothing. *)
Lemma step_reset p env n :
  env_event env = EvCmd (producerReset n) →
  step p env = step (resetUnsafe p n)
    (mkEnv EvTimeout (env_renew1 env) (env_renew2 env) (env_free1 env) (env_free2 env)).
Proof.
  intros He. unfold step. rewrite He. cbn.
  assert (resetUnsafe (if decide (p_status p = producerNoRunning)
                       then with_status p producerIdle else p) n = resetUnsafe p n) as ->.
  { unfold resetUnsafe, setStatus. by repeat case_decide. }
  rewrite decide_False; [done|]. unfold resetUnsafe, setStatus. by repeat case_decide.
Qed.

Lemma cstep_inv c c' : cstep c c' → config_inv c → config_inv c'.
Proof.
  intros Hstep [Hn Hp]. destruct Hstep as [st p env p' go He Hb Hs|st p p' Hc|st p
    |st p env n p' go He Hst Hb Hr Hs]; cbn in *.
  - split; [by eapply step_numbers|]. intros start Hst. specialize (Hp start Hst).
    destruct (step_inv _ _ _ Hp (met_ok _ He Hb)) as (p1 & go1 & Hs1 & Hinv).
    rewrite (step_met _ _ _ Hs) in Hs1. by simplify_eq.
  - split; [unfold consume in Hc; case_match; by simplify_eq|].
    intros start Hst. eauto using consume_inv.
  - split; [|done]. by apply setStatus_numbers.
  - split; [by eapply step_numbers|]. intros start [= <-].
    rewrite (step_reset _ _ _ He) in Hs. apply step_met in Hs.
    destruct Hn as [Hl Ha]. pose proof (reset_inv p n Hst Hr Hl Ha) as Hinv.
    match type of Hs with step _ (met_env ?e) = _ =>
      destruct (step_inv _ _ _ Hinv (met_ok e I Hb)) as (p1 & go1 & Hs1 & Hinv1) end.
    rewrite Hs in Hs1. by simplify_eq.
Qed.

Lemma reachable_inv chunk cap start p :
  0 ≤ chunk < block_bound → rtc cstep (None, newProducer chunk cap) (Some start, p) →
  producer_inv start p.
Proof.
  intros Hc Hr. assert (config_inv (None, newProducer chunk cap)) as Hinit.
  { split; [|done]. split; [by vm_compute|done]. }
  assert (∀ c c', rtc cstep c c' → config_inv c → config_inv c') as Hind
    by (induction 1; eauto using cstep_inv).
  by apply (Hind _ _ Hr Hinit).
Qed.
(** *** What the consumer gets *)

Lemma in_order_counted start l last b :
  in_order start l last → start < b ≤ last → (1 ≤ count b (done_range <$> data_of l))%nat.
Proof.
  revert start. induction l as [|m l IH]; intros start; cbn [in_order]; [lia|].
  intros [Hm Ho] Hb.
  change (data_of (m :: l)) with (data_of ([m] ++ l)). rewrite data_of_app, fmap_app, count_app.
  destruct (decide (set_last start m < b)) as [|Hge].
  - specialize (IH _ Ho). lia.
  - destruct m as [d|e]; cbn in Hge; [|lia]. specialize (Hm d eq_refl).
    change (done_range <$> data_of [MsgData d]) with [done_range d].
    rewrite count_cons, decide_True; [lia|]. unfold holds, done_range. cbn. case_match; lia.
Qed.

Lemma delivered_frontier start p :
  producer_inv start p → live (p_sync p) = [] →
  lastBlockOnSynchronizer (p_filter p) = frontier (p_sync p).
Proof.
  intros Hp Hlive. destruct (producer_last_bounds _ _ Hp) as [Hb Hsent].
  destruct Hp as [Hs Ho Hq]. set (last := lastBlockOnSynchronizer (p_filter p)) in *.
  destruct (frontier_bounds (p_sync p)) as (F1 & F2 & F3 & F4).
  destruct (decide (last < frontier (p_sync p))) as [Hlt|]; [exfalso|].
  2: { destruct F4 as [?|[?|(r & Hr & _)]]; [|lia|rewrite Hlive in Hr; set_solver].
       pose proof (inv_start _ _ _ Hs). lia. }
  pose proof (inv_once _ _ _ Hs (last + 1)) as Hone. rewrite Hlive in Hone. cbn [app] in Hone.
  rewrite bool_decide_true in Hone by lia.
  destruct (decide (Exists (holds (last + 1)) (results p))) as [Hex|Hnex].
  2: { rewrite count_zero in Hone; [done|]. intros r Hr Hh. apply Hnex, Exists_exists. eauto. }
  apply Exists_exists in Hex as (r & Hr & Hh). unfold results in Hr.
  apply list_elem_of_fmap in Hr as (d & -> & Hd). apply elem_of_data_of, elem_of_app in Hd.
  pose proof (inv_stored _ _ _ Hs). pose proof (inv_start _ _ _ Hs).
  destruct Hd as [Hd|Hd]; [specialize (Hsent d Hd); unfold holds in Hh; cbn in Hh; lia|].
  pose proof (find_send_None _ _ _ Hq d Hd) as Hne.
  unfold block_bound in *. rewrite wrap64_small in Hne by (unfold in_u64; lia).
  pose proof (inv_done _ _ _ Hs) as H7. unfold results in H7.
  rewrite Forall_fmap, Forall_forall in H7.
  destruct (H7 d) as [Hfrom _]; [apply elem_of_data_of; set_solver|]. cbn in Hfrom.
  pose proof (once_le _ _ _ (fromBlock (resRange d)) Hs) as Htwice. rewrite Hlive in Htwice.
  unfold results, holds in *. cbn in Hh. cbn [app] in Htwice.
  rewrite data_of_app, fmap_app, count_app in Htwice.
  pose proof (in_order_counted _ _ _ (fromBlock (resRange d)) Ho ltac:(lia)).
  enough (1 ≤ count (fromBlock (resRange d)) (done_range <$> data_of (pendingResults (p_filter p))))%nat
    by lia.
  apply (count_pos _ _ (done_range d)); [apply list_elem_of_fmap_2, elem_of_data_of, Hd|].
  unfold holds. cbn. lia.
Qed.

(** *** The size of ranges *)

(** A range in the middle of the chain has one block more than the chunk. *)
Lemma next_range_len last lastL1 amount :
  0 ≤ last < block_bound → 0 ≤ amount < block_bound → last + 1 + amount < lastL1 < block_bound →
  br_len (getNextBlockRangeFromUnsafe last lastL1 amount) = amount + 1.
Proof.
  unfold block_bound. intros Hl Ha Hl1. unfold br_len, getNextBlockRangeFromUnsafe.
  cbn [fromBlock toBlock]. wrap_small. rewrite Z.min_r by lia.
  destruct (Z.eqb_spec (last + 1 + amount) lastL1); [lia|]. unfold latestBlockNumber.
  destruct (Z.eqb_spec (last + 1 + amount) (2 ^ 64 - 1)), (Z.eqb_spec (last + 1) (2 ^ 64 - 1));
    try lia.
  cbn [orb]. wrap_small. lia.
Qed.

Lemma super_range_spec l acc :
  let r := foldl (λ acc x,
            mkRange (if fromBlock x <? fromBlock acc then fromBlock x else fromBlock acc)
                    (if toBlock acc <? toBlock x then toBlock x else toBlock acc)) acc l in
  ∀ x, x ∈ acc :: l → fromBlock r ≤ fromBlock x ∧ toBlock x ≤ toBlock r.
Proof.
  revert acc. induction l as [|y l IH]; intros acc; cbn; [intros x ->%list_elem_of_singleton; lia|].
  set (acc' := mkRange _ _). specialize (IH acc'). cbn in IH.
  pose proof (IH acc' ltac:(set_solver)) as Hacc.
  assert (fromBlock acc' ≤ fromBlock acc ∧ fromBlock acc' ≤ fromBlock y ∧
          toBlock acc ≤ toBlock acc' ∧ toBlock y ≤ toBlock acc').
  { unfold acc'. cbn. destruct (Z.ltb_spec (fromBlock y) (fromBlock acc)),
      (Z.ltb_spec (toBlock acc) (toBlock y)); lia. }
  intros x [->|[->|Hx]%elem_of_cons]%elem_of_cons; [lia|lia|]. apply IH. set_solver.
Qed.

(** The super range holds every block of the live ranges. *)
Lemma getSuperBlockRange_holds l r x b :
  getSuperBlockRange l = Some r → x ∈ l → holds b x → holds b r.
Proof.
  unfold getSuperBlockRange. destruct l as [|y l]; [done|].
  pose proof (super_range_spec (y :: l) y) as Hs. cbn zeta in Hs.
  set (s := foldl _ _ _) in *. clearbody s.
  destruct (br_isValid (Some s)); intros [= <-] Hx Hb.
  specialize (Hs x ltac:(set_solver)). unfold holds in *. lia.
Qed.

(** ** Properties *)


(** No step of the producer ends the process with a fatal error as long
    as the requests for the last block succeed. *)
Theorem producer_never_fatal chunk cap start p env :
  0 ≤ chunk < block_bound →
  rtc cstep (None, newProducer chunk cap) (Some start, p) →
  env_ok env → ∃ p' go, step p env = Some (p', go).
Proof.
  intros Hc Hr Henv.
  destruct (step_inv _ _ _ (reachable_inv _ _ _ _ Hc Hr) Henv) as (p' & go & Hs & _). eauto.
Qed.


(** A reset keeps the ranges that wait for a retry: after a reset to an
    earlier block the next ranges continue after the old one, and the blocks
    between are asked for by no one. *)
Theorem Reset_skips_blocks :
  let s := mkSyncStatus 100 111 200 10 [] [mkRange 101 111] in
  ∃ s1 s2 s3,
    GetNextRange (ss_Reset s 50) = Some (ss_Reset s 50, Some (mkRange 101 111)) ∧
    OnStartedNewWorker (ss_Reset s 50) (mkRange 101 111) = Some s1 ∧
    OnFinishWorker s1 (mkRange 101 111) true 111 = Some (s2, true) ∧
    live s2 = [] ∧
    GetNextRange s2 = Some (s3, Some (mkRange 112 122)).
Proof. by eexists _, _, _. Qed.

(** A failed request for the last block ends the process. *)
Lemma renew_failure_ends_process p free1 free2 r2 :
  p_status p = producerIdle ∨ p_status p = producerSynchronized →
  step p (mkEnv EvTimeout LastBlockFailed r2 free1 free2) = None.
Proof.
  intros Hst. unfold step. rewrite decide_False by (destruct Hst; congruence).
  cbn. unfold step_status. by destruct Hst as [->| ->].
Qed.

Module ProducerRun.

Definition p0 : producer := newProducer 10 4.
Definition res_a := mkResult (mkRange 51 61) [55] None.
Definition res_b := mkResult (mkRange 62 latestBlockNumber) [65; 70] None.
Definition idle (ev : step_event) (n : nat) : step_env := mkEnv ev NotElapsed NotElapsed n 0.

(** The command of a reset to block 50, and the steps after it. *)
Definition env_reset : step_env :=
  mkEnv (EvCmd (producerReset 50)) (LastBlock 70) LastBlockFailed 0 0.
Definition envs : list step_env :=
  [ idle EvTimeout 2; idle (EvResponse res_b true) 0; idle (EvResponse res_a false) 0;
    idle EvTimeout 1; idle (EvResponse res_a true) 0 ].

Definition run (p : producer) (l : list step_env) : option producer :=
  foldl (λ o env, p ← o; fst <$> step p env) (Some p) l.

Definition p_reset : producer :=
  Eval vm_compute in default p0 (fst <$> step (Producer_Reset p0) env_reset).
Definition p_end : producer := Eval vm_compute in default p0 (run p_reset envs).

Lemma run_steps st l p p' :
  Forall (λ env, event_ok (env_event env) ∧ env_bounded env) l → run p l = Some p' →
  rtc cstep (st, p) (st, p').
Proof.
  unfold run. revert p. induction l as [|env l IH]; intros p Hl; cbn; [by intros [= <-]|].
  apply Forall_cons in Hl as [[He Hb] Hl]. destruct (step p env) as [[p1 go]|] eqn:Hs.
  - cbn. intros Hr. eapply rtc_l; [by eapply cstep_step|by apply IH].
  - cbn. intros Hr. exfalso. clear -Hr. induction l; cbn in *; [done|auto].
Qed.

Lemma envs_ok : Forall (λ env, event_ok (env_event env) ∧ env_bounded env) envs.
Proof.
  unfold envs. repeat (apply Forall_cons; split; [split; [|by split]|]); try done;
    unfold event_ok, result_ok, block_bound; cbn; try lia;
    intros ?; right; vm_compute; split; congruence.
Qed.

Lemma run_end : rtc cstep (None, p0) (Some 50, p_end).
Proof.
  eapply rtc_l; [apply cstep_call|].
  eapply rtc_l; [apply (cstep_reset _ _ env_reset 50 p_reset true)|].
  - done.
  - unfold block_bound. lia.
  - split; cbn; unfold block_bound; lia || done.
  - done.
  - vm_compute. reflexivity.
  - apply (run_steps _ envs); [apply envs_ok|vm_compute; reflexivity].
Qed.

Lemma chunk_ok : 0 ≤ 10 < block_bound.
Proof. unfold block_bound. lia. Qed.


Lemma producer_never_fatal_witness : ∃ p' go, step p_end (idle EvTimeout 2) = Some (p', go).
Proof.
  apply (producer_never_fatal 10 4 50 p_end (idle EvTimeout 2) chunk_ok run_end).
  repeat split.
Defined.


End ProducerRun.
