(* ===== verification/ExecErrors.v ===== *)
(** * Errors of the executor

    [state/runtime/executor/errors.go] translates the error codes of the
    executor's protocol ([executor.pb.go]) to the errors of
    [state/runtime/runtime.go] and back, and classifies the codes.  A code is an
    open enumeration of [int32]: a number without a name is [RomError_other] or
    [ExecutorError_other].  An error is the package variable that holds it; nil
    is [None]. *)

From S2P Require Import Prelude.

Inductive error :=
  | ErrExecutorUnspecified | ErrROMUnspecified | ErrExecutorUnknown | ErrROMUnknown
  | ErrOutOfGas | ErrStackOverflow
  | ErrStackUnderflow | ErrMaxCodeSizeExceeded
  | ErrContractAddressCollision | ErrExecutionReverted
  | ErrOutOfCountersStep | ErrOutOfCountersKeccak
  | ErrOutOfCountersBinary | ErrOutOfCountersMemory
  | ErrOutOfCountersArith | ErrOutOfCountersPadding
  | ErrOutOfCountersPoseidon | ErrIntrinsicInvalidSignature
  | ErrIntrinsicInvalidChainID | ErrIntrinsicInvalidNonce
  | ErrIntrinsicInvalidGasLimit | ErrIntrinsicInvalidBalance
  | ErrIntrinsicInvalidBatchGasLimit | ErrIntrinsicInvalidSenderCode
  | ErrBatchDataTooBig | ErrInvalidJump
  | ErrInvalidOpCode | ErrInvalidStatic
  | ErrInvalidByteCodeStartsEF | ErrIntrinsicInvalidTxGasOverflow
  | ErrUnsupportedForkId | ErrInvalidRLP
  | ErrInvalidDecodeChangeL2Block | ErrInvalidNotFirstTxChangeL2Block
  | ErrInvalidTxChangeL2BlockLimitTimestamp | ErrInvalidTxChangeL2BlockMinTimestamp
  | ErrExecutorDBError | ErrExecutorSMMainCountersOverflowSteps
  | ErrExecutorSMMainCountersOverflowKeccak | ErrExecutorSMMainCountersOverflowBinary
  | ErrExecutorSMMainCountersOverflowMem | ErrExecutorSMMainCountersOverflowArith
  | ErrExecutorSMMainCountersOverflowPadding | ErrExecutorSMMainCountersOverflowPoseidon
  | ErrExecutorUnsupportedForkId | ErrExecutorBalanceMismatch
  | ErrExecutorFEA2Scalar | ErrExecutorTOS32
  | ErrExecutorSMMainInvalidUnsignedTx | ErrExecutorSMMainInvalidNoCounters
  | ErrExecutorSMMainArithECRecoverDivideByZero | ErrExecutorSMMainAddressOutOfRange
  | ErrExecutorSMMainAddressNegative | ErrExecutorSMMainStorageInvalidKey
  | ErrExecutorSMMainHashK | ErrExecutorSMMainHashKSizeOutOfRange
  | ErrExecutorSMMainHashKPositionNegative | ErrExecutorSMMainHashKPositionPlusSizeOutOfRange
  | ErrExecutorSMMainHashKDigestAddressNotFound | ErrExecutorSMMainHashKDigestNotCompleted
  | ErrExecutorSMMainHashP | ErrExecutorSMMainHashPSizeOutOfRange
  | ErrExecutorSMMainHashPPositionNegative | ErrExecutorSMMainHashPPositionPlusSizeOutOfRange
  | ErrExecutorSMMainHashPDigestAddressNotFound | ErrExecutorSMMainHashPDigestNotCompleted
  | ErrExecutorSMMainMemAlignOffsetOutOfRange | ErrExecutorSMMainMultipleFreeIn
  | ErrExecutorSMMainAssert | ErrExecutorSMMainMemory
  | ErrExecutorSMMainStorageReadMismatch | ErrExecutorSMMainStorageWriteMismatch
  | ErrExecutorSMMainHashKValueMismatch | ErrExecutorSMMainHashKPaddingMismatch
  | ErrExecutorSMMainHashKSizeMismatch | ErrExecutorSMMainHashKLenLengthMismatch
  | ErrExecutorSMMainHashKLenCalledTwice | ErrExecutorSMMainHashKDigestNotFound
  | ErrExecutorSMMainHashKDigestDigestMismatch | ErrExecutorSMMainHashKDigestCalledTwice
  | ErrExecutorSMMainHashPValueMismatch | ErrExecutorSMMainHashPPaddingMismatch
  | ErrExecutorSMMainHashPSizeMismatch | ErrExecutorSMMainHashPLenLengthMismatch
  | ErrExecutorSMMainHashPLenCalledTwice | ErrExecutorSMMainHashPDigestDigestMismatch
  | ErrExecutorSMMainHashPDigestCalledTwice | ErrExecutorSMMainArithMismatch
  | ErrExecutorSMMainArithECRecoverMismatch | ErrExecutorSMMainBinaryAddMismatch
  | ErrExecutorSMMainBinarySubMismatch | ErrExecutorSMMainBinaryLtMismatch
  | ErrExecutorSMMainBinarySLtMismatch | ErrExecutorSMMainBinaryEqMismatch
  | ErrExecutorSMMainBinaryAndMismatch | ErrExecutorSMMainBinaryOrMismatch
  | ErrExecutorSMMainBinaryXorMismatch | ErrExecutorSMMainMemAlignWriteMismatch
  | ErrExecutorSMMainMemAlignWrite8Mismatch | ErrExecutorSMMainMemAlignReadMismatch
  | ErrExecutorSMMainJmpnOutOfRange | ErrExecutorSMMainHashKReadOutOfRange
  | ErrExecutorSMMainHashPReadOutOfRange | ErrExecutorErrorInvalidOldStateRoot
  | ErrExecutorErrorInvalidOldAccInputHash | ErrExecutorErrorInvalidChainId
  | ErrExecutorErrorInvalidBatchL2Data | ErrExecutorErrorInvalidGlobalExitRoot
  | ErrExecutorErrorInvalidCoinbase | ErrExecutorErrorInvalidFrom
  | ErrExecutorErrorInvalidDbKey | ErrExecutorErrorInvalidDbValue
  | ErrExecutorErrorInvalidContractsBytecodeKey | ErrExecutorErrorInvalidContractsBytecodeValue
  | ErrExecutorErrorInvalidGetKey | ErrExecutorSMMainCountersOverflowSha256
  | ErrExecutorSMMainHashS | ErrExecutorSMMainHashSSizeOutOfRange
  | ErrExecutorSMMainHashSPositionNegative | ErrExecutorSMMainHashSPositionPlusSizeOutOfRange
  | ErrExecutorSMMainHashSDigestAddressNotFound | ErrExecutorSMMainHashSDigestNotCompleted
  | ErrExecutorSMMainHashSValueMismatch | ErrExecutorSMMainHashSPaddingMismatch
  | ErrExecutorSMMainHashSSizeMismatch | ErrExecutorSMMainHashSLenLengthMismatch
  | ErrExecutorSMMainHashSLenCalledTwice | ErrExecutorSMMainHashSDigestNotFound
  | ErrExecutorSMMainHashSDigestDigestMismatch | ErrExecutorSMMainHashSDigestCalledTwice
  | ErrExecutorSMMainHashSReadOutOfRange | ErrExecutorErrorInvalidL1InfoRoot
  | ErrExecutorErrorInvalidForcedBlockhashL1 | ErrExecutorErrorInvalidL1DataV2GlobalExitRoot
  | ErrExecutorErrorInvalidL1DataV2BlockHashL1 | ErrExecutorErrorInvalidL1SmtProof
  | ErrExecutorErrorInvalidBalance | ErrExecutorErrorSMMainBinaryLt4Mismatch
  | ErrExecutorErrorInvalidNewStateRoot | ErrExecutorErrorInvalidNewAccInputHash
  | ErrExecutorErrorInvalidNewLocalExitRoot | ErrGRPCResourceExhaustedAsTimeout.

#[export] Instance error_eq_dec : EqDecision error.
Proof. solve_decision. Defined.

(** ** Error codes *)

Inductive RomError :=
  | ROM_ERROR_UNSPECIFIED | ROM_ERROR_NO_ERROR
  | ROM_ERROR_OUT_OF_GAS | ROM_ERROR_STACK_OVERFLOW
  | ROM_ERROR_STACK_UNDERFLOW | ROM_ERROR_MAX_CODE_SIZE_EXCEEDED
  | ROM_ERROR_CONTRACT_ADDRESS_COLLISION | ROM_ERROR_EXECUTION_REVERTED
  | ROM_ERROR_OUT_OF_COUNTERS_STEP | ROM_ERROR_OUT_OF_COUNTERS_KECCAK
  | ROM_ERROR_OUT_OF_COUNTERS_BINARY | ROM_ERROR_OUT_OF_COUNTERS_MEM
  | ROM_ERROR_OUT_OF_COUNTERS_ARITH | ROM_ERROR_OUT_OF_COUNTERS_PADDING
  | ROM_ERROR_OUT_OF_COUNTERS_POSEIDON | ROM_ERROR_OUT_OF_COUNTERS_SHA
  | ROM_ERROR_INVALID_JUMP | ROM_ERROR_INVALID_OPCODE
  | ROM_ERROR_INVALID_STATIC | ROM_ERROR_INVALID_BYTECODE_STARTS_EF
  | ROM_ERROR_INTRINSIC_INVALID_SIGNATURE | ROM_ERROR_INTRINSIC_INVALID_CHAIN_ID
  | ROM_ERROR_INTRINSIC_INVALID_NONCE | ROM_ERROR_INTRINSIC_INVALID_GAS_LIMIT
  | ROM_ERROR_INTRINSIC_INVALID_BALANCE | ROM_ERROR_INTRINSIC_INVALID_BATCH_GAS_LIMIT
  | ROM_ERROR_INTRINSIC_INVALID_SENDER_CODE | ROM_ERROR_INTRINSIC_TX_GAS_OVERFLOW
  | ROM_ERROR_BATCH_DATA_TOO_BIG | ROM_ERROR_UNSUPPORTED_FORK_ID
  | ROM_ERROR_INVALID_RLP | ROM_ERROR_INVALID_DECODE_CHANGE_L2_BLOCK
  | ROM_ERROR_INVALID_NOT_FIRST_TX_CHANGE_L2_BLOCK | ROM_ERROR_INVALID_TX_CHANGE_L2_BLOCK_LIMIT_TIMESTAMP
  | ROM_ERROR_INVALID_TX_CHANGE_L2_BLOCK_MIN_TIMESTAMP
  | RomError_other (n : Z).

Definition RomError_number (c : RomError) : Z :=
  match c with
  | ROM_ERROR_UNSPECIFIED => 0
  | ROM_ERROR_NO_ERROR => 1
  | ROM_ERROR_OUT_OF_GAS => 2
  | ROM_ERROR_STACK_OVERFLOW => 3
  | ROM_ERROR_STACK_UNDERFLOW => 4
  | ROM_ERROR_MAX_CODE_SIZE_EXCEEDED => 5
  | ROM_ERROR_CONTRACT_ADDRESS_COLLISION => 6
  | ROM_ERROR_EXECUTION_REVERTED => 7
  | ROM_ERROR_OUT_OF_COUNTERS_STEP => 8
  | ROM_ERROR_OUT_OF_COUNTERS_KECCAK => 9
  | ROM_ERROR_OUT_OF_COUNTERS_BINARY => 10
  | ROM_ERROR_OUT_OF_COUNTERS_MEM => 11
  | ROM_ERROR_OUT_OF_COUNTERS_ARITH => 12
  | ROM_ERROR_OUT_OF_COUNTERS_PADDING => 13
  | ROM_ERROR_OUT_OF_COUNTERS_POSEIDON => 14
  | ROM_ERROR_OUT_OF_COUNTERS_SHA => 15
  | ROM_ERROR_INVALID_JUMP => 16
  | ROM_ERROR_INVALID_OPCODE => 17
  | ROM_ERROR_INVALID_STATIC => 18
  | ROM_ERROR_INVALID_BYTECODE_STARTS_EF => 19
  | ROM_ERROR_INTRINSIC_INVALID_SIGNATURE => 20
  | ROM_ERROR_INTRINSIC_INVALID_CHAIN_ID => 21
  | ROM_ERROR_INTRINSIC_INVALID_NONCE => 22
  | ROM_ERROR_INTRINSIC_INVALID_GAS_LIMIT => 23
  | ROM_ERROR_INTRINSIC_INVALID_BALANCE => 24
  | ROM_ERROR_INTRINSIC_INVALID_BATCH_GAS_LIMIT => 25
  | ROM_ERROR_INTRINSIC_INVALID_SENDER_CODE => 26
  | ROM_ERROR_INTRINSIC_TX_GAS_OVERFLOW => 27
  | ROM_ERROR_BATCH_DATA_TOO_BIG => 28
  | ROM_ERROR_UNSUPPORTED_FORK_ID => 29
  | ROM_ERROR_INVALID_RLP => 30
  | ROM_ERROR_INVALID_DECODE_CHANGE_L2_BLOCK => 31
  | ROM_ERROR_INVALID_NOT_FIRST_TX_CHANGE_L2_BLOCK => 32
  | ROM_ERROR_INVALID_TX_CHANGE_L2_BLOCK_LIMIT_TIMESTAMP => 33
  | ROM_ERROR_INVALID_TX_CHANGE_L2_BLOCK_MIN_TIMESTAMP => 34
  | RomError_other n => n
  end.

Inductive ExecutorError :=
  | EXECUTOR_ERROR_UNSPECIFIED
  | EXECUTOR_ERROR_NO_ERROR
  | EXECUTOR_ERROR_DB_ERROR
  | EXECUTOR_ERROR_SM_MAIN_COUNTERS_OVERFLOW_STEPS
  | EXECUTOR_ERROR_SM_MAIN_COUNTERS_OVERFLOW_KECCAK
  | EXECUTOR_ERROR_SM_MAIN_COUNTERS_OVERFLOW_BINARY
  | EXECUTOR_ERROR_SM_MAIN_COUNTERS_OVERFLOW_MEM
  | EXECUTOR_ERROR_SM_MAIN_COUNTERS_OVERFLOW_ARITH
  | EXECUTOR_ERROR_SM_MAIN_COUNTERS_OVERFLOW_PADDING
  | EXECUTOR_ERROR_SM_MAIN_COUNTERS_OVERFLOW_POSEIDON
  | EXECUTOR_ERROR_UNSUPPORTED_FORK_ID
  | EXECUTOR_ERROR_BALANCE_MISMATCH
  | EXECUTOR_ERROR_FEA2SCALAR
  | EXECUTOR_ERROR_TOS32
  | EXECUTOR_ERROR_SM_MAIN_INVALID_UNSIGNED_TX
  | EXECUTOR_ERROR_SM_MAIN_INVALID_NO_COUNTERS
  | EXECUTOR_ERROR_SM_MAIN_ARITH_ECRECOVER_DIVIDE_BY_ZERO
  | EXECUTOR_ERROR_SM_MAIN_ADDRESS_OUT_OF_RANGE
  | EXECUTOR_ERROR_SM_MAIN_ADDRESS_NEGATIVE
  | EXECUTOR_ERROR_SM_MAIN_STORAGE_INVALID_KEY
  | EXECUTOR_ERROR_SM_MAIN_HASHK
  | EXECUTOR_ERROR_SM_MAIN_HASHK_SIZE_OUT_OF_RANGE
  | EXECUTOR_ERROR_SM_MAIN_HASHK_POSITION_NEGATIVE
  | EXECUTOR_ERROR_SM_MAIN_HASHK_POSITION_PLUS_SIZE_OUT_OF_RANGE
  | EXECUTOR_ERROR_SM_MAIN_HASHKDIGEST_ADDRESS_NOT_FOUND
  | EXECUTOR_ERROR_SM_MAIN_HASHKDIGEST_NOT_COMPLETED
  | EXECUTOR_ERROR_SM_MAIN_HASHP
  | EXECUTOR_ERROR_SM_MAIN_HASHP_SIZE_OUT_OF_RANGE
  | EXECUTOR_ERROR_SM_MAIN_HASHP_POSITION_NEGATIVE
  | EXECUTOR_ERROR_SM_MAIN_HASHP_POSITION_PLUS_SIZE_OUT_OF_RANGE
  | EXECUTOR_ERROR_SM_MAIN_HASHPDIGEST_ADDRESS_NOT_FOUND
  | EXECUTOR_ERROR_SM_MAIN_HASHPDIGEST_NOT_COMPLETED
  | EXECUTOR_ERROR_SM_MAIN_MEMALIGN_OFFSET_OUT_OF_RANGE
  | EXECUTOR_ERROR_SM_MAIN_MULTIPLE_FREEIN
  | EXECUTOR_ERROR_SM_MAIN_ASSERT
  | EXECUTOR_ERROR_SM_MAIN_MEMORY
  | EXECUTOR_ERROR_SM_MAIN_STORAGE_READ_MISMATCH
  | EXECUTOR_ERROR_SM_MAIN_STORAGE_WRITE_MISMATCH
  | EXECUTOR_ERROR_SM_MAIN_HASHK_VALUE_MISMATCH
  | EXECUTOR_ERROR_SM_MAIN_HASHK_PADDING_MISMATCH
  | EXECUTOR_ERROR_SM_MAIN_HASHK_SIZE_MISMATCH
  | EXECUTOR_ERROR_SM_MAIN_HASHKLEN_LENGTH_MISMATCH
  | EXECUTOR_ERROR_SM_MAIN_HASHKLEN_CALLED_TWICE
  | EXECUTOR_ERROR_SM_MAIN_HASHKDIGEST_NOT_FOUND
  | EXECUTOR_ERROR_SM_MAIN_HASHKDIGEST_DIGEST_MISMATCH
  | EXECUTOR_ERROR_SM_MAIN_HASHKDIGEST_CALLED_TWICE
  | EXECUTOR_ERROR_SM_MAIN_HASHP_VALUE_MISMATCH
  | EXECUTOR_ERROR_SM_MAIN_HASHP_PADDING_MISMATCH
  | EXECUTOR_ERROR_SM_MAIN_HASHP_SIZE_MISMATCH
  | EXECUTOR_ERROR_SM_MAIN_HASHPLEN_LENGTH_MISMATCH
  | EXECUTOR_ERROR_SM_MAIN_HASHPLEN_CALLED_TWICE
  | EXECUTOR_ERROR_SM_MAIN_HASHPDIGEST_DIGEST_MISMATCH
  | EXECUTOR_ERROR_SM_MAIN_HASHPDIGEST_CALLED_TWICE
  | EXECUTOR_ERROR_SM_MAIN_ARITH_MISMATCH
  | EXECUTOR_ERROR_SM_MAIN_ARITH_ECRECOVER_MISMATCH
  | EXECUTOR_ERROR_SM_MAIN_BINARY_ADD_MISMATCH
  | EXECUTOR_ERROR_SM_MAIN_BINARY_SUB_MISMATCH
  | EXECUTOR_ERROR_SM_MAIN_BINARY_LT_MISMATCH
  | EXECUTOR_ERROR_SM_MAIN_BINARY_SLT_MISMATCH
  | EXECUTOR_ERROR_SM_MAIN_BINARY_EQ_MISMATCH
  | EXECUTOR_ERROR_SM_MAIN_BINARY_AND_MISMATCH
  | EXECUTOR_ERROR_SM_MAIN_BINARY_OR_MISMATCH
  | EXECUTOR_ERROR_SM_MAIN_BINARY_XOR_MISMATCH
  | EXECUTOR_ERROR_SM_MAIN_MEMALIGN_WRITE_MISMATCH
  | EXECUTOR_ERROR_SM_MAIN_MEMALIGN_WRITE8_MISMATCH
  | EXECUTOR_ERROR_SM_MAIN_MEMALIGN_READ_MISMATCH
  | EXECUTOR_ERROR_SM_MAIN_JMPN_OUT_OF_RANGE
  | EXECUTOR_ERROR_SM_MAIN_HASHK_READ_OUT_OF_RANGE
  | EXECUTOR_ERROR_SM_MAIN_HASHP_READ_OUT_OF_RANGE
  | EXECUTOR_ERROR_INVALID_OLD_STATE_ROOT
  | EXECUTOR_ERROR_INVALID_OLD_ACC_INPUT_HASH
  | EXECUTOR_ERROR_INVALID_CHAIN_ID
  | EXECUTOR_ERROR_INVALID_BATCH_L2_DATA
  | EXECUTOR_ERROR_INVALID_GLOBAL_EXIT_ROOT
  | EXECUTOR_ERROR_INVALID_COINBASE
  | EXECUTOR_ERROR_INVALID_FROM
  | EXECUTOR_ERROR_INVALID_DB_KEY
  | EXECUTOR_ERROR_INVALID_DB_VALUE
  | EXECUTOR_ERROR_INVALID_CONTRACTS_BYTECODE_KEY
  | EXECUTOR_ERROR_INVALID_CONTRACTS_BYTECODE_VALUE
  | EXECUTOR_ERROR_INVALID_GET_KEY
  | EXECUTOR_ERROR_SM_MAIN_COUNTERS_OVERFLOW_SHA256
  | EXECUTOR_ERROR_SM_MAIN_HASHS
  | EXECUTOR_ERROR_SM_MAIN_HASHS_SIZE_OUT_OF_RANGE
  | EXECUTOR_ERROR_SM_MAIN_HASHS_POSITION_NEGATIVE
  | EXECUTOR_ERROR_SM_MAIN_HASHS_POSITION_PLUS_SIZE_OUT_OF_RANGE
  | EXECUTOR_ERROR_SM_MAIN_HASHSDIGEST_ADDRESS_NOT_FOUND
  | EXECUTOR_ERROR_SM_MAIN_HASHSDIGEST_NOT_COMPLETED
  | EXECUTOR_ERROR_SM_MAIN_HASHS_VALUE_MISMATCH
  | EXECUTOR_ERROR_SM_MAIN_HASHS_PADDING_MISMATCH
  | EXECUTOR_ERROR_SM_MAIN_HASHS_SIZE_MISMATCH
  | EXECUTOR_ERROR_SM_MAIN_HASHSLEN_LENGTH_MISMATCH
  | EXECUTOR_ERROR_SM_MAIN_HASHSLEN_CALLED_TWICE
  | EXECUTOR_ERROR_SM_MAIN_HASHSDIGEST_NOT_FOUND
  | EXECUTOR_ERROR_SM_MAIN_HASHSDIGEST_DIGEST_MISMATCH
  | EXECUTOR_ERROR_SM_MAIN_HASHSDIGEST_CALLED_TWICE
  | EXECUTOR_ERROR_SM_MAIN_HASHS_READ_OUT_OF_RANGE
  | EXECUTOR_ERROR_INVALID_L1_INFO_ROOT
  | EXECUTOR_ERROR_INVALID_FORCED_BLOCKHASH_L1
  | EXECUTOR_ERROR_INVALID_L1_DATA_V2_GLOBAL_EXIT_ROOT
  | EXECUTOR_ERROR_INVALID_L1_DATA_V2_BLOCK_HASH_L1
  | EXECUTOR_ERROR_INVALID_L1_SMT_PROOF
  | EXECUTOR_ERROR_INVALID_BALANCE
  | EXECUTOR_ERROR_SM_MAIN_BINARY_LT4_MISMATCH
  | EXECUTOR_ERROR_INVALID_NEW_STATE_ROOT
  | EXECUTOR_ERROR_INVALID_NEW_ACC_INPUT_HASH
  | EXECUTOR_ERROR_INVALID_NEW_LOCAL_EXIT_ROOT
  | ExecutorError_other (n : Z).

Definition ExecutorError_number (c : ExecutorError) : Z :=
  match c with
  | EXECUTOR_ERROR_UNSPECIFIED => 0
  | EXECUTOR_ERROR_NO_ERROR => 1
  | EXECUTOR_ERROR_DB_ERROR => 2
  | EXECUTOR_ERROR_SM_MAIN_COUNTERS_OVERFLOW_STEPS => 3
  | EXECUTOR_ERROR_SM_MAIN_COUNTERS_OVERFLOW_KECCAK => 4
  | EXECUTOR_ERROR_SM_MAIN_COUNTERS_OVERFLOW_BINARY => 5
  | EXECUTOR_ERROR_SM_MAIN_COUNTERS_OVERFLOW_MEM => 6
  | EXECUTOR_ERROR_SM_MAIN_COUNTERS_OVERFLOW_ARITH => 7
  | EXECUTOR_ERROR_SM_MAIN_COUNTERS_OVERFLOW_PADDING => 8
  | EXECUTOR_ERROR_SM_MAIN_COUNTERS_OVERFLOW_POSEIDON => 9
  | EXECUTOR_ERROR_UNSUPPORTED_FORK_ID => 10
  | EXECUTOR_ERROR_BALANCE_MISMATCH => 11
  | EXECUTOR_ERROR_FEA2SCALAR => 12
  | EXECUTOR_ERROR_TOS32 => 13
  | EXECUTOR_ERROR_SM_MAIN_INVALID_UNSIGNED_TX => 14
  | EXECUTOR_ERROR_SM_MAIN_INVALID_NO_COUNTERS => 15
  | EXECUTOR_ERROR_SM_MAIN_ARITH_ECRECOVER_DIVIDE_BY_ZERO => 16
  | EXECUTOR_ERROR_SM_MAIN_ADDRESS_OUT_OF_RANGE => 17
  | EXECUTOR_ERROR_SM_MAIN_ADDRESS_NEGATIVE => 18
  | EXECUTOR_ERROR_SM_MAIN_STORAGE_INVALID_KEY => 19
  | EXECUTOR_ERROR_SM_MAIN_HASHK => 20
  | EXECUTOR_ERROR_SM_MAIN_HASHK_SIZE_OUT_OF_RANGE => 21
  | EXECUTOR_ERROR_SM_MAIN_HASHK_POSITION_NEGATIVE => 22
  | EXECUTOR_ERROR_SM_MAIN_HASHK_POSITION_PLUS_SIZE_OUT_OF_RANGE => 23
  | EXECUTOR_ERROR_SM_MAIN_HASHKDIGEST_ADDRESS_NOT_FOUND => 24
  | EXECUTOR_ERROR_SM_MAIN_HASHKDIGEST_NOT_COMPLETED => 25
  | EXECUTOR_ERROR_SM_MAIN_HASHP => 26
  | EXECUTOR_ERROR_SM_MAIN_HASHP_SIZE_OUT_OF_RANGE => 27
  | EXECUTOR_ERROR_SM_MAIN_HASHP_POSITION_NEGATIVE => 28
  | EXECUTOR_ERROR_SM_MAIN_HASHP_POSITION_PLUS_SIZE_OUT_OF_RANGE => 29
  | EXECUTOR_ERROR_SM_MAIN_HASHPDIGEST_ADDRESS_NOT_FOUND => 30
  | EXECUTOR_ERROR_SM_MAIN_HASHPDIGEST_NOT_COMPLETED => 31
  | EXECUTOR_ERROR_SM_MAIN_MEMALIGN_OFFSET_OUT_OF_RANGE => 32
  | EXECUTOR_ERROR_SM_MAIN_MULTIPLE_FREEIN => 33
  | EXECUTOR_ERROR_SM_MAIN_ASSERT => 34
  | EXECUTOR_ERROR_SM_MAIN_MEMORY => 35
  | EXECUTOR_ERROR_SM_MAIN_STORAGE_READ_MISMATCH => 36
  | EXECUTOR_ERROR_SM_MAIN_STORAGE_WRITE_MISMATCH => 37
  | EXECUTOR_ERROR_SM_MAIN_HASHK_VALUE_MISMATCH => 38
  | EXECUTOR_ERROR_SM_MAIN_HASHK_PADDING_MISMATCH => 39
  | EXECUTOR_ERROR_SM_MAIN_HASHK_SIZE_MISMATCH => 40
  | EXECUTOR_ERROR_SM_MAIN_HASHKLEN_LENGTH_MISMATCH => 41
  | EXECUTOR_ERROR_SM_MAIN_HASHKLEN_CALLED_TWICE => 42
  | EXECUTOR_ERROR_SM_MAIN_HASHKDIGEST_NOT_FOUND => 43
  | EXECUTOR_ERROR_SM_MAIN_HASHKDIGEST_DIGEST_MISMATCH => 44
  | EXECUTOR_ERROR_SM_MAIN_HASHKDIGEST_CALLED_TWICE => 45
  | EXECUTOR_ERROR_SM_MAIN_HASHP_VALUE_MISMATCH => 46
  | EXECUTOR_ERROR_SM_MAIN_HASHP_PADDING_MISMATCH => 47
  | EXECUTOR_ERROR_SM_MAIN_HASHP_SIZE_MISMATCH => 48
  | EXECUTOR_ERROR_SM_MAIN_HASHPLEN_LENGTH_MISMATCH => 49
  | EXECUTOR_ERROR_SM_MAIN_HASHPLEN_CALLED_TWICE => 50
  | EXECUTOR_ERROR_SM_MAIN_HASHPDIGEST_DIGEST_MISMATCH => 51
  | EXECUTOR_ERROR_SM_MAIN_HASHPDIGEST_CALLED_TWICE => 52
  | EXECUTOR_ERROR_SM_MAIN_ARITH_MISMATCH => 53
  | EXECUTOR_ERROR_SM_MAIN_ARITH_ECRECOVER_MISMATCH => 54
  | EXECUTOR_ERROR_SM_MAIN_BINARY_ADD_MISMATCH => 55
  | EXECUTOR_ERROR_SM_MAIN_BINARY_SUB_MISMATCH => 56
  | EXECUTOR_ERROR_SM_MAIN_BINARY_LT_MISMATCH => 57
  | EXECUTOR_ERROR_SM_MAIN_BINARY_SLT_MISMATCH => 58
  | EXECUTOR_ERROR_SM_MAIN_BINARY_EQ_MISMATCH => 59
  | EXECUTOR_ERROR_SM_MAIN_BINARY_AND_MISMATCH => 60
  | EXECUTOR_ERROR_SM_MAIN_BINARY_OR_MISMATCH => 61
  | EXECUTOR_ERROR_SM_MAIN_BINARY_XOR_MISMATCH => 62
  | EXECUTOR_ERROR_SM_MAIN_MEMALIGN_WRITE_MISMATCH => 63
  | EXECUTOR_ERROR_SM_MAIN_MEMALIGN_WRITE8_MISMATCH => 64
  | EXECUTOR_ERROR_SM_MAIN_MEMALIGN_READ_MISMATCH => 65
  | EXECUTOR_ERROR_SM_MAIN_JMPN_OUT_OF_RANGE => 66
  | EXECUTOR_ERROR_SM_MAIN_HASHK_READ_OUT_OF_RANGE => 67
  | EXECUTOR_ERROR_SM_MAIN_HASHP_READ_OUT_OF_RANGE => 68
  | EXECUTOR_ERROR_INVALID_OLD_STATE_ROOT => 69
  | EXECUTOR_ERROR_INVALID_OLD_ACC_INPUT_HASH => 70
  | EXECUTOR_ERROR_INVALID_CHAIN_ID => 71
  | EXECUTOR_ERROR_INVALID_BATCH_L2_DATA => 72
  | EXECUTOR_ERROR_INVALID_GLOBAL_EXIT_ROOT => 73
  | EXECUTOR_ERROR_INVALID_COINBASE => 74
  | EXECUTOR_ERROR_INVALID_FROM => 75
  | EXECUTOR_ERROR_INVALID_DB_KEY => 76
  | EXECUTOR_ERROR_INVALID_DB_VALUE => 77
  | EXECUTOR_ERROR_INVALID_CONTRACTS_BYTECODE_KEY => 78
  | EXECUTOR_ERROR_INVALID_CONTRACTS_BYTECODE_VALUE => 79
  | EXECUTOR_ERROR_INVALID_GET_KEY => 80
  | EXECUTOR_ERROR_SM_MAIN_COUNTERS_OVERFLOW_SHA256 => 81
  | EXECUTOR_ERROR_SM_MAIN_HASHS => 82
  | EXECUTOR_ERROR_SM_MAIN_HASHS_SIZE_OUT_OF_RANGE => 83
  | EXECUTOR_ERROR_SM_MAIN_HASHS_POSITION_NEGATIVE => 84
  | EXECUTOR_ERROR_SM_MAIN_HASHS_POSITION_PLUS_SIZE_OUT_OF_RANGE => 85
  | EXECUTOR_ERROR_SM_MAIN_HASHSDIGEST_ADDRESS_NOT_FOUND => 86
  | EXECUTOR_ERROR_SM_MAIN_HASHSDIGEST_NOT_COMPLETED => 87
  | EXECUTOR_ERROR_SM_MAIN_HASHS_VALUE_MISMATCH => 88
  | EXECUTOR_ERROR_SM_MAIN_HASHS_PADDING_MISMATCH => 89
  | EXECUTOR_ERROR_SM_MAIN_HASHS_SIZE_MISMATCH => 90
  | EXECUTOR_ERROR_SM_MAIN_HASHSLEN_LENGTH_MISMATCH => 91
  | EXECUTOR_ERROR_SM_MAIN_HASHSLEN_CALLED_TWICE => 92
  | EXECUTOR_ERROR_SM_MAIN_HASHSDIGEST_NOT_FOUND => 93
  | EXECUTOR_ERROR_SM_MAIN_HASHSDIGEST_DIGEST_MISMATCH => 94
  | EXECUTOR_ERROR_SM_MAIN_HASHSDIGEST_CALLED_TWICE => 95
  | EXECUTOR_ERROR_SM_MAIN_HASHS_READ_OUT_OF_RANGE => 96
  | EXECUTOR_ERROR_INVALID_L1_INFO_ROOT => 97
  | EXECUTOR_ERROR_INVALID_FORCED_BLOCKHASH_L1 => 98
  | EXECUTOR_ERROR_INVALID_L1_DATA_V2_GLOBAL_EXIT_ROOT => 99
  | EXECUTOR_ERROR_INVALID_L1_DATA_V2_BLOCK_HASH_L1 => 100
  | EXECUTOR_ERROR_INVALID_L1_SMT_PROOF => 101
  | EXECUTOR_ERROR_INVALID_BALANCE => 102
  | EXECUTOR_ERROR_SM_MAIN_BINARY_LT4_MISMATCH => 103
  | EXECUTOR_ERROR_INVALID_NEW_STATE_ROOT => 104
  | EXECUTOR_ERROR_INVALID_NEW_ACC_INPUT_HASH => 105
  | EXECUTOR_ERROR_INVALID_NEW_LOCAL_EXIT_ROOT => 106
  | ExecutorError_other n => n
  end.

Definition ErrCodeExecutorUnknown : ExecutorError := ExecutorError_other (2 ^ 31 - 1).
Definition ErrCodeROMUnknown : RomError := RomError_other (2 ^ 31 - 1).

(** ** Translation *)

Definition RomErr (errorCode : RomError) : option error :=
  match errorCode with
  | ROM_ERROR_UNSPECIFIED => Some ErrROMUnspecified
  | ROM_ERROR_NO_ERROR => None
  | ROM_ERROR_OUT_OF_GAS => Some ErrOutOfGas
  | ROM_ERROR_STACK_OVERFLOW => Some ErrStackOverflow
  | ROM_ERROR_STACK_UNDERFLOW => Some ErrStackUnderflow
  | ROM_ERROR_MAX_CODE_SIZE_EXCEEDED => Some ErrMaxCodeSizeExceeded
  | ROM_ERROR_CONTRACT_ADDRESS_COLLISION => Some ErrContractAddressCollision
  | ROM_ERROR_EXECUTION_REVERTED => Some ErrExecutionReverted
  | ROM_ERROR_OUT_OF_COUNTERS_STEP => Some ErrOutOfCountersStep
  | ROM_ERROR_OUT_OF_COUNTERS_KECCAK => Some ErrOutOfCountersKeccak
  | ROM_ERROR_OUT_OF_COUNTERS_BINARY => Some ErrOutOfCountersBinary
  | ROM_ERROR_OUT_OF_COUNTERS_MEM => Some ErrOutOfCountersMemory
  | ROM_ERROR_OUT_OF_COUNTERS_ARITH => Some ErrOutOfCountersArith
  | ROM_ERROR_OUT_OF_COUNTERS_PADDING => Some ErrOutOfCountersPadding
  | ROM_ERROR_OUT_OF_COUNTERS_POSEIDON => Some ErrOutOfCountersPoseidon
  | ROM_ERROR_INVALID_JUMP => Some ErrInvalidJump
  | ROM_ERROR_INVALID_OPCODE => Some ErrInvalidOpCode
  | ROM_ERROR_INVALID_STATIC => Some ErrInvalidStatic
  | ROM_ERROR_INVALID_BYTECODE_STARTS_EF => Some ErrInvalidByteCodeStartsEF
  | ROM_ERROR_INTRINSIC_INVALID_SIGNATURE => Some ErrIntrinsicInvalidSignature
  | ROM_ERROR_INTRINSIC_INVALID_CHAIN_ID => Some ErrIntrinsicInvalidChainID
  | ROM_ERROR_INTRINSIC_INVALID_NONCE => Some ErrIntrinsicInvalidNonce
  | ROM_ERROR_INTRINSIC_INVALID_GAS_LIMIT => Some ErrIntrinsicInvalidGasLimit
  | ROM_ERROR_INTRINSIC_INVALID_BALANCE => Some ErrIntrinsicInvalidBalance
  | ROM_ERROR_INTRINSIC_INVALID_BATCH_GAS_LIMIT => Some ErrIntrinsicInvalidBatchGasLimit
  | ROM_ERROR_INTRINSIC_INVALID_SENDER_CODE => Some ErrIntrinsicInvalidSenderCode
  | ROM_ERROR_INTRINSIC_TX_GAS_OVERFLOW => Some ErrIntrinsicInvalidTxGasOverflow
  | ROM_ERROR_BATCH_DATA_TOO_BIG => Some ErrBatchDataTooBig
  | ROM_ERROR_UNSUPPORTED_FORK_ID => Some ErrUnsupportedForkId
  | ROM_ERROR_INVALID_RLP => Some ErrInvalidRLP
  | ROM_ERROR_INVALID_DECODE_CHANGE_L2_BLOCK => Some ErrInvalidDecodeChangeL2Block
  | ROM_ERROR_INVALID_NOT_FIRST_TX_CHANGE_L2_BLOCK => Some ErrInvalidNotFirstTxChangeL2Block
  | ROM_ERROR_INVALID_TX_CHANGE_L2_BLOCK_LIMIT_TIMESTAMP => Some ErrInvalidTxChangeL2BlockLimitTimestamp
  | ROM_ERROR_INVALID_TX_CHANGE_L2_BLOCK_MIN_TIMESTAMP => Some ErrInvalidTxChangeL2BlockMinTimestamp
  | _ => Some ErrROMUnknown
  end.

Definition RomErrorCode (err : option error) : RomError :=
  match err with
  | None => ROM_ERROR_NO_ERROR
  | Some ErrOutOfGas => ROM_ERROR_OUT_OF_GAS
  | Some ErrStackOverflow => ROM_ERROR_STACK_OVERFLOW
  | Some ErrStackUnderflow => ROM_ERROR_STACK_UNDERFLOW
  | Some ErrMaxCodeSizeExceeded => ROM_ERROR_MAX_CODE_SIZE_EXCEEDED
  | Some ErrContractAddressCollision => ROM_ERROR_CONTRACT_ADDRESS_COLLISION
  | Some ErrExecutionReverted => ROM_ERROR_EXECUTION_REVERTED
  | Some ErrOutOfCountersStep => ROM_ERROR_OUT_OF_COUNTERS_STEP
  | Some ErrOutOfCountersKeccak => ROM_ERROR_OUT_OF_COUNTERS_KECCAK
  | Some ErrOutOfCountersBinary => ROM_ERROR_OUT_OF_COUNTERS_BINARY
  | Some ErrOutOfCountersMemory => ROM_ERROR_OUT_OF_COUNTERS_MEM
  | Some ErrOutOfCountersArith => ROM_ERROR_OUT_OF_COUNTERS_ARITH
  | Some ErrOutOfCountersPadding => ROM_ERROR_OUT_OF_COUNTERS_PADDING
  | Some ErrOutOfCountersPoseidon => ROM_ERROR_OUT_OF_COUNTERS_POSEIDON
  | Some ErrInvalidJump => ROM_ERROR_INVALID_JUMP
  | Some ErrInvalidOpCode => ROM_ERROR_INVALID_OPCODE
  | Some ErrInvalidStatic => ROM_ERROR_INVALID_STATIC
  | Some ErrInvalidByteCodeStartsEF => ROM_ERROR_INVALID_BYTECODE_STARTS_EF
  | Some ErrIntrinsicInvalidSignature => ROM_ERROR_INTRINSIC_INVALID_SIGNATURE
  | Some ErrIntrinsicInvalidChainID => ROM_ERROR_INTRINSIC_INVALID_CHAIN_ID
  | Some ErrIntrinsicInvalidNonce => ROM_ERROR_INTRINSIC_INVALID_NONCE
  | Some ErrIntrinsicInvalidGasLimit => ROM_ERROR_INTRINSIC_INVALID_GAS_LIMIT
  | Some ErrIntrinsicInvalidBalance => ROM_ERROR_INTRINSIC_INVALID_BALANCE
  | Some ErrIntrinsicInvalidBatchGasLimit => ROM_ERROR_INTRINSIC_INVALID_BATCH_GAS_LIMIT
  | Some ErrIntrinsicInvalidSenderCode => ROM_ERROR_INTRINSIC_INVALID_SENDER_CODE
  | Some ErrIntrinsicInvalidTxGasOverflow => ROM_ERROR_INTRINSIC_TX_GAS_OVERFLOW
  | Some ErrBatchDataTooBig => ROM_ERROR_BATCH_DATA_TOO_BIG
  | Some ErrUnsupportedForkId => ROM_ERROR_UNSUPPORTED_FORK_ID
  | Some ErrInvalidRLP => ROM_ERROR_INVALID_RLP
  | Some ErrInvalidDecodeChangeL2Block => ROM_ERROR_INVALID_DECODE_CHANGE_L2_BLOCK
  | Some ErrInvalidNotFirstTxChangeL2Block => ROM_ERROR_INVALID_NOT_FIRST_TX_CHANGE_L2_BLOCK
  | Some ErrInvalidTxChangeL2BlockLimitTimestamp => ROM_ERROR_INVALID_TX_CHANGE_L2_BLOCK_LIMIT_TIMESTAMP
  | Some ErrInvalidTxChangeL2BlockMinTimestamp => ROM_ERROR_INVALID_TX_CHANGE_L2_BLOCK_MIN_TIMESTAMP
  | _ => ErrCodeROMUnknown
  end.

Definition ExecutorErr (errorCode : ExecutorError) : option error :=
  match errorCode with
  | EXECUTOR_ERROR_UNSPECIFIED => Some ErrExecutorUnspecified
  | EXECUTOR_ERROR_NO_ERROR => None
  | EXECUTOR_ERROR_DB_ERROR => Some ErrExecutorDBError
  | EXECUTOR_ERROR_SM_MAIN_COUNTERS_OVERFLOW_STEPS => Some ErrExecutorSMMainCountersOverflowSteps
  | EXECUTOR_ERROR_SM_MAIN_COUNTERS_OVERFLOW_KECCAK => Some ErrExecutorSMMainCountersOverflowKeccak
  | EXECUTOR_ERROR_SM_MAIN_COUNTERS_OVERFLOW_BINARY => Some ErrExecutorSMMainCountersOverflowBinary
  | EXECUTOR_ERROR_SM_MAIN_COUNTERS_OVERFLOW_MEM => Some ErrExecutorSMMainCountersOverflowMem
  | EXECUTOR_ERROR_SM_MAIN_COUNTERS_OVERFLOW_ARITH => Some ErrExecutorSMMainCountersOverflowArith
  | EXECUTOR_ERROR_SM_MAIN_COUNTERS_OVERFLOW_PADDING => Some ErrExecutorSMMainCountersOverflowPadding
  | EXECUTOR_ERROR_SM_MAIN_COUNTERS_OVERFLOW_POSEIDON => Some ErrExecutorSMMainCountersOverflowPoseidon
  | EXECUTOR_ERROR_UNSUPPORTED_FORK_ID => Some ErrExecutorUnsupportedForkId
  | EXECUTOR_ERROR_BALANCE_MISMATCH => Some ErrExecutorBalanceMismatch
  | EXECUTOR_ERROR_FEA2SCALAR => Some ErrExecutorFEA2Scalar
  | EXECUTOR_ERROR_TOS32 => Some ErrExecutorTOS32
  | EXECUTOR_ERROR_SM_MAIN_INVALID_UNSIGNED_TX => Some ErrExecutorSMMainInvalidUnsignedTx
  | EXECUTOR_ERROR_SM_MAIN_INVALID_NO_COUNTERS => Some ErrExecutorSMMainInvalidNoCounters
  | EXECUTOR_ERROR_SM_MAIN_ARITH_ECRECOVER_DIVIDE_BY_ZERO => Some ErrExecutorSMMainArithECRecoverDivideByZero
  | EXECUTOR_ERROR_SM_MAIN_ADDRESS_OUT_OF_RANGE => Some ErrExecutorSMMainAddressOutOfRange
  | EXECUTOR_ERROR_SM_MAIN_ADDRESS_NEGATIVE => Some ErrExecutorSMMainAddressNegative
  | EXECUTOR_ERROR_SM_MAIN_STORAGE_INVALID_KEY => Some ErrExecutorSMMainStorageInvalidKey
  | EXECUTOR_ERROR_SM_MAIN_HASHK => Some ErrExecutorSMMainHashK
  | EXECUTOR_ERROR_SM_MAIN_HASHK_SIZE_OUT_OF_RANGE => Some ErrExecutorSMMainHashKSizeOutOfRange
  | EXECUTOR_ERROR_SM_MAIN_HASHK_POSITION_NEGATIVE => Some ErrExecutorSMMainHashKPositionNegative
  | EXECUTOR_ERROR_SM_MAIN_HASHK_POSITION_PLUS_SIZE_OUT_OF_RANGE => Some ErrExecutorSMMainHashKPositionPlusSizeOutOfRange
  | EXECUTOR_ERROR_SM_MAIN_HASHKDIGEST_ADDRESS_NOT_FOUND => Some ErrExecutorSMMainHashKDigestAddressNotFound
  | EXECUTOR_ERROR_SM_MAIN_HASHKDIGEST_NOT_COMPLETED => Some ErrExecutorSMMainHashKDigestNotCompleted
  | EXECUTOR_ERROR_SM_MAIN_HASHP => Some ErrExecutorSMMainHashP
  | EXECUTOR_ERROR_SM_MAIN_HASHP_SIZE_OUT_OF_RANGE => Some ErrExecutorSMMainHashPSizeOutOfRange
  | EXECUTOR_ERROR_SM_MAIN_HASHP_POSITION_NEGATIVE => Some ErrExecutorSMMainHashPPositionNegative
  | EXECUTOR_ERROR_SM_MAIN_HASHP_POSITION_PLUS_SIZE_OUT_OF_RANGE => Some ErrExecutorSMMainHashPPositionPlusSizeOutOfRange
  | EXECUTOR_ERROR_SM_MAIN_HASHPDIGEST_ADDRESS_NOT_FOUND => Some ErrExecutorSMMainHashPDigestAddressNotFound
  | EXECUTOR_ERROR_SM_MAIN_HASHPDIGEST_NOT_COMPLETED => Some ErrExecutorSMMainHashPDigestNotCompleted
  | EXECUTOR_ERROR_SM_MAIN_MEMALIGN_OFFSET_OUT_OF_RANGE => Some ErrExecutorSMMainMemAlignOffsetOutOfRange
  | EXECUTOR_ERROR_SM_MAIN_MULTIPLE_FREEIN => Some ErrExecutorSMMainMultipleFreeIn
  | EXECUTOR_ERROR_SM_MAIN_ASSERT => Some ErrExecutorSMMainAssert
  | EXECUTOR_ERROR_SM_MAIN_MEMORY => Some ErrExecutorSMMainMemory
  | EXECUTOR_ERROR_SM_MAIN_STORAGE_READ_MISMATCH => Some ErrExecutorSMMainStorageReadMismatch
  | EXECUTOR_ERROR_SM_MAIN_STORAGE_WRITE_MISMATCH => Some ErrExecutorSMMainStorageWriteMismatch
  | EXECUTOR_ERROR_SM_MAIN_HASHK_VALUE_MISMATCH => Some ErrExecutorSMMainHashKValueMismatch
  | EXECUTOR_ERROR_SM_MAIN_HASHK_PADDING_MISMATCH => Some ErrExecutorSMMainHashKPaddingMismatch
  | EXECUTOR_ERROR_SM_MAIN_HASHK_SIZE_MISMATCH => Some ErrExecutorSMMainHashKSizeMismatch
  | EXECUTOR_ERROR_SM_MAIN_HASHKLEN_LENGTH_MISMATCH => Some ErrExecutorSMMainHashKLenLengthMismatch
  | EXECUTOR_ERROR_SM_MAIN_HASHKLEN_CALLED_TWICE => Some ErrExecutorSMMainHashKLenCalledTwice
  | EXECUTOR_ERROR_SM_MAIN_HASHKDIGEST_NOT_FOUND => Some ErrExecutorSMMainHashKDigestNotFound
  | EXECUTOR_ERROR_SM_MAIN_HASHKDIGEST_DIGEST_MISMATCH => Some ErrExecutorSMMainHashKDigestDigestMismatch
  | EXECUTOR_ERROR_SM_MAIN_HASHKDIGEST_CALLED_TWICE => Some ErrExecutorSMMainHashKDigestCalledTwice
  | EXECUTOR_ERROR_SM_MAIN_HASHP_VALUE_MISMATCH => Some ErrExecutorSMMainHashPValueMismatch
  | EXECUTOR_ERROR_SM_MAIN_HASHP_PADDING_MISMATCH => Some ErrExecutorSMMainHashPPaddingMismatch
  | EXECUTOR_ERROR_SM_MAIN_HASHP_SIZE_MISMATCH => Some ErrExecutorSMMainHashPSizeMismatch
  | EXECUTOR_ERROR_SM_MAIN_HASHPLEN_LENGTH_MISMATCH => Some ErrExecutorSMMainHashPLenLengthMismatch
  | EXECUTOR_ERROR_SM_MAIN_HASHPLEN_CALLED_TWICE => Some ErrExecutorSMMainHashPLenCalledTwice
  | EXECUTOR_ERROR_SM_MAIN_HASHPDIGEST_DIGEST_MISMATCH => Some ErrExecutorSMMainHashPDigestDigestMismatch
  | EXECUTOR_ERROR_SM_MAIN_HASHPDIGEST_CALLED_TWICE => Some ErrExecutorSMMainHashPDigestCalledTwice
  | EXECUTOR_ERROR_SM_MAIN_ARITH_MISMATCH => Some ErrExecutorSMMainArithMismatch
  | EXECUTOR_ERROR_SM_MAIN_ARITH_ECRECOVER_MISMATCH => Some ErrExecutorSMMainArithECRecoverMismatch
  | EXECUTOR_ERROR_SM_MAIN_BINARY_ADD_MISMATCH => Some ErrExecutorSMMainBinaryAddMismatch
  | EXECUTOR_ERROR_SM_MAIN_BINARY_SUB_MISMATCH => Some ErrExecutorSMMainBinarySubMismatch
  | EXECUTOR_ERROR_SM_MAIN_BINARY_LT_MISMATCH => Some ErrExecutorSMMainBinaryLtMismatch
  | EXECUTOR_ERROR_SM_MAIN_BINARY_SLT_MISMATCH => Some ErrExecutorSMMainBinarySLtMismatch
  | EXECUTOR_ERROR_SM_MAIN_BINARY_EQ_MISMATCH => Some ErrExecutorSMMainBinaryEqMismatch
  | EXECUTOR_ERROR_SM_MAIN_BINARY_AND_MISMATCH => Some ErrExecutorSMMainBinaryAndMismatch
  | EXECUTOR_ERROR_SM_MAIN_BINARY_OR_MISMATCH => Some ErrExecutorSMMainBinaryOrMismatch
  | EXECUTOR_ERROR_SM_MAIN_BINARY_XOR_MISMATCH => Some ErrExecutorSMMainBinaryXorMismatch
  | EXECUTOR_ERROR_SM_MAIN_MEMALIGN_WRITE_MISMATCH => Some ErrExecutorSMMainMemAlignWriteMismatch
  | EXECUTOR_ERROR_SM_MAIN_MEMALIGN_WRITE8_MISMATCH => Some ErrExecutorSMMainMemAlignWrite8Mismatch
  | EXECUTOR_ERROR_SM_MAIN_MEMALIGN_READ_MISMATCH => Some ErrExecutorSMMainMemAlignReadMismatch
  | EXECUTOR_ERROR_SM_MAIN_JMPN_OUT_OF_RANGE => Some ErrExecutorSMMainJmpnOutOfRange
  | EXECUTOR_ERROR_SM_MAIN_HASHK_READ_OUT_OF_RANGE => Some ErrExecutorSMMainHashKReadOutOfRange
  | EXECUTOR_ERROR_SM_MAIN_HASHP_READ_OUT_OF_RANGE => Some ErrExecutorSMMainHashPReadOutOfRange
  | EXECUTOR_ERROR_INVALID_OLD_STATE_ROOT => Some ErrExecutorErrorInvalidOldStateRoot
  | EXECUTOR_ERROR_INVALID_OLD_ACC_INPUT_HASH => Some ErrExecutorErrorInvalidOldAccInputHash
  | EXECUTOR_ERROR_INVALID_CHAIN_ID => Some ErrExecutorErrorInvalidChainId
  | EXECUTOR_ERROR_INVALID_BATCH_L2_DATA => Some ErrExecutorErrorInvalidBatchL2Data
  | EXECUTOR_ERROR_INVALID_GLOBAL_EXIT_ROOT => Some ErrExecutorErrorInvalidGlobalExitRoot
  | EXECUTOR_ERROR_INVALID_COINBASE => Some ErrExecutorErrorInvalidCoinbase
  | EXECUTOR_ERROR_INVALID_FROM => Some ErrExecutorErrorInvalidFrom
  | EXECUTOR_ERROR_INVALID_DB_KEY => Some ErrExecutorErrorInvalidDbKey
  | EXECUTOR_ERROR_INVALID_DB_VALUE => Some ErrExecutorErrorInvalidDbValue
  | EXECUTOR_ERROR_INVALID_CONTRACTS_BYTECODE_KEY => Some ErrExecutorErrorInvalidContractsBytecodeKey
  | EXECUTOR_ERROR_INVALID_CONTRACTS_BYTECODE_VALUE => Some ErrExecutorErrorInvalidContractsBytecodeValue
  | EXECUTOR_ERROR_INVALID_GET_KEY => Some ErrExecutorErrorInvalidGetKey
  | EXECUTOR_ERROR_SM_MAIN_COUNTERS_OVERFLOW_SHA256 => Some ErrExecutorSMMainCountersOverflowSha256
  | EXECUTOR_ERROR_SM_MAIN_HASHS => Some ErrExecutorSMMainHashS
  | EXECUTOR_ERROR_SM_MAIN_HASHS_SIZE_OUT_OF_RANGE => Some ErrExecutorSMMainHashSSizeOutOfRange
  | EXECUTOR_ERROR_SM_MAIN_HASHS_POSITION_NEGATIVE => Some ErrExecutorSMMainHashSPositionNegative
  | EXECUTOR_ERROR_SM_MAIN_HASHS_POSITION_PLUS_SIZE_OUT_OF_RANGE => Some ErrExecutorSMMainHashSPositionPlusSizeOutOfRange
  | EXECUTOR_ERROR_SM_MAIN_HASHSDIGEST_ADDRESS_NOT_FOUND => Some ErrExecutorSMMainHashSDigestAddressNotFound
  | EXECUTOR_ERROR_SM_MAIN_HASHSDIGEST_NOT_COMPLETED => Some ErrExecutorSMMainHashSDigestNotCompleted
  | EXECUTOR_ERROR_SM_MAIN_HASHS_VALUE_MISMATCH => Some ErrExecutorSMMainHashSValueMismatch
  | EXECUTOR_ERROR_SM_MAIN_HASHS_PADDING_MISMATCH => Some ErrExecutorSMMainHashSPaddingMismatch
  | EXECUTOR_ERROR_SM_MAIN_HASHS_SIZE_MISMATCH => Some ErrExecutorSMMainHashSSizeMismatch
  | EXECUTOR_ERROR_SM_MAIN_HASHSLEN_LENGTH_MISMATCH => Some ErrExecutorSMMainHashSLenLengthMismatch
  | EXECUTOR_ERROR_SM_MAIN_HASHSLEN_CALLED_TWICE => Some ErrExecutorSMMainHashSLenCalledTwice
  | EXECUTOR_ERROR_SM_MAIN_HASHSDIGEST_NOT_FOUND => Some ErrExecutorSMMainHashSDigestNotFound
  | EXECUTOR_ERROR_SM_MAIN_HASHSDIGEST_DIGEST_MISMATCH => Some ErrExecutorSMMainHashSDigestDigestMismatch
  | EXECUTOR_ERROR_SM_MAIN_HASHSDIGEST_CALLED_TWICE => Some ErrExecutorSMMainHashSDigestCalledTwice
  | EXECUTOR_ERROR_SM_MAIN_HASHS_READ_OUT_OF_RANGE => Some ErrExecutorSMMainHashSReadOutOfRange
  | EXECUTOR_ERROR_INVALID_L1_INFO_ROOT => Some ErrExecutorErrorInvalidL1InfoRoot
  | EXECUTOR_ERROR_INVALID_FORCED_BLOCKHASH_L1 => Some ErrExecutorErrorInvalidForcedBlockhashL1
  | EXECUTOR_ERROR_INVALID_L1_DATA_V2_GLOBAL_EXIT_ROOT => Some ErrExecutorErrorInvalidL1DataV2GlobalExitRoot
  | EXECUTOR_ERROR_INVALID_L1_DATA_V2_BLOCK_HASH_L1 => Some ErrExecutorErrorInvalidL1DataV2BlockHashL1
  | EXECUTOR_ERROR_INVALID_L1_SMT_PROOF => Some ErrExecutorErrorInvalidL1SmtProof
  | EXECUTOR_ERROR_INVALID_BALANCE => Some ErrExecutorErrorInvalidBalance
  | EXECUTOR_ERROR_SM_MAIN_BINARY_LT4_MISMATCH => Some ErrExecutorErrorSMMainBinaryLt4Mismatch
  | EXECUTOR_ERROR_INVALID_NEW_STATE_ROOT => Some ErrExecutorErrorInvalidNewStateRoot
  | EXECUTOR_ERROR_INVALID_NEW_ACC_INPUT_HASH => Some ErrExecutorErrorInvalidNewAccInputHash
  | EXECUTOR_ERROR_INVALID_NEW_LOCAL_EXIT_ROOT => Some ErrExecutorErrorInvalidNewLocalExitRoot
  | _ => Some ErrExecutorUnknown
  end.

Definition ExecutorErrorCode (err : option error) : ExecutorError :=
  match err with
  | None => EXECUTOR_ERROR_NO_ERROR
  | Some ErrExecutorDBError => EXECUTOR_ERROR_DB_ERROR
  | Some ErrExecutorSMMainCountersOverflowSteps => EXECUTOR_ERROR_SM_MAIN_COUNTERS_OVERFLOW_STEPS
  | Some ErrExecutorSMMainCountersOverflowKeccak => EXECUTOR_ERROR_SM_MAIN_COUNTERS_OVERFLOW_KECCAK
  | Some ErrExecutorSMMainCountersOverflowBinary => EXECUTOR_ERROR_SM_MAIN_COUNTERS_OVERFLOW_BINARY
  | Some ErrExecutorSMMainCountersOverflowMem => EXECUTOR_ERROR_SM_MAIN_COUNTERS_OVERFLOW_MEM
  | Some ErrExecutorSMMainCountersOverflowArith => EXECUTOR_ERROR_SM_MAIN_COUNTERS_OVERFLOW_ARITH
  | Some ErrExecutorSMMainCountersOverflowPadding => EXECUTOR_ERROR_SM_MAIN_COUNTERS_OVERFLOW_PADDING
  | Some ErrExecutorSMMainCountersOverflowPoseidon => EXECUTOR_ERROR_SM_MAIN_COUNTERS_OVERFLOW_POSEIDON
  | Some ErrExecutorUnsupportedForkId => EXECUTOR_ERROR_UNSUPPORTED_FORK_ID
  | Some ErrExecutorBalanceMismatch => EXECUTOR_ERROR_BALANCE_MISMATCH
  | Some ErrExecutorFEA2Scalar => EXECUTOR_ERROR_FEA2SCALAR
  | Some ErrExecutorTOS32 => EXECUTOR_ERROR_TOS32
  | Some ErrExecutorSMMainInvalidUnsignedTx => EXECUTOR_ERROR_SM_MAIN_INVALID_UNSIGNED_TX
  | Some ErrExecutorSMMainInvalidNoCounters => EXECUTOR_ERROR_SM_MAIN_INVALID_NO_COUNTERS
  | Some ErrExecutorSMMainArithECRecoverDivideByZero => EXECUTOR_ERROR_SM_MAIN_ARITH_ECRECOVER_DIVIDE_BY_ZERO
  | Some ErrExecutorSMMainAddressOutOfRange => EXECUTOR_ERROR_SM_MAIN_ADDRESS_OUT_OF_RANGE
  | Some ErrExecutorSMMainAddressNegative => EXECUTOR_ERROR_SM_MAIN_ADDRESS_NEGATIVE
  | Some ErrExecutorSMMainStorageInvalidKey => EXECUTOR_ERROR_SM_MAIN_STORAGE_INVALID_KEY
  | Some ErrExecutorSMMainHashK => EXECUTOR_ERROR_SM_MAIN_HASHK
  | Some ErrExecutorSMMainHashKSizeOutOfRange => EXECUTOR_ERROR_SM_MAIN_HASHK_SIZE_OUT_OF_RANGE
  | Some ErrExecutorSMMainHashKPositionNegative => EXECUTOR_ERROR_SM_MAIN_HASHK_POSITION_NEGATIVE
  | Some ErrExecutorSMMainHashKPositionPlusSizeOutOfRange => EXECUTOR_ERROR_SM_MAIN_HASHK_POSITION_PLUS_SIZE_OUT_OF_RANGE
  | Some ErrExecutorSMMainHashKDigestAddressNotFound => EXECUTOR_ERROR_SM_MAIN_HASHKDIGEST_ADDRESS_NOT_FOUND
  | Some ErrExecutorSMMainHashKDigestNotCompleted => EXECUTOR_ERROR_SM_MAIN_HASHKDIGEST_NOT_COMPLETED
  | Some ErrExecutorSMMainHashP => EXECUTOR_ERROR_SM_MAIN_HASHP
  | Some ErrExecutorSMMainHashPSizeOutOfRange => EXECUTOR_ERROR_SM_MAIN_HASHP_SIZE_OUT_OF_RANGE
  | Some ErrExecutorSMMainHashPPositionNegative => EXECUTOR_ERROR_SM_MAIN_HASHP_POSITION_NEGATIVE
  | Some ErrExecutorSMMainHashPPositionPlusSizeOutOfRange => EXECUTOR_ERROR_SM_MAIN_HASHP_POSITION_PLUS_SIZE_OUT_OF_RANGE
  | Some ErrExecutorSMMainHashPDigestAddressNotFound => EXECUTOR_ERROR_SM_MAIN_HASHPDIGEST_ADDRESS_NOT_FOUND
  | Some ErrExecutorSMMainHashPDigestNotCompleted => EXECUTOR_ERROR_SM_MAIN_HASHPDIGEST_NOT_COMPLETED
  | Some ErrExecutorSMMainMemAlignOffsetOutOfRange => EXECUTOR_ERROR_SM_MAIN_MEMALIGN_OFFSET_OUT_OF_RANGE
  | Some ErrExecutorSMMainMultipleFreeIn => EXECUTOR_ERROR_SM_MAIN_MULTIPLE_FREEIN
  | Some ErrExecutorSMMainAssert => EXECUTOR_ERROR_SM_MAIN_ASSERT
  | Some ErrExecutorSMMainMemory => EXECUTOR_ERROR_SM_MAIN_MEMORY
  | Some ErrExecutorSMMainStorageReadMismatch => EXECUTOR_ERROR_SM_MAIN_STORAGE_READ_MISMATCH
  | Some ErrExecutorSMMainStorageWriteMismatch => EXECUTOR_ERROR_SM_MAIN_STORAGE_WRITE_MISMATCH
  | Some ErrExecutorSMMainHashKValueMismatch => EXECUTOR_ERROR_SM_MAIN_HASHK_VALUE_MISMATCH
  | Some ErrExecutorSMMainHashKPaddingMismatch => EXECUTOR_ERROR_SM_MAIN_HASHK_PADDING_MISMATCH
  | Some ErrExecutorSMMainHashKSizeMismatch => EXECUTOR_ERROR_SM_MAIN_HASHK_SIZE_MISMATCH
  | Some ErrExecutorSMMainHashKLenLengthMismatch => EXECUTOR_ERROR_SM_MAIN_HASHKLEN_LENGTH_MISMATCH
  | Some ErrExecutorSMMainHashKLenCalledTwice => EXECUTOR_ERROR_SM_MAIN_HASHKLEN_CALLED_TWICE
  | Some ErrExecutorSMMainHashKDigestNotFound => EXECUTOR_ERROR_SM_MAIN_HASHKDIGEST_NOT_FOUND
  | Some ErrExecutorSMMainHashKDigestDigestMismatch => EXECUTOR_ERROR_SM_MAIN_HASHKDIGEST_DIGEST_MISMATCH
  | Some ErrExecutorSMMainHashKDigestCalledTwice => EXECUTOR_ERROR_SM_MAIN_HASHKDIGEST_CALLED_TWICE
  | Some ErrExecutorSMMainHashPValueMismatch => EXECUTOR_ERROR_SM_MAIN_HASHP_VALUE_MISMATCH
  | Some ErrExecutorSMMainHashPPaddingMismatch => EXECUTOR_ERROR_SM_MAIN_HASHP_PADDING_MISMATCH
  | Some ErrExecutorSMMainHashPSizeMismatch => EXECUTOR_ERROR_SM_MAIN_HASHP_SIZE_MISMATCH
  | Some ErrExecutorSMMainHashPLenLengthMismatch => EXECUTOR_ERROR_SM_MAIN_HASHPLEN_LENGTH_MISMATCH
  | Some ErrExecutorSMMainHashPLenCalledTwice => EXECUTOR_ERROR_SM_MAIN_HASHPLEN_CALLED_TWICE
  | Some ErrExecutorSMMainHashPDigestDigestMismatch => EXECUTOR_ERROR_SM_MAIN_HASHPDIGEST_DIGEST_MISMATCH
  | Some ErrExecutorSMMainHashPDigestCalledTwice => EXECUTOR_ERROR_SM_MAIN_HASHPDIGEST_CALLED_TWICE
  | Some ErrExecutorSMMainArithMismatch => EXECUTOR_ERROR_SM_MAIN_ARITH_MISMATCH
  | Some ErrExecutorSMMainArithECRecoverMismatch => EXECUTOR_ERROR_SM_MAIN_ARITH_ECRECOVER_MISMATCH
  | Some ErrExecutorSMMainBinaryAddMismatch => EXECUTOR_ERROR_SM_MAIN_BINARY_ADD_MISMATCH
  | Some ErrExecutorSMMainBinarySubMismatch => EXECUTOR_ERROR_SM_MAIN_BINARY_SUB_MISMATCH
  | Some ErrExecutorSMMainBinaryLtMismatch => EXECUTOR_ERROR_SM_MAIN_BINARY_LT_MISMATCH
  | Some ErrExecutorSMMainBinarySLtMismatch => EXECUTOR_ERROR_SM_MAIN_BINARY_SLT_MISMATCH
  | Some ErrExecutorSMMainBinaryEqMismatch => EXECUTOR_ERROR_SM_MAIN_BINARY_EQ_MISMATCH
  | Some ErrExecutorSMMainBinaryAndMismatch => EXECUTOR_ERROR_SM_MAIN_BINARY_AND_MISMATCH
  | Some ErrExecutorSMMainBinaryOrMismatch => EXECUTOR_ERROR_SM_MAIN_BINARY_OR_MISMATCH
  | Some ErrExecutorSMMainBinaryXorMismatch => EXECUTOR_ERROR_SM_MAIN_BINARY_XOR_MISMATCH
  | Some ErrExecutorSMMainMemAlignWriteMismatch => EXECUTOR_ERROR_SM_MAIN_MEMALIGN_WRITE_MISMATCH
  | Some ErrExecutorSMMainMemAlignWrite8Mismatch => EXECUTOR_ERROR_SM_MAIN_MEMALIGN_WRITE8_MISMATCH
  | Some ErrExecutorSMMainMemAlignReadMismatch => EXECUTOR_ERROR_SM_MAIN_MEMALIGN_READ_MISMATCH
  | Some ErrExecutorSMMainJmpnOutOfRange => EXECUTOR_ERROR_SM_MAIN_JMPN_OUT_OF_RANGE
  | Some ErrExecutorSMMainHashKReadOutOfRange => EXECUTOR_ERROR_SM_MAIN_HASHK_READ_OUT_OF_RANGE
  | Some ErrExecutorSMMainHashPReadOutOfRange => EXECUTOR_ERROR_SM_MAIN_HASHP_READ_OUT_OF_RANGE
  | Some ErrExecutorErrorInvalidOldStateRoot => EXECUTOR_ERROR_INVALID_OLD_STATE_ROOT
  | Some ErrExecutorErrorInvalidOldAccInputHash => EXECUTOR_ERROR_INVALID_OLD_ACC_INPUT_HASH
  | Some ErrExecutorErrorInvalidChainId => EXECUTOR_ERROR_INVALID_CHAIN_ID
  | Some ErrExecutorErrorInvalidBatchL2Data => EXECUTOR_ERROR_INVALID_BATCH_L2_DATA
  | Some ErrExecutorErrorInvalidGlobalExitRoot => EXECUTOR_ERROR_INVALID_GLOBAL_EXIT_ROOT
  | Some ErrExecutorErrorInvalidCoinbase => EXECUTOR_ERROR_INVALID_COINBASE
  | Some ErrExecutorErrorInvalidFrom => EXECUTOR_ERROR_INVALID_FROM
  | Some ErrExecutorErrorInvalidDbKey => EXECUTOR_ERROR_INVALID_DB_KEY
  | Some ErrExecutorErrorInvalidDbValue => EXECUTOR_ERROR_INVALID_DB_VALUE
  | Some ErrExecutorErrorInvalidContractsBytecodeKey => EXECUTOR_ERROR_INVALID_CONTRACTS_BYTECODE_KEY
  | Some ErrExecutorErrorInvalidContractsBytecodeValue => EXECUTOR_ERROR_INVALID_CONTRACTS_BYTECODE_VALUE
  | Some ErrExecutorErrorInvalidGetKey => EXECUTOR_ERROR_INVALID_GET_KEY
  | Some ErrExecutorSMMainCountersOverflowSha256 => EXECUTOR_ERROR_SM_MAIN_COUNTERS_OVERFLOW_SHA256
  | Some ErrExecutorSMMainHashS => EXECUTOR_ERROR_SM_MAIN_HASHS
  | Some ErrExecutorSMMainHashSSizeOutOfRange => EXECUTOR_ERROR_SM_MAIN_HASHS_SIZE_OUT_OF_RANGE
  | Some ErrExecutorSMMainHashSPositionNegative => EXECUTOR_ERROR_SM_MAIN_HASHS_POSITION_NEGATIVE
  | Some ErrExecutorSMMainHashSPositionPlusSizeOutOfRange => EXECUTOR_ERROR_SM_MAIN_HASHS_POSITION_PLUS_SIZE_OUT_OF_RANGE
  | Some ErrExecutorSMMainHashSDigestAddressNotFound => EXECUTOR_ERROR_SM_MAIN_HASHSDIGEST_ADDRESS_NOT_FOUND
  | Some ErrExecutorSMMainHashSDigestNotCompleted => EXECUTOR_ERROR_SM_MAIN_HASHSDIGEST_NOT_COMPLETED
  | Some ErrExecutorSMMainHashSValueMismatch => EXECUTOR_ERROR_SM_MAIN_HASHS_VALUE_MISMATCH
  | Some ErrExecutorSMMainHashSPaddingMismatch => EXECUTOR_ERROR_SM_MAIN_HASHS_PADDING_MISMATCH
  | Some ErrExecutorSMMainHashSSizeMismatch => EXECUTOR_ERROR_SM_MAIN_HASHS_SIZE_MISMATCH
  | Some ErrExecutorSMMainHashSLenLengthMismatch => EXECUTOR_ERROR_SM_MAIN_HASHSLEN_LENGTH_MISMATCH
  | Some ErrExecutorSMMainHashSLenCalledTwice => EXECUTOR_ERROR_SM_MAIN_HASHSLEN_CALLED_TWICE
  | Some ErrExecutorSMMainHashSDigestNotFound => EXECUTOR_ERROR_SM_MAIN_HASHSDIGEST_NOT_FOUND
  | Some ErrExecutorSMMainHashSDigestDigestMismatch => EXECUTOR_ERROR_SM_MAIN_HASHSDIGEST_DIGEST_MISMATCH
  | Some ErrExecutorSMMainHashSDigestCalledTwice => EXECUTOR_ERROR_SM_MAIN_HASHSDIGEST_CALLED_TWICE
  | Some ErrExecutorSMMainHashSReadOutOfRange => EXECUTOR_ERROR_SM_MAIN_HASHS_READ_OUT_OF_RANGE
  | Some ErrExecutorErrorInvalidL1InfoRoot => EXECUTOR_ERROR_INVALID_L1_INFO_ROOT
  | Some ErrExecutorErrorInvalidForcedBlockhashL1 => EXECUTOR_ERROR_INVALID_FORCED_BLOCKHASH_L1
  | Some ErrExecutorErrorInvalidL1DataV2GlobalExitRoot => EXECUTOR_ERROR_INVALID_L1_DATA_V2_GLOBAL_EXIT_ROOT
  | Some ErrExecutorErrorInvalidL1DataV2BlockHashL1 => EXECUTOR_ERROR_INVALID_L1_DATA_V2_BLOCK_HASH_L1
  | Some ErrExecutorErrorInvalidL1SmtProof => EXECUTOR_ERROR_INVALID_L1_SMT_PROOF
  | Some ErrExecutorErrorInvalidBalance => EXECUTOR_ERROR_INVALID_BALANCE
  | Some ErrExecutorErrorSMMainBinaryLt4Mismatch => EXECUTOR_ERROR_SM_MAIN_BINARY_LT4_MISMATCH
  | _ => ErrCodeExecutorUnknown
  end.

(** ** Classification *)

Definition rom_between (lo hi c : RomError) : bool :=
  (RomError_number lo <=? RomError_number c) && (RomError_number c <=? RomError_number hi).

Definition IsROMOutOfCountersError : RomError → bool :=
  rom_between ROM_ERROR_OUT_OF_COUNTERS_STEP ROM_ERROR_OUT_OF_COUNTERS_POSEIDON.

Definition IsROMOutOfGasError (c : RomError) : bool :=
  RomError_number c =? RomError_number ROM_ERROR_OUT_OF_GAS.

Definition IsExecutorCountersOverflowError (c : ExecutorError) : bool :=
  (ExecutorError_number EXECUTOR_ERROR_SM_MAIN_COUNTERS_OVERFLOW_STEPS <=? ExecutorError_number c)
  && (ExecutorError_number c <=? ExecutorError_number EXECUTOR_ERROR_SM_MAIN_COUNTERS_OVERFLOW_POSEIDON)
  || (ExecutorError_number c =? ExecutorError_number EXECUTOR_ERROR_SM_MAIN_COUNTERS_OVERFLOW_SHA256).

Definition IsExecutorUnspecifiedError (c : ExecutorError) : bool :=
  ExecutorError_number c =? ExecutorError_number EXECUTOR_ERROR_UNSPECIFIED.

Definition IsIntrinsicError : RomError → bool :=
  rom_between ROM_ERROR_INTRINSIC_INVALID_SIGNATURE ROM_ERROR_INTRINSIC_TX_GAS_OVERFLOW.

Definition IsInvalidNonceError (c : RomError) : bool :=
  RomError_number c =? RomError_number ROM_ERROR_INTRINSIC_INVALID_NONCE.

Definition IsInvalidBalanceError (c : RomError) : bool :=
  RomError_number c =? RomError_number ROM_ERROR_INTRINSIC_INVALID_BALANCE.

Definition IsInvalidL2Block : RomError → bool :=
  rom_between ROM_ERROR_INVALID_DECODE_CHANGE_L2_BLOCK
    ROM_ERROR_INVALID_TX_CHANGE_L2_BLOCK_MIN_TIMESTAMP.

(** [state/converters.go] *)
Definition IsStateRootChanged (c : RomError) : bool :=
  negb (IsIntrinsicError c) && negb (IsROMOutOfCountersError c) &&
  negb (RomError_number c =? RomError_number ROM_ERROR_INVALID_RLP).

(** [state/runtime/runtime.go]: [errors.Is] of an error that wraps no other is
    equality. *)
Definition errors_Is (err : option error) (target : error) : bool :=
  bool_decide (err = Some target).

Definition IsOutOfCounterError (err : option error) : bool :=
  errors_Is err ErrOutOfCountersArith || errors_Is err ErrOutOfCountersBinary
  || errors_Is err ErrOutOfCountersKeccak || errors_Is err ErrOutOfCountersMemory
  || errors_Is err ErrOutOfCountersPadding || errors_Is err ErrOutOfCountersPoseidon
  || errors_Is err ErrOutOfCountersStep.

(** The level flags that [convertToProcessTransactionResponseV2] derives from
    the codes of the responses; a code that invalidates the block ends the loop
    with an error. *)
Fixpoint response_flags (codes : list RomError) (isRomLevelError isRomOOCError : bool) :
    bool * bool * bool :=
  match codes with
  | [] => (isRomLevelError, isRomOOCError, false)
  | c :: codes =>
      let isRomLevelError :=
        isRomLevelError || negb (RomError_number c =? RomError_number ROM_ERROR_NO_ERROR) in
      let isRomOOCError := isRomOOCError || IsROMOutOfCountersError c in
      if IsInvalidL2Block c then (isRomLevelError, isRomOOCError, true)
      else response_flags codes isRomLevelError isRomOOCError
  end.

(** ** Properties *)

(** A code without a name has the number of no named code. *)
Definition rom_code_wf (c : RomError) : Prop :=
  match c with RomError_other n => n < 0 ∨ 34 < n | _ => True end.

Lemma other_between lo hi n :
  0 ≤ RomError_number lo → RomError_number hi ≤ 34 → n < 0 ∨ 34 < n →
  rom_between lo hi (RomError_other n) = false.
Proof.
  intros Hlo Hhi Hn. unfold rom_between. cbn.
  destruct (Z.leb_spec (RomError_number lo) n), (Z.leb_spec n (RomError_number hi)); cbn;
    try done; lia.
Qed.

(** The flags say exactly whether some response failed and whether one ran out
    of counters, when no code invalidates the block. *)
Lemma response_flags_spec codes a b :
  Forall (λ c, IsInvalidL2Block c = false) codes →
  response_flags codes a b =
    (a || existsb (λ c, negb (RomError_number c =? 1)) codes,
     b || existsb IsROMOutOfCountersError codes, false).
Proof.
  intros Hc. revert a b. induction Hc as [|c codes Hc _ IH]; intros a b; cbn.
  - by rewrite !orb_false_r.
  - rewrite Hc, IH. by rewrite !orb_assoc.
Qed.

(** The error of a code leads back to the code, and the code of an error to
    the error, in the tables of the ROM and of the executor; the exceptions are
    the codes for an unspecified error, the ROM's code for the SHA counter, which
    has no error, and three codes of the executor, whose errors have no code. *)
Theorem error_codes_roundtrip :
  (∀ c, RomErrorCode (RomErr c) =
        match c with
        | ROM_ERROR_UNSPECIFIED | ROM_ERROR_OUT_OF_COUNTERS_SHA | RomError_other _ => ErrCodeROMUnknown
        | _ => c
        end) ∧
  (∀ c, ExecutorErrorCode (ExecutorErr c) =
        match c with
        | EXECUTOR_ERROR_UNSPECIFIED
        | EXECUTOR_ERROR_INVALID_NEW_STATE_ROOT | EXECUTOR_ERROR_INVALID_NEW_ACC_INPUT_HASH
        | EXECUTOR_ERROR_INVALID_NEW_LOCAL_EXIT_ROOT | ExecutorError_other _ => ErrCodeExecutorUnknown
        | _ => c
        end) ∧
  (∀ e, RomErrorCode e ≠ ErrCodeROMUnknown → RomErr (RomErrorCode e) = e) ∧
  (∀ e, ExecutorErrorCode e ≠ ErrCodeExecutorUnknown → ExecutorErr (ExecutorErrorCode e) = e).
Proof.
  split; [by intros []|]. split; [by intros []|].
  split; intros [[]|]; cbn; congruence.
Qed.

(** A transaction that runs out of the SHA counter is not recognised as out
    of counters: the ROM's code for it is outside the range of the counters, so
    that it counts as a change of the state root and maps to the unknown error,
    whereas the executor's overflow of the same counter is recognised, and every
    other counter of the ROM is.  The classification of the codes agrees with that
    of the errors they translate to. *)
Theorem sha_counter_not_recognised :
  (∀ c, rom_code_wf c →
     IsROMOutOfCountersError c = true ↔
     c ∈ [ROM_ERROR_OUT_OF_COUNTERS_STEP; ROM_ERROR_OUT_OF_COUNTERS_KECCAK;
          ROM_ERROR_OUT_OF_COUNTERS_BINARY; ROM_ERROR_OUT_OF_COUNTERS_MEM;
          ROM_ERROR_OUT_OF_COUNTERS_ARITH; ROM_ERROR_OUT_OF_COUNTERS_PADDING;
          ROM_ERROR_OUT_OF_COUNTERS_POSEIDON]) ∧
  (∀ c, rom_code_wf c → IsOutOfCounterError (RomErr c) = IsROMOutOfCountersError c) ∧
  IsStateRootChanged ROM_ERROR_OUT_OF_COUNTERS_SHA = true ∧
  RomErr ROM_ERROR_OUT_OF_COUNTERS_SHA = Some ErrROMUnknown ∧
  IsExecutorCountersOverflowError EXECUTOR_ERROR_SM_MAIN_COUNTERS_OVERFLOW_SHA256 = true.
Proof.
  split_and!; try done; intros c Hc; [split|].
  - intros H. destruct c; first
      [ by (vm_compute in H; discriminate H)
      | set_solver
      | unfold IsROMOutOfCountersError in H; rewrite other_between in H; cbn; done || lia ].
  - intros Hin. repeat (apply elem_of_cons in Hin as [->|Hin]; [done|]).
    by apply elem_of_nil in Hin.
  - destruct c; try done. symmetry. unfold IsROMOutOfCountersError.
    rewrite other_between; cbn; done || lia.
Qed.

Lemma sha_counter_not_recognised_witness :
  IsROMOutOfCountersError ROM_ERROR_OUT_OF_COUNTERS_MEM = true.
Proof.
  destruct sha_counter_not_recognised as [Hiff _]. apply Hiff; [exact I|].
  do 3 right. left.
Defined.

Lemma error_codes_roundtrip_witness :
  RomErr (RomErrorCode (Some ErrOutOfGas)) = Some ErrOutOfGas.
Proof.
  destruct error_codes_roundtrip as (_ & _ & Hrom & _). apply Hrom. discriminate.
Defined.
