(* ===== verification/GoFloat.v ===== *)
(** * Floating point numbers of Go

    [float64] is the binary64 format of the Standard Library's [SpecFloat]:
    the conversion of an integer and the product round to nearest, ties to
    even.  The conversion of a [float64] outside the range of [uint64] is
    implementation-dependent in Go, so it is a parameter.

    [big.Float] carries its precision in bits; an operation on a receiver of
    precision 0 takes the larger precision of its operands and rounds to
    nearest, ties to even.  The exponents of the values used here stay far
    from the limits of [big.Float], which are not modelled. *)

From Stdlib Require Import SpecFloat.
From S2P Require Import Prelude.

(** ** binary64 *)

Abbreviation float64 := spec_float.

Class GoFloatConv := { uint64_out_of_range : float64 → Z }.

(** [float64(n)] for an unsigned [n], and the product *)
Definition float64_of_uint64 (n : Z) : float64 := binary_normalize 53 1024 n 0 false.
Definition float64_mul : float64 → float64 → float64 := SFmul 53 1024.

(** [uint64(f)] drops the fraction. *)
Definition uint64_of_float64 `{!GoFloatConv} (f : float64) : Z :=
  match f with
  | S754_zero _ => 0
  | S754_finite s m e =>
      let v := Z.quot ((if s then -1 else 1) * Z.pos m * 2 ^ Z.max 0 e) (2 ^ Z.max 0 (- e)) in
      if (0 <=? v) && (v <? 2 ^ 64) then v else uint64_out_of_range f
  | S754_infinity _ | S754_nan => uint64_out_of_range f
  end.

Class GoFloatConvLaws `{!GoFloatConv} : Prop := {
  uint64_out_of_range_u64 : ∀ f, in_u64 (uint64_out_of_range f)
}.

Lemma uint64_of_float64_range `{!GoFloatConv, !GoFloatConvLaws} f :
  in_u64 (uint64_of_float64 f).
Proof.
  destruct f as [s|s| |s m e]; simpl;
    [by vm_compute | apply uint64_out_of_range_u64..|].
  case_match eqn:Hv; [|apply uint64_out_of_range_u64].
  apply andb_prop in Hv as [?%Z.leb_le ?%Z.ltb_lt]. done.
Qed.

(** *** Integers below [2 ^ 53] and the factor one are exact *)

Definition float64_one : float64 := S754_finite false 4503599627370496 (-52).

(** [m] with [k] zeros behind it. *)
Definition shl_pos (m : positive) (k : nat) : positive := Nat.iter k xO m.

Lemma iter_pos_nat {A} (f : A → A) p x : SpecFloat.iter_pos f p x = Nat.iter (Pos.to_nat p) f x.
Proof.
  revert x. induction p as [p IH|p IH|]; intros x; cbn [SpecFloat.iter_pos]; [| |done].
  - rewrite !IH, <-Nat.iter_add, Pos2Nat.inj_xI, Nat.iter_succ_r.
    do 2 f_equal. lia.
  - rewrite !IH, <-Nat.iter_add, Pos2Nat.inj_xO. f_equal. lia.
Qed.

Lemma shr_shl m k :
  Nat.iter k shr_1 (Build_shr_record (Z.pos (shl_pos m k)) false false)
  = Build_shr_record (Z.pos m) false false.
Proof.
  induction k as [|k IH]; [done|]. rewrite Nat.iter_succ_r. exact IH.
Qed.

Lemma digits2_shl m k :
  Z.pos (digits2_pos (shl_pos m k)) = Z.pos (digits2_pos m) + Z.of_nat k.
Proof.
  induction k as [|k IH]; [by rewrite Z.add_0_r|].
  change (shl_pos m (S k)) with (xO (shl_pos m k)). cbn [digits2_pos].
  rewrite Pos2Z.inj_succ. lia.
Qed.

Lemma digits2_bounds m :
  2 ^ (Z.pos (digits2_pos m) - 1) ≤ Z.pos m < 2 ^ Z.pos (digits2_pos m).
Proof.
  induction m as [m IH|m IH|]; cbn [digits2_pos]; [| |done];
    rewrite Pos2Z.inj_succ, Z.pow_succ_r, Z.sub_1_r, Z.pred_succ by lia;
    assert (2 ^ Z.pos (digits2_pos m) = 2 * 2 ^ (Z.pos (digits2_pos m) - 1)) as Hd
      by (rewrite <-Z.pow_succ_r by lia; f_equal; lia); lia.
Qed.

(** A mantissa of 53 bits with zeros behind it is kept. *)
Lemma round_aux_exact m k e :
  Z.pos (digits2_pos m) = 53 → -1000 ≤ e + Z.of_nat k ≤ 900 →
  binary_round_aux 53 1024 false (Z.pos (shl_pos m k)) e loc_Exact
  = S754_finite false m (e + Z.of_nat k).
Proof.
  intros Hm He.
  assert (shr_fexp 53 1024 (Z.pos (shl_pos m k)) e loc_Exact
    = (Build_shr_record (Z.pos m) false false, e + Z.of_nat k)) as Hshr.
  { unfold shr_fexp, fexp, emin. cbn [Zdigits2 shr_record_of_loc].
    rewrite digits2_shl, Hm, Z.max_l by lia.
    replace (53 + Z.of_nat k + e - 53 - e) with (Z.of_nat k) by lia.
    destruct k as [|k]; [by rewrite Z.add_0_r|]. unfold shr.
    change (Z.of_nat (S k)) with (Z.pos (Pos.of_succ_nat k)) at 1. cbv beta iota.
    rewrite iter_pos_nat, SuccNat2Pos.id_succ, shr_shl. done. }
  unfold binary_round_aux. rewrite Hshr. cbn [shr_m loc_of_shr_record SpecFloat.round_nearest_even].
  unfold shr_fexp, fexp, emin. cbn [Zdigits2 shr_record_of_loc].
  rewrite Hm, Z.max_l by lia.
  replace (53 + (e + Z.of_nat k) - 53 - (e + Z.of_nat k)) with 0 by lia.
  cbn [shr shr_m]. by rewrite (proj2 (Z.leb_le _ _)) by lia.
Qed.

Lemma shl_pos_mul m k : Z.pos (shl_pos m k) = Z.pos m * 2 ^ Z.of_nat k.
Proof.
  induction k as [|k IH]; [by rewrite Z.mul_1_r|].
  change (shl_pos m (S k)) with (xO (shl_pos m k)).
  rewrite Nat2Z.inj_succ, Z.pow_succ_r, Pos2Z.inj_xO, IH by lia. lia.
Qed.

Lemma float64_of_uint64_exact n :
  Z.pos n < 2 ^ 53 → ∃ k, (k ≤ 52)%nat ∧ Z.pos (digits2_pos (shl_pos n k)) = 53 ∧
    float64_of_uint64 (Z.pos n) = S754_finite false (shl_pos n k) (- Z.of_nat k).
Proof.
  intros Hn. pose proof (digits2_bounds n) as [Hlo _].
  assert (Z.pos (digits2_pos n) ≤ 53) as Hd.
  { apply Z.le_ngt. intros Hgt.
    assert (2 ^ 53 ≤ 2 ^ (Z.pos (digits2_pos n) - 1)) by (apply Z.pow_le_mono_r; lia). lia. }
  exists (Z.to_nat (53 - Z.pos (digits2_pos n))).
  set (k := Z.to_nat (53 - Z.pos (digits2_pos n))).
  assert (Z.pos (digits2_pos (shl_pos n k)) = 53) as Hk by (rewrite digits2_shl; lia).
  split_and!; [lia|done|].
  assert (shl_align n 0 (fexp 53 1024 (Z.pos (digits2_pos n) + 0)) = (shl_pos n k, - Z.of_nat k))
    as Hal.
  { unfold shl_align, fexp, emin. rewrite Z.max_l by lia.
    replace (Z.pos (digits2_pos n) + 0 - 53 - 0) with (- Z.of_nat k) by lia.
    replace (Z.pos (digits2_pos n) + 0 - 53) with (- Z.of_nat k) by lia.
    destruct k as [|k'] eqn:Ek; [done|].
    change (- Z.of_nat (S k')) with (Z.neg (Pos.of_succ_nat k')). f_equal.
    rewrite Pos2Nat.inj_iter, SuccNat2Pos.id_succ. done. }
  unfold float64_of_uint64, binary_normalize, binary_round. rewrite Hal.
  pose proof (round_aux_exact (shl_pos n k) 0 (- Z.of_nat k) Hk ltac:(lia)) as Hr.
  rewrite Z.add_0_r in Hr. exact Hr.
Qed.

Lemma uint64_mul_one `{!GoFloatConv} n :
  0 ≤ n < 2 ^ 53 → uint64_of_float64 (float64_mul (float64_of_uint64 n) float64_one) = n.
Proof.
  intros [Hlo Hn]. destruct n as [|n|n]; [done| |lia].
  destruct (float64_of_uint64_exact n Hn) as (k & Hk & Hd & ->).
  unfold float64_mul, float64_one. cbn [SFmul xorb].
  replace (shl_pos n k * 4503599627370496)%positive with (shl_pos (shl_pos n k) 52);
    [|apply Pos2Z.inj; by rewrite Pos2Z.inj_mul, (shl_pos_mul (shl_pos n k))].
  rewrite round_aux_exact by (done || lia). cbn [uint64_of_float64].
  replace (- Z.of_nat k + -52 + Z.of_nat 52) with (- Z.of_nat k) by lia.
  rewrite shl_pos_mul, Z.opp_involutive, Z.mul_1_l, (Z.max_l 0 (- _)), Z.max_r by lia.
  rewrite Z.mul_1_r, Z.quot_mul by (apply Z.pow_nonzero; lia).
  rewrite (proj2 (Z.leb_le _ _)), (proj2 (Z.ltb_lt _ _)) by lia. done.
Qed.

(** ** [big.Float] *)

Inductive BigFloat :=
  | BFin (prec m e : Z)
  | BInf (prec : Z) (neg : bool).

Definition bf_prec (x : BigFloat) : Z :=
  match x with BFin p _ _ => p | BInf p _ => p end.

(** [BitLen] of a [big.Int] *)
Definition BitLen (x : Z) : Z := if decide (x = 0) then 0 else Z.log2 (Z.abs x) + 1.

Definition bf_SetUint64 (x : Z) : BigFloat := BFin 64 x 0.
Definition bf_SetInt (x : Z) : BigFloat := BFin (Z.max (BitLen x) 64) x 0.
Definition bf_one : BigFloat := BFin 53 1 0.

(** The nearest integer to [n / d], ties to even *)
Definition round_nearest_even (n d : Z) : Z :=
  let q := n / d in
  match 2 * (n mod d) ?= d with
  | Lt => q
  | Gt => q + 1
  | Eq => if Z.even q then q else q + 1
  end.

(** [n / d / 2 ^ e] as a fraction *)
Definition scaled (n d e : Z) : Z * Z := (n * 2 ^ Z.max 0 (- e), d * 2 ^ Z.max 0 e).

(** The exponent that leaves [prec] bits before the point of a positive
    [n / d] *)
Definition round_exponent (prec n d : Z) : Z :=
  let e := Z.log2 n - Z.log2 d - prec in
  let '(a, b) := scaled n d e in
  if 2 ^ prec <=? a / b then e + 1 else e.

(** [n / d] rounded to [prec] bits: mantissa and exponent *)
Definition round_to (prec n d : Z) : Z * Z :=
  if decide (n = 0) then (0, 0)
  else
    let e := round_exponent prec (Z.abs n) d in
    let '(a, b) := scaled (Z.abs n) d e in
    (Z.sgn n * round_nearest_even a b, e).

(** [x.Cmp(y) == 1] for finite numbers *)
Definition bf_gt (x y : BigFloat) : bool :=
  match x, y with
  | BFin _ m1 e1, BFin _ m2 e2 =>
      m2 * 2 ^ Z.max 0 (e2 - e1) <? m1 * 2 ^ Z.max 0 (e1 - e2)
  | BFin _ _ _, BInf _ neg => neg
  | BInf _ neg, BFin _ _ _ => negb neg
  | BInf _ neg, BInf _ neg' => negb neg && neg'
  end.

(** [Quo] and [Mul] panic on the undefined forms 0/0, Inf/Inf and 0*Inf. *)
Definition bf_Quo {E} (x y : BigFloat) : GoRes E BigFloat :=
  let prec := Z.max (bf_prec x) (bf_prec y) in
  match x, y with
  | BFin _ m1 e1, BFin _ m2 e2 =>
      if decide (m2 = 0)
      then if decide (m1 = 0) then Panic else Ret (BInf prec (m1 <? 0))
      else
        let '(m, e) := round_to prec (Z.sgn m2 * m1 * 2 ^ Z.max 0 (e1 - e2))
                         (Z.abs m2 * 2 ^ Z.max 0 (e2 - e1)) in
        Ret (BFin prec m e)
  | BFin _ _ _, BInf _ _ => Ret (BFin prec 0 0)
  | BInf _ neg, BFin _ m2 _ => Ret (BInf prec (xorb neg (m2 <? 0)))
  | BInf _ _, BInf _ _ => Panic
  end.

Definition bf_Mul {E} (x y : BigFloat) : GoRes E BigFloat :=
  let prec := Z.max (bf_prec x) (bf_prec y) in
  match x, y with
  | BFin _ m1 e1, BFin _ m2 e2 =>
      let '(m, e) := round_to prec (m1 * m2 * 2 ^ Z.max 0 (e1 + e2))
                       (2 ^ Z.max 0 (- (e1 + e2))) in
      Ret (BFin prec m e)
  | BFin _ m _, BInf _ neg | BInf _ neg, BFin _ m _ =>
      if decide (m = 0) then Panic else Ret (BInf prec (xorb neg (m <? 0)))
  | BInf _ neg, BInf _ neg' => Ret (BInf prec (xorb neg neg'))
  end.

(** [x.Int(z)] truncates; an infinity leaves [z] as it was. *)
Definition bf_Int (x : BigFloat) (z : Z) : Z :=
  match x with
  | BFin _ m e => Z.quot (m * 2 ^ Z.max 0 e) (2 ^ Z.max 0 (- e))
  | BInf _ _ => z
  end.

(** ** Rounding does not cross a representable number *)

Lemma round_nearest_even_ge n d k : 0 < d → k * d ≤ n → k ≤ round_nearest_even n d.
Proof.
  intros Hd Hk. assert (k ≤ n / d) by (apply Z.div_le_lower_bound; lia).
  unfold round_nearest_even. repeat case_match; lia.
Qed.

Lemma pow2_pos e : 0 < 2 ^ Z.max 0 e.
Proof. apply Z.pow_pos_nonneg; lia. Qed.

Lemma pow2_half p : 0 < p → 2 ^ p = 2 ^ (p - 1) * 2.
Proof.
  intros Hp. change 2 with (2 ^ 1) at 3. rewrite <-Z.pow_add_r by lia. f_equal. lia.
Qed.

(** With the chosen exponent the quotient keeps [prec] bits. *)
Lemma round_exponent_bits prec n d :
  0 < prec → 0 < n → 0 < d → 0 < round_exponent prec n d →
  2 ^ (prec - 1) * (d * 2 ^ round_exponent prec n d) ≤ n.
Proof.
  intros Hp Hn Hd. unfold round_exponent, scaled. set (e := Z.log2 n - Z.log2 d - prec).
  destruct (Z.leb_spec (2 ^ prec)
    (n * 2 ^ Z.max 0 (- e) / (d * 2 ^ Z.max 0 e))) as [Hq|_]; intros He.
  - rewrite (Z.max_l 0 (- e)), (Z.max_r 0 e), Z.pow_0_r, Z.mul_1_r in Hq by lia.
    assert (0 < d * 2 ^ e) by (apply Z.mul_pos_pos; [done | apply Z.pow_pos_nonneg; lia]).
    assert (2 ^ prec * (d * 2 ^ e) ≤ n).
    { pose proof (Z.mul_div_le n (d * 2 ^ e)). nia. }
    rewrite (Z.pow_add_r 2 e 1) by lia.
    pose proof (pow2_half prec Hp). lia.
  - destruct (Z.log2_spec n Hn) as [Hl _]. destruct (Z.log2_spec d Hd) as [_ Hu].
    transitivity (2 ^ (prec - 1) * (2 ^ Z.succ (Z.log2 d) * 2 ^ e)).
    + apply Z.mul_le_mono_nonneg_l; [lia|]. apply Z.mul_le_mono_nonneg_r; lia.
    + pose proof (Z.log2_nonneg d). rewrite <-!Z.pow_add_r by lia.
      replace (prec - 1 + (Z.succ (Z.log2 d) + e)) with (Z.log2 n) by lia. done.
Qed.

(** A positive quotient that is at least the integer [k] of at most [prec]
    bits still is after rounding. *)
Lemma round_to_ge prec n d k m e :
  0 < prec → 0 < d → 0 ≤ k < 2 ^ prec → k * d ≤ n → round_to prec n d = (m, e) →
  k * 2 ^ Z.max 0 (- e) ≤ m * 2 ^ Z.max 0 e.
Proof.
  intros Hp Hd Hk Hn. unfold round_to. case_decide as Hz.
  { intros [= <- <-]. simpl. nia. }
  rewrite Z.abs_eq by nia. assert (0 < n) by nia.
  set (e' := round_exponent prec n d). simpl. intros [= <- <-].
  rewrite Z.sgn_pos, Z.mul_1_l by done.
  destruct (Z.le_gt_cases e' 0) as [He|He].
  - rewrite (Z.max_l 0 e'), Z.pow_0_r, !Z.mul_1_r by lia.
    apply round_nearest_even_ge; [done|]. pose proof (pow2_pos (- e')). nia.
  - pose proof (round_exponent_bits prec n d) as Hb. fold e' in Hb.
    rewrite (Z.max_l 0 (- e')), Z.pow_0_r, !Z.mul_1_r, Z.max_r by lia.
    assert (0 < 2 ^ e') by (apply Z.pow_pos_nonneg; lia).
    assert (2 ^ (prec - 1) ≤ round_nearest_even n (d * 2 ^ e'))
      by (apply round_nearest_even_ge; [nia|]; apply Hb; lia).
    pose proof (pow2_half prec Hp).
    assert (2 ≤ 2 ^ e').
    { change 2 with (2 ^ 1) at 1. apply Z.pow_le_mono_r; lia. }
    nia.
Qed.

(** An integer of at most [prec] bits is rounded to itself. *)
Lemma round_to_exact prec n m e :
  0 < prec → Z.abs n < 2 ^ prec → round_to prec n 1 = (m, e) →
  m * 2 ^ Z.max 0 e = n * 2 ^ Z.max 0 (- e).
Proof.
  intros Hp Hn. unfold round_to. case_decide as Hz.
  { intros [= <- <-]. by subst. }
  set (e' := round_exponent prec (Z.abs n) 1).
  assert (e' ≤ 0) as He.
  { subst e'. unfold round_exponent. cbn [scaled].
    assert (Z.log2 (Z.abs n) < prec) by (apply Z.log2_lt_pow2; lia).
    change (Z.log2 1) with 0. case_match; lia. }
  simpl. intros [= <- <-]. rewrite (Z.max_l 0 e'), Z.pow_0_r, Z.mul_1_r by done.
  unfold round_nearest_even. rewrite Z.mul_1_l, Z.div_1_r, Z.mod_1_r. simpl.
  pose proof (Z.sgn_abs n). nia.
Qed.

(** The integer part of a number of the form above *)
Lemma bf_Int_ge p m e z k :
  0 ≤ k → k * 2 ^ Z.max 0 (- e) ≤ m * 2 ^ Z.max 0 e → k ≤ bf_Int (BFin p m e) z.
Proof.
  intros Hk Hm. simpl. pose proof (pow2_pos (- e)).
  apply Z.quot_le_lower_bound; nia.
Qed.

Lemma bf_Int_exact p m e z k :
  m * 2 ^ Z.max 0 e = k * 2 ^ Z.max 0 (- e) → bf_Int (BFin p m e) z = k.
Proof.
  intros Hm. simpl. rewrite Hm. pose proof (pow2_pos (- e)). apply Z.quot_mul. lia.
Qed.

Lemma BitLen_pow x : Z.abs x < 2 ^ Z.max (BitLen x) 64.
Proof.
  unfold BitLen. case_decide as Hx; [by subst|].
  destruct (Z.log2_spec (Z.abs x)) as [_ Hu]; [lia|].
  eapply Z.lt_le_trans; [exact Hu|]. apply Z.pow_le_mono_r; lia.
Qed.
