(* ===== verification/EffGasPrice.v ===== *)
(** * The effective gas price of a transaction

    [pool/effectivegasprice.go]: the price that pays for a transaction's gas
    and data (the break-even price), the price charged (raised in proportion
    when the sender offers more than the suggested price) and the byte that
    tells the executor which part of the signed price to charge.  Unsigned
    64-bit products wrap around, the factors of the configuration are
    [float64], and the last multiplication is done in [big.Float]. *)

From Stdlib Require Import SpecFloat.
From S2P Require Import Prelude GoFloat GoEthereum TxCodec.

Inductive EgpErr := ErrZeroL1GasPrice | ErrEffectiveGasPriceEmpty | ErrEffectiveGasPriceIsZero.

Module Egp.
Section egp.
Context `{!GoFloatConv}.

Record EffectiveGasPriceCfg := mkEffectiveGasPriceCfg {
  Enabled : bool;
  L1GasPriceFactor : float64;
  ByteGasCost : Z;
  ZeroByteGasCost : Z;
  NetProfit : float64;
  BreakEvenFactor : float64;
  FinalDeviationPct : Z;
  L2GasPriceSuggesterFactor : float64
}.

Record EffectiveGasPrice := NewEffectiveGasPrice {
  cfg : EffectiveGasPriceCfg;
  minGasPriceAllowed : Z
}.

Definition IsEnabled (e : EffectiveGasPrice) : bool := Enabled (cfg e).
Definition GetFinalDeviation (e : EffectiveGasPrice) : Z := FinalDeviationPct (cfg e).

Definition GetTxAndL2GasPrice (e : EffectiveGasPrice) (txGasPrice l1GasPrice l2GasPrice : Z) :
    Z * Z :=
  if negb (Enabled (cfg e))
  then
    let gp := uint64_of_float64
      (float64_mul (L2GasPriceSuggesterFactor (cfg e)) (float64_of_uint64 l1GasPrice)) in
    (gp, big_Uint64 gp)
  else (txGasPrice, l2GasPrice).

(** [bytes.Count(rawTx, []byte{0})] *)
Definition count_zeros (rawTx : bytes) : Z := zlen (filter (λ b, b = 0) rawTx).

Definition l2_min_gas_price (e : EffectiveGasPrice) (l1GasPrice : Z) : Z :=
  let l2MinGasPrice := uint64_of_float64
    (float64_mul (float64_of_uint64 l1GasPrice) (L1GasPriceFactor (cfg e))) in
  if l2MinGasPrice <? minGasPriceAllowed e then minGasPriceAllowed e else l2MinGasPrice.

Definition total_tx_price (e : EffectiveGasPrice) (rawTx : bytes) (txGasUsed l1GasPrice : Z) : Z :=
  let txZeroBytes := count_zeros rawTx in
  let txNonZeroBytes := zlen rawTx -₆₄ txZeroBytes +₆₄ EfficiencyPercentageByteLength in
  wrap64 (txGasUsed * l2_min_gas_price e l1GasPrice) +₆₄
  wrap64 ((wrap64 (txNonZeroBytes * ByteGasCost (cfg e)) +₆₄
           wrap64 (txZeroBytes * ZeroByteGasCost (cfg e))) * l1GasPrice).

Definition CalculateBreakEvenGasPrice (e : EffectiveGasPrice) (rawTx : bytes)
    (txGasPrice txGasUsed l1GasPrice : Z) : GoRes EgpErr Z :=
  if decide (l1GasPrice = 0) then Fail ErrZeroL1GasPrice
  else if decide (txGasUsed = 0) then Ret txGasPrice
  else
    let totalTxPrice := total_tx_price e rawTx txGasUsed l1GasPrice in
    Ret (uint64_of_float64
           (float64_mul (float64_of_uint64 (totalTxPrice / txGasUsed)) (NetProfit (cfg e)))).

Definition CalculateEffectiveGasPrice (e : EffectiveGasPrice) (rawTx : bytes)
    (txGasPrice txGasUsed l1GasPrice l2GasPrice : Z) : GoRes EgpErr Z :=
  breakEvenGasPrice ← CalculateBreakEvenGasPrice e rawTx txGasPrice txGasUsed l1GasPrice;
  let bfL2GasPrice := bf_SetUint64 l2GasPrice in
  let bfTxGasPrice := bf_SetInt txGasPrice in
  ratioPriority ← (if bf_gt bfTxGasPrice bfL2GasPrice
                   then bf_Quo bfTxGasPrice bfL2GasPrice
                   else Ret bf_one);
  bfEffectiveGasPrice ← bf_Mul (bf_SetInt breakEvenGasPrice) ratioPriority;
  let effectiveGasPrice := bf_Int bfEffectiveGasPrice 0 in
  if decide (effectiveGasPrice = 0) then Fail ErrEffectiveGasPriceIsZero
  else Ret effectiveGasPrice.

(** [Div] of [big.Int] is the Euclidean division. *)
Definition big_Div (a b : Z) : Z := Z.sgn b * (a / Z.abs b).

(** A nil price is [None]. *)
Definition CalculateEffectiveGasPricePercentage (gasPrice effectiveGasPrice : option Z) :
    GoRes EgpErr Z :=
  match effectiveGasPrice, gasPrice with
  | Some effectiveGasPrice, Some gasPrice =>
      if decide (gasPrice = 0 ∨ effectiveGasPrice = 0) then Fail ErrEffectiveGasPriceEmpty
      else if gasPrice <=? effectiveGasPrice then Ret MaxEffectivePercentage
      else
        let b := effectiveGasPrice * 256 in
        let b := b + gasPrice in
        let b := b - 1 in
        let b := big_Div b gasPrice in
        let b := b - 1 in
        Ret (wrap8 (big_Uint64 b))
  | _, _ => Fail ErrEffectiveGasPriceEmpty
  end.

(** ** Properties *)

Section laws.
Context `{!GoFloatConvLaws} (e : EffectiveGasPrice) (rawTx : bytes).
Context (txGasPrice txGasUsed l1GasPrice l2GasPrice : Z).
Context (Htx : 0 ≤ txGasPrice) (Hl2 : in_u64 l2GasPrice).

Lemma BreakEven_nonneg be :
  CalculateBreakEvenGasPrice e rawTx txGasPrice txGasUsed l1GasPrice = Ret be → 0 ≤ be.
Proof.
  unfold CalculateBreakEvenGasPrice. repeat case_decide; [done | by intros [= <-] |].
  intros [= <-]. apply uint64_of_float64_range.
Qed.

(** The ratio of the priority is at least one. *)
Lemma Quo_ge_one : l2GasPrice < txGasPrice → 0 < l2GasPrice →
  ∃ p m x, bf_Quo (E := EgpErr) (bf_SetInt txGasPrice) (bf_SetUint64 l2GasPrice)
    = Ret (BFin p m x) ∧ 64 ≤ p ∧ 2 ^ Z.max 0 (- x) ≤ m * 2 ^ Z.max 0 x.
Proof.
  intros Hlt Hpos. unfold bf_Quo, bf_SetInt, bf_SetUint64, bf_prec.
  rewrite decide_False by lia. simpl.
  destruct (round_to _ _ _) as [m x] eqn:Hr. do 3 eexists. split; [done|]. split; [lia|].
  change (2 ^ Z.max 0 (0 - 0)) with 1 in Hr.
  apply (round_to_ge _ _ _ 1) in Hr; [lia | lia | lia | | nia].
  split; [lia|]. apply (Z.pow_gt_1 2); lia.
Qed.

(** A number scaled by a ratio that is at least one does not fall below. *)
Lemma Mul_ge be p m x : 0 ≤ be → 2 ^ Z.max 0 (- x) ≤ m * 2 ^ Z.max 0 x →
  ∃ p' m' x', bf_Mul (E := EgpErr) (bf_SetInt be) (BFin p m x) = Ret (BFin p' m' x') ∧
    be ≤ bf_Int (BFin p' m' x') 0.
Proof.
  intros Hbe Hm. unfold bf_Mul, bf_SetInt, bf_prec.
  destruct (round_to _ _ _) as [m' x'] eqn:Hr. do 3 eexists. split; [done|].
  apply bf_Int_ge; [done|]. eapply round_to_ge; [| | | |exact Hr]; [lia | apply pow2_pos | |].
  - pose proof (BitLen_pow be). split; [done|]. eapply Z.lt_le_trans; [|apply Z.pow_le_mono_r];
      [rewrite <-(Z.abs_eq be) at 1 by done; done | lia | lia].
  - rewrite Z.add_0_l. nia.
Qed.

Lemma Mul_one be : ∃ p' m' x', bf_Mul (E := EgpErr) (bf_SetInt be) bf_one = Ret (BFin p' m' x') ∧
  bf_Int (BFin p' m' x') 0 = be.
Proof.
  unfold bf_Mul, bf_SetInt, bf_one, bf_prec. simpl. rewrite !Z.mul_1_r.
  destruct (round_to _ _ _) as [m' x'] eqn:Hr. do 3 eexists. split; [done|].
  apply (bf_Int_exact 0 m' x' 0). eapply round_to_exact; [| |exact Hr]; [lia|].
  pose proof (BitLen_pow be). eapply Z.lt_le_trans; [done|]. apply Z.pow_le_mono_r; lia.
Qed.
End laws.
End egp.

(** What a transaction costs the sequencer, without wrap-around: its gas at
    the minimum L2 price and its data at the L1 price. *)
Definition exact_price `{!GoFloatConv} (e : EffectiveGasPrice) (rawTx : bytes)
    (txGasUsed l1GasPrice : Z) : Z :=
  txGasUsed * l2_min_gas_price e l1GasPrice +
  ((zlen rawTx - count_zeros rawTx + EfficiencyPercentageByteLength) * ByteGasCost (cfg e) +
   count_zeros rawTx * ZeroByteGasCost (cfg e)) * l1GasPrice.

Lemma wrapped_factor n p a b c d l :
  (a + (((n mod 2 ^ 64 + p) mod 2 ^ 64 * b) mod 2 ^ 64 + (c * d) mod 2 ^ 64) mod 2 ^ 64 * l)
    mod 2 ^ 64
  = (a + (((n + p) * b + c * d) * l) mod 2 ^ 64) mod 2 ^ 64.
Proof.
  rewrite <-(Zplus_mod_idemp_r (_ * l)), Zmult_mod_idemp_l, <-(Zmult_mod_idemp_l (_ + _) l).
  rewrite (Zplus_mod_idemp_l ((_ * b))), Zplus_mod_idemp_r, Zplus_mod_idemp_l.
  rewrite <-(Zplus_mod_idemp_l (_ * b)), Zmult_mod_idemp_l, Zplus_mod_idemp_l.
  rewrite Zplus_mod_idemp_r, <-(Zplus_mod_idemp_r (_ mod _ * l)), Zmult_mod_idemp_l. done.
Qed.

Lemma total_tx_price_exact `{!GoFloatConv} e rawTx txGasUsed l1GasPrice :
  total_tx_price e rawTx txGasUsed l1GasPrice
  = wrap64 (exact_price e rawTx txGasUsed l1GasPrice).
Proof.
  unfold total_tx_price, exact_price, wrap64. cbv zeta.
  rewrite Zplus_mod_idemp_l, Zplus_mod_idemp_r.
  rewrite (wrapped_factor (zlen rawTx - count_zeros rawTx)).
  by rewrite Zplus_mod_idemp_r.
Qed.

(** The break-even price when nothing wraps and the profit factor is one. *)
Lemma BreakEven_exact `{!GoFloatConv} e rawTx txGasPrice txGasUsed l1GasPrice be :
  CalculateBreakEvenGasPrice e rawTx txGasPrice txGasUsed l1GasPrice = Ret be →
  0 < txGasUsed → NetProfit (cfg e) = float64_one →
  0 ≤ exact_price e rawTx txGasUsed l1GasPrice < 2 ^ 64 →
  exact_price e rawTx txGasUsed l1GasPrice / txGasUsed < 2 ^ 53 →
  be = exact_price e rawTx txGasUsed l1GasPrice / txGasUsed.
Proof.
  unfold CalculateBreakEvenGasPrice. intros Hbe Hg Hp Hex Hq.
  repeat case_decide; [done|lia|]. rewrite total_tx_price_exact, wrap64_small, Hp in Hbe by done.
  rewrite uint64_mul_one in Hbe by (split; [apply Z.div_pos; lia|done]). by simplify_eq.
Qed.


(** C17. The percentage of a transaction is the least byte [p] for which
    [(p + 1) / 256] of the signed price is at least the effective price: the
    executor never charges more than the signed price, and never less than
    the effective price unless that exceeds the signed one. *)
Theorem CalculateEffectiveGasPricePercentage_least gasPrice effectiveGasPrice :
  0 < gasPrice → 0 < effectiveGasPrice →
  ∃ p, CalculateEffectiveGasPricePercentage (Some gasPrice) (Some effectiveGasPrice) = Ret p ∧
    0 ≤ p < 256 ∧
    Z.min gasPrice effectiveGasPrice ≤ gasPrice * (p + 1) / 256 ≤ gasPrice ∧
    (∀ q, 0 ≤ q < p → gasPrice * (q + 1) / 256 < Z.min gasPrice effectiveGasPrice).
Proof.
  intros Hg He. unfold CalculateEffectiveGasPricePercentage.
  rewrite decide_False by lia. unfold MaxEffectivePercentage.
  destruct (Z.leb_spec gasPrice effectiveGasPrice) as [Hle|Hlt].
  { exists 255. split; [done|]. rewrite Z.min_l, Z.div_mul by lia. split_and!; [lia..|].
    intros q Hq. apply Z.div_lt_upper_bound; nia. }
  set (c := (effectiveGasPrice * 256 + gasPrice - 1) / gasPrice).
  assert (1 ≤ c ≤ 256 ∧ effectiveGasPrice * 256 ≤ gasPrice * c ∧
          gasPrice * (c - 1) < effectiveGasPrice * 256) as (Hc & Hup & Hlo).
  { subst c. pose proof (Z.div_mod (effectiveGasPrice * 256 + gasPrice - 1) gasPrice).
    pose proof (Z.mod_pos_bound (effectiveGasPrice * 256 + gasPrice - 1) gasPrice). nia. }
  exists (c - 1). unfold big_Div. rewrite Z.sgn_pos, Z.abs_eq, Z.mul_1_l by lia. fold c.
  rewrite big_Uint64_small by (unfold in_u64; lia). unfold wrap8. rewrite Z.mod_small by lia.
  rewrite Z.min_r, Z.sub_add by lia. split_and!; [done|lia..| | |].
  - apply Z.div_le_lower_bound; lia.
  - apply Z.div_le_upper_bound; nia.
  - intros q Hq. apply Z.div_lt_upper_bound; nia.
Qed.

(** ** Runs with the default configuration of the node, enabled *)

Module EgpRun.
Definition run_conv : GoFloatConv := {| uint64_out_of_range _ := 2 ^ 63 |}.
#[export] Instance run_conv_laws : @GoFloatConvLaws run_conv.
Proof. constructor; intros f; by vm_compute. Qed.

(** The factors are 0.25, 1.0, 1.1 and 0.5. *)
Definition run_egp : EffectiveGasPrice :=
  NewEffectiveGasPrice
    (mkEffectiveGasPriceCfg true (S754_finite false 4503599627370496 (-54)) 16 4
       (S754_finite false 4503599627370496 (-52)) (S754_finite false 4953959590107546 (-52)) 10
       (S754_finite false 4503599627370496 (-53)))
    1000000000.


Lemma percentage_witness :
  0 < 1000 ∧ ∃ p, CalculateEffectiveGasPricePercentage (Some 1000) (Some 700) = Ret p ∧
    700 ≤ 1000 * (p + 1) / 256.
Proof.
  split; [lia|].
  destruct (CalculateEffectiveGasPricePercentage_least 1000 700) as (p & Hp & _ & [Hle _] & _);
    [lia|lia|].
  exists p. split; [exact Hp | exact Hle].
Defined.
End EgpRun.

(** The price that pays for a transaction is computed modulo [2 ^ 64]: with
    thirty million gas (the limit of a batch) and an L1 price of 2500 gwei the
    product overflows, and the break-even price is below a sixtieth of the
    minimum L2 price it is made of. *)
Theorem BreakEven_overflow `{!GoFloatConv} :
  l2_min_gas_price EgpRun.run_egp 2500000000000 = 625000000000 ∧
  CalculateBreakEvenGasPrice EgpRun.run_egp [] 700000000000 30000000 2500000000000
    = Ret 10109864209.
Proof. split; vm_compute; reflexivity. Qed.
End Egp.
