(* ===== verification/GoMonad.v ===== *)
(** * Go methods over a state

    A method that changes the fields it can reach and returns [(T, error)]:
    the new state and one of the three outcomes of [GoRes].  [try] turns an
    error into a value, for the callers that look at it. *)

From S2P Require Import Prelude.

Definition GoM (S E A : Type) : Type := S → S * GoRes E A.

#[export] Instance GoM_ret {S E} : MRet (GoM S E) := λ A a s, (s, Ret a).
#[export] Instance GoM_bind {S E} : MBind (GoM S E) := λ A B f m s,
  match m s with
  | (s, Ret a) => f a s
  | (s, Fail e) => (s, Fail e)
  | (s, Panic) => (s, Panic)
  end.

Section methods.
Context {S E A : Type}.

Definition lift (r : GoRes E A) : GoM S E A := λ s, (s, r).
Definition fail (e : E) : GoM S E A := λ s, (s, Fail e).
Definition panic : GoM S E A := λ s, (s, Panic).
Definition gets (f : S → A) : GoM S E A := λ s, (s, Ret (f s)).
Definition modify (f : S → S) : GoM S E () := λ s, (f s, Ret tt).

Definition try (m : GoM S E A) : GoM S E (E + A) := λ s,
  match m s with
  | (s, Ret a) => (s, Ret (inr a))
  | (s, Fail e) => (s, Ret (inl e))
  | (s, Panic) => (s, Panic)
  end.
End methods.

(** [fmt.Errorf("...%w", err)] *)
Definition wrap_err {S E E' A} (f : E → E') (m : GoM S E A) : GoM S E' A := λ s,
  match m s with
  | (s, Ret a) => (s, Ret a)
  | (s, Fail e) => (s, Fail (f e))
  | (s, Panic) => (s, Panic)
  end.

(** A method of a part of the state *)
Definition zoom {S S' E A} (get : S → S') (put : S' → S → S) (m : GoM S' E A) : GoM S E A := λ s,
  let '(s', r) := m (get s) in (put s' s, r).

(** [for _, x := range xs { body }] *)
Fixpoint for_each {S E A} (xs : list A) (body : A → GoM S E ()) : GoM S E () :=
  match xs with
  | [] => mret tt
  | x :: xs => body x ;; for_each xs body
  end.

Lemma GoM_bind_Ret {S E A B} (m : GoM S E A) (f : A → GoM S E B) s s' b :
  (m ≫= f) s = (s', Ret b) → ∃ s1 a, m s = (s1, Ret a) ∧ f a s1 = (s', Ret b).
Proof. unfold mbind, GoM_bind. destruct (m s) as [s1 []]; intros; simplify_eq; eauto. Qed.

Lemma GoM_bind_step {S E A B} (m : GoM S E A) (f : A → GoM S E B) s s1 a :
  m s = (s1, Ret a) → (m ≫= f) s = f a s1.
Proof. unfold mbind, GoM_bind. by intros ->. Qed.

Lemma GoM_bind_fail {S E A B} (m : GoM S E A) (f : A → GoM S E B) s s1 e :
  m s = (s1, Fail e) → (m ≫= f) s = (s1, Fail e).
Proof. unfold mbind, GoM_bind. by intros ->. Qed.

Lemma GoM_bind_panic {S E A B} (m : GoM S E A) (f : A → GoM S E B) s s1 :
  m s = (s1, Panic) → (m ≫= f) s = (s1, Panic).
Proof. unfold mbind, GoM_bind. by intros ->. Qed.

(** Whatever the outcome, a property of states that [m] and its continuation
    keep is kept by their composition. *)
Definition keeps {S E A} (P : S → Prop) (m : GoM S E A) : Prop := ∀ s, P s → P (m s).1.

Section keeps.
Context {S E : Type} (P : S → Prop).

Lemma keeps_ret {A} (a : A) : keeps P (mret a : GoM S E A).
Proof. by intros s. Qed.
Lemma keeps_lift {A} (r : GoRes E A) : keeps P (lift r).
Proof. by intros s. Qed.
Lemma keeps_fail {A} (e : E) : keeps P (fail (A := A) e).
Proof. by intros s. Qed.
Lemma keeps_panic {A} : keeps P (panic (E := E) (A := A)).
Proof. by intros s. Qed.
Lemma keeps_gets {A} (f : S → A) : keeps P (gets (E := E) f).
Proof. by intros s. Qed.
Lemma keeps_modify (f : S → S) : (∀ s, P s → P (f s)) → keeps P (modify (E := E) f).
Proof. intros Hf s. apply Hf. Qed.

Lemma keeps_bind {A B} (m : GoM S E A) (f : A → GoM S E B) :
  keeps P m → (∀ a, keeps P (f a)) → keeps P (m ≫= f).
Proof.
  intros Hm Hf s Hs. specialize (Hm s Hs). unfold mbind, GoM_bind.
  destruct (m s) as [s1 [a|e|]]; [by apply Hf|done..].
Qed.

Lemma keeps_try {A} (m : GoM S E A) : keeps P m → keeps P (try m).
Proof. intros Hm s Hs. specialize (Hm s Hs). unfold try. by destruct (m s) as [s1 []]. Qed.

Lemma keeps_wrap {E' A} (f : E → E') (m : GoM S E A) : keeps P m → keeps P (wrap_err f m).
Proof. intros Hm s Hs. specialize (Hm s Hs). unfold wrap_err. by destruct (m s) as [s1 []]. Qed.

Lemma keeps_for_each {A} (xs : list A) (body : A → GoM S E ()) :
  (∀ x, x ∈ xs → keeps P (body x)) → keeps P (for_each xs body).
Proof.
  induction xs as [|x xs IH]; intros Hb; [apply keeps_ret|]. apply keeps_bind.
  - apply Hb. by left.
  - intros _. apply IH. intros y Hy. apply Hb. by right.
Qed.
End keeps.

Create HintDb go_keeps.
#[export] Hint Resolve keeps_ret keeps_lift keeps_fail keeps_panic keeps_gets keeps_try
  keeps_wrap : go_keeps.

(** Walks over a method with the known facts about the ones it calls. *)
Ltac keeps_step :=
  lazymatch goal with
  | |- keeps _ (mbind _ _) => apply keeps_bind; [|intros ?]
  | |- keeps _ (match ?x with _ => _ end) => destruct x
  | |- keeps _ (for_each _ _) => apply keeps_for_each; intros ? ?
  | |- keeps _ (let _ := _ in _) => cbv zeta
  | |- keeps _ _ => solve [eauto with go_keeps]
  end.
Ltac keeps_tac := repeat keeps_step.

(** ** Weakest preconditions

    [wpm K m Q R s]: [m] from [s] ends in [Q] when it returns, in [R] when it
    fails, and panics only if [K]. *)
Definition wpm {S E A} (K : Prop) (m : GoM S E A) (Q : A → S → Prop) (R : E → S → Prop) (s : S) :
    Prop :=
  match m s with
  | (s', Ret a) => Q a s'
  | (s', Fail e) => R e s'
  | (_, Panic) => K
  end.

Section wpm.
Context {S E : Type} (K : Prop).
Implicit Types (s : S).

Lemma wpm_bind {A B} (m : GoM S E A) (f : A → GoM S E B) Q R s :
  wpm K m (λ a s', wpm K (f a) Q R s') R s → wpm K (m ≫= f) Q R s.
Proof. unfold wpm, mbind, GoM_bind. by destruct (m s) as [s' []]. Qed.

Lemma wpm_mono {A} (m : GoM S E A) (Q Q' : A → S → Prop) (R R' : E → S → Prop) s :
  wpm K m Q R s → (∀ a s', Q a s' → Q' a s') → (∀ e s', R e s' → R' e s') → wpm K m Q' R' s.
Proof. unfold wpm. destruct (m s) as [s' []]; auto. Qed.

(** Two facts about the same run *)
Lemma wpm_and {A} (m : GoM S E A) Q Q' R R' s :
  wpm K m Q R s → wpm K m Q' R' s →
  wpm K m (λ a s', Q a s' ∧ Q' a s') (λ e s', R e s' ∧ R' e s') s.
Proof. unfold wpm. destruct (m s) as [s' []]; auto. Qed.

Lemma wpm_weaken {A} (K' : Prop) (m : GoM S E A) Q R s :
  (K → K') → wpm K m Q R s → wpm K' m Q R s.
Proof. unfold wpm. destruct (m s) as [s' []]; auto. Qed.

Lemma wpm_ret {A} (a : A) Q R s : Q a s → wpm K (mret a : GoM S E A) Q R s.
Proof. done. Qed.
Lemma wpm_fail {A} (e : E) Q (R : E → S → Prop) s : R e s → wpm K (fail (A := A) e) Q R s.
Proof. done. Qed.
Lemma wpm_panic {A} (Q : A → S → Prop) (R : E → S → Prop) s : K → wpm K panic Q R s.
Proof. done. Qed.
Lemma wpm_gets {A} (f : S → A) Q (R : E → S → Prop) s : Q (f s) s → wpm K (gets f) Q R s.
Proof. done. Qed.
Lemma wpm_modify (f : S → S) Q (R : E → S → Prop) s : Q tt (f s) → wpm K (modify f) Q R s.
Proof. done. Qed.
Lemma wpm_lift {A} (r : GoRes E A) (Q : A → S → Prop) (R : E → S → Prop) s :
  match r with Ret a => Q a s | Fail e => R e s | Panic => K end → wpm K (lift r) Q R s.
Proof. unfold wpm, lift. by destruct r. Qed.
Lemma wpm_try {A} (m : GoM S E A) Q (R : E → S → Prop) s :
  wpm K m (λ a, Q (inr a)) (λ e, Q (inl e)) s → wpm K (try m) Q R s.
Proof. unfold wpm, try. by destruct (m s) as [s' []]. Qed.

(** A loop with an invariant on the state *)
Lemma wpm_for_each {A} (xs : list A) (body : A → GoM S E ()) (I : S → Prop) (R : E → S → Prop) s :
  I s → (∀ x s, x ∈ xs → I s → wpm K (body x) (λ _, I) R s) →
  wpm K (for_each xs body) (λ _, I) R s.
Proof.
  revert s. induction xs as [|x xs IH]; intros s Hs Hb; [done|].
  apply wpm_bind. eapply wpm_mono; [apply Hb; [by left|done]| |done].
  intros [] s' Hs'. apply IH; [done|]. intros y s'' Hy. apply Hb. by right.
Qed.

(** From a postcondition to an execution and back *)
Lemma wpm_Ret {A} (m : GoM S E A) Q R s s' a :
  wpm K m Q R s → m s = (s', Ret a) → Q a s'.
Proof. unfold wpm. intros Hw Heq. by rewrite Heq in Hw. Qed.
Lemma wpm_Fail {A} (m : GoM S E A) Q R s s' e :
  wpm K m Q R s → m s = (s', Fail e) → R e s'.
Proof. unfold wpm. intros Hw Heq. by rewrite Heq in Hw. Qed.
Lemma wpm_Panic {A} (m : GoM S E A) Q R s s' :
  wpm K m Q R s → m s = (s', Panic) → K.
Proof. unfold wpm. intros Hw Heq. by rewrite Heq in Hw. Qed.
End wpm.

Lemma wpm_wrap {S E E' A} K (f : E → E') (m : GoM S E A) Q (R : E' → S → Prop) s :
  wpm K m Q (λ e, R (f e)) s → wpm K (wrap_err f m) Q R s.
Proof. unfold wpm, wrap_err. by destruct (m s) as [s' []]. Qed.

Lemma wpm_zoom {S S' E A} K (get : S → S') (put : S' → S → S) (m : GoM S' E A) Q R s :
  wpm K m (λ a s', Q a (put s' s)) (λ e s', R e (put s' s)) (get s) →
  wpm K (zoom get put m) Q R s.
Proof. unfold wpm, zoom. by destruct (m (get s)) as [s' []]. Qed.

(** One step of a method; what is called is left to the caller. *)
Ltac wpm_step :=
  lazymatch goal with
  | |- wpm _ (mbind _ _) _ _ _ => apply wpm_bind
  | |- wpm _ (mret _) _ _ _ => apply wpm_ret
  | |- wpm _ (fail _) _ _ _ => apply wpm_fail
  | |- wpm _ panic _ _ _ => apply wpm_panic
  | |- wpm _ (gets _) _ _ _ => apply wpm_gets
  | |- wpm _ (modify _) _ _ _ => apply wpm_modify
  | |- wpm _ (lift _) _ _ _ => apply wpm_lift
  | |- wpm _ (try _) _ _ _ => apply wpm_try
  | |- wpm _ (wrap_err _ _) _ _ _ => apply wpm_wrap
  | |- wpm _ (zoom _ _ _) _ _ _ => apply wpm_zoom
  end.
