(* ===== verification/Postgres.v ===== *)
(** * The database as the storage sees it

    The storages of the node talk to a PostgreSQL server through pgx.  A
    connection is the pool ([None]) or a transaction that was begun; a
    statement is a function on the tables that is undefined where a constraint
    refuses it, a query returns the tables it reads.  A query of many rows may lose its
    connection while the rows are read: [pg_Rows] tells after how many.  [PostgresSpec] states
    what pgx and PostgreSQL document, for clients that use one transaction at
    a time: a transaction reads its own writes, nobody sees them before the
    commit, a failed statement may abort its transaction, and a transaction
    that was aborted, committed or rolled back is closed and refuses
    everything. *)

From S2P Require Import Prelude.

Class Postgres (T : Type) := {
  PgServer : Type;
  PgTx : Type;
  PgErr : Type;
  pgx_ErrTxClosed : PgErr;
  pg_Begin : PgServer → PgServer * (PgErr + PgTx);
  pg_Commit : PgServer → PgTx → PgServer * option PgErr;
  pg_Rollback : PgServer → PgTx → PgServer * option PgErr;
  pg_Exec : PgServer → option PgTx → (T → option T) → PgServer * option PgErr;
  pg_Query : PgServer → option PgTx → PgServer * (PgErr + T);
  pg_Rows : PgServer → option PgTx → PgServer * (PgErr + T * option nat)
}.

(** [pg_view s c] is what the connection [c] reads, [None] once it is closed.
    The outcome of a commit that reports an error is not known. *)
Class PostgresSpec (T : Type) `{!Postgres T} := {
  pg_view : PgServer → option PgTx → option T;
  pg_pool_open s : is_Some (pg_view s None);
  pg_Begin_ok s s' t : pg_Begin s = (s', inr t) →
    pg_view s' None = pg_view s None ∧ pg_view s' (Some t) = pg_view s None;
  pg_Begin_err s s' e : pg_Begin s = (s', inl e) → pg_view s' None = pg_view s None;
  pg_Exec_ok s s' c f : pg_Exec s c f = (s', None) →
    ∃ x y, pg_view s c = Some x ∧ f x = Some y ∧ pg_view s' c = Some y ∧
      (c ≠ None → pg_view s' None = pg_view s None);
  pg_Exec_err s s' c f e : pg_Exec s c f = (s', Some e) → pg_view s' None = pg_view s None ∧
    (pg_view s' c = pg_view s c ∨ pg_view s' c = None);
  pg_Exec_refused s s' c f x e : pg_Exec s c f = (s', e) → pg_view s c = Some x → f x = None →
    e ≠ None;
  pg_Exec_closed s t f : pg_view s (Some t) = None →
    (pg_Exec s (Some t) f).2 = Some pgx_ErrTxClosed ∧
    pg_view (pg_Exec s (Some t) f).1 (Some t) = None;
  pg_Query_ok s s' c x : pg_Query s c = (s', inr x) →
    pg_view s c = Some x ∧ ∀ c', pg_view s' c' = pg_view s c';
  pg_Query_err s s' c e : pg_Query s c = (s', inl e) → pg_view s' None = pg_view s None ∧
    (pg_view s' c = pg_view s c ∨ pg_view s' c = None);
  pg_Rows_ok s s' c x : pg_Rows s c = (s', inr (x, None)) →
    pg_view s c = Some x ∧ ∀ c', pg_view s' c' = pg_view s c';
  pg_Rows_cut s s' c x k : pg_Rows s c = (s', inr (x, Some k)) →
    pg_view s c = Some x ∧ pg_view s' None = pg_view s None ∧
    (pg_view s' c = pg_view s c ∨ pg_view s' c = None);
  pg_Rows_err s s' c e : pg_Rows s c = (s', inl e) → pg_view s' None = pg_view s None ∧
    (pg_view s' c = pg_view s c ∨ pg_view s' c = None);
  pg_Commit_ok s s' t : pg_Commit s t = (s', None) →
    ∃ x, pg_view s (Some t) = Some x ∧ pg_view s' None = Some x ∧ pg_view s' (Some t) = None;
  pg_Commit_err s s' t e : pg_Commit s t = (s', Some e) →
    pg_view s' None = pg_view s None ∨
    (is_Some (pg_view s (Some t)) ∧ pg_view s' None = pg_view s (Some t));
  pg_Rollback_view s s' t e : pg_Rollback s t = (s', e) → pg_view s' None = pg_view s None;
  pg_Rollback_closed s t : pg_view s (Some t) = None →
    (pg_Rollback s t).2 = Some pgx_ErrTxClosed
}.

(** ** A server in memory

    [faults] says which of the next operations fail. *)
Module RefPostgres.
Section ref.
Context {T : Type}.

Inductive ref_err := RefTxClosed | RefRefused | RefConnection.

Record ref_server := mkRefServer {
  committed : T;
  open_txs : gmap nat T;
  next_tx : nat;
  faults : list bool
}.

Definition next (s : ref_server) : bool * ref_server :=
  match faults s with
  | [] => (false, s)
  | b :: bs => (b, mkRefServer (committed s) (open_txs s) (next_tx s) bs)
  end.

Definition ref_view (s : ref_server) (c : option nat) : option T :=
  match c with None => Some (committed s) | Some t => open_txs s !! t end.

Definition ref_Begin (s : ref_server) : ref_server * (ref_err + nat) :=
  let '(fault, s) := next s in
  if fault : bool then (s, inl RefConnection)
  else (mkRefServer (committed s) (<[next_tx s := committed s]> (open_txs s)) (S (next_tx s))
          (faults s), inr (next_tx s)).

Definition ref_close (s : ref_server) (x : T) (t : nat) : ref_server :=
  mkRefServer x (delete t (open_txs s)) (next_tx s) (faults s).

Definition ref_Commit (s : ref_server) (t : nat) : ref_server * option ref_err :=
  match open_txs s !! t with
  | None => (s, Some RefTxClosed)
  | Some x =>
      let '(fault, s) := next s in
      if fault : bool then (ref_close s (committed s) t, Some RefConnection)
      else (ref_close s x t, None)
  end.

Definition ref_Rollback (s : ref_server) (t : nat) : ref_server * option ref_err :=
  match open_txs s !! t with
  | None => (s, Some RefTxClosed)
  | Some _ => (ref_close s (committed s) t, None)
  end.

Definition ref_write (s : ref_server) (c : option nat) (x : T) : ref_server :=
  match c with
  | None => mkRefServer x (open_txs s) (next_tx s) (faults s)
  | Some t => mkRefServer (committed s) (<[t := x]> (open_txs s)) (next_tx s) (faults s)
  end.

Definition ref_Exec (s : ref_server) (c : option nat) (f : T → option T) :
    ref_server * option ref_err :=
  match ref_view s c with
  | None => (s, Some RefTxClosed)
  | Some x =>
      let '(fault, s) := next s in
      if fault : bool then (s, Some RefConnection)
      else match f x with
           | None => (s, Some RefRefused)
           | Some y => (ref_write s c y, None)
           end
  end.

Definition ref_Query (s : ref_server) (c : option nat) : ref_server * (ref_err + T) :=
  match ref_view s c with
  | None => (s, inl RefTxClosed)
  | Some x =>
      let '(fault, s) := next s in
      if fault : bool then (s, inl RefConnection) else (s, inr x)
  end.

(** A fault cuts the rows after the first one. *)
Definition ref_Rows (s : ref_server) (c : option nat) :
    ref_server * (ref_err + T * option nat) :=
  match ref_view s c with
  | None => (s, inl RefTxClosed)
  | Some x =>
      let '(fault, s) := next s in
      if fault : bool then (s, inr (x, Some 1%nat)) else (s, inr (x, None))
  end.

#[export] Instance ref_postgres : Postgres T :=
  {| PgServer := ref_server; PgTx := nat; PgErr := ref_err; pgx_ErrTxClosed := RefTxClosed;
     pg_Begin := ref_Begin; pg_Commit := ref_Commit; pg_Rollback := ref_Rollback;
     pg_Exec := ref_Exec; pg_Query := ref_Query; pg_Rows := ref_Rows |}.

Lemma next_view s b s' : next s = (b, s') →
  (∀ c, ref_view s' c = ref_view s c) ∧ committed s' = committed s ∧ open_txs s' = open_txs s.
Proof. unfold next. destruct (faults s); by intros [= <- <-]. Qed.

Ltac ref_solve :=
  cbn [pg_Begin pg_Commit pg_Rollback pg_Exec pg_Query pg_Rows ref_postgres PgServer PgTx];
  unfold ref_Begin, ref_Commit, ref_Rollback, ref_Exec, ref_Query, ref_Rows; intros;
  repeat match goal with
  | H : context [next ?s] |- _ =>
      let b := fresh "b" in let s1 := fresh "s" in let Hn := fresh "Hn" in
      destruct (next s) as [b s1] eqn:Hn; apply next_view in Hn as (? & ? & ?)
  | |- context [next ?s] =>
      let b := fresh "b" in let s1 := fresh "s" in let Hn := fresh "Hn" in
      destruct (next s) as [b s1] eqn:Hn; apply next_view in Hn as (? & ? & ?)
  | H : context [match ?x with _ => _ end] |- _ => destruct x eqn:?; simplify_eq
  end; simplify_eq/=.

#[export] Instance ref_spec : PostgresSpec T.
Proof.
  refine {| pg_view := (ref_view : @PgServer T ref_postgres → _ → _) |}.
  - intros s. by eexists.
  - ref_solve. rewrite lookup_insert_eq. simpl. split; congruence.
  - ref_solve. congruence.
  - ref_solve. do 2 eexists. split_and!; [done|done| |].
    + by destruct c; simpl; [rewrite lookup_insert_eq|].
    + destruct c; simpl; [|done]. intros _. congruence.
  - ref_solve; (split; [|left]); congruence.
  - ref_solve; congruence.
  - intros s t f Ht. ref_solve. unfold ref_Exec. simpl. by rewrite Ht.
  - ref_solve. split; [done|]. done.
  - ref_solve; (split; [|left]); congruence.
  - ref_solve. split; [done|]. done.
  - ref_solve. split_and!; [done|congruence|left; congruence].
  - ref_solve; (split; [|left]); congruence.
  - ref_solve. eexists. split_and!; [done|done|]. by rewrite lookup_delete_eq.
  - ref_solve; left; congruence.
  - ref_solve; congruence.
  - intros s t Ht. ref_solve. by rewrite Ht.
Defined.
End ref.
Arguments ref_server : clear implicits.
End RefPostgres.
