(* ===== verification/ExecTypes.v ===== *)
(** * Requests to the executor and its responses

    The types of [state/types.go] that the sequencer exchanges with the
    executor service and stores.  Hashes, addresses and roots are numbers,
    times are nanoseconds.  A Go map is [None] while it is nil: reading it is
    fine, writing to it panics. *)

From S2P Require Import Prelude GoEthereum Resources AddrQueue Worker ExecErrors.

(** [t.Unix()] *)
Definition Unix (t : Z) : Z := t / 1000000000.

(** The zero value of [time.Time] is the start of the year 1. *)
Definition zero_time : Z := -62135596800 * 1000000000.

Record L1DataV2 := mkL1DataV2 {
  l1d_GlobalExitRoot : Z;
  l1d_BlockHashL1 : Z;
  l1d_MinTimestamp : Z
}.

Record ProcessRequest := mkProcessRequest {
  rq_BatchNumber : Z;
  rq_L1InfoRoot_V2 : Z;
  rq_L1InfoTreeData_V2 : option (gmap Z L1DataV2);
  rq_OldStateRoot : Z;
  rq_OldAccInputHash : Z;
  rq_Transactions : bytes;
  rq_Coinbase : Z;
  rq_ForcedBlockHashL1 : Z;
  rq_TimestampLimit_V2 : Z;
  rq_SkipFirstChangeL2Block_V2 : bool;
  rq_SkipWriteBlockInfoRoot_V2 : bool;
  rq_SkipVerifyL1InfoRoot_V2 : bool;
  rq_ForkID : Z
}.

(** [m[k] = v] *)
Definition map_write {E K V} `{Countable K} (m : option (gmap K V)) (k : K) (v : V) :
    GoRes E (gmap K V) :=
  match m with None => Panic | Some m => Ret (<[k := v]> m) end.

Section responses.
Context `{!GoEthereum}.

Record ProcessTransactionResponse := mkTxResponse {
  tr_TxHash : Z;
  tr_GasUsed : Z;
  tr_RomError : option error;
  tr_StateRoot : Z;
  tr_Logs : list Z;
  tr_Tx : Transaction;
  tr_EffectivePercentage : Z;
  tr_HasGaspriceOpcode : bool;
  tr_HasBalanceOpcode : bool
}.

Record ProcessBlockResponse := mkBlockResponse {
  bl_ParentHash : Z;
  bl_Coinbase : Z;
  bl_BlockNumber : Z;
  bl_Timestamp : Z;
  bl_GlobalExitRoot : Z;
  bl_GasUsed : Z;
  bl_BlockInfoRoot : Z;
  bl_BlockHash : Z;
  bl_TransactionResponses : list ProcessTransactionResponse
}.

Record ProcessBatchResponse := mkBatchResponse {
  pb_NewStateRoot : Z;
  pb_NewAccInputHash : Z;
  pb_NewLocalExitRoot : Z;
  pb_NewBatchNumber : Z;
  pb_UsedZkCounters : ZKCounters;
  pb_BlockResponses : list ProcessBlockResponse;
  pb_ExecutorError : option error;
  pb_ReadWriteAddresses : gmap Z InfoReadWrite;
  pb_IsRomLevelError : bool;
  pb_IsExecutorLevelError : bool;
  pb_IsRomOOCError : bool;
  pb_FlushID : Z
}.
End responses.

(** [state/l1infotree.go] and [state/globalexitroot.go]: the leaf of the L1
    info tree a block refers to *)
Record L1InfoTreeExitRootStorageEntry := mkL1InfoEntry {
  li_BlockNumber : Z;
  li_Timestamp : Z;
  li_MainnetExitRoot : Z;
  li_RollupExitRoot : Z;
  li_GlobalExitRoot : Z;
  li_PreviousBlockHash : Z;
  li_L1InfoTreeRoot : Z;
  li_L1InfoTreeIndex : Z
}.
