(* ===== verification/StateStore.v ===== *)
(** * Batches, forced batches and L2 blocks in the database

    [state/batch.go], [StoreL2Block] of [state/transaction.go] and the SQL of
    [state/pgstatestorage] they run: the tables [state.batch],
    [state.forced_batch], [state.block], [state.l2block], [state.transaction],
    [state.receipt], [state.log] and [state.exit_root] with their primary,
    unique and foreign keys.
    A hash column holds the text of a hash and is read back as the hash, so
    it is a number here; a nil slice is an empty one.  A time is its nanoseconds since
    1970; the columns hold microseconds.  The columns that encode
    a transaction or a header are functions of the row's transaction or block
    and are left out. *)

From S2P Require Import Prelude Digits Hex GoEthereum TxCodec BatchV2 NewTracker.
From S2P Require Import Resources TxTracker AddrQueue Worker ExecErrors ExecTypes GoMonad Postgres.

(** ** Tables *)

Record BlockRow := mkBlockRow { block_hash : Z; parent_hash : Z; received_at : Z }.

(** [raw_txs_data] is the hex text of the data. *)
Record ForcedRow := mkForcedRow {
  f_global_exit_root : Z;
  f_timestamp : Z;
  f_raw_txs_data : text;
  f_coinbase : Z;
  f_block_num : Z
}.

Record BatchRow := mkBatchRow {
  global_exit_root : Z;
  local_exit_root : option Z;
  state_root : option Z;
  acc_input_hash : option Z;
  timestamp : Z;
  coinbase : Z;
  raw_txs_data : option bytes;
  forced_batch_num : option Z;
  batch_resources : option BatchResources;
  closing_reason : option string;
  wip : bool
}.

Record L2BlockRow := mkL2BlockRow {
  l2_block_hash : Z;
  l2_parent_hash : Z;
  l2_state_root : Z;
  l2_received_at : Z;
  l2_batch_num : Z
}.

Record TxRow `{!GoEthereum} := mkTxRow {
  tx_value : Transaction;
  tx_block_num : Z;
  effective_percentage : Z;
  egp_log : option EffectiveGasPriceLog
}.

Record ExitRootRow := mkExitRootRow {
  er_block_num : Z;
  er_timestamp : Z;
  er_mainnet_exit_root : Z;
  er_rollup_exit_root : Z;
  er_global_exit_root : Z;
  er_prev_block_hash : option Z;
  er_l1_info_root : option Z;
  er_l1_info_tree_index : option Z
}.

(** The rows of [state.exit_root], whose key is a serial number, are in the
    order of their insertion. *)
Record Tables `{!GoEthereum} := mkTables {
  t_block : gmap Z BlockRow;
  t_forced : gmap Z ForcedRow;
  t_batch : gmap Z BatchRow;
  t_l2block : gmap Z L2BlockRow;
  t_transaction : gmap Z TxRow;
  t_receipt : gmap Z Z;
  t_log : gset (Z * Z);
  t_exit_root : list ExitRootRow
}.

Arguments mkTxRow {_}.
Arguments mkTables {_}.

Inductive StoreErr `{!GoEthereum, !Postgres Tables} :=
  | ErrPg (e : PgErr)
  | ErrNoRows
  | ErrDBTxNil
  | ErrStateNotSynchronized
  | ErrNotFound
  | ErrUnexpectedBatch
  | ErrLastBatchShouldBeClosed
  | ErrBatchAlreadyClosed
  | ErrTimestampGE
  | ErrHexData (e : HexErr)
  | ErrForkIDSequence.

Abbreviation dbTx := (option (@PgTx Tables _)).
Abbreviation StoreM := (GoM (@PgServer Tables _) StoreErr).

Section store.
Context `{!GoEthereum, !EthSigner, !Postgres Tables}.

Definition set_batch (t : Tables) (m : gmap Z BatchRow) : Tables :=
  mkTables (t_block t) (t_forced t) m (t_l2block t) (t_transaction t) (t_receipt t) (t_log t) (t_exit_root t).
Definition set_forced (t : Tables) (m : gmap Z ForcedRow) : Tables :=
  mkTables (t_block t) m (t_batch t) (t_l2block t) (t_transaction t) (t_receipt t) (t_log t) (t_exit_root t).
Definition set_l2block (t : Tables) (m : gmap Z L2BlockRow) : Tables :=
  mkTables (t_block t) (t_forced t) (t_batch t) m (t_transaction t) (t_receipt t) (t_log t) (t_exit_root t).
Definition set_transaction (t : Tables) (m : gmap Z TxRow) : Tables :=
  mkTables (t_block t) (t_forced t) (t_batch t) (t_l2block t) m (t_receipt t) (t_log t) (t_exit_root t).
Definition set_receipt (t : Tables) (m : gmap Z Z) : Tables :=
  mkTables (t_block t) (t_forced t) (t_batch t) (t_l2block t) (t_transaction t) m (t_log t) (t_exit_root t).
Definition set_log (t : Tables) (m : gset (Z * Z)) : Tables :=
  mkTables (t_block t) (t_forced t) (t_batch t) (t_l2block t) (t_transaction t) (t_receipt t) m (t_exit_root t).
Definition set_exit_root (t : Tables) (l : list ExitRootRow) : Tables :=
  mkTables (t_block t) (t_forced t) (t_batch t) (t_l2block t) (t_transaction t) (t_receipt t)
    (t_log t) l.

(** The value of a column [TIMESTAMP WITH TIME ZONE]: pgx drops what is below a
    microsecond. *)
Definition timestamptz (t : Z) : Z := t / 1000 * 1000.

(** [INSERT] refuses a primary key that exists; [fk] are the rows the new
    one refers to. *)
Definition insert_new {V} (fk : bool) (m : gmap Z V) (k : Z) (v : V) : option (gmap Z V) :=
  if fk then match m !! k with Some _ => None | None => Some (<[k := v]> m) end else None.

Definition has {V} (m : gmap Z V) (k : Z) : bool := bool_decide (is_Some (m !! k)).
Definition has_opt {V} (m : gmap Z V) (k : option Z) : bool :=
  match k with None => true | Some k => has m k end.

(** [ORDER BY key DESC LIMIT 1] *)
Definition last_key {V} (m : gmap Z V) : option Z :=
  map_fold (λ k _ acc, match acc with None => Some k | Some k' => Some (Z.max k k') end) None m.

(** ** Statements *)

Definition sql_Exec (c : dbTx) (f : Tables → option Tables) : StoreM () := λ s,
  match pg_Exec s c f with
  | (s, None) => (s, Ret tt)
  | (s, Some e) => (s, Fail (ErrPg e))
  end.

(** [QueryRow(...).Scan(...)] with [noRows] in place of [pgx.ErrNoRows] *)
Definition sql_QueryRow {A} (c : dbTx) (noRows : StoreErr) (f : Tables → option A) : StoreM A := λ s,
  match pg_Query s c with
  | (s, inl e) => (s, Fail (ErrPg e))
  | (s, inr t) => (s, match f t with Some a => Ret a | None => Fail noRows end)
  end.

(** [Query] and a loop over [rows.Next()] that is not followed by a look at [rows.Err()]:
    when the rows are cut, what was read is returned without an error. *)
Definition sql_Rows {A} (c : dbTx) (f : Tables → list A) : StoreM (list A) := λ s,
  match pg_Rows s c with
  | (s, inl e) => (s, Fail (ErrPg e))
  | (s, inr (t, cut)) => (s, Ret (match cut with None => f t | Some k => take k (f t) end))
  end.

Definition BeginStateTransaction : StoreM PgTx := λ s,
  match pg_Begin s with
  | (s, inl e) => (s, Fail (ErrPg e))
  | (s, inr t) => (s, Ret t)
  end.
Definition Commit (t : PgTx) : StoreM () := λ s,
  match pg_Commit s t with
  | (s, None) => (s, Ret tt)
  | (s, Some e) => (s, Fail (ErrPg e))
  end.
Definition Rollback (t : PgTx) : StoreM () := λ s,
  match pg_Rollback s t with
  | (s, None) => (s, Ret tt)
  | (s, Some e) => (s, Fail (ErrPg e))
  end.

(** ** Values of [state/batch.go] and [state/forcedbatch.go] *)

Record StateBatch := mkStateBatch {
  sb_BatchNumber : Z;
  sb_Coinbase : Z;
  sb_BatchL2Data : bytes;
  sb_StateRoot : Z;
  sb_LocalExitRoot : Z;
  sb_AccInputHash : Z;
  sb_Timestamp : Z;
  sb_GlobalExitRoot : Z;
  sb_ForcedBatchNum : option Z;
  sb_Resources : BatchResources;
  sb_WIP : bool
}.

Record ProcessingContext := mkProcessingContext {
  pc_BatchNumber : Z;
  pc_Coinbase : Z;
  pc_Timestamp : Z;
  pc_GlobalExitRoot : Z;
  pc_ForcedBatchNum : option Z;
  pc_BatchL2Data : option bytes
}.

Record ProcessingReceipt := mkProcessingReceipt {
  re_BatchNumber : Z;
  re_StateRoot : Z;
  re_LocalExitRoot : Z;
  re_AccInputHash : Z;
  re_BatchL2Data : bytes;
  re_ClosingReason : string;
  re_BatchResources : BatchResources
}.

Record ForcedBatch := mkForcedBatch {
  fb_BlockNumber : Z;
  fb_ForcedBatchNumber : Z;
  fb_Sequencer : Z;
  fb_GlobalExitRoot : Z;
  fb_RawTxsData : bytes;
  fb_ForcedAt : Z
}.

(** ** Batches in the storage *)

Definition zero_resources : BatchResources :=
  mkBatchResources (mkZKCounters 0 0 0 0 0 0 0 0 0) 0.

Definition scanBatch (n : Z) (r : BatchRow) : StateBatch :=
  mkStateBatch n (coinbase r) (default [] (raw_txs_data r)) (default 0 (state_root r))
    (default 0 (local_exit_root r)) (default 0 (acc_input_hash r)) (timestamp r)
    (global_exit_root r) (forced_batch_num r) (default zero_resources (batch_resources r)) (wip r).

Definition GetLastBatchNumber (c : dbTx) : StoreM Z :=
  sql_QueryRow c ErrStateNotSynchronized (λ t, last_key (t_batch t)).

Definition GetLastBatchTime (c : dbTx) : StoreM Z :=
  sql_QueryRow c ErrStateNotSynchronized
    (λ t, n ← last_key (t_batch t); timestamp <$> t_batch t !! n).

Definition GetBatchByNumber (batchNumber : Z) (c : dbTx) : StoreM StateBatch :=
  sql_QueryRow c ErrNotFound (λ t, scanBatch batchNumber <$> t_batch t !! batchNumber).

Definition GetWIPBatchInStorage (batchNumber : Z) (c : dbTx) : StoreM StateBatch :=
  sql_QueryRow c ErrNotFound (λ t,
    r ← t_batch t !! batchNumber;
    if wip r then Some (scanBatch batchNumber r) else None).

Definition IsBatchClosed (batchNum : Z) (c : dbTx) : StoreM bool :=
  sql_QueryRow c ErrNoRows (λ t, negb ∘ wip <$> t_batch t !! batchNum).

Definition insert_batch (n : Z) (r : BatchRow) (t : Tables) : option Tables :=
  set_batch t <$> insert_new (has_opt (t_forced t) (forced_batch_num r)) (t_batch t) n r.

(** [UPDATE ... WHERE batch_num = n] *)
Definition update_batch (n : Z) (f : BatchRow → BatchRow) (t : Tables) : option Tables :=
  Some (set_batch t (alter f n (t_batch t))).

Definition StoreGenesisBatch (b : StateBatch) (c : dbTx) : StoreM () :=
  if decide (sb_BatchNumber b ≠ 0) then fail ErrUnexpectedBatch
  else sql_Exec c (insert_batch (sb_BatchNumber b)
    (mkBatchRow (sb_GlobalExitRoot b) (Some (sb_LocalExitRoot b)) (Some (sb_StateRoot b))
       (Some (sb_AccInputHash b)) (timestamptz (sb_Timestamp b)) (sb_Coinbase b) (Some (sb_BatchL2Data b))
       (sb_ForcedBatchNum b) None None false)).

Definition OpenBatchInStorage (p : ProcessingContext) (c : dbTx) : StoreM () :=
  sql_Exec c (insert_batch (pc_BatchNumber p)
    (mkBatchRow (pc_GlobalExitRoot p) None None None (timestamptz (pc_Timestamp p)) (pc_Coinbase p)
       (pc_BatchL2Data p) (pc_ForcedBatchNum p) None None true)).

Definition OpenWIPBatchInStorage (b : StateBatch) (c : dbTx) : StoreM () :=
  sql_Exec c (insert_batch (sb_BatchNumber b)
    (mkBatchRow (sb_GlobalExitRoot b) (Some (sb_LocalExitRoot b)) (Some (sb_StateRoot b))
       (Some (sb_AccInputHash b)) (timestamptz (sb_Timestamp b)) (sb_Coinbase b) (Some (sb_BatchL2Data b))
       (sb_ForcedBatchNum b) (Some (sb_Resources b)) None true)).

Definition CloseBatchInStorage (p : ProcessingReceipt) (c : dbTx) : StoreM () :=
  sql_Exec c (update_batch (re_BatchNumber p) (λ r,
    mkBatchRow (global_exit_root r) (Some (re_LocalExitRoot p)) (Some (re_StateRoot p))
      (Some (re_AccInputHash p)) (timestamp r) (coinbase r) (Some (re_BatchL2Data p))
      (forced_batch_num r) (Some (re_BatchResources p)) (Some (re_ClosingReason p)) false)).

Definition CloseWIPBatchInStorage (p : ProcessingReceipt) (c : dbTx) : StoreM () :=
  sql_Exec c (update_batch (re_BatchNumber p) (λ r,
    mkBatchRow (global_exit_root r) (local_exit_root r) (state_root r) (acc_input_hash r)
      (timestamp r) (coinbase r) (raw_txs_data r) (forced_batch_num r)
      (Some (re_BatchResources p)) (Some (re_ClosingReason p)) false)).

Definition UpdateWIPBatch (p : ProcessingReceipt) (c : dbTx) : StoreM () :=
  sql_Exec c (update_batch (re_BatchNumber p) (λ r,
    mkBatchRow (global_exit_root r) (Some (re_LocalExitRoot p)) (Some (re_StateRoot p))
      (Some (re_AccInputHash p)) (timestamp r) (coinbase r) (Some (re_BatchL2Data p))
      (forced_batch_num r) (Some (re_BatchResources p)) (closing_reason r) (wip r))).

Definition UpdateBatchL2Data (batchNumber : Z) (batchL2Data : bytes) (c : dbTx) : StoreM () :=
  sql_Exec c (update_batch batchNumber (λ r,
    mkBatchRow (global_exit_root r) (local_exit_root r) (state_root r) (acc_input_hash r)
      (timestamp r) (coinbase r) (Some batchL2Data) (forced_batch_num r) (batch_resources r)
      (closing_reason r) (wip r))).

Definition AddAccumulatedInputHash (batchNum accInputHash : Z) (c : dbTx) : StoreM () :=
  sql_Exec c (update_batch batchNum (λ r,
    mkBatchRow (global_exit_root r) (local_exit_root r) (state_root r) (Some accInputHash)
      (timestamp r) (coinbase r) (raw_txs_data r) (forced_batch_num r) (batch_resources r)
      (closing_reason r) (wip r))).

(** [0x0B], the time since the previous block and the index, both big endian *)
Definition BuildChangeL2Block (deltaTimestamp l1InfoTreeIndex : Z) : bytes :=
  [0x0B] ++ split_digits 256 4 deltaTimestamp ++ split_digits 256 4 l1InfoTreeIndex.

(** ** Batches of the state *)

(** The guards of [OpenBatch] and of [OpenWIPBatch] *)
Definition check_open (batchNumber batchTimestamp : Z) (c : dbTx) : StoreM () :=
  if decide (c = None) then fail ErrDBTxNil
  else
    lastBatchNum ← GetLastBatchNumber c;
    if decide (lastBatchNum +₆₄ 1 ≠ batchNumber) then fail ErrUnexpectedBatch
    else
      isLastBatchClosed ← IsBatchClosed lastBatchNum c;
      if negb isLastBatchClosed then fail ErrLastBatchShouldBeClosed
      else
        prevTimestamp ← GetLastBatchTime c;
        if Unix batchTimestamp <? Unix prevTimestamp then fail ErrTimestampGE else mret tt.

Definition OpenBatch (p : ProcessingContext) (c : dbTx) : StoreM () :=
  check_open (pc_BatchNumber p) (pc_Timestamp p) c ;; OpenBatchInStorage p c.

Definition OpenWIPBatch (b : StateBatch) (c : dbTx) : StoreM () :=
  check_open (sb_BatchNumber b) (sb_Timestamp b) c ;; OpenWIPBatchInStorage b c.

Definition isBatchClosable (p : ProcessingReceipt) (c : dbTx) : StoreM () :=
  lastBatchNum ← GetLastBatchNumber c;
  if decide (lastBatchNum ≠ re_BatchNumber p) then fail ErrUnexpectedBatch
  else
    isLastBatchClosed ← IsBatchClosed lastBatchNum c;
    if isLastBatchClosed : bool then fail ErrBatchAlreadyClosed else mret tt.

Definition CloseBatch (p : ProcessingReceipt) (c : dbTx) : StoreM () :=
  if decide (c = None) then fail ErrDBTxNil
  else isBatchClosable p c ;; CloseBatchInStorage p c.

Definition CloseWIPBatch (p : ProcessingReceipt) (c : dbTx) : StoreM () :=
  CloseWIPBatchInStorage p c.

(** ** Forced batches and L1 blocks *)

(** The statement runs on the transaction itself, which must not be nil. *)
Definition AddForcedBatch (b : ForcedBatch) (c : dbTx) : StoreM () :=
  if decide (c = None) then panic
  else sql_Exec c (λ t,
    set_forced t <$> insert_new (has (t_block t) (fb_BlockNumber b)) (t_forced t)
      (fb_ForcedBatchNumber b)
      (mkForcedRow (fb_GlobalExitRoot b) (timestamptz (fb_ForcedAt b))
         (EncodeToString (fb_RawTxsData b)) (fb_Sequencer b) (fb_BlockNumber b))).

Definition GetForcedBatch (forcedBatchNumber : Z) (c : dbTx) : StoreM ForcedBatch :=
  r ← sql_QueryRow c ErrNotFound (λ t, t_forced t !! forcedBatchNumber);
  data ← lift (map_err ErrHexData (DecodeString (f_raw_txs_data r)));
  mret (mkForcedBatch (f_block_num r) forcedBatchNumber (f_coinbase r) (f_global_exit_root r)
          data (f_timestamp r)).

(** The text column is scanned into a byte slice: its characters. *)
Definition scanForcedBatch (n : Z) (r : ForcedRow) : ForcedBatch :=
  mkForcedBatch (f_block_num r) n (f_coinbase r) (f_global_exit_root r)
    (char_code <$> f_raw_txs_data r) (f_timestamp r).

Definition forced_le (x y : Z * ForcedRow) : Prop := x.1 ≤ y.1.
#[export] Instance forced_le_dec : RelDecision forced_le.
Proof. unfold forced_le. intros x y. apply _. Defined.

Definition GetForcedBatchesSince (forcedBatchNumber maxBlockNumber : Z) (c : dbTx) :
    StoreM (list ForcedBatch) :=
  sql_Rows c (λ t, (λ x, scanForcedBatch x.1 x.2) <$>
    merge_sort forced_le (filter (λ x, forcedBatchNumber < x.1 ∧ f_block_num x.2 ≤ maxBlockNumber)
                            (map_to_list (t_forced t)))).

Definition GetLastTrustedForcedBatchNumber (c : dbTx) : StoreM Z :=
  sql_QueryRow c ErrStateNotSynchronized (λ t,
    Some (map_fold (λ _ r acc, match forced_batch_num r with
                               | Some n => Z.max n acc
                               | None => acc
                               end) 0 (t_batch t))).

(** ** Resets *)

Definition drop_rows {V} (P : Z → V → bool) (m : gmap Z V) : gmap Z V :=
  filter (λ kv, P kv.1 kv.2 = false) m.

(** [DELETE FROM state.block] and the rows that go with their block; the forced batches
    that a batch refers to cannot be deleted. *)
Definition delete_blocks (P : Z → bool) (t : Tables) : option Tables :=
  let forced := drop_rows (λ _ r, P (f_block_num r)) (t_forced t) in
  if bool_decide (map_Forall (λ _ b, has_opt forced (forced_batch_num b) = true) (t_batch t))
  then Some (mkTables (drop_rows (λ k _, P k) (t_block t)) forced (t_batch t) (t_l2block t)
               (t_transaction t) (t_receipt t) (t_log t)
               (filter (λ r, P (er_block_num r) = false) (t_exit_root t)))
  else None.

(** [DELETE FROM state.batch] with the blocks, transactions, receipts and logs of the
    batches *)
Definition delete_batches (P : Z → bool) (t : Tables) : option Tables :=
  let l2block := drop_rows (λ _ r, P (l2_batch_num r)) (t_l2block t) in
  let transaction := drop_rows (λ _ r, negb (has l2block (tx_block_num r))) (t_transaction t) in
  Some (mkTables (t_block t) (t_forced t) (drop_rows (λ k _, P k) (t_batch t)) l2block transaction
          (drop_rows (λ h n, negb (has transaction h && has l2block n)) (t_receipt t))
          (filter (λ l, has transaction l.1 = true) (t_log t)) (t_exit_root t)).

Definition Reset (blockNumber : Z) (c : dbTx) : StoreM () :=
  sql_Exec c (delete_blocks (λ n, blockNumber <? n)).

Definition ResetTrustedState (batchNumber : Z) (c : dbTx) : StoreM () :=
  sql_Exec c (delete_batches (λ n, batchNumber <? n)).

(** [firstBlock] is the value of the subquery on [state.virtual_batch], a table that is
    left out, NULL when it has no such batch; so is [state.proof], which the last
    statement changes. *)
Definition ResetForkID (firstBlock : option Z) (batchNumber : Z) (c : dbTx) : StoreM () :=
  sql_Exec c (delete_blocks (λ n, match firstBlock with Some b => b <=? n | None => false end)) ;;
  ResetTrustedState (batchNumber -₆₄ 1) c ;;
  sql_Exec c Some.

Definition GetBlockByNumber (blockNumber : Z) (c : dbTx) : StoreM BlockRow :=
  sql_QueryRow c ErrNotFound (λ t, t_block t !! blockNumber).

(** ** Fork ids *)

Record ForkIDInterval := mkForkIDInterval {
  FromBatchNumber : Z;
  ToBatchNumber : Z;
  ForkId : Z;
  fk_BlockNumber : Z
}.

Record ForkCfg := mkForkCfg {
  ForkUpgradeBatchNumber : Z;
  ForkUpgradeNewForkId : Z;
  ForkIDIntervals : list ForkIDInterval
}.

Definition in_interval (batchNumber : Z) (i : ForkIDInterval) : bool :=
  (FromBatchNumber i <=? batchNumber) && (batchNumber <=? ToBatchNumber i).

(** Panics without intervals. *)
Definition GetForkIDByBatchNumber {E} (cfg : ForkCfg) (batchNumber : Z) : GoRes E Z :=
  if bool_decide (ForkUpgradeBatchNumber cfg ≠ 0) && (ForkUpgradeBatchNumber cfg <? batchNumber)
  then Ret (ForkUpgradeNewForkId cfg)
  else match List.find (in_interval batchNumber) (ForkIDIntervals cfg) with
       | Some i => Ret (ForkId i)
       | None => ForkId <$> index (ForkIDIntervals cfg) (zlen (ForkIDIntervals cfg) - 1)
       end.
End store.

(** ** L2 blocks

    The hash of a block before Etrog is computed by go-ethereum from its
    header and contents; [encode_columns] is the error, if any, of the
    encodings of a transaction that fill the columns left out. *)
Class EthBlocks `{!GoEthereum} := {
  eth_block_Hash : ProcessBlockResponse → list Transaction → Z;
  encode_columns : Transaction → option string
}.

Inductive L2StoreErr `{!GoEthereum, !Postgres Tables} :=
  | ErrStore (e : StoreErr)
  | ErrEncodeColumns (e : string).
Abbreviation L2StoreM := (GoM (@PgServer Tables _) L2StoreErr).

Section l2blocks.
Context `{!GoEthereum, !EthSigner, !Postgres Tables, !EthBlocks}.

Record StoreTxEGPData := mkStoreTxEGPData {
  sd_EGPLog : option EffectiveGasPriceLog;
  sd_EffectivePercentage : Z
}.

(** The transaction has not changed the state, so it is not stored. *)
Definition not_stored (txResponse : ProcessTransactionResponse) : bool :=
  IsIntrinsicError (RomErrorCode (tr_RomError txResponse)) ||
  IsInvalidL2Block (RomErrorCode (tr_RomError txResponse)).

(** The loop of [StoreL2Block]: [i] counts the responses, the slice
    [storeTxsEGPData] only the stored ones. *)
Fixpoint block_loop (responses : list ProcessTransactionResponse) (i : Z)
    (txsEGPLog : option (list EffectiveGasPriceLog)) (transactions : list Transaction)
    (storeTxsEGPData : list StoreTxEGPData) (receipts : list ProcessTransactionResponse) :
    GoRes L2StoreErr (list Transaction * list StoreTxEGPData * list ProcessTransactionResponse) :=
  match responses with
  | [] => Ret (transactions, storeTxsEGPData, receipts)
  | r :: responses =>
      if not_stored r
      then block_loop responses (i + 1) txsEGPLog transactions storeTxsEGPData receipts
      else
        let transactions := transactions ++ [tr_Tx r] in
        let storeTxsEGPData :=
          storeTxsEGPData ++ [mkStoreTxEGPData None (wrap8 (tr_EffectivePercentage r))] in
        storeTxsEGPData ←
          match txsEGPLog with
          | None => Ret storeTxsEGPData
          | Some logs =>
              log ← index logs i;
              d ← index storeTxsEGPData i;
              Ret (<[Z.to_nat i := mkStoreTxEGPData (Some log) (sd_EffectivePercentage d)]>
                     storeTxsEGPData)
          end;
        block_loop responses (i + 1) txsEGPLog transactions storeTxsEGPData (receipts ++ [r])
  end.

Definition store_Exec (c : dbTx) (f : Tables → option Tables) : L2StoreM () :=
  wrap_err ErrStore (sql_Exec c f).

(** The rows of the transactions of a block *)
Fixpoint add_transactions (blockNum : Z) (transactions : list Transaction) (idx : Z)
    (txsEGPData : list StoreTxEGPData) (c : dbTx) : L2StoreM () :=
  match transactions with
  | [] => mret tt
  | tx :: transactions =>
      d ← lift (index txsEGPData idx);
      match encode_columns tx with
      | Some e => fail (ErrEncodeColumns e)
      | None =>
          store_Exec c (λ t,
            set_transaction t <$> insert_new (has (t_l2block t) blockNum) (t_transaction t)
              (tx_Hash tx)
              (mkTxRow tx blockNum (sd_EffectivePercentage d) (sd_EGPLog d))) ;;
          add_transactions blockNum transactions (idx + 1) txsEGPData c
      end
  end.

Definition AddReceipt (blockNum txHash : Z) (c : dbTx) : L2StoreM () :=
  store_Exec c (λ t,
    set_receipt t <$> insert_new (has (t_transaction t) txHash && has (t_l2block t) blockNum)
      (t_receipt t) txHash blockNum).

Definition AddLog (txHash logIndex : Z) (c : dbTx) : L2StoreM () :=
  store_Exec c (λ t,
    if has (t_transaction t) txHash && bool_decide ((txHash, logIndex) ∉ t_log t)
    then Some (set_log t ({[(txHash, logIndex)]} ∪ t_log t)) else None).

Definition AddL2Block (cfg : ForkCfg) (batchNumber : Z) (b : ProcessBlockResponse)
    (transactions : list Transaction) (receipts : list ProcessTransactionResponse)
    (txsEGPData : list StoreTxEGPData) (c : dbTx) : L2StoreM () :=
  forkID ← lift (GetForkIDByBatchNumber cfg batchNumber);
  let hash := if FORKID_ETROG <=? forkID then bl_BlockHash b else eth_block_Hash b transactions in
  store_Exec c (λ t,
    set_l2block t <$> insert_new (has (t_batch t) batchNumber) (t_l2block t) (bl_BlockNumber b)
      (mkL2BlockRow hash (bl_ParentHash b) (bl_BlockHash b)
         (to_int64 (bl_Timestamp b) * 1000000000) batchNumber)) ;;
  add_transactions (bl_BlockNumber b) transactions 0 txsEGPData c ;;
  for_each receipts (λ r,
    AddReceipt (bl_BlockNumber b) (tx_Hash (tr_Tx r)) c ;;
    for_each (tr_Logs r) (λ logIndex, AddLog (tx_Hash (tr_Tx r)) logIndex c)).

Definition StoreL2Block (cfg : ForkCfg) (batchNumber : Z) (l2Block : ProcessBlockResponse)
    (txsEGPLog : option (list EffectiveGasPriceLog)) (c : dbTx) : L2StoreM () :=
  if decide (c = None) then fail (ErrStore ErrDBTxNil)
  else
    r ← lift (block_loop (bl_TransactionResponses l2Block) 0 txsEGPLog [] [] []);
    let '(transactions, storeTxsEGPData, receipts) := r in
    AddL2Block cfg batchNumber l2Block transactions receipts storeTxsEGPData c.
End l2blocks.
