(* ===== verification/StoreOk.v ===== *)
(** * The batch table stays consistent

    Whatever sequence of transactions a client runs, resets included, with any
    statement, commit or rollback failing, the committed batches are numbered from
    zero without gaps, only the last of them can be open, and their times do not
    decrease.  Also the round trip of a forced batch through its table. *)

From S2P Require Import Prelude Digits Hex GoEthereum TxCodec BatchV2 NewTracker.
From S2P Require Import Resources TxTracker AddrQueue Worker ExecErrors ExecTypes GoMonad Postgres.
From S2P Require Import StateStore.

(** ** Keys of a table *)

Lemma last_key_spec {V} (m : gmap Z V) :
  match last_key m with
  | None => m = ∅
  | Some k => is_Some (m !! k) ∧ ∀ k', is_Some (m !! k') → k' ≤ k
  end.
Proof.
  unfold last_key. apply (map_fold_weak_ind (λ r (m : gmap Z V),
    match r with None => m = ∅ | Some k => is_Some (m !! k) ∧ ∀ k', is_Some (m !! k') → k' ≤ k end)).
  - done.
  - intros k v m' r Hk Hr. destruct r as [k0|].
    + destruct Hr as [H0 Hmax]. split.
      * destruct (Z.max_spec k k0) as [[? ->]|[? ->]];
          [|by rewrite lookup_insert_eq; eexists].
        rewrite lookup_insert_ne by lia. done.
      * intros k'. destruct (decide (k' = k)) as [->|Hne]; [lia|].
        rewrite lookup_insert_ne by done. intros H. specialize (Hmax k' H). lia.
    + subst. split; [by rewrite lookup_insert_eq; eexists|].
      intros k'. destruct (decide (k' = k)) as [->|Hne]; [lia|].
      rewrite lookup_insert_ne by done. rewrite lookup_empty. by intros [].
Qed.

Lemma last_key_Some {V} (m : gmap Z V) k :
  last_key m = Some k → is_Some (m !! k) ∧ ∀ k', is_Some (m !! k') → k' ≤ k.
Proof. intros Hk. pose proof (last_key_spec m) as Hs. by rewrite Hk in Hs. Qed.

Lemma insert_new_Some {V} fk (m m' : gmap Z V) k v :
  insert_new fk m k v = Some m' → fk = true ∧ m !! k = None ∧ m' = <[k := v]> m.
Proof. unfold insert_new. repeat case_match; naive_solver. Qed.

(** ** The invariant *)

(** The table is empty when [last] is -1. *)
Record batches_upto (m : gmap Z BatchRow) (last : Z) : Prop := {
  bu_range : -1 ≤ last < 2 ^ 64;
  bu_keys : ∀ k, is_Some (m !! k) ↔ 0 ≤ k ≤ last;
  bu_closed : ∀ k r, m !! k = Some r → k < last → wip r = false;
  bu_times : ∀ k r r', m !! k = Some r → m !! (k + 1) = Some r' →
    Unix (timestamp r) ≤ Unix (timestamp r')
}.

Definition batches_ok (m : gmap Z BatchRow) : Prop := ∃ last, batches_upto m last.

(** A new batch after a closed one *)
Lemma batches_insert m last r0 r :
  batches_upto m last → m !! last = Some r0 → wip r0 = false →
  Unix (timestamp r0) ≤ Unix (timestamp r) → last + 1 < 2 ^ 64 →
  batches_upto (<[last + 1 := r]> m) (last + 1).
Proof.
  intros [Hr Hk Hc Ht] H0 Hw Hu Hb. split.
  - lia.
  - intros k. destruct (decide (k = last + 1)) as [->|Hne].
    + rewrite lookup_insert_eq. split; [lia|by eexists].
    + rewrite lookup_insert_ne, Hk by done. lia.
  - intros k rk Hrk Hlt. rewrite lookup_insert_ne in Hrk by lia.
    destruct (decide (k = last)) as [->|Hne]; [congruence|]. apply (Hc k); [done|lia].
  - intros k rk rk'. rewrite !lookup_insert_Some. intros [[? ?]|[? Hrk]] [[? ?]|[? Hrk']]; subst.
    + lia.
    + assert (is_Some (m !! (last + 1 + 1))) as [??]%Hk by (by eexists). lia.
    + replace k with last in * by lia. naive_solver.
    + by eapply Ht.
Qed.

Lemma batches_empty : batches_upto ∅ (-1).
Proof.
  split; [lia| |done..]. intros k. rewrite lookup_empty. split; [by intros []|lia].
Qed.

(** The first batch *)
Lemma batches_genesis m r : batches_ok m → m !! 0 = None → batches_ok (<[0 := r]> m).
Proof.
  intros [last [Hr Hk _ _]] H0.
  assert (last = -1) as ->.
  { destruct (decide (last = -1)) as [|Hne]; [done|].
    assert (is_Some (m !! 0)) as [? ?] by (apply Hk; lia). congruence. }
  assert (m = ∅) as ->.
  { apply map_empty. intros k. apply eq_None_not_Some. rewrite Hk. lia. }
  exists 0. rewrite insert_empty. split.
  - lia.
  - intros k. rewrite lookup_singleton_is_Some. lia.
  - intros k r' Hr' Hlt. apply lookup_singleton_Some in Hr' as [<- _]. lia.
  - intros k r1 r2 H1 H2. apply lookup_singleton_Some in H1 as [<- _].
    by apply lookup_singleton_Some in H2 as [? _].
Qed.

(** Without the batches after [n] *)
Lemma batches_drop m n :
  0 ≤ n → batches_ok m → batches_ok (drop_rows (λ k _, n <? k) m).
Proof.
  intros Hn [last [Hr Hk Hc Ht]]. unfold drop_rows.
  assert (Hin : ∀ k r, filter (λ kv, (n <? kv.1) = false) m !! k = Some r ↔ m !! k = Some r ∧ k ≤ n).
  { intros k r. rewrite map_lookup_filter_Some. simpl. by rewrite Z.ltb_ge. }
  exists (Z.min last n). split.
  - lia.
  - intros k. split.
    + intros [r [Hm Hle]%Hin]. assert (is_Some (m !! k)) as Hs%Hk by by eexists. lia.
    + intros Hrange. destruct (proj2 (Hk k)) as [r Hm]; [lia|]. exists r. apply Hin. split; [done|lia].
  - intros k r [Hm Hle]%Hin Hlt. apply (Hc k); [done|lia].
  - intros k r r' [H1 _]%Hin [H2 _]%Hin. by eapply Ht.
Qed.

(** An update that opens no batch and keeps the times *)
Lemma batches_alter m n f :
  (∀ r, timestamp (f r) = timestamp r ∧ (wip r = false → wip (f r) = false)) →
  batches_ok m → batches_ok (alter f n m).
Proof.
  intros Hf [last [Hr Hk Hc Ht]]. exists last. split.
  - done.
  - intros k. rewrite <-Hk. destruct (decide (k = n)) as [->|Hne].
    + rewrite lookup_alter_eq. by rewrite fmap_is_Some.
    + by rewrite lookup_alter_ne.
  - intros k r Hkr Hlt. rewrite lookup_alter_Some in Hkr.
    destruct Hkr as [(? & r' & ? & ->)|[? ?]]; [apply Hf|]; naive_solver.
  - intros k r r'. rewrite !lookup_alter_Some. intros [(? & r1 & ? & ->)|[? ?]] [(? & r2 & ? & ->)|[? ?]];
      rewrite ?(proj1 (Hf _)); eauto.
Qed.

(** ** Statements and queries *)

Section ok.
Context `{!GoEthereum, !EthSigner, !Postgres Tables, !PostgresSpec Tables, !EthBlocks}.

Definition tables_ok (x : Tables) : Prop := batches_ok (t_batch x).

(** What a connection and the pool read is consistent. *)
Definition server_ok (c : dbTx) (s : PgServer) : Prop :=
  ∀ c' x, c' = None ∨ c' = c → pg_view s c' = Some x → tables_ok x.

Lemma server_ok_view c s s' :
  (∀ c', c' = None ∨ c' = c → pg_view s' c' = pg_view s c' ∨ pg_view s' c' = None) →
  server_ok c s → server_ok c s'.
Proof.
  intros Hv Hok c' x Hc' Hx. destruct (Hv c' Hc') as [He|He]; rewrite He in Hx; [|done].
  by eapply Hok.
Qed.

Lemma sql_QueryRow_Ret {A} c e (f : Tables → option A) s s' a :
  sql_QueryRow c e f s = (s', Ret a) →
  (∀ c', pg_view s' c' = pg_view s c') ∧ ∃ x, pg_view s c = Some x ∧ f x = Some a.
Proof.
  unfold sql_QueryRow. destruct (pg_Query s c) as [s1 [e1|x]] eqn:Hq; [done|].
  apply pg_Query_ok in Hq as [Hx Hv]. case_match; intros; simplify_eq. eauto.
Qed.

Lemma sql_QueryRow_keeps {A} c e (f : Tables → option A) :
  keeps (server_ok c) (sql_QueryRow c e f).
Proof.
  intros s Hs. unfold sql_QueryRow. destruct (pg_Query s c) as [s1 [e1|x]] eqn:Hq; simpl.
  - apply pg_Query_err in Hq as [Hn Hc]. eapply server_ok_view; [|done].
    intros c' [->| ->]; [by left | done].
  - apply pg_Query_ok in Hq as [_ Hv]. eapply server_ok_view; [|done]. by left.
Qed.

Lemma sql_Exec_server c f s :
  server_ok c s → (∀ x y, pg_view s c = Some x → tables_ok x → f x = Some y → tables_ok y) →
  server_ok c (sql_Exec c f s).1.
Proof.
  intros Hs Hf. unfold sql_Exec. destruct (pg_Exec s c f) as [s1 [e1|]] eqn:Hq; simpl.
  - apply pg_Exec_err in Hq as [Hn Hc]. eapply server_ok_view; [|done].
    intros c' [->| ->]; [by left | done].
  - apply pg_Exec_ok in Hq as (x & y & Hx & Hy & Hv & Hn).
    assert (tables_ok y) by (eapply Hf; [done| |done]; eapply Hs; [by right|done]).
    intros c' z [->| ->] Hz; [|congruence]. destruct c as [t|]; [|congruence].
    rewrite Hn in Hz by done. eapply Hs; [by left|done].
Qed.

Lemma sql_Exec_keeps c f :
  (∀ x y, tables_ok x → f x = Some y → tables_ok y) → keeps (server_ok c) (sql_Exec c f).
Proof. intros Hf s Hs. apply sql_Exec_server; [done|]. eauto. Qed.

Lemma update_batch_ok n f x y :
  (∀ r, timestamp (f r) = timestamp r ∧ (wip r = false → wip (f r) = false)) →
  tables_ok x → update_batch n f x = Some y → tables_ok y.
Proof. intros Hf Hx [= <-]. by apply batches_alter. Qed.

(** A statement that leaves the batches alone *)
Lemma other_table_ok {V} (set : V → Tables) (m : option V) y x :
  (∀ v, t_batch (set v) = t_batch x) → tables_ok x → set <$> m = Some y → tables_ok y.
Proof.
  intros Hset Hx Hy. destruct m as [v|]; [|done]. injection Hy as <-. unfold tables_ok.
  by rewrite Hset.
Qed.

Hint Resolve sql_QueryRow_keeps : go_keeps.

Lemma check_open_keeps n ts c : keeps (server_ok c) (check_open n ts c).
Proof. unfold check_open, GetLastBatchNumber, IsBatchClosed, GetLastBatchTime. keeps_tac. Qed.

(** What the guards of a new batch guarantee *)
Lemma check_open_Ret n ts c s s' :
  check_open n ts c s = (s', Ret tt) →
  (∀ c', pg_view s' c' = pg_view s c') ∧
  ∃ x last r, pg_view s c = Some x ∧ last_key (t_batch x) = Some last ∧ n = last +₆₄ 1 ∧
    t_batch x !! last = Some r ∧ wip r = false ∧ Unix (timestamp r) ≤ Unix ts.
Proof.
  unfold check_open. case_decide; [done|]. intros Hc.
  apply GoM_bind_Ret in Hc as (s1 & last & Hq1 & Hc).
  apply sql_QueryRow_Ret in Hq1 as (Hv1 & x & Hx & Hl).
  case_decide as Hn; [done|]. apply GoM_bind_Ret in Hc as (s2 & closed & Hq2 & Hc).
  apply sql_QueryRow_Ret in Hq2 as (Hv2 & x2 & Hx2 & Hcl).
  destruct closed; [|done]. apply GoM_bind_Ret in Hc as (s3 & prev & Hq3 & Hc).
  apply sql_QueryRow_Ret in Hq3 as (Hv3 & x3 & Hx3 & Hp).
  destruct (Z.ltb_spec (Unix ts) (Unix prev)) as [|Hge]; [done|]. injection Hc as <-.
  rewrite Hv2, Hv1 in Hx3. rewrite Hv1 in Hx2. simplify_eq.
  apply fmap_Some in Hcl as (r & Hr & Hw). rewrite Hl in Hp. simpl in Hp.
  rewrite Hr in Hp. simplify_eq/=. split.
  - intros c'. by rewrite Hv3, Hv2, Hv1.
  - exists x, last, r. symmetry in Hw. apply negb_true_iff in Hw.
    by split_and!.
Qed.

Lemma Unix_timestamptz t : Unix (timestamptz t) = Unix t.
Proof.
  unfold Unix, timestamptz. change 1000000000 with (1000 * 1000000).
  by rewrite <- !Z.div_div, Z.div_mul by lia.
Qed.

(** Both ways of opening a batch *)
Lemma open_server n ts c row s :
  timestamp row = timestamptz ts → server_ok c s →
  server_ok c ((check_open n ts c ;; sql_Exec c (insert_batch n row)) s).1.
Proof.
  intros Hts Hs. unfold mbind, GoM_bind.
  destruct (check_open n ts c s) as [s1 [[]|e|]] eqn:Hc.
  2,3: pose proof (check_open_keeps n ts c s Hs) as Hk; by rewrite Hc in Hk.
  apply check_open_Ret in Hc as (Hv & x & last & r & Hx & Hl & -> & Hr & Hw & Hu).
  assert (server_ok c s1) as Hs1 by (eapply server_ok_view; [|done]; by left).
  apply sql_Exec_server; [done|]. intros x' y Hx' [last' Hok] Hy.
  rewrite Hv in Hx'. simplify_eq. unfold insert_batch in Hy.
  apply fmap_Some in Hy as (m & Hm & ->). apply insert_new_Some in Hm as (_ & Hnone & ->).
  assert (last = last') as ->.
  { apply last_key_Some in Hl as [[? ?]%(bu_keys _ _ Hok) Hmax].
    specialize (Hmax last'). rewrite (bu_keys _ _ Hok) in Hmax. pose proof (bu_range _ _ Hok). lia. }
  pose proof (bu_range _ _ Hok) as Hrange. destruct (decide (last' = 2 ^ 64 - 1)) as [->|Hne].
  - exfalso. change ((2 ^ 64 - 1) +₆₄ 1) with 0 in Hnone.
    assert (is_Some (t_batch x !! 0)) as [? ?] by (apply (bu_keys _ _ Hok); lia). congruence.
  - rewrite wrap64_small in * by (unfold in_u64; lia). exists (last' + 1).
    apply (batches_insert _ _ r); try done; [rewrite Hts, Unix_timestamptz; lia|lia].
Qed.

(** ** Every operation keeps the tables consistent *)

Ltac update_tac :=
  apply sql_Exec_keeps; intros ? ? ? ?; eapply update_batch_ok; [|eassumption..]; by intros [].
Ltac other_tac :=
  apply sql_Exec_keeps; intros x y Hx Hy; eapply (other_table_ok _ _ y x); [|done|exact Hy]; done.

(** The operations of the state on a transaction *)
Inductive store_op (t : PgTx) : StoreM () → Prop :=
  | op_open p : store_op t (OpenBatch p (Some t))
  | op_open_wip b : store_op t (OpenWIPBatch b (Some t))
  | op_close p : store_op t (CloseBatch p (Some t))
  | op_close_wip p : store_op t (CloseWIPBatch p (Some t))
  | op_update_wip p : store_op t (UpdateWIPBatch p (Some t))
  | op_update_data n d : store_op t (UpdateBatchL2Data n d (Some t))
  | op_acc_input n h : store_op t (AddAccumulatedInputHash n h (Some t))
  | op_forced b : store_op t (AddForcedBatch b (Some t))
  | op_genesis b : store_op t (StoreGenesisBatch b (Some t))
  | op_reset n : store_op t (Reset n (Some t))
  | op_reset_trusted n : in_u64 n → store_op t (ResetTrustedState n (Some t))
  | op_reset_fork first n : store_op t (ResetForkID first n (Some t)).

Lemma isBatchClosable_keeps p c : keeps (server_ok c) (isBatchClosable p c).
Proof. unfold isBatchClosable, GetLastBatchNumber, IsBatchClosed. keeps_tac. Qed.

Lemma StoreGenesisBatch_keeps b c : keeps (server_ok c) (StoreGenesisBatch b c).
Proof.
  unfold StoreGenesisBatch. case_decide as Hn; [apply keeps_fail|].
  rewrite Hn.
  apply sql_Exec_keeps. intros x y Hx Hy. unfold insert_batch in Hy.
  apply fmap_Some in Hy as (m & Hm & ->). apply insert_new_Some in Hm as (_ & Hnone & ->).
  by apply batches_genesis.
Qed.

Lemma delete_blocks_keeps P c : keeps (server_ok c) (sql_Exec c (delete_blocks P)).
Proof.
  apply sql_Exec_keeps. unfold delete_blocks. intros x y Hx Hy. case_match; by simplify_eq.
Qed.

Lemma ResetTrustedState_keeps n c : in_u64 n → keeps (server_ok c) (ResetTrustedState n c).
Proof.
  intros Hn. apply sql_Exec_keeps. intros x y Hx [= <-]. apply batches_drop; [apply Hn|done].
Qed.

Lemma ResetForkID_keeps first n c : keeps (server_ok c) (ResetForkID first n c).
Proof.
  apply keeps_bind; [apply delete_blocks_keeps|]. intros _. apply keeps_bind.
  - apply ResetTrustedState_keeps, wrap64_range.
  - intros _. apply sql_Exec_keeps. by intros x y Hx [= <-].
Qed.

Lemma store_op_keeps t m : store_op t m → keeps (server_ok (Some t)) m.
Proof.
  destruct 1.
  - intros s Hs. by apply (open_server (pc_BatchNumber p) (pc_Timestamp p) (Some t)).
  - intros s Hs. by apply (open_server (sb_BatchNumber b) (sb_Timestamp b) (Some t)).
  - unfold CloseBatch. rewrite decide_False by done.
    apply keeps_bind; [apply isBatchClosable_keeps|]. intros _. update_tac.
  - update_tac.
  - update_tac.
  - update_tac.
  - update_tac.
  - unfold AddForcedBatch. rewrite decide_False by done. other_tac.
  - apply StoreGenesisBatch_keeps.
  - apply delete_blocks_keeps.
  - by apply ResetTrustedState_keeps.
  - apply ResetForkID_keeps.
Qed.

Lemma store_Exec_keeps c f :
  (∀ x y, tables_ok x → f x = Some y → tables_ok y) → keeps (server_ok c) (store_Exec c f).
Proof. intros Hf. by apply keeps_wrap, sql_Exec_keeps. Qed.

Lemma add_transactions_keeps n txs d c : ∀ i, keeps (server_ok c) (add_transactions n txs i d c).
Proof.
  induction txs as [|tx txs IH]; intros i; simpl; [apply keeps_ret|].
  apply keeps_bind; [apply keeps_lift|]. intros d'. case_match; [apply keeps_fail|].
  apply keeps_bind; [|done]. apply store_Exec_keeps. intros x y Hx Hy.
  by eapply (other_table_ok _ _ y x); [|done|exact Hy].
Qed.

Lemma StoreL2Block_keeps cfg n b logs c : keeps (server_ok c) (StoreL2Block cfg n b logs c).
Proof.
  unfold StoreL2Block, AddL2Block, AddReceipt, AddLog.
  keeps_tac; try apply add_transactions_keeps;
    apply store_Exec_keeps; intros x1 y1 Hx Hy;
    try by eapply (other_table_ok _ _ y1 x1); [|done|exact Hy].
  case_match; simplify_eq. done.
Qed.

(** ** Runs *)

(** One client: it begins a transaction, runs operations on it whatever their
    outcome, and ends it. *)
Inductive db_step : PgServer * dbTx → PgServer * dbTx → Prop :=
  | db_begin s s' t : BeginStateTransaction s = (s', Ret t) → db_step (s, None) (s', Some t)
  | db_begin_err s s' e : BeginStateTransaction s = (s', Fail e) → db_step (s, None) (s', None)
  | db_op s t m : store_op t m → db_step (s, Some t) ((m s).1, Some t)
  | db_l2block s t cfg n b logs :
      db_step (s, Some t) ((StoreL2Block cfg n b logs (Some t) s).1, Some t)
  | db_commit s t : db_step (s, Some t) ((Commit t s).1, None)
  | db_rollback s t : db_step (s, Some t) ((Rollback t s).1, None).

Lemma db_step_ok x y : db_step x y → server_ok x.2 x.1 → server_ok y.2 y.1.
Proof.
  destruct 1 as [s s' t Hb|s s' e Hb|s t m Hm|s t cfg n b logs|s t|s t]; simpl; intros Hs.
  - unfold BeginStateTransaction in Hb. destruct (pg_Begin s) as [s1 [|t1]] eqn:He; simplify_eq.
    apply pg_Begin_ok in He as [Hn Ht]. intros c x [->| ->] Hx; eapply (Hs None); try by left.
    + by rewrite <-Hn.
    + by rewrite <-Ht.
  - unfold BeginStateTransaction in Hb. destruct (pg_Begin s) as [s1 [|t1]] eqn:He; simplify_eq.
    apply pg_Begin_err in He. intros c x [->| ->] Hx; eapply (Hs None); (by left) || congruence.
  - by apply (store_op_keeps _ _ Hm).
  - by apply StoreL2Block_keeps.
  - unfold Commit. destruct (pg_Commit s t) as [s1 [e|]] eqn:Hc; simpl; intros c x [->| ->] Hx.
    1,2: apply pg_Commit_err in Hc as [Hn|[_ Hn]]; rewrite Hn in Hx;
      (eapply Hs; [|exact Hx]; by (left + right)).
    all: apply pg_Commit_ok in Hc as (z & Hz & Hn & _); rewrite Hn in Hx; simplify_eq;
      (eapply Hs; [|exact Hz]; by right).
  - unfold Rollback. destruct (pg_Rollback s t) as [s1 e] eqn:Hc.
    apply pg_Rollback_view in Hc. destruct e; simpl; intros c x [->| ->] Hx;
      rewrite Hc in Hx; (eapply Hs; [|exact Hx]; by left).
Qed.
End ok.


(** ** Forced batches *)

Definition forced_row (b : ForcedBatch) : ForcedRow :=
  mkForcedRow (fb_GlobalExitRoot b) (timestamptz (fb_ForcedAt b))
    (EncodeToString (fb_RawTxsData b)) (fb_Sequencer b) (fb_BlockNumber b).

Lemma forced_text b :
  let b' := scanForcedBatch (fb_ForcedBatchNumber b) (forced_row b) in
  fb_RawTxsData b' = char_code <$> EncodeToString (fb_RawTxsData b) ∧
  (fb_RawTxsData b ≠ [] → fb_RawTxsData b' ≠ fb_RawTxsData b).
Proof.
  split; [done|]. simpl. intros Hne Heq. apply (f_equal length) in Heq.
  rewrite length_fmap, length_EncodeToString in Heq. destruct (fb_RawTxsData b); simpl in *; [done|lia].
Qed.

(** C36. A forced batch that was stored is read back by [GetForcedBatch] in the same
    transaction as it was, its time in whole microseconds, unless the database fails; but
    [GetForcedBatchesSince], which feeds the closing signals of the sequencer, returns the
    characters of the hex text of its transactions in place of the transactions.  The
    latter returns the batch when it is in the range that is asked for and the database
    delivers all rows; when the rows are cut it may return fewer without an error. *)
Theorem forced_batch_roundtrip
    `{!GoEthereum, !Postgres Tables, !PostgresSpec Tables} b t s s1 :
  is_bytes (fb_RawTxsData b) → AddForcedBatch b (Some t) s = (s1, Ret tt) →
  (match GetForcedBatch (fb_ForcedBatchNumber b) (Some t) s1 with
   | (_, Ret b') => b' = mkForcedBatch (fb_BlockNumber b) (fb_ForcedBatchNumber b)
       (fb_Sequencer b) (fb_GlobalExitRoot b) (fb_RawTxsData b) (fb_ForcedAt b / 1000 * 1000)
   | (_, Fail e) => ∃ e', e = ErrPg e'
   | (_, Panic) => False
   end) ∧
  (∀ since maxBlock s2 bs, GetForcedBatchesSince since maxBlock (Some t) s1 = (s2, Ret bs) →
     (∀ b', b' ∈ bs → fb_ForcedBatchNumber b' = fb_ForcedBatchNumber b →
        fb_RawTxsData b' = char_code <$> EncodeToString (fb_RawTxsData b) ∧
        (fb_RawTxsData b ≠ [] → fb_RawTxsData b' ≠ fb_RawTxsData b)) ∧
     ((∃ x, (pg_Rows s1 (Some t)).2 = inr (x, None)) →
      since < fb_ForcedBatchNumber b → fb_BlockNumber b ≤ maxBlock →
      ∃ b', b' ∈ bs ∧ fb_ForcedBatchNumber b' = fb_ForcedBatchNumber b)).
Proof.
  intros Hb Hadd. unfold AddForcedBatch in Hadd. rewrite decide_False in Hadd by done.
  unfold sql_Exec in Hadd. destruct (pg_Exec s (Some t) _) as [s' [|]] eqn:He; simplify_eq.
  apply pg_Exec_ok in He as (x & y & Hx & Hy & Hv & _).
  apply fmap_Some in Hy as (m & Hm & ->). apply insert_new_Some in Hm as (_ & _ & ->). split.
  - unfold GetForcedBatch, sql_QueryRow, mbind, GoM_bind.
    destruct (pg_Query s1 (Some t)) as [s2 [e|z]] eqn:Hq; [by eexists|].
    apply pg_Query_ok in Hq as [Hz _]. rewrite Hv in Hz. injection Hz as <-.
    simpl. rewrite lookup_insert_eq. simpl. rewrite DecodeString_EncodeToString by done.
    done.
  - intros since maxBlock s2 bs Hq. unfold GetForcedBatchesSince, sql_Rows in Hq.
    destruct (pg_Rows s1 (Some t)) as [s2' [e|[z cut]]] eqn:Hr; [done|].
    injection Hq as _ Hbs. assert (pg_view s1 (Some t) = Some z) as Hz
      by (destruct cut; [apply pg_Rows_cut in Hr|apply pg_Rows_ok in Hr]; by destruct Hr).
    rewrite Hv in Hz. injection Hz as <-. split.
    + intros b' Hb' Hnum.
      assert (b' ∈ (λ x, scanForcedBatch x.1 x.2) <$> merge_sort forced_le (filter
        (λ x, since < x.1 ∧ f_block_num x.2 ≤ maxBlock) (map_to_list (<[_ := _]> (t_forced x)))))
        as Hin by (rewrite <- Hbs in Hb'; destruct cut; [eapply (subseteq_take _ _ _ Hb')|exact Hb']).
      apply list_elem_of_fmap in Hin as ([n r] & -> & Hin).
      rewrite merge_sort_Permutation, list_elem_of_filter in Hin. destruct Hin as [_ Hin].
      apply elem_of_map_to_list in Hin. simpl in Hnum. subst n. simpl in Hin.
      rewrite lookup_insert_eq in Hin. injection Hin as <-. by apply forced_text.
    + intros [x' Hfull] Hs Hm. injection Hfull as _ ->. rewrite <- Hbs.
      exists (scanForcedBatch (fb_ForcedBatchNumber b) (forced_row b)). split; [|done].
      apply list_elem_of_fmap. exists (fb_ForcedBatchNumber b, forced_row b). split; [done|].
      rewrite merge_sort_Permutation, list_elem_of_filter. split; [done|].
      apply elem_of_map_to_list. simpl. by rewrite lookup_insert_eq.
Qed.

(** ** L2 blocks *)

Section block_loop.
Context `{!GoEthereum, !Postgres Tables}.
Implicit Types (rs : list ProcessTransactionResponse).

Definition stored (r : ProcessTransactionResponse) : Prop := not_stored r = false.

(** Behind a transaction that is not stored the two indices disagree. *)
Lemma block_loop_gap rs logs : ∀ i txs data rcs,
  zlen data < i →
  (Exists stored rs → block_loop rs i (Some logs) txs data rcs = Panic) ∧
  (¬ Exists stored rs → block_loop rs i (Some logs) txs data rcs = Ret (txs, data, rcs)).
Proof.
  induction rs as [|r rs IH]; intros i txs data rcs Hi; simpl.
  { split; [by intros ?%Exists_nil | done]. }
  rewrite Exists_cons. unfold stored at 1 3. destruct (not_stored r) eqn:Hr.
  - destruct (IH (i + 1) txs data rcs) as [IH1 IH2]; [lia|]. naive_solver.
  - split; [intros _ | naive_solver]. unfold zlen in Hi.
    destruct (index logs i) eqn:Hl; [|by unfold index, or_panic in Hl; repeat case_match|done].
    go_bind. unfold index at 1. rewrite (proj2 (Z.leb_le _ _)) by lia.
    rewrite (lookup_ge_None_2 (data ++ _)); [done|]. rewrite length_app. simpl. lia.
Qed.

Lemma block_loop_aligned rs logs : ∀ i txs data rcs,
  zlen data = i → i + zlen rs = zlen logs →
  (block_loop rs i (Some logs) txs data rcs = Panic ↔
   ∃ rs1 r rs2, rs = rs1 ++ r :: rs2 ∧ not_stored r = true ∧ Exists stored rs2) ∧
  (∀ e, block_loop rs i (Some logs) txs data rcs ≠ Fail e).
Proof.
  induction rs as [|r rs IH]; intros i txs data rcs Hi Hl; simpl.
  { split; [|done]. split; [done|]. by intros ([|??] & ? & ? & ? & _). }
  unfold zlen in *. simpl in Hl. destruct (not_stored r) eqn:Hr.
  - destruct (block_loop_gap rs logs (i + 1) txs data rcs) as [Hg1 Hg2]; [unfold zlen; lia|].
    destruct (decide (Exists (λ r, not_stored r = false) rs)) as [Hex|Hex].
    + rewrite Hg1 by done. split; [|done]. split; [intros _|done]. by exists [], r, rs.
    + rewrite Hg2 by done. split; [|done]. split; [done|].
      intros ([|r' rs1] & q & rs2 & Heq & Hq & Hex'); simplify_eq/=; [done|].
      destruct Hex. apply Exists_app. right. by right.
  - destruct (index_ok (E := L2StoreErr) logs i) as (l & -> & _); [lia|]. go_bind.
    erewrite index_at; [|done|done]. go_bind.
    destruct (IH (i + 1) (txs ++ [tr_Tx r]) (<[Z.to_nat i :=
      mkStoreTxEGPData (Some l) (wrap8 (tr_EffectivePercentage r))]>
        (data ++ [mkStoreTxEGPData None (wrap8 (tr_EffectivePercentage r))])) (rcs ++ [r]))
      as [IH1 IH2]; [rewrite length_insert, length_app; simpl; lia | lia |].
    split; [|done]. rewrite IH1. split.
    + intros (rs1 & q & rs2 & -> & ? & ?). by exists (r :: rs1), q, rs2.
    + intros ([|r' rs1] & q & rs2 & Heq & Hq & Hex'); simplify_eq/=; [congruence|]. eauto 10.
Qed.
End block_loop.

(** [StoreL2Block], given one gas price log per response, panics exactly
    when a response that is not stored (an intrinsic error or an invalid
    block) comes before one that is: the logs are filed under the index of
    the response in a slice that only grows with the stored ones. *)
Theorem StoreL2Block_logs_panic
    `{!GoEthereum, !EthSigner, !Postgres Tables, !EthBlocks} cfg n b logs t s :
  length logs = length (bl_TransactionResponses b) →
  (∃ rs1 r rs2, bl_TransactionResponses b = rs1 ++ r :: rs2 ∧ not_stored r = true ∧
     Exists (λ r, not_stored r = false) rs2) →
  StoreL2Block cfg n b (Some logs) (Some t) s = (s, Panic).
Proof.
  intros Hl Hex. unfold StoreL2Block. rewrite decide_False by done.
  apply GoM_bind_panic. unfold lift. f_equal.
  by apply (block_loop_aligned _ logs 0); [..|exact Hex]; unfold zlen; simpl; lia.
Qed.

(** ** Concrete runs *)

Module StoreRun.
#[export] Existing Instance RefEthereum.ref_ethereum.
#[export] Existing Instance TrackerRun.run_signer.
#[export] Existing Instance RefPostgres.ref_postgres.
#[export] Existing Instance RefPostgres.ref_spec.
#[export] Instance run_blocks : EthBlocks :=
  {| eth_block_Hash _ _ := 0; encode_columns _ := None |}.

Abbreviation server := (@PgServer Tables RefPostgres.ref_postgres).

(** The genesis batch, one L1 block, nothing else *)
Definition genesis_tables : Tables :=
  mkTables {[5 := mkBlockRow 50 40 0]} ∅
    {[0 := mkBatchRow 0 (Some 0) (Some 7) (Some 0) 1000000000 3 (Some []) None None None false]}
    ∅ ∅ ∅ ∅ [].
Definition tx0 : @PgTx Tables RefPostgres.ref_postgres := 0%nat.
Definition run_server (faults : list bool) : server :=
  RefPostgres.mkRefServer genesis_tables ∅ 0 faults.

Definition is_Ret {E A} (r : GoRes E A) : bool := match r with Ret _ => true | _ => false end.

(** A transaction stores the genesis batch, opens a forced batch that does not exist,
    which is refused, and then a batch, deletes it and opens it again; it is committed. *)
Definition ctx1 : ProcessingContext := mkProcessingContext 1 3 2000000000 0 (Some 9) None.
Definition ctx2 : ProcessingContext := mkProcessingContext 1 3 2000000000 0 None None.
Definition genesis_batch : StateBatch :=
  mkStateBatch 0 3 [] 7 0 0 1000000000 0 None zero_resources false.
Definition no_tables : Tables := mkTables ∅ ∅ ∅ ∅ ∅ ∅ ∅ [].
Definition r0 : server := RefPostgres.mkRefServer no_tables ∅ 0 [].
Definition r1 : server := (BeginStateTransaction r0).1.
Definition r2 : server := (StoreGenesisBatch genesis_batch (Some tx0) r1).1.
Definition r3 : server := (OpenBatch ctx1 (Some tx0) r2).1.
Definition r4 : server := (OpenBatch ctx2 (Some tx0) r3).1.
Definition r5 : server := (ResetTrustedState 0 (Some tx0) r4).1.
Definition r6 : server := (OpenBatch ctx2 (Some tx0) r5).1.
Definition r7 : server := (Commit tx0 r6).1.
Definition s1 : server := (BeginStateTransaction (run_server [])).1.


Definition forced : ForcedBatch := mkForcedBatch 5 1 3 8 [0x0B; 0xFF] 900000123.

Lemma forced_batch_roundtrip_witness :
  ∃ b', GetForcedBatchesSince 0 10 (Some tx0) (AddForcedBatch forced (Some tx0) s1).1
          = ((AddForcedBatch forced (Some tx0) s1).1, Ret [b']) ∧
        fb_RawTxsData b' = [48; 98; 102; 102] ∧ fb_RawTxsData b' ≠ fb_RawTxsData forced.
Proof.
  destruct (forced_batch_roundtrip forced tx0 s1
    (AddForcedBatch forced (Some tx0) s1).1) as [_ Hsince];
    [repeat constructor; lia | reflexivity |].
  destruct (Hsince 0 10 (AddForcedBatch forced (Some tx0) s1).1
    [mkForcedBatch 5 1 3 8 [48; 98; 102; 102] 900000000]) as [Htext Hin]; [reflexivity|].
  destruct Hin as (b' & Hin & Hn); [eexists; reflexivity | reflexivity | discriminate |].
  destruct (Htext b' Hin Hn) as [Hraw Hne].
  apply list_elem_of_singleton in Hin as ->. eexists. split; [reflexivity|].
  split; [reflexivity|]. apply Hne. discriminate.
Defined.

Definition response (err : option error) : ProcessTransactionResponse :=
  mkTxResponse 1 21000 err 7 [] (NewTx sample_legacy) 255 false false.
Definition block : ProcessBlockResponse :=
  mkBlockResponse 0 3 1 1 0 42000 0 77
    [response (RomErr ROM_ERROR_INTRINSIC_INVALID_NONCE); response None].
Definition log0 : EffectiveGasPriceLog :=
  mkEGPLog true 0 0 0 0 0 0 0 0 0 false false false 0 0 "".

Lemma StoreL2Block_logs_panic_witness :
  StoreL2Block (mkForkCfg 0 0 [mkForkIDInterval 0 100 7 0]) 0 block (Some [log0; log0]) (Some tx0)
    s1 = (s1, Panic).
Proof.
  apply (StoreL2Block_logs_panic); [reflexivity|].
  exists [], (response (RomErr ROM_ERROR_INTRINSIC_INVALID_NONCE)), [response None].
  split; [reflexivity|]. split; [reflexivity|]. apply Exists_cons_hd. reflexivity.
Defined.
End StoreRun.
