(* ===== verification/StoreWp.v ===== *)
(** * The effect of the operations of the state on the tables

    What a transaction and the pool see after each operation of
    [state/batch.go] and [StoreL2Block], whether it returns or fails. *)

From S2P Require Import Prelude Digits Hex GoEthereum TxCodec BatchV2 NewTracker.
From S2P Require Import Resources TxTracker AddrQueue Worker ExecErrors ExecTypes.
From S2P Require Import GoMonad Postgres StateStore StoreOk.

Section wp.
Context `{!GoEthereum, !EthSigner, !Postgres Tables, !PostgresSpec Tables, !EthBlocks}.
Implicit Types (s : @PgServer Tables _) (t : @PgTx Tables _) (x y old : Tables).

(** The pool reads [old]. *)
Definition committed old s : Prop := pg_view s None = Some old.

(** The transaction [t] is open and reads [x]. *)
Definition in_tx t old x s : Prop := committed old s ∧ pg_view s (Some t) = Some x.

(** The specification of an operation in a transaction: [post a y] relates
    its result to the tables it leaves.  A failure may close the transaction. *)
Definition op_spec {E A} (K : Prop) t (m : GoM (@PgServer Tables _) E A) x (post : A → Tables → Prop)
    (err : E → Prop) : Prop :=
  ∀ s old, in_tx t old x s →
    wpm K m (λ a s', ∃ y, post a y ∧ in_tx t old y s') (λ e s', err e ∧ committed old s') s.

Lemma op_bind {E A B} K t (m : GoM _ E A) (f : A → GoM _ E B) x post post' err :
  op_spec K t m x post err → (∀ a y, post a y → op_spec K t (f a) y post' err) →
  op_spec K t (m ≫= f) x post' err.
Proof.
  intros Hm Hf s old Hs. apply wpm_bind. eapply wpm_mono; [by apply Hm| |done].
  intros a s1 (y & Hy & Hs1). by eapply Hf.
Qed.

Lemma op_mono {E A} K t (m : GoM _ E A) x (post post' : A → Tables → Prop) (err err' : E → Prop) :
  op_spec K t m x post err → (∀ a y, post a y → post' a y) → (∀ e, err e → err' e) →
  op_spec K t m x post' err'.
Proof.
  intros Hm Hp He s old Hs. eapply wpm_mono; [by apply Hm|..]; naive_solver.
Qed.

Lemma op_ret {E A} K t (a : A) x (post : A → Tables → Prop) (err : E → Prop) :
  post a x → op_spec K t (mret a) x post err.
Proof. intros Hp s old Hs. apply wpm_ret. eauto. Qed.

Lemma op_fail {E A} K t (e : E) x (post : A → Tables → Prop) (err : E → Prop) :
  err e → op_spec K t (fail e) x post err.
Proof. intros He s old [Hs _]. by apply wpm_fail. Qed.

Lemma op_weaken {E A} (K : Prop) t (m : GoM _ E A) x post err :
  op_spec False t m x post err → op_spec K t m x post err.
Proof. intros Hm s old Hs. eapply wpm_weaken; [|by apply Hm]. done. Qed.

Lemma op_wrap {E E' A} K t (f : E → E') (m : GoM _ E A) x post (err : E' → Prop) :
  op_spec K t m x post (λ e, err (f e)) → op_spec K t (wrap_err f m) x post err.
Proof. intros Hm s old Hs. by apply wpm_wrap, Hm. Qed.

Lemma op_for_each {E A} K t (xs : list A) (body : A → GoM _ E ()) (I : Tables → Prop) err : ∀ x,
  I x → (∀ a y, a ∈ xs → I y → op_spec K t (body a) y (λ _, I) err) →
  op_spec K t (for_each xs body) x (λ _, I) err.
Proof.
  induction xs as [|a xs IH]; intros x Hx Hb; [by apply op_ret|]. eapply op_bind.
  - apply Hb; [by left|done].
  - intros [] y Hy. apply IH; [done|]. intros b z Hin. apply Hb. by right.
Qed.

Lemma lift_Ret_bind {S E A B} (a : A) (f : A → GoM S E B) : (lift (Ret a) ≫= f) = f a.
Proof. done. Qed.

(** ** Statements and transactions *)

Lemma op_query {A} t e (f : Tables → option A) x :
  op_spec False t (sql_QueryRow (Some t) e f) x (λ a y, y = x ∧ f x = Some a) (λ _, True).
Proof.
  intros s old [Hn Ht]. unfold wpm, sql_QueryRow. destruct (pg_Query s (Some t)) as [s1 [er|z]] eqn:Hq.
  - apply pg_Query_err in Hq as [Hn' _]. split; [done|]. unfold committed in *. congruence.
  - apply pg_Query_ok in Hq as [Hz Hv]. rewrite Ht in Hz. injection Hz as <-.
    assert (in_tx t old x s1) by (split; unfold committed; by rewrite Hv).
    destruct (f x); [by eauto|]. split; [done|]. unfold committed. by rewrite Hv.
Qed.

Lemma op_exec t f x :
  op_spec False t (sql_Exec (Some t) f) x (λ _ y, f x = Some y) (λ _, True).
Proof.
  intros s old [Hn Ht]. unfold wpm, sql_Exec. destruct (pg_Exec s (Some t) f) as [s1 [er|]] eqn:Hq.
  - apply pg_Exec_err in Hq as [Hn' _]. split; [done|]. unfold committed in *. congruence.
  - apply pg_Exec_ok in Hq as (z & y & Hz & Hy & Hv & Hn'). rewrite Ht in Hz. injection Hz as <-.
    exists y. split; [done|]. split; [|done]. unfold committed. by rewrite Hn'.
Qed.

Lemma wp_begin s old :
  committed old s →
  wpm False BeginStateTransaction (λ t, in_tx t old old) (λ _, committed old) s.
Proof.
  intros Hs. unfold wpm, BeginStateTransaction, committed in *.
  destruct (pg_Begin s) as [s1 [e|t]] eqn:Hb.
  - apply pg_Begin_err in Hb. congruence.
  - apply pg_Begin_ok in Hb as [Hn Ht]. split; unfold committed; congruence.
Qed.

Lemma wp_commit_tx t s old x :
  in_tx t old x s →
  wpm False (Commit t) (λ _ s', committed x s' ∧ pg_view s' (Some t) = None)
    (λ _ s', committed old s' ∨ committed x s') s.
Proof.
  intros [Hn Ht]. unfold wpm, Commit, committed in *. destruct (pg_Commit s t) as [s1 [e|]] eqn:Hc.
  - apply pg_Commit_err in Hc as [Hc|[_ Hc]]; [left|right]; congruence.
  - apply pg_Commit_ok in Hc as (y & Hy & Hn' & Ht'). split; congruence.
Qed.

Lemma wp_rollback t s old :
  committed old s →
  wpm False (Rollback t) (λ _, committed old) (λ _, committed old) s.
Proof.
  intros Hs. unfold wpm, Rollback, committed in *. destruct (pg_Rollback s t) as [s1 [e|]] eqn:Hr;
    apply pg_Rollback_view in Hr; congruence.
Qed.

(** A query of the pool *)
Lemma wp_query_pool {A} s old e (f : Tables → option A) :
  committed old s →
  wpm False (sql_QueryRow None e f) (λ a s', committed old s' ∧ f old = Some a)
    (λ _, committed old) s.
Proof.
  intros Hs. unfold wpm, sql_QueryRow, committed in *. destruct (pg_Query s None) as [s1 [er|z]] eqn:Hq.
  - apply pg_Query_err in Hq as [Hn _]. congruence.
  - apply pg_Query_ok in Hq as [Hz Hv]. rewrite Hs in Hz. injection Hz as <-.
    destruct (f old); [split; [|done]|]; by rewrite Hv.
Qed.

(** ** Batches *)

(** The last batch [last] of [x] is closed and not younger than [ts], and [n]
    is the next one. *)
Definition can_open n ts x : Prop := ∃ last r,
  last_key (t_batch x) = Some last ∧ n = last +₆₄ 1 ∧ t_batch x !! last = Some r ∧
  wip r = false ∧ Unix (timestamp r) ≤ Unix ts.

Lemma op_check_open t n ts x :
  op_spec False t (check_open n ts (Some t)) x (λ _ y, y = x ∧ can_open n ts x) (λ _, True).
Proof.
  unfold check_open. rewrite decide_False by done.
  eapply op_bind; [apply op_query|]. intros last ? [-> Hl].
  case_decide as Hn; [by apply op_fail|].
  eapply op_bind; [apply op_query|]. intros closed ? [-> Hc].
  apply fmap_Some in Hc as (r & Hr & ->). cbn [compose]. destruct (wip r) eqn:Hw; [by apply op_fail|].
  eapply op_bind; [apply op_query|]. intros prev ? [-> Hp].
  rewrite Hl in Hp. simpl in Hp. rewrite Hr in Hp. injection Hp as <-.
  destruct (Z.ltb_spec (Unix ts) (Unix (timestamp r))); [by apply op_fail|].
  apply op_ret. split; [done|]. exists last, r. by split_and!.
Qed.

Lemma op_insert_batch t n row x :
  op_spec False t (sql_Exec (Some t) (insert_batch n row)) x
    (λ _ y, t_batch x !! n = None ∧ has_opt (t_forced x) (forced_batch_num row) = true ∧
       y = set_batch x (<[n := row]> (t_batch x))) (λ _, True).
Proof.
  eapply op_mono; [apply op_exec| |done]. intros [] y Hy. unfold insert_batch in Hy.
  apply fmap_Some in Hy as (m & Hm & ->). by apply insert_new_Some in Hm as (Hf & Hnone & ->).
Qed.

Lemma op_OpenBatch t p x :
  op_spec False t (OpenBatch p (Some t)) x
    (λ _ y, can_open (pc_BatchNumber p) (pc_Timestamp p) x ∧ t_batch x !! pc_BatchNumber p = None ∧
       y = set_batch x (<[pc_BatchNumber p := mkBatchRow (pc_GlobalExitRoot p) None None None
             (timestamptz (pc_Timestamp p)) (pc_Coinbase p) (pc_BatchL2Data p) (pc_ForcedBatchNum p) None None
             true]> (t_batch x))) (λ _, True).
Proof.
  eapply op_bind; [apply op_check_open|]. intros [] ? [-> Hc].
  eapply op_mono; [apply op_insert_batch| |done]. naive_solver.
Qed.

Lemma op_OpenWIPBatch t b x :
  op_spec False t (OpenWIPBatch b (Some t)) x
    (λ _ y, can_open (sb_BatchNumber b) (sb_Timestamp b) x ∧ t_batch x !! sb_BatchNumber b = None ∧
       y = set_batch x (<[sb_BatchNumber b := mkBatchRow (sb_GlobalExitRoot b)
             (Some (sb_LocalExitRoot b)) (Some (sb_StateRoot b)) (Some (sb_AccInputHash b))
             (timestamptz (sb_Timestamp b)) (sb_Coinbase b) (Some (sb_BatchL2Data b)) (sb_ForcedBatchNum b)
             (Some (sb_Resources b)) None true]> (t_batch x))) (λ _, True).
Proof.
  eapply op_bind; [apply op_check_open|]. intros [] ? [-> Hc].
  eapply op_mono; [apply op_insert_batch| |done]. naive_solver.
Qed.

Lemma op_update t n f x :
  op_spec False t (sql_Exec (Some t) (update_batch n f)) x
    (λ _ y, y = set_batch x (alter f n (t_batch x))) (λ _, True).
Proof. eapply op_mono; [apply op_exec| |done]. by intros [] y [= <-]. Qed.

Lemma op_CloseBatch t p x :
  op_spec False t (CloseBatch p (Some t)) x
    (λ _ y, ∃ r, t_batch x !! re_BatchNumber p = Some r ∧ wip r = true ∧
       y = set_batch x (<[re_BatchNumber p := mkBatchRow (global_exit_root r)
             (Some (re_LocalExitRoot p)) (Some (re_StateRoot p)) (Some (re_AccInputHash p))
             (timestamp r) (coinbase r) (Some (re_BatchL2Data p)) (forced_batch_num r)
             (Some (re_BatchResources p)) (Some (re_ClosingReason p)) false]> (t_batch x)))
    (λ _, True).
Proof.
  unfold CloseBatch. rewrite decide_False by done. eapply op_bind.
  { unfold isBatchClosable. eapply op_bind; [apply op_query|]. intros last ? [-> Hl].
    case_decide as Hn; [by apply op_fail|].
    eapply op_bind; [apply op_query|]. intros closed ? [-> Hc].
    instantiate (1 := λ _ y, y = x ∧ ∃ r, t_batch x !! re_BatchNumber p = Some r ∧ wip r = true).
    destruct closed; [by apply op_fail|]. apply op_ret. split; [done|].
    apply fmap_Some in Hc as (r & Hr & Hw). exists r. subst last.
    split; [done|]. simpl in Hw. by destruct (wip r). }
  intros [] ? [-> (r & Hr & Hw)]. eapply op_mono; [apply op_update| |done].
  intros [] y ->. exists r. split_and!; [done..|]. by rewrite (alter_alt_Some _ _ _ r Hr).
Qed.

Lemma op_GetBatchByNumber t n x :
  op_spec False t (GetBatchByNumber n (Some t)) x
    (λ b y, y = x ∧ ∃ r, t_batch x !! n = Some r ∧ b = scanBatch n r) (λ _, True).
Proof.
  eapply op_mono; [apply op_query| |done]. intros b y [-> Hb]. split; [done|].
  apply fmap_Some in Hb as (r & Hr & ->). eauto.
Qed.

(** ** L2 blocks *)

Lemma block_loop_lengths rs logs : ∀ i txs data rcs txs' data' rcs',
  length data = length txs →
  block_loop rs i logs txs data rcs = Ret (txs', data', rcs') → length data' = length txs'.
Proof.
  induction rs as [|r rs IH]; intros i txs data rcs txs' data' rcs' Hl; simpl.
  { by intros [= <- <- <-]. }
  case_match; [by apply IH|]. destruct logs as [logs|]; go_bind.
  - destruct (index logs i); go_bind; [|done..].
    destruct (index (data ++ _) i); go_bind; [|done..]. apply IH.
    rewrite length_insert, !length_app. simpl. lia.
  - apply IH. rewrite !length_app. simpl. lia.
Qed.

Lemma ForkID_Ret {E} cfg n : ForkIDIntervals cfg ≠ [] →
  ∃ id, GetForkIDByBatchNumber (E := E) cfg n = Ret id.
Proof.
  intros Hne. unfold GetForkIDByBatchNumber. case_match; [eauto|]. case_match; [eauto|].
  destruct (index_ok (E := E) (ForkIDIntervals cfg) (zlen (ForkIDIntervals cfg) - 1)) as (i & -> & _);
    [|by eexists].
  unfold zlen. destruct (ForkIDIntervals cfg); [done|]. simpl. lia.
Qed.

(** Whatever a transaction does, also when it is closed, the pool does not see
    it. *)
Definition unseen {S E A} (view : S → @PgServer Tables _) (K : Prop) old (m : GoM S E A) : Prop :=
  ∀ u : S, committed old (view u) →
    wpm K m (λ _ u', committed old (view u')) (λ _ u', committed old (view u')) u.

Lemma unseen_bind {S E A B} (view : S → _) K old (m : GoM S E A) (f : A → GoM S E B) :
  unseen view K old m → (∀ a, unseen view K old (f a)) → unseen view K old (m ≫= f).
Proof. intros Hm Hf s Hs. apply wpm_bind. eapply wpm_mono; [by apply Hm| |done]. intros. by apply Hf. Qed.

Lemma unseen_for_each {S E A} (view : S → _) K old (xs : list A) (body : A → GoM S E ()) :
  (∀ a, unseen view K old (body a)) → unseen view K old (for_each xs body).
Proof. intros Hb. induction xs; [by intros w|]. by apply unseen_bind. Qed.

Lemma unseen_try {S E A} (view : S → _) K old (m : GoM S E A) :
  unseen view K old m → unseen view K old (try m).
Proof. intros Hm s Hs. apply wpm_try. eapply wpm_mono; [by apply Hm|done..]. Qed.

Lemma unseen_pure {S E A} (view : S → _) K old (m : GoM S E A) :
  (∀ u : S, view (m u).1 = view u ∧ ((m u).2 = Panic → K)) → unseen view K old m.
Proof.
  intros Hm s Hs. unfold wpm. destruct (Hm s) as [Hd Hp], (m s) as [s' []]; simpl in *; [..|by apply Hp];
    by rewrite Hd.
Qed.

Lemma unseen_exec K old t f : unseen id K old (store_Exec (Some t) f).
Proof.
  intros s Hs. apply wpm_wrap. unfold wpm, sql_Exec, committed in *. simpl in *.
  destruct (pg_Exec s (Some t) f) as [s1 [e|]] eqn:He.
  - apply pg_Exec_err in He as [He _]. congruence.
  - apply pg_Exec_ok in He as (? & ? & _ & _ & _ & Hn). by rewrite Hn.
Qed.

Lemma unseen_add_transactions K old t n txs d : ∀ i,
  0 ≤ i → i + zlen txs ≤ zlen d → unseen id K old (add_transactions n txs i d (Some t)).
Proof.
  induction txs as [|tx txs IH]; intros i Hi Hd; simpl; [by intros s|].
  unfold zlen in *. simpl in Hd. destruct (index_ok (E := L2StoreErr) d i) as (v & -> & _); [lia|].
  rewrite lift_Ret_bind. case_match; [by intros u|].
  apply unseen_bind; [apply unseen_exec|]. intros _. apply IH; lia.
Qed.

Lemma unseen_StoreL2Block K old t cfg n b logs :
  ForkIDIntervals cfg ≠ [] →
  (block_loop (bl_TransactionResponses b) 0 logs [] [] [] = Panic → K) →
  unseen id K old (StoreL2Block cfg n b logs (Some t)).
Proof.
  intros Hf HK. unfold StoreL2Block. rewrite decide_False by done.
  destruct (block_loop _ _ _ _ _ _) as [[[txs data] rcs]|e|] eqn:Hl.
  2:{ intros s Hs. by apply wpm_bind, wpm_lift. }
  2:{ intros s Hs. by apply wpm_bind, wpm_lift, HK. }
  apply block_loop_lengths in Hl; [|done]. rewrite lift_Ret_bind. unfold AddL2Block.
  destruct (ForkID_Ret (E := L2StoreErr) cfg n Hf) as [forkID ->]. rewrite lift_Ret_bind.
  apply unseen_bind; [apply unseen_exec|]. intros _.
  apply unseen_bind; [apply unseen_add_transactions; unfold zlen; lia|]. intros _.
  apply unseen_for_each. intros r. apply unseen_bind; [apply unseen_exec|]. intros _.
  apply unseen_for_each. intros l. apply unseen_exec.
Qed.

(** A new block: the batches and the other blocks stay as they are. *)
Definition block_added (b : ProcessBlockResponse) n x y : Prop :=
  t_batch y = t_batch x ∧ t_forced y = t_forced x ∧ t_block y = t_block x ∧
  t_l2block x !! bl_BlockNumber b = None ∧
  ∃ row, l2_batch_num row = n ∧ t_l2block y = <[bl_BlockNumber b := row]> (t_l2block x).

Lemma op_store_Exec (f : Tables → option Tables) t x :
  op_spec False t (store_Exec (Some t) f) x (λ _ y, f x = Some y) (λ _, True).
Proof. apply op_wrap, op_exec. Qed.

Lemma op_add_transactions n txs d t (I : Tables → Prop) : ∀ i x,
  (∀ y m, I y → I (set_transaction y m)) → 0 ≤ i → i + zlen txs ≤ zlen d → I x →
  op_spec False t (add_transactions n txs i d (Some t)) x (λ _, I) (λ _, True).
Proof.
  induction txs as [|tx txs IH]; intros i x HI Hi Hd Hx; simpl; [by apply op_ret|].
  unfold zlen in *. simpl in Hd. destruct (index_ok (E := L2StoreErr) d i) as (v & -> & _); [lia|].
  rewrite lift_Ret_bind.
  case_match; [by apply op_fail|]. eapply op_bind; [apply op_store_Exec|].
  intros [] y Hy. apply IH; [done|lia|lia|]. apply fmap_Some in Hy as (m & _ & ->). by apply HI.
Qed.

Lemma op_StoreL2Block K t cfg n b logs x :
  ForkIDIntervals cfg ≠ [] →
  (block_loop (bl_TransactionResponses b) 0 logs [] [] [] = Panic → K) →
  op_spec K t (StoreL2Block cfg n b logs (Some t)) x (λ _, block_added b n x) (λ _, True).
Proof.
  intros Hf HK. unfold StoreL2Block. rewrite decide_False by done.
  destruct (block_loop _ _ _ _ _ _) as [[[txs data] rcs]|e|] eqn:Hl.
  2:{ intros s old [Hs _]. by apply wpm_bind, wpm_lift. }
  2:{ intros s old _. by apply wpm_bind, wpm_lift, HK. }
  apply block_loop_lengths in Hl; [|done]. rewrite lift_Ret_bind. unfold AddL2Block.
  destruct (ForkID_Ret (E := L2StoreErr) cfg n Hf) as [forkID ->]. rewrite lift_Ret_bind.
  apply op_weaken. eapply op_bind; [apply op_store_Exec|]. intros [] y Hy.
  apply fmap_Some in Hy as (m & Hm & ->). apply insert_new_Some in Hm as (_ & Hnone & ->).
  set (I := block_added b n x).
  assert (∀ y z, I y → t_batch z = t_batch y → t_forced z = t_forced y → t_block z = t_block y →
    t_l2block z = t_l2block y → I z) as HI.
  { intros y z (H1' & H2' & H3' & H4' & row & H5' & H6') Hb Hfo Hbl Hz.
    split_and!; try congruence. exists row. split; congruence. }
  eapply op_bind; [apply (op_add_transactions _ _ _ _ I)|].
  - intros y m Hy. by eapply HI.
  - lia.
  - unfold zlen. lia.
  - split_and!; [done..|]. eexists. split; [|done]. done.
  - intros [] y Hy. apply op_for_each; [done|]. intros r z _ Hz.
    eapply op_bind; [apply op_store_Exec|]. intros [] z' Hz'. apply fmap_Some in Hz' as (m & _ & ->).
    apply op_for_each; [by eapply HI|]. intros l v _ Hv.
    eapply op_mono; [apply op_store_Exec| |done]. intros [] v' Hv'.
    case_match; simplify_eq. by eapply HI.
Qed.
End wp.
