(* ===== verification/ExitRoots.v ===== *)
(** * Exit roots in the database and the L1 info tree of the state

    [state/l1infotree.go], the SQL of [state/pgstatestorage/l1infotree.go] and
    of [state/pgstatestorage/globalexitroot.go] on the table
    [state.exit_root], and the creation of the tree from the table in
    [newState] of [cmd/run.go].  The tree is in memory, its leaves and the root
    after each of them are in the table, and the two are updated by one method
    on a transaction that may be rolled back. *)

From S2P Require Import Prelude Digits Hex GoEthereum TxCodec BatchV2 NewTracker.
From S2P Require Import Resources TxTracker AddrQueue Worker ExecErrors ExecTypes.
From S2P Require Import GoMonad Postgres StateStore L1InfoTree.

Record GlobalExitRoot := mkGlobalExitRoot {
  ge_BlockNumber : Z;
  ge_Timestamp : Z;
  ge_MainnetExitRoot : Z;
  ge_RollupExitRoot : Z;
  ge_GlobalExitRoot : Z
}.

Record L1InfoTreeLeaf := mkL1InfoTreeLeaf {
  lf_ger : GlobalExitRoot;
  lf_PreviousBlockHash : Z
}.

(** [keccak] is the Keccak-256 of golang.org/x/crypto and of
    go-iden3-crypto, on the concatenation of its arguments. *)
Class Keccak := keccak256 : bytes → bytes.

Section hashes.
Context `{!Keccak}.

Definition hash32 (h : Z) : bytes := split_digits 256 32 h.

(** The hash of two nodes and of a leaf *)
Definition node_hash (l r : Z) : Z := of_digits 256 (keccak256 (hash32 l ++ hash32 r)).

Definition L1InfoTreeLeaf_Hash (l : L1InfoTreeLeaf) : Z :=
  of_digits 256 (HashLeafData keccak256 (hash32 (ge_GlobalExitRoot (lf_ger l)))
    (hash32 (lf_PreviousBlockHash l)) (wrap64 (Unix (ge_Timestamp (lf_ger l))))).
End hashes.

(** ** The table *)

Section exit_roots.
Context `{!GoEthereum, !Postgres Tables}.

Definition exit_root_row (g : GlobalExitRoot) (prev root idx : option Z) : ExitRootRow :=
  mkExitRootRow (ge_BlockNumber g) (timestamptz (ge_Timestamp g)) (ge_MainnetExitRoot g) (ge_RollupExitRoot g)
    (ge_GlobalExitRoot g) prev root idx.

Definition row_ger (r : ExitRootRow) : GlobalExitRoot :=
  mkGlobalExitRoot (er_block_num r) (er_timestamp r) (er_mainnet_exit_root r)
    (er_rollup_exit_root r) (er_global_exit_root r).

Definition row_leaf (r : ExitRootRow) : L1InfoTreeLeaf :=
  mkL1InfoTreeLeaf (row_ger r) (default 0 (er_prev_block_hash r)).

(** [l1_info_tree_index IS NOT NULL] *)
Definition is_leaf (r : ExitRootRow) : Prop := is_Some (er_l1_info_tree_index r).

Definition row_index (r : ExitRootRow) : Z := default 0 (er_l1_info_tree_index r).

Definition scanL1InfoTreeExitRootStorageEntry (r : ExitRootRow) : L1InfoTreeExitRootStorageEntry :=
  mkL1InfoEntry (er_block_num r) (er_timestamp r) (er_mainnet_exit_root r)
    (er_rollup_exit_root r) (er_global_exit_root r) (default 0 (er_prev_block_hash r))
    (default 0 (er_l1_info_root r)) (row_index r).

Definition entry_leaf (e : L1InfoTreeExitRootStorageEntry) : L1InfoTreeLeaf :=
  mkL1InfoTreeLeaf (mkGlobalExitRoot (li_BlockNumber e) (li_Timestamp e) (li_MainnetExitRoot e)
    (li_RollupExitRoot e) (li_GlobalExitRoot e)) (li_PreviousBlockHash e).

(** [ORDER BY l1_info_tree_index] *)
Definition index_le (r r' : ExitRootRow) : Prop := row_index r ≤ row_index r'.
#[export] Instance index_le_dec : RelDecision index_le.
Proof. unfold index_le. intros r r'. apply _. Defined.

(** [max(l1_info_tree_index)] *)
Definition max_index (rows : list ExitRootRow) : option Z :=
  foldr (λ r acc, match er_l1_info_tree_index r with
                  | None => acc
                  | Some i => Some (match acc with None => i | Some j => Z.max i j end)
                  end) None rows.

(** [INSERT]: the block exists and the index is new. *)
Definition insert_exit_root (r : ExitRootRow) (t : Tables) : option Tables :=
  if has (t_block t) (er_block_num r) &&
     bool_decide (is_leaf r →
       Forall (λ r', er_l1_info_tree_index r' ≠ er_l1_info_tree_index r) (t_exit_root t))
  then Some (set_exit_root t (t_exit_root t ++ [r])) else None.

Definition AddGlobalExitRoot (g : GlobalExitRoot) (c : dbTx) : StoreM () :=
  sql_Exec c (insert_exit_root (exit_root_row g None None None)).

Definition entry_row (e : L1InfoTreeExitRootStorageEntry) : ExitRootRow :=
  exit_root_row (lf_ger (entry_leaf e)) (Some (li_PreviousBlockHash e))
    (Some (li_L1InfoTreeRoot e)) (Some (li_L1InfoTreeIndex e)).

Definition AddL1InfoRootToExitRoot (e : L1InfoTreeExitRootStorageEntry) (c : dbTx) : StoreM () :=
  sql_Exec c (insert_exit_root (entry_row e)).

Definition GetAllL1InfoRootEntries (c : dbTx) : StoreM (list L1InfoTreeExitRootStorageEntry) :=
  sql_Rows c (λ t, scanL1InfoTreeExitRootStorageEntry <$>
    merge_sort index_le (filter is_leaf (t_exit_root t))).

(** Without a row the entry is the zero value and there is no error. *)
Definition GetLatestL1InfoRoot (maxBlockNumber : Z) : StoreM L1InfoTreeExitRootStorageEntry :=
  sql_QueryRow None ErrNoRows (λ t, Some (default (mkL1InfoEntry 0 zero_time 0 0 0 0 0 0)
    (scanL1InfoTreeExitRootStorageEntry <$> last (merge_sort index_le
       (filter (λ r, is_leaf r ∧ er_block_num r ≤ maxBlockNumber) (t_exit_root t)))))).

Definition GetLatestIndex (c : dbTx) : StoreM Z :=
  i ← sql_QueryRow c ErrNoRows (λ t, Some (max_index (t_exit_root t)));
  match i with None => fail ErrNotFound | Some i => mret i end.

Definition GetL1InfoRootLeafByIndex (l1InfoTreeIndex : Z) (c : dbTx) :
    StoreM L1InfoTreeExitRootStorageEntry :=
  sql_QueryRow c ErrNoRows (λ t, scanL1InfoTreeExitRootStorageEntry <$>
    List.find (λ r, bool_decide (er_l1_info_tree_index r = Some l1InfoTreeIndex)) (t_exit_root t)).

Definition GetLatestGlobalExitRoot (maxBlockNumber : Z) (c : dbTx) :
    StoreM (GlobalExitRoot * Z) :=
  r ← sql_QueryRow c ErrNotFound (λ t,
        last (filter (λ r, er_block_num r ≤ maxBlockNumber) (t_exit_root t)));
  receivedAt ← sql_QueryRow c ErrNotFound (λ t, received_at <$> t_block t !! er_block_num r);
  mret (mkGlobalExitRoot (er_block_num r) zero_time (er_mainnet_exit_root r) (er_rollup_exit_root r)
          (er_global_exit_root r), receivedAt).

Definition GetLatestGer (maxBlockNumber : Z) : StoreM (GlobalExitRoot * Z) :=
  r ← try (GetLatestGlobalExitRoot maxBlockNumber None);
  match r with
  | inl ErrNotFound => mret (mkGlobalExitRoot 0 zero_time 0 0 0, zero_time)
  | inl e => fail e
  | inr r => mret r
  end.
End exit_roots.

(** ** The state *)

Record State `{!GoEthereum, !Postgres Tables} := mkState {
  st_db : @PgServer Tables _;
  st_l1InfoTree : @L1InfoTree Z
}.
Arguments mkState {_ _}.

Inductive L1InfoErr `{!GoEthereum, !Postgres Tables} :=
  | ErrL1Store (e : StoreErr)
  | ErrL1Tree (e : TreeErr).

Section state.
Context `{!GoEthereum, !Postgres Tables, !Keccak}.

Abbreviation L1M := (GoM State L1InfoErr).

Definition db_call {A} (m : StoreM A) : L1M A :=
  zoom st_db (λ s st, mkState s (st_l1InfoTree st)) (wrap_err ErrL1Store m).

Definition tree_AddLeaf (index leaf : Z) : L1M Z := λ st,
  let '(tree, r) := AddLeaf node_hash (st_l1InfoTree st) index leaf in
  (mkState (st_db st) tree, map_err ErrL1Tree r).

Definition leaf_entry (l : L1InfoTreeLeaf) (root newIndex : Z) : L1InfoTreeExitRootStorageEntry :=
  mkL1InfoEntry (ge_BlockNumber (lf_ger l)) (ge_Timestamp (lf_ger l))
    (ge_MainnetExitRoot (lf_ger l)) (ge_RollupExitRoot (lf_ger l)) (ge_GlobalExitRoot (lf_ger l))
    (lf_PreviousBlockHash l) root newIndex.

(** The leaf goes to the tree and then to the table. *)
Definition add_entry (newIndex : Z) (leaf : L1InfoTreeLeaf) (c : dbTx) :
    L1M L1InfoTreeExitRootStorageEntry :=
  root ← tree_AddLeaf newIndex (L1InfoTreeLeaf_Hash leaf);
  let entry := leaf_entry leaf root newIndex in
  db_call (AddL1InfoRootToExitRoot entry c) ;;
  mret entry.

Definition AddL1InfoTreeLeaf (l1InfoTreeLeaf : L1InfoTreeLeaf) (c : dbTx) :
    L1M L1InfoTreeExitRootStorageEntry :=
  gerIndex ← try (db_call (GetLatestIndex c));
  match gerIndex with
  | inl (ErrL1Store ErrNotFound) => add_entry 0 l1InfoTreeLeaf c
  | inl e => fail e
  | inr gerIndex => add_entry (gerIndex +₃₂ 1) l1InfoTreeLeaf c
  end.

Definition GetCurrentL1InfoRoot (st : State) : Z :=
  (GetCurrentRootCountAndSiblings (st_l1InfoTree st)).1.1.

(** [newState]: the tree over the leaves of the table.  An error ends the
    process. *)
Definition newState (s : PgServer) : PgServer * GoRes L1InfoErr State :=
  match wrap_err ErrL1Store (GetAllL1InfoRootEntries None) s with
  | (s, Ret allLeaves) =>
      (s, mkState s <$> map_err ErrL1Tree
            (NewL1InfoTree node_hash 0 32 (L1InfoTreeLeaf_Hash ∘ entry_leaf <$> allLeaves)))
  | (s, Fail e) => (s, Fail e)
  | (s, Panic) => (s, Panic)
  end.
End state.
