(* ===== verification/ExitRootsOk.v ===== *)
(** * The stored L1 info roots are the roots of the stored leaves

    The table of exit roots against the tree of [L1InfoTree]: whatever fails,
    is rolled back or restarted, the entry of each leaf has the root of the
    tree over the leaves up to it.  The tree in memory is not rolled back with
    the transaction. *)

From S2P Require Import Prelude Digits Hex GoEthereum TxCodec BatchV2 NewTracker.
From S2P Require Import Resources TxTracker AddrQueue Worker ExecErrors ExecTypes.
From S2P Require Import GoMonad Postgres StateStore StoreOk StoreWp L1InfoTree ExitRoots.

Section ok.
Context `{!GoEthereum, !Postgres Tables, !PostgresSpec Tables, !Keccak}.
Implicit Types (rows : list ExitRootRow) (L : list Z) (st : State) (t : @PgTx Tables _).

(** What the table says of a leaf: its index, its hash and its root *)
Definition row_info (r : ExitRootRow) : option Z * Z * option Z :=
  (er_l1_info_tree_index r, L1InfoTreeLeaf_Hash (row_leaf r), er_l1_info_root r).

(** The root of the tree over [L] *)
Definition root_of L : Z := node node_hash 0 L 32 0.

Lemma root_of_eq L : root_of L = node node_hash 0 L 32 0.
Proof. reflexivity. Qed.
#[local] Opaque root_of.

Definition leaf_info L (i : nat) (h : Z) : option Z * Z * option Z :=
  (Some (Z.of_nat i), h, Some (root_of (take (S i) L))).

(** The rows with an index hold the leaves [L]. *)
Definition stored rows L : Prop :=
  row_info <$> filter is_leaf rows = imap (leaf_info L) L.

Lemma stored_snoc rows L r :
  stored rows L → er_l1_info_tree_index r = Some (zlen L) →
  er_l1_info_root r = Some (root_of (L ++ [L1InfoTreeLeaf_Hash (row_leaf r)])) →
  stored (rows ++ [r]) (L ++ [L1InfoTreeLeaf_Hash (row_leaf r)]).
Proof.
  intros Hs Hi Hr. unfold stored. rewrite filter_app, fmap_app, Hs, imap_app. f_equal.
  - apply imap_ext. intros i h Hh. apply lookup_lt_Some in Hh. unfold leaf_info.
    by rewrite take_app_le by lia.
  - rewrite filter_cons_True by (unfold is_leaf; rewrite Hi; by eexists). simpl.
    unfold row_info, leaf_info. rewrite Hi, Hr, Nat.add_0_r.
    by rewrite take_ge by (rewrite length_app; simpl; lia).
Qed.

(** The hash takes the seconds of the time, which the column keeps. *)
Lemma row_leaf_hash leaf root i :
  L1InfoTreeLeaf_Hash (row_leaf (entry_row (leaf_entry leaf root i))) = L1InfoTreeLeaf_Hash leaf.
Proof.
  destruct leaf as [[] ?]. unfold L1InfoTreeLeaf_Hash, row_leaf, entry_row, leaf_entry. simpl.
  by rewrite Unix_timestamptz.
Qed.

(** The row of a new leaf *)
Lemma stored_entry rows L leaf :
  stored rows L →
  let L1 := L ++ [L1InfoTreeLeaf_Hash leaf] in
  stored (rows ++ [entry_row (leaf_entry leaf (root_of L1) (zlen L))]) L1.
Proof.
  intros Hs L1. subst L1. set (h := L1InfoTreeLeaf_Hash leaf).
  assert (L1InfoTreeLeaf_Hash (row_leaf (entry_row (leaf_entry leaf (root_of (L ++ [h])) (zlen L)))) = h)
    as Hl by by (destruct leaf as [[] ?]; apply row_leaf_hash).
  pose proof (stored_snoc rows L (entry_row (leaf_entry leaf (root_of (L ++ [h])) (zlen L))) Hs)
    as Hsn. rewrite Hl in Hsn. by apply Hsn.
Qed.

Lemma stored_other rows L r :
  stored rows L → er_l1_info_tree_index r = None → stored (rows ++ [r]) L.
Proof.
  intros Hs Hi. unfold stored. rewrite filter_app, filter_cons_False, app_nil_r; [done|].
  unfold is_leaf. rewrite Hi. by intros [].
Qed.

Lemma stored_index rows L i :
  stored rows L → (∃ r, r ∈ rows ∧ er_l1_info_tree_index r = Some i) ↔ 0 ≤ i < zlen L.
Proof.
  intros Hs. unfold zlen. split.
  - intros (r & Hr & Hi). assert (row_info r ∈ imap (leaf_info L) L) as Hin.
    { rewrite <-Hs. apply list_elem_of_fmap_2, list_elem_of_filter.
      split; [|done]. unfold is_leaf. rewrite Hi. by eexists. }
    apply elem_of_lookup_imap in Hin as (j & h & Heq & Hj). unfold row_info, leaf_info in Heq.
    apply lookup_lt_Some in Hj. assert (i = Z.of_nat j) as -> by congruence. lia.
  - intros Hi. destruct (lookup_lt_is_Some_2 L (Z.to_nat i)) as [h Hh]; [lia|].
    assert ((row_info <$> filter is_leaf rows) !! Z.to_nat i =
            Some (leaf_info L (Z.to_nat i) h)) as Hl by by rewrite Hs, list_lookup_imap, Hh.
    apply list_lookup_fmap_Some in Hl as (r & Hr & Hl).
    apply list_elem_of_lookup_2, list_elem_of_filter in Hl as [_ Hl].
    exists r. split; [done|]. unfold row_info, leaf_info in Hr. injection Hr as Hr _ _.
    rewrite <-Hr. f_equal. lia.
Qed.

Lemma max_index_spec rows :
  match max_index rows with
  | None => ∀ r i, r ∈ rows → er_l1_info_tree_index r ≠ Some i
  | Some m => (∃ r, r ∈ rows ∧ er_l1_info_tree_index r = Some m) ∧
      ∀ r i, r ∈ rows → er_l1_info_tree_index r = Some i → i ≤ m
  end.
Proof.
  induction rows as [|r rows IH]; [by intros ? ? ?%elem_of_nil|]. simpl.
  destruct (er_l1_info_tree_index r) as [i|] eqn:Hr; destruct (max_index rows) as [m|].
  - destruct IH as [(r' & Hr' & Hm) Hmax]. split.
    + destruct (Z.max_spec i m) as [[_ ->]|[_ ->]]; [exists r'|exists r]; (split; [|done]).
      * by right.
      * by left.
    + intros q j [->|Hq]%elem_of_cons Hj; [simplify_eq; lia|]. pose proof (Hmax q j Hq Hj). lia.
  - split; [exists r; split; [by left|done]|].
    intros q j [->|Hq]%elem_of_cons Hj; [by simplify_eq|]. by destruct (IH q j).
  - destruct IH as [(r' & Hr' & Hm) Hmax]. split; [exists r'; split; [by right|done]|].
    intros q j [->|Hq]%elem_of_cons Hj; [congruence|eauto].
  - intros q j [->|Hq]%elem_of_cons; [congruence|eauto].
Qed.

Lemma stored_max_index rows L :
  stored rows L → max_index rows = if decide (L = []) then None else Some (zlen L - 1).
Proof.
  intros Hs. pose proof (stored_index rows L) as Hi. pose proof (max_index_spec rows) as Hm.
  destruct (max_index rows) as [m|].
  - destruct Hm as [Hex Hmax]. apply (Hi m Hs) in Hex. case_decide as HL; [subst; unfold zlen in *; simpl in *; lia|].
    f_equal. destruct (Hi (zlen L - 1) Hs) as [_ (r & Hr & Hri)]; [lia|].
    pose proof (Hmax r _ Hr Hri). lia.
  - case_decide as HL; [done|]. destruct (Hi 0 Hs) as [_ (r & Hr & Hri)].
    + destruct L; [done|]. unfold zlen. simpl. lia.
    + by destruct (Hm r 0 Hr).
Qed.

Lemma stored_hashes rows L :
  stored rows L → L1InfoTreeLeaf_Hash ∘ row_leaf <$> filter is_leaf rows = L.
Proof.
  intros Hs. apply (f_equal (fmap (λ p, p.1.2))) in Hs.
  rewrite <-list_fmap_compose, fmap_imap in Hs. etrans; [exact Hs|].
  etrans; [apply (imap_const id)|apply list_fmap_id].
Qed.

Lemma stored_prefix rows rows' L L' :
  rows `prefix_of` rows' → stored rows L → stored rows' L' → L `prefix_of` L'.
Proof.
  intros [k ->] <-%stored_hashes <-%stored_hashes. rewrite filter_app, fmap_app.
  by apply prefix_app_r.
Qed.

(** ** The tree and the table *)

(** What the pool and the connection [c] read are leaves that satisfy [P], and
    the rows of the pool come first in the connection. *)
Record views (P : list Z → Prop) c (s : @PgServer Tables _) : Prop := {
  views_stored c' x : c' = None ∨ c' = c → pg_view s c' = Some x →
    ∃ L, P L ∧ stored (t_exit_root x) L;
  views_order x y : pg_view s None = Some x → pg_view s c = Some y →
    t_exit_root x `prefix_of` t_exit_root y }.

(** The leaves of the table are a prefix of those of the tree, or the other way
    round when the rows were cut at the start of the node. *)
Definition fits (n : nat) L L' : Prop :=
  (L' `prefix_of` L ∨ L `prefix_of` L') ∧ (length L' ≤ n)%nat.

Definition tree_ok (tree : L1InfoTree) L : Prop := tree_inv node_hash 0 tree L ∧ height tree = 32%nat.

Definition l1_ok (n : nat) st (c : dbTx) : Prop :=
  ∃ L, tree_ok (st_l1InfoTree st) L ∧ (length L ≤ n)%nat ∧ views (fits n L) c (st_db st).

(** A connection that is unchanged or closed *)
Lemma views_kept P c s s' :
  views P c s → pg_view s' None = pg_view s None →
  (pg_view s' c = pg_view s c ∨ pg_view s' c = None) → views P c s'.
Proof.
  intros [Hv Ho] Hn Hc. split.
  - intros c' x [->| ->] Hx; [rewrite Hn in Hx; by eauto|].
    destruct Hc as [Hc|Hc]; rewrite Hc in Hx; [by eauto|done].
  - intros x y Hx Hy. rewrite Hn in Hx. destruct Hc as [Hc|Hc]; rewrite Hc in Hy; [by eauto|done].
Qed.

Lemma views_mono (P Q : list Z → Prop) c s : views P c s → (∀ L, P L → Q L) → views Q c s.
Proof. intros [Hv Ho] HPQ. split; [|done]. intros c' x Hc Hx. destruct (Hv c' x Hc Hx) as (L & ? & ?). eauto. Qed.

(** All is read by the connection [c]. *)
Lemma views_below P c s x L :
  views P c s → pg_view s c = Some x → stored (t_exit_root x) L →
  views (λ L', L' `prefix_of` L) c s.
Proof.
  intros [Hv Ho] Hx Hs. split; [|done]. intros c' y Hc Hy. destruct (Hv c' y Hc Hy) as (L' & _ & HL').
  exists L'. split; [|done]. destruct Hc as [->| ->]; [exact (stored_prefix _ _ _ _ (Ho y x Hy Hx) HL' Hs)|].
  simplify_eq. by eapply stored_prefix.
Qed.

Lemma views_none P s' :
  (∀ x, pg_view s' None = Some x → ∃ L, P L ∧ stored (t_exit_root x) L) → views P None s'.
Proof. intros Hv. split; [by intros c' x [->| ->]; eauto|]. intros. by simplify_eq. Qed.

(** The connection [t] has one more row. *)
Lemma views_insert (P Q : list Z → Prop) t s s' x r :
  views P (Some t) s → pg_view s (Some t) = Some x → pg_view s' None = pg_view s None →
  pg_view s' (Some t) = Some (set_exit_root x (t_exit_root x ++ [r])) →
  (∀ L, P L → Q L) → (∃ L, Q L ∧ stored (t_exit_root x ++ [r]) L) → views Q (Some t) s'.
Proof.
  intros [Hv Ho] Hx Hn Hy HPQ Hr. split.
  - intros c' z [->| ->] Hz; [|rewrite Hy in Hz; by simplify_eq]. rewrite Hn in Hz.
    destruct (Hv None z (or_introl eq_refl) Hz) as (L & ? & ?). eauto.
  - intros y z Hy' Hz. rewrite Hn in Hy'. rewrite Hy in Hz. simplify_eq. simpl.
    apply prefix_app_r. eauto.
Qed.

Lemma wp_query_views {A} P c e (f : Tables → option A) s :
  views P c s →
  wpm False (sql_QueryRow c e f)
    (λ a s', views P c s' ∧ ∃ x, pg_view s' c = Some x ∧ f x = Some a)
    (λ e' s', views P c s' ∧ (e' = e ∨ ∃ er, e' = ErrPg er)) s.
Proof.
  intros Hv. unfold wpm, sql_QueryRow. destruct (pg_Query s c) as [s1 [er|x]] eqn:Hq.
  - apply pg_Query_err in Hq as [Hn Hc]. split; [by eapply views_kept|eauto].
  - apply pg_Query_ok in Hq as [Hx Hs].
    assert (views P c s1) by (eapply views_kept; [done|apply Hs|left; apply Hs]).
    destruct (f x) eqn:Hf; [|eauto]. split; [done|]. exists x. by rewrite Hs.
Qed.

Lemma wp_GetLatestIndex P c s :
  views P c s →
  wpm False (GetLatestIndex c)
    (λ i s', views P c s' ∧ ∃ x L, pg_view s' c = Some x ∧ P L ∧
       stored (t_exit_root x) L ∧ L ≠ [] ∧ i = zlen L - 1)
    (λ e s', views P c s' ∧ (e = ErrNotFound → ∃ x, pg_view s' c = Some x ∧ P [] ∧
       stored (t_exit_root x) [])) s.
Proof.
  intros Hv. apply wpm_bind. eapply wpm_mono; [by apply wp_query_views|..].
  - intros i s1 (Hv1 & x & Hx & [= <-]).
    destruct (views_stored _ _ _ Hv1 c x (or_intror eq_refl) Hx) as (L & Hp & Hs).
    rewrite (stored_max_index _ _ Hs). case_decide as HL.
    + apply wpm_fail. subst. eauto.
    + apply wpm_ret. eauto 10.
  - intros e s1 [Hv1 He]. split; [done|]. intros ->. destruct He as [|[]]; done.
Qed.

Lemma exec_insert_views P t r s :
  views P (Some t) s →
  wpm False (sql_Exec (Some t) (insert_exit_root r))
    (λ _ s', ∃ x, pg_view s (Some t) = Some x ∧ has (t_block x) (er_block_num r) = true ∧
       pg_view s' None = pg_view s None ∧
       pg_view s' (Some t) = Some (set_exit_root x (t_exit_root x ++ [r])))
    (λ _, views P (Some t)) s.
Proof.
  intros Hv. unfold wpm, sql_Exec. destruct (pg_Exec s (Some t) _) as [s1 [er|]] eqn:He.
  - apply pg_Exec_err in He as [Hn Hc]. by eapply views_kept.
  - apply pg_Exec_ok in He as (x & y & Hx & Hf & Hy & Hn). unfold insert_exit_root in Hf.
    destruct (has _ _) eqn:Hb; [|done]. case_bool_decide; [|done]. injection Hf as <-.
    exists x. split_and!; [done|done|by apply Hn|done].
Qed.

(** The index of the next leaf *)
Lemma tree_AddLeaf_spec tree L L' h :
  tree_ok tree L → L' `prefix_of` L ∨ L `prefix_of` L' → zlen L < 2 ^ 32 →
  match AddLeaf node_hash tree (zlen L') h with
  | (tree', Ret root) => L' = L ∧ tree_ok tree' (L ++ [h]) ∧ root = root_of (L ++ [h])
  | (tree', Fail e) => L' ≠ L ∧ tree' = tree ∧ e = ErrLeafCount
  | (_, Panic) => False
  end.
Proof.
  intros [Ht Hh] Hp HL. unfold zlen in *.
  assert (count tree = Z.of_nat (length L)) as Hc.
  { destruct Ht as (_ & -> & _). apply wrap32_small. unfold in_u32. lia. }
  destruct (decide (L' = L)) as [->|Hne].
  - rewrite <-Hc. destruct (AddLeaf_inv node_hash 0 tree L h Ht) as (tree' & -> & Ht' & Hh').
    { rewrite Hh. simpl. lia. }
    { done. }
    split; [done|]. split; [split; [done|congruence]|].
    destruct Ht' as (_ & _ & _ & _ & ->). by rewrite root_of_eq, Hh', Hh.
  - unfold AddLeaf. rewrite decide_True; [done|]. rewrite Hc. intros Heq. apply Hne.
    destruct Hp as [Hp|Hp]; [|symmetry]; apply prefix_length_eq; done || lia.
Qed.

(** A leaf is added to both or to the tree alone, or nothing changes. *)
Definition added leaf t n L (entry : L1InfoTreeExitRootStorageEntry) st : Prop :=
  let L1 := L ++ [L1InfoTreeLeaf_Hash leaf] in
  ∃ x, pg_view (st_db st) (Some t) = Some x ∧ stored (t_exit_root x) L1 ∧
    li_L1InfoTreeRoot entry = root_of L1 ∧ li_L1InfoTreeIndex entry = zlen L ∧
    tree_ok (st_l1InfoTree st) L1 ∧ views (fits (S n) L1) (Some t) (st_db st) ∧
    ∀ y, pg_view (st_db st) None = Some y → ∃ L0, L0 `prefix_of` L ∧ stored (t_exit_root y) L0.

Definition not_added leaf t n L st : Prop :=
  (tree_ok (st_l1InfoTree st) L ∧ views (fits n L) (Some t) (st_db st)) ∨
  (tree_ok (st_l1InfoTree st) (L ++ [L1InfoTreeLeaf_Hash leaf]) ∧
   views (λ L', L' `prefix_of` L) (Some t) (st_db st)).

Lemma wp_add_entry leaf t st n L L' x :
  tree_ok (st_l1InfoTree st) L → (length L ≤ n)%nat → zlen L < 2 ^ 32 →
  views (fits n L) (Some t) (st_db st) →
  pg_view (st_db st) (Some t) = Some x → fits n L L' → stored (t_exit_root x) L' →
  wpm False (add_entry (zlen L') leaf (Some t)) (added leaf t n L) (λ _, not_added leaf t n L) st.
Proof.
  intros Ht Hn HL Hv Hx [Hp _] Hs. apply wpm_bind. unfold wpm at 1, tree_AddLeaf.
  pose proof (tree_AddLeaf_spec _ _ _ (L1InfoTreeLeaf_Hash leaf) Ht Hp HL) as Ha.
  destruct (AddLeaf _ _ _ _) as [tree' [root|e|]]; cbn [map_err];
    [|by destruct Ha as (_ & -> & _); left|done].
  destruct Ha as (-> & Ht' & ->). cbv zeta. apply wpm_bind, wpm_zoom, wpm_wrap.
  pose proof (views_below _ _ _ _ _ Hv Hx Hs) as Hb.
  eapply wpm_mono; [by apply exec_insert_views|..]; cbn beta.
  - intros [] s' (x' & Hx' & _ & Hnone & Hy). cbn [st_db] in *. rewrite Hx in Hx'. injection Hx' as <-.
    pose proof (stored_entry _ _ leaf Hs) as Hs'. apply wpm_ret. eexists.
    split_and!; [exact Hy|done|done|done|done| |].
    + eapply views_insert; [exact Hb|exact Hx|done|exact Hy| |].
      * intros L0 HL0. split; [left; by apply prefix_app_r|]. apply prefix_length in HL0. lia.
      * eexists. split; [|exact Hs']. split; [by left|]. rewrite length_app. simpl. lia.
    + intros y Hy'. cbn [st_db] in Hy'. rewrite Hnone in Hy'. by apply (views_stored _ _ _ Hb None y (or_introl eq_refl)).
  - intros _ s' Hv'. by right.
Qed.

Lemma wp_AddL1InfoTreeLeaf leaf t st n L :
  tree_ok (st_l1InfoTree st) L → (length L ≤ n)%nat → Z.of_nat n < 2 ^ 32 →
  views (fits n L) (Some t) (st_db st) →
  wpm False (AddL1InfoTreeLeaf leaf (Some t)) (added leaf t n L) (λ _, not_added leaf t n L) st.
Proof.
  intros Ht HL Hn Hv. assert (zlen L < 2 ^ 32) by (unfold zlen; lia).
  apply wpm_bind, wpm_try, wpm_zoom, wpm_wrap.
  eapply wpm_mono; [by apply wp_GetLatestIndex|..]; cbn beta.
  - intros i s1 (Hv1 & x & L' & Hx & Hp & Hs & Hne & ->).
    replace ((zlen L' - 1) +₃₂ 1) with (zlen L'); [by eapply wp_add_entry|].
    destruct Hp as [_ Hl]. unfold zlen. rewrite Z.sub_add, wrap32_small; [done|]. unfold in_u32. lia.
  - intros e s1 [Hv1 He].
    assert (not_added leaf t n L (mkState s1 (st_l1InfoTree st))) as Hna by by left.
    destruct e; try exact Hna. destruct (He eq_refl) as (x & Hx & Hp & Hs).
    change 0 with (zlen (A := Z) []). by eapply wp_add_entry.
Qed.

(** ** Runs *)

(** One client: transactions in which leaves and exit roots are added *)
Inductive l1_live : State * dbTx → State * dbTx → Prop :=
  | l1_begin st s' t : BeginStateTransaction (st_db st) = (s', Ret t) →
      l1_live (st, None) (mkState s' (st_l1InfoTree st), Some t)
  | l1_begin_err st s' e : BeginStateTransaction (st_db st) = (s', Fail e) →
      l1_live (st, None) (mkState s' (st_l1InfoTree st), None)
  | l1_leaf st t leaf : l1_live (st, Some t) ((AddL1InfoTreeLeaf leaf (Some t) st).1, Some t)
  | l1_ger st t g : l1_live (st, Some t)
      (mkState (AddGlobalExitRoot g (Some t) (st_db st)).1 (st_l1InfoTree st), Some t)
  | l1_commit st t : l1_live (st, Some t)
      (mkState (Commit t (st_db st)).1 (st_l1InfoTree st), None)
  | l1_rollback st t : l1_live (st, Some t)
      (mkState (Rollback t (st_db st)).1 (st_l1InfoTree st), None).

(** The node is restarted at any time. *)
Inductive l1_step (p : State * dbTx) : State * dbTx → Prop :=
  | l1_run q : l1_live p q → l1_step p q
  | l1_restart s' st' : newState (st_db p.1) = (s', Ret st') → l1_step p (st', None).

Lemma stored_lookup rows L i r :
  stored rows L → filter is_leaf rows !! i = Some r →
  row_index r = Z.of_nat i ∧ L !! i = Some (L1InfoTreeLeaf_Hash (row_leaf r)) ∧
  er_l1_info_root r = Some (root_of (take (S i) L)).
Proof.
  intros Hs Hi. apply (f_equal (λ l, l !! i)) in Hs. rewrite list_lookup_fmap, Hi in Hs. simpl in Hs.
  rewrite list_lookup_imap in Hs. destruct (L !! i) as [h|]; [|done]. simpl in Hs.
  unfold row_info, leaf_info in Hs. injection Hs as Hidx Hh Hr. unfold row_index.
  rewrite Hidx. by split_and!; [|congruence|].
Qed.

Lemma indexed_sorted rows : ∀ k,
  (∀ i r, rows !! i = Some r → row_index r = k + Z.of_nat i) → StronglySorted index_le rows.
Proof.
  induction rows as [|r rows IH]; intros k Hk; constructor.
  - apply (IH (k + 1)). intros i q Hq. rewrite (Hk (S i) q Hq). lia.
  - apply Forall_lookup. intros i q Hq. unfold index_le.
    rewrite (Hk 0%nat r eq_refl), (Hk (S i) q Hq). lia.
Qed.

Lemma stored_sorted rows L :
  stored rows L → merge_sort index_le (filter is_leaf rows) = filter is_leaf rows.
Proof.
  intros Hs. assert (Total index_le) by (intros ? ?; unfold index_le; lia).
  assert (Transitive index_le) by (intros ? ? ?; unfold index_le; lia).
  apply (StronglySorted_unique_strong index_le).
  - intros r1 r2 Hr1 Hr2 H12 H21. rewrite merge_sort_Permutation in Hr1.
    apply list_elem_of_lookup_1 in Hr1 as [i Hi], Hr2 as [j Hj].
    pose proof (stored_lookup _ _ _ _ Hs Hi) as [Hri _].
    pose proof (stored_lookup _ _ _ _ Hs Hj) as [Hrj _]. unfold index_le in *.
    assert (i = j) as -> by lia. congruence.
  - by apply (StronglySorted_merge_sort index_le).
  - apply (indexed_sorted _ 0). intros i r Hi. by apply (stored_lookup _ _ _ _ Hs) in Hi as [-> _].
  - apply merge_sort_Permutation.
Qed.

(** The tree of [newState] is the one over the stored leaves, or over the first
    ones when the rows were cut. *)
Lemma newState_ok s s' st :
  (∀ x, pg_view s None = Some x → ∃ L, stored (t_exit_root x) L ∧ zlen L < 2 ^ 32) →
  newState s = (s', Ret st) →
  ∃ x L L', pg_view s None = Some x ∧ stored (t_exit_root x) L ∧ L' `prefix_of` L ∧
    tree_ok (st_l1InfoTree st) L' ∧ st_db st = s' ∧ pg_view s' None = pg_view s None.
Proof.
  intros Hv Hn. unfold newState, wrap_err, GetAllL1InfoRootEntries, sql_Rows in Hn.
  destruct (pg_Rows s None) as [s1 [er|[x cut]]] eqn:Hq; [done|]. injection Hn as <- Hn.
  assert (pg_view s None = Some x ∧ pg_view s1 None = pg_view s None) as [Hx Hs1].
  { destruct cut; [apply pg_Rows_cut in Hq as (? & ? & _)|apply pg_Rows_ok in Hq as [? Hs]]; auto. }
  destruct (Hv x Hx) as (L & Hs & HL).
  rewrite (stored_sorted _ _ Hs) in Hn.
  assert (∃ L', L' `prefix_of` L ∧ L1InfoTreeLeaf_Hash ∘ entry_leaf <$>
    match cut with
    | None => scanL1InfoTreeExitRootStorageEntry <$> filter is_leaf (t_exit_root x)
    | Some k => take k (scanL1InfoTreeExitRootStorageEntry <$> filter is_leaf (t_exit_root x))
    end = L') as (L' & Hp & HL').
  { eexists. split; [|reflexivity]. pose proof (stored_hashes _ _ Hs) as Hh.
    destruct cut as [k|]; [rewrite fmap_take|]; rewrite <-list_fmap_compose;
      change (L1InfoTreeLeaf_Hash ∘ entry_leaf ∘ scanL1InfoTreeExitRootStorageEntry)
        with (L1InfoTreeLeaf_Hash ∘ row_leaf); rewrite Hh; [apply prefix_take|done]. }
  apply prefix_length in Hp as Hl. unfold zlen in HL.
  rewrite HL' in Hn. destruct (NewL1InfoTree_inv node_hash 0 32 L') as (tree & Ht & Hinv & Hh).
  { lia. }
  { simpl. lia. }
  { lia. }
  rewrite Ht in Hn. injection Hn as <-. by exists x, L, L'.
Qed.

Lemma views_pool P s s' c :
  views P None s → (∀ c', c' = None ∨ c' = c → pg_view s' c' = pg_view s None) → views P c s'.
Proof.
  intros [Hv _] Hs. split; [intros c' x Hc Hx; rewrite (Hs c' Hc) in Hx; eauto|].
  intros x y Hx Hy. rewrite Hs in Hx by auto. rewrite Hs in Hy by auto. by simplify_eq.
Qed.

(** A step that is not a new leaf leaves the tree alone and gives no
    connection other leaves. *)
Lemma live_cases st c q :
  l1_live (st, c) q →
  (∃ leaf t, c = Some t ∧ q = ((AddL1InfoTreeLeaf leaf (Some t) st).1, Some t)) ∨
  (st_l1InfoTree q.1 = st_l1InfoTree st ∧ ∀ P, views P c (st_db st) → views P q.2 (st_db q.1)).
Proof.
  intros Hl. inversion Hl as [? s' t Hb|? s' e Hb|? t leaf|? t g|? t|? t]; subst.
  3: { left. by exists leaf, t. }
  all: right; simpl; (split; [done|]); intros P Hv; set (s := st_db st) in *.
  - unfold BeginStateTransaction in Hb. destruct (pg_Begin s) as [s1 [|t1]] eqn:He; simplify_eq.
    apply pg_Begin_ok in He as [Hn Ht]. eapply views_pool; [exact Hv|]. by intros c' [->| ->].
  - unfold BeginStateTransaction in Hb. destruct (pg_Begin s) as [s1 [|t1]] eqn:He; simplify_eq.
    apply pg_Begin_err in He. eapply views_pool; [exact Hv|]. by intros c' [->| ->].
  - unfold AddGlobalExitRoot. pose proof (exec_insert_views P t (exit_root_row g None None None) s Hv) as Hw.
    unfold wpm in Hw. destruct (sql_Exec _ _ s) as [s' [[]|e|]]; [|done..].
    destruct Hw as (x & Hx & _ & Hn & Ht). eapply views_insert; eauto.
    destruct (views_stored _ _ _ Hv _ _ (or_intror eq_refl) Hx) as (L & HP & Hs).
    exists L. split; [done|]. by apply stored_other.
  - unfold Commit. destruct (pg_Commit s t) as [s1 [e|]] eqn:Hc; simpl; apply views_none; intros x Hx.
    + apply pg_Commit_err in Hc as [Hn|[_ Hn]]; rewrite Hn in Hx; eapply (views_stored _ _ _ Hv);
        try exact Hx; by (left + right).
    + apply pg_Commit_ok in Hc as (z & Hz & Hn & _). rewrite Hn in Hx. simplify_eq.
      eapply (views_stored _ _ _ Hv); [|exact Hz]. by right.
  - unfold Rollback. destruct (pg_Rollback s t) as [s1 e] eqn:Hc. apply pg_Rollback_view in Hc.
    assert (views P None s1) as Hs1; [|by destruct e]. apply views_none. intros x Hx.
    rewrite Hc in Hx. eapply (views_stored _ _ _ Hv); [|exact Hx]. by left.
Qed.

Lemma l1_step_ok n st c q :
  l1_step (st, c) q → l1_ok n st c → Z.of_nat n < 2 ^ 32 → l1_ok (S n) q.1 q.2.
Proof.
  intros Hs (L & Ht & HL & Hv) Hn.
  assert (∀ L L', fits n L L' → fits (S n) L L') as Hfit by (intros ? ? [? ?]; split; [done|lia]).
  destruct Hs as [q Hl|s' st' Hnew].
  - apply live_cases in Hl as [(leaf & t & -> & ->)|[Htree HP]]; simpl.
    + pose proof (wp_AddL1InfoTreeLeaf leaf t st n L Ht HL Hn Hv) as Hw. unfold wpm in Hw.
      set (L1 := L ++ [L1InfoTreeLeaf_Hash leaf]) in *.
      assert (length L1 ≤ S n)%nat by (subst L1; rewrite length_app; simpl; lia).
      destruct (AddL1InfoTreeLeaf _ _ _) as [st1 [e|e|]]; [| |done].
      * destruct Hw as (x & _ & _ & _ & _ & Ht1 & Hv1 & _). by exists L1.
      * destruct Hw as [[Ht1 Hv1]|[Ht1 Hv1]]; [exists L; split_and!; [done|lia|by eapply views_mono; eauto]|].
        exists L1. split_and!; [done..|]. eapply views_mono; [done|]. intros L' Hp. split.
        -- left. by apply prefix_app_r.
        -- apply prefix_length in Hp. lia.
    + exists L. rewrite Htree. split_and!; [done|lia|]. apply HP. by eapply views_mono; eauto.
  - simpl in *. pose proof (λ x, views_stored _ _ _ Hv None x (or_introl eq_refl)) as Hpool.
    destruct (newState_ok (st_db st) s' st') as (x & L0 & L' & Hx & Hst & Hp & Ht' & <- & Hv'); [|done|].
    + intros x Hx. destruct (Hpool x Hx) as (L' & [_ ?] & ?). exists L'. split; [done|]. unfold zlen. lia.
    + destruct (Hpool x Hx) as (L1 & [_ Hl] & Hst1).
      assert (L1 = L0) as -> by by rewrite <-(stored_hashes _ _ Hst), <-(stored_hashes _ _ Hst1).
      exists L'. split_and!; [done|apply prefix_length in Hp; lia|].
      apply views_none. intros y Hy. rewrite Hv' in Hy. simplify_eq. exists L0.
      split; [split; [by right|lia]|done].
Qed.

Lemma l1_steps_ok n p q : nsteps l1_step n p q → ∀ k, l1_ok k p.1 p.2 →
  Z.of_nat (k + n) < 2 ^ 32 → l1_ok (k + n) q.1 q.2.
Proof.
  induction 1 as [p|n p p' q Hs _ IH]; intros k Hk Hn; [by rewrite Nat.add_0_r|].
  destruct p as [st c]. apply (l1_step_ok k) in Hs; [|done|lia].
  rewrite <-Nat.add_succ_comm in *. by apply IH.
Qed.

(** The node runs for [n] steps from a table without exit roots. *)
Definition l1_reachable (n : nat) (q : State * dbTx) : Prop :=
  ∃ s0 x0 s1 st0, pg_view s0 None = Some x0 ∧ t_exit_root x0 = [] ∧ newState s0 = (s1, Ret st0) ∧
    nsteps l1_step n (st0, None) q ∧ Z.of_nat n < 2 ^ 32.

Lemma l1_reachable_ok n q : l1_reachable n q → l1_ok n q.1 q.2.
Proof.
  intros (s0 & x0 & s1 & st0 & Hx0 & Hrows & Hnew & Hsteps & Hn).
  destruct (newState_ok s0 s1 st0) as (? & L0 & L' & Hx0' & Hs0 & Hp & Ht0 & <- & Hv0); [|done|].
  { intros y Hy. simplify_eq. rewrite Hrows. by exists []. }
  simplify_eq. pose proof Hs0 as Hs0'. rewrite Hrows in Hs0'. apply stored_hashes in Hs0' as <-.
  apply prefix_nil_inv in Hp as ->.
  apply (l1_steps_ok _ _ _ Hsteps 0); [|done].
  exists []. split_and!; [done|done|]. apply views_none. intros y Hy. simpl in Hy.
  rewrite Hv0 in Hy. simplify_eq. exists []. split; [split; [by left|done]|done].
Qed.

(** The tree has leaves that no connection reads. *)
Definition behind st (c : dbTx) : Prop :=
  ∃ L, tree_ok (st_l1InfoTree st) L ∧ zlen L < 2 ^ 32 ∧
    views (λ L', L' `prefix_of` L ∧ L' ≠ L) c (st_db st).

Lemma wp_behind leaf st t :
  behind st (Some t) →
  wpm False (AddL1InfoTreeLeaf leaf (Some t)) (λ _ _, False) (λ _ st', behind st' (Some t)) st.
Proof.
  intros (L & Ht & HL & Hv). apply wpm_bind, wpm_try, wpm_zoom, wpm_wrap.
  assert (∀ s' L', views (λ L', L' `prefix_of` L ∧ L' ≠ L) (Some t) s' → L' `prefix_of` L ∧ L' ≠ L →
    wpm False (add_entry (zlen L') leaf (Some t)) (λ _ _, False) (λ _ st', behind st' (Some t))
      (mkState s' (st_l1InfoTree st))) as Hadd.
  { intros s' L' Hs' [Hp Hne]. apply wpm_bind. unfold wpm, tree_AddLeaf.
    pose proof (tree_AddLeaf_spec _ _ _ (L1InfoTreeLeaf_Hash leaf) Ht (or_introl Hp) HL) as Ha.
    cbn [st_l1InfoTree]. destruct (AddLeaf _ _ _ _) as [tree' [root|e|]]; [by destruct Ha| |done].
    destruct Ha as (_ & -> & _). by exists L. }
  eapply wpm_mono; [by apply wp_GetLatestIndex|..]; cbn beta.
  - intros i s1 (Hv1 & x & L' & Hx & Hp & Hs & Hne & ->).
    replace ((zlen L' - 1) +₃₂ 1) with (zlen L'); [by apply Hadd|].
    destruct Hp as [Hp _]. apply prefix_length in Hp. unfold zlen in *.
    rewrite Z.sub_add, wrap32_small; [done|]. unfold in_u32. lia.
  - intros e s1 [Hv1 He]. assert (behind (mkState s1 (st_l1InfoTree st)) (Some t)) by by exists L.
    destruct e; try done. destruct (He eq_refl) as (x & Hx & Hp & Hs).
    change 0 with (zlen (A := Z) []). by apply Hadd.
Qed.

Lemma live_behind p q : l1_live p q → behind p.1 p.2 → behind q.1 q.2.
Proof.
  destruct p as [st c]. intros [(leaf & t & -> & ->)|[Htree HP]]%live_cases Hb; simpl in *.
  - pose proof (wp_behind leaf st t Hb) as Hw. unfold wpm in Hw.
    by destruct (AddL1InfoTreeLeaf _ _ _) as [st1 []].
  - destruct Hb as (L & Ht & HL & Hv). exists L. rewrite Htree. eauto.
Qed.

(** The state after the rollback of a transaction that added a leaf *)
Lemma rollback_behind n st t leaf st1 entry :
  l1_ok n st (Some t) → Z.of_nat n < 2 ^ 32 - 1 →
  AddL1InfoTreeLeaf leaf (Some t) st = (st1, Ret entry) →
  behind (mkState (Rollback t (st_db st1)).1 (st_l1InfoTree st1)) None.
Proof.
  intros (L & Ht & HL & Hv) Hn Hadd.
  pose proof (wpm_Ret _ _ _ _ _ _ _ (wp_AddL1InfoTreeLeaf leaf t st n L Ht HL ltac:(lia) Hv) Hadd)
    as (x & _ & _ & _ & _ & Ht1 & _ & Hpool).
  exists (L ++ [L1InfoTreeLeaf_Hash leaf]). split_and!; [done| |].
  { unfold zlen. rewrite length_app. simpl. lia. }
  unfold Rollback. cbn [st_db]. destruct (pg_Rollback (st_db st1) t) as [s2 e] eqn:Hr.
  apply pg_Rollback_view in Hr.
  assert (views (λ L', L' `prefix_of` L ++ [L1InfoTreeLeaf_Hash leaf] ∧
    L' ≠ L ++ [L1InfoTreeLeaf_Hash leaf]) None s2) as Hs2; [|by destruct e].
  apply views_none. intros y Hy. rewrite Hr in Hy.
  destruct (Hpool y Hy) as (L' & Hp & Hs). exists L'.
  split; [split; [by apply prefix_app_r|]|done]. intros ->. apply prefix_length in Hp.
  rewrite length_app in Hp. simpl in Hp. lia.
Qed.
End ok.

(** C5. Whatever transactions add leaves and exit roots to the database,
    whichever of their statements, commits and rollbacks fail, and whenever
    the node is restarted, the committed leaves of the L1 info tree are
    numbered from zero in the order of their insertion, and the root stored
    with each is the one [BuildL1InfoRoot] computes from the stored leaves up
    to it. *)
Theorem l1_info_roots_stored `{!GoEthereum, !Postgres Tables, !PostgresSpec Tables, !Keccak}
    n st c x i r :
  l1_reachable n (st, c) → pg_view (st_db st) None = Some x →
  filter is_leaf (t_exit_root x) !! i = Some r →
  er_l1_info_tree_index r = Some (Z.of_nat i) ∧
  ∃ root, er_l1_info_root r = Some root ∧
    BuildL1InfoRoot node_hash (st_l1InfoTree st)
      (L1InfoTreeLeaf_Hash ∘ row_leaf <$> take (S i) (filter is_leaf (t_exit_root x))) = Ret root.
Proof.
  intros Hreach Hx Hr. pose proof Hreach as (_ & _ & _ & _ & _ & _ & _ & _ & Hn).
  apply l1_reachable_ok in Hreach as (L & [Ht Hh] & HL & Hv). simpl in *.
  destruct (views_stored _ _ _ Hv None x (or_introl eq_refl) Hx) as (L' & [_ Hp] & Hs).
  pose proof (stored_lookup _ _ _ _ Hs Hr) as (Hi & Hl & Hroot). split.
  - apply list_elem_of_lookup_2, list_elem_of_filter in Hr as [[j Hj] _].
    unfold row_index in Hi. rewrite Hj in Hi |- *. simpl in Hi. congruence.
  - eexists. split; [exact Hroot|]. rewrite fmap_take, (stored_hashes _ _ Hs).
    destruct Ht as (Hz & _). rewrite (BuildL1InfoRoot_eq node_hash 0) by (done || lia).
    rewrite Hh, root_of_eq. rewrite decide_True; [done|].
    rewrite length_take. change (Z.of_nat 32) with 32. lia.
Qed.

(** C21. The tree in memory is not rolled back with the transaction: once a
    transaction that added a leaf has been rolled back, adding a leaf fails
    until the node is restarted. *)
Theorem l1_info_tree_stuck `{!GoEthereum, !Postgres Tables, !PostgresSpec Tables, !Keccak}
    n st t leaf st1 entry st2 t2 leaf' :
  l1_reachable n (st, Some t) → Z.of_nat n < 2 ^ 32 - 1 →
  AddL1InfoTreeLeaf leaf (Some t) st = (st1, Ret entry) →
  rtc l1_live (mkState (Rollback t (st_db st1)).1 (st_l1InfoTree st1), None) (st2, Some t2) →
  ∃ e, (AddL1InfoTreeLeaf leaf' (Some t2) st2).2 = Fail e.
Proof.
  intros Hreach Hn Hadd Hrun. apply l1_reachable_ok in Hreach.
  assert (behind st2 (Some t2)) as Hb.
  { change (behind (st2, Some t2).1 (st2, Some t2).2). revert Hrun. apply (rtc_ind_r (λ q, behind q.1 q.2)).
    - by eapply rollback_behind.
    - intros p q _ Hpq. by apply live_behind. }
  pose proof (wp_behind leaf' st2 t2 Hb) as Hw. unfold wpm in Hw.
  destruct (AddL1InfoTreeLeaf leaf' (Some t2) st2) as [st3 [e|e|]]; [done|by exists e|done].
Qed.

(** ** Concrete runs *)

Module L1InfoRun.
Export StoreRun.

(** A stand-in for the hash *)
#[export] Instance run_keccak : Keccak := λ b, split_digits 256 32 (foldr (λ x acc, x + 3 * acc) 1 b).

Definition leaf0 : L1InfoTreeLeaf :=
  mkL1InfoTreeLeaf (mkGlobalExitRoot 5 1000000000 11 12 13) 14.
Definition leaf1 : L1InfoTreeLeaf :=
  mkL1InfoTreeLeaf (mkGlobalExitRoot 5 2000000000 21 22 23) 24.

(** The node starts on the genesis tables. *)
Definition start : State :=
  match (newState (run_server [])).2 with
  | Ret st => st
  | _ => mkState (run_server []) (mkTree 0 [] 0 [] 0)
  end.

Lemma newState_start : newState (run_server []) = ((newState (run_server [])).1, Ret start).
Proof.
  assert (is_Ret (newState (run_server [])).2 = true) as Hr by (vm_compute; reflexivity).
  unfold start. by destruct (newState (run_server [])) as [s []].
Qed.

(** A transaction is begun, a leaf is added, and it is committed or rolled
    back. *)
Definition begin (st : State) : State :=
  mkState (BeginStateTransaction (st_db st)).1 (st_l1InfoTree st).
Definition leaf_added : State := (AddL1InfoTreeLeaf leaf0 (Some tx0) (begin start)).1.
Definition stored0 : State := mkState (Commit tx0 (st_db leaf_added)).1 (st_l1InfoTree leaf_added).
Definition lost0 : State := mkState (Rollback tx0 (st_db leaf_added)).1 (st_l1InfoTree leaf_added).
Definition tx1 : @PgTx Tables RefPostgres.ref_postgres := 1%nat.

Lemma begin_live st t :
  (BeginStateTransaction (st_db st)).2 = Ret t → l1_live (st, None) (begin st, Some t).
Proof.
  intros Hb. apply l1_begin. destruct (BeginStateTransaction (st_db st)) as [s' r].
  cbn [snd] in Hb. by rewrite Hb.
Qed.

Lemma reach_begun : l1_reachable 1 (begin start, Some tx0).
Proof.
  exists (run_server []), genesis_tables, (newState (run_server [])).1, start.
  split; [reflexivity|]. split; [reflexivity|]. split; [exact newState_start|].
  split; [|reflexivity]. apply nsteps_once, l1_run, begin_live. reflexivity.
Qed.

Lemma l1_info_roots_stored_witness :
  ∃ r root, filter is_leaf (t_exit_root (RefPostgres.committed (st_db stored0))) !! 0%nat = Some r ∧
    er_l1_info_root r = Some root ∧
    BuildL1InfoRoot node_hash (st_l1InfoTree stored0) (L1InfoTreeLeaf_Hash ∘ row_leaf <$>
      take 1 (filter is_leaf (t_exit_root (RefPostgres.committed (st_db stored0))))) = Ret root.
Proof.
  assert (bool_decide (filter is_leaf (t_exit_root (RefPostgres.committed (st_db stored0))) = [])
    = false) as Hne by (vm_compute; reflexivity).
  destruct (filter is_leaf (t_exit_root (RefPostgres.committed (st_db stored0))) !! 0%nat)
    as [r|] eqn:Hr.
  - destruct (l1_info_roots_stored 3 stored0 None (RefPostgres.committed (st_db stored0)) 0 r)
      as [_ (root & Hroot & Hb)]; [|reflexivity|exact Hr|].
    2: { exists r, root. split; [reflexivity|]. split; [exact Hroot|exact Hb]. }
    destruct reach_begun as (s0 & x0 & s1 & st0 & Hx & Hrows & Hnew & Hsteps & _).
    exists s0, x0, s1, st0. split; [exact Hx|]. split; [exact Hrows|]. split; [exact Hnew|].
    split; [|reflexivity].
    eapply nsteps_r; [|apply l1_run, (l1_commit leaf_added tx0)].
    unfold leaf_added. eapply nsteps_r; [exact Hsteps|].
    exact (l1_run _ _ (l1_leaf (begin start) tx0 leaf0)).
  - exfalso. destruct (filter is_leaf _) as [|r l]; [discriminate Hne|discriminate Hr].
Defined.

Lemma l1_info_tree_stuck_witness :
  is_Ret (AddL1InfoTreeLeaf leaf0 (Some tx0) (begin start)).2 = true ∧
  ∃ e, (AddL1InfoTreeLeaf leaf1 (Some tx1) (begin lost0)).2 = Fail e.
Proof.
  assert (is_Ret (AddL1InfoTreeLeaf leaf0 (Some tx0) (begin start)).2 = true) as Hr
    by (vm_compute; reflexivity).
  split; [exact Hr|].
  destruct (AddL1InfoTreeLeaf leaf0 (Some tx0) (begin start)) as [st1 [entry|e|]] eqn:Hadd; [|done..].
  apply (l1_info_tree_stuck 1 (begin start) tx0 leaf0 st1 entry).
  - exact reach_begun.
  - lia.
  - exact Hadd.
  - assert (st1 = leaf_added) as -> by (unfold leaf_added; by rewrite Hadd).
    apply rtc_once. change (l1_live (lost0, None) (begin lost0, Some tx1)). apply begin_live.
    reflexivity.
Defined.
End L1InfoRun.
