(* ===== verification/DataStream.v ===== *)
(** * The data stream of L2 blocks

    [state/datastream.go]: the entries of the stream and their encodings,
    [computeFullBatches], [GenerateDataStreamerFile], and the queries of
    [state/pgstatestorage/datastream.go] they read; [sendDataToStreamer] of
    [sequencer/sequencer.go].  The stream server is the data streamer
    library: a class of its methods, with what it documents as laws.  A hash
    or an address is a number, its bytes are the big-endian ones. *)

From S2P Require Import Prelude Digits Hex GoEthereum TxCodec BatchV2 NewTracker.
From S2P Require Import Resources TxTracker AddrQueue Worker ExecErrors ExecTypes GoMonad Postgres StateStore.

(** [common.BytesToHash] and [common.BigToHash] of go-ethereum *)
Class EthHash := {
  eth_BytesToHash : bytes → Z;
  eth_BigToHash : Z → Z
}.
Class EthHashLaws `{!EthHash} : Prop := {
  BytesToHash_32 bs : is_bytes bs → length bs = 32%nat → eth_BytesToHash bs = of_digits 256 bs
}.

(** ** Entries *)

Record DSL2Block := mkDSL2Block {
  db_BatchNumber : Z;
  db_L2BlockNumber : Z;
  db_Timestamp : Z;
  db_GlobalExitRoot : Z;
  db_Coinbase : Z;
  db_ForkID : Z;
  db_BlockHash : Z;
  db_StateRoot : Z
}.

Record DSL2BlockStart := mkDSL2BlockStart {
  ds_BatchNumber : Z;
  ds_L2BlockNumber : Z;
  ds_Timestamp : Z;
  ds_GlobalExitRoot : Z;
  ds_Coinbase : Z;
  ds_ForkID : Z
}.

Record DSL2Transaction := mkDSL2Transaction {
  dt_L2BlockNumber : Z;
  dt_EffectiveGasPricePercentage : Z;
  dt_IsValid : Z;
  dt_StateRoot : Z;
  dt_EncodedLength : Z;
  dt_Encoded : bytes
}.

Record DSL2BlockEnd := mkDSL2BlockEnd {
  de_L2BlockNumber : Z;
  de_BlockHash : Z;
  de_StateRoot : Z
}.

Record DSBookMark := mkDSBookMark { bm_Type : Z; bm_L2BlockNumber : Z }.

Record DSUpdateGER := mkDSUpdateGER {
  dg_BatchNumber : Z;
  dg_Timestamp : Z;
  dg_GlobalExitRoot : Z;
  dg_Coinbase : Z;
  dg_ForkID : Z;
  dg_StateRoot : Z
}.

Record DSBatch := mkDSBatch { dsb_Batch : StateBatch; dsb_ForkID : Z }.
Record DSL2FullBlock := mkDSL2FullBlock { fu_Block : DSL2Block; fu_Txs : list DSL2Transaction }.
Record DSFullBatch := mkDSFullBatch { fu_Batch : DSBatch; fu_L2Blocks : list DSL2FullBlock }.

(** ** Encodings *)

Abbreviation EntryTypeL2BlockStart := 1 (only parsing).
Abbreviation EntryTypeL2Tx := 2 (only parsing).
Abbreviation EntryTypeL2BlockEnd := 3 (only parsing).
Abbreviation EntryTypeUpdateGER := 4 (only parsing).
Abbreviation BookMarkTypeL2Block := 0 (only parsing).

(** [binary.LittleEndian]: [k] bytes, the least significant first *)
Definition le_Append (k : nat) (z : Z) : bytes := reverse (split_digits 256 k z).
Definition le_Uint (b : bytes) : Z := of_digits 256 (reverse b).
Definition hash_bytes (h : Z) : bytes := split_digits 256 32 h.
Definition addr_bytes (a : Z) : bytes := split_digits 256 20 a.

Definition DSL2BlockStart_Encode (b : DSL2BlockStart) : bytes :=
  le_Append 8 (ds_BatchNumber b) ++ le_Append 8 (ds_L2BlockNumber b) ++
  le_Append 8 (wrap64 (ds_Timestamp b)) ++ hash_bytes (ds_GlobalExitRoot b) ++
  addr_bytes (ds_Coinbase b) ++ le_Append 2 (ds_ForkID b).

Definition DSL2Transaction_Encode (l : DSL2Transaction) : bytes :=
  [dt_EffectiveGasPricePercentage l] ++ [dt_IsValid l] ++ hash_bytes (dt_StateRoot l) ++
  le_Append 4 (dt_EncodedLength l) ++ dt_Encoded l.

Definition DSL2BlockEnd_Encode (b : DSL2BlockEnd) : bytes :=
  le_Append 8 (de_L2BlockNumber b) ++ hash_bytes (de_BlockHash b) ++ hash_bytes (de_StateRoot b).

Definition DSBookMark_Encode (b : DSBookMark) : bytes :=
  [bm_Type b] ++ le_Append 8 (bm_L2BlockNumber b).

Definition DSUpdateGER_Encode (g : DSUpdateGER) : bytes :=
  le_Append 8 (dg_BatchNumber g) ++ le_Append 8 (wrap64 (dg_Timestamp g)) ++
  hash_bytes (dg_GlobalExitRoot g) ++ addr_bytes (dg_Coinbase g) ++ le_Append 2 (dg_ForkID g) ++
  hash_bytes (dg_StateRoot g).

(** ** Decodings: the fields are cut out of the data, which panics when it is
    too short. *)
Section decode.
Context `{!GoEthereum, !EthHash} {E : Type}.

Definition DSL2BlockStart_Decode (data : bytes) : GoRes E DSL2BlockStart :=
  batchNumber ← slice data 0 8;
  l2BlockNumber ← slice data 8 16;
  timestamp ← slice data 16 24;
  globalExitRoot ← slice data 24 56;
  coinbase ← slice data 56 76;
  forkID ← slice data 76 78;
  Ret (mkDSL2BlockStart (le_Uint batchNumber) (le_Uint l2BlockNumber)
         (to_int64 (le_Uint timestamp)) (eth_BytesToHash globalExitRoot)
         (BytesToAddress coinbase) (le_Uint forkID)).

(** The number of the block is not part of the entry: it stays as it was. *)
Definition DSL2Transaction_Decode (l : DSL2Transaction) (data : bytes) :
    GoRes E DSL2Transaction :=
  effectiveGasPricePercentage ← index data 0;
  isValid ← index data 1;
  stateRoot ← slice data 2 34;
  encodedLength ← slice data 34 38;
  encoded ← slice data 38 (zlen data);
  Ret (mkDSL2Transaction (dt_L2BlockNumber l) effectiveGasPricePercentage isValid
         (eth_BytesToHash stateRoot) (le_Uint encodedLength) encoded).

Definition DSL2BlockEnd_Decode (data : bytes) : GoRes E DSL2BlockEnd :=
  l2BlockNumber ← slice data 0 8;
  blockHash ← slice data 8 40;
  stateRoot ← slice data 40 72;
  Ret (mkDSL2BlockEnd (le_Uint l2BlockNumber) (eth_BytesToHash blockHash)
         (eth_BytesToHash stateRoot)).

Definition DSBookMark_Decode (data : bytes) : GoRes E DSBookMark :=
  type ← index data 0;
  l2BlockNumber ← slice data 1 9;
  Ret (mkDSBookMark type (le_Uint l2BlockNumber)).

Definition DSUpdateGER_Decode (data : bytes) : GoRes E DSUpdateGER :=
  batchNumber ← slice data 0 8;
  timestamp ← slice data 8 16;
  globalExitRoot ← slice data 16 48;
  coinbase ← slice data 48 68;
  forkID ← slice data 68 70;
  stateRoot ← slice data 70 102;
  Ret (mkDSUpdateGER (le_Uint batchNumber) (to_int64 (le_Uint timestamp))
         (eth_BytesToHash globalExitRoot) (BytesToAddress coinbase) (le_Uint forkID)
         (eth_BytesToHash stateRoot)).
End decode.

(** ** Grouping the rows of the database *)

(** The transactions of a block: the rows from [currentL2Tx] on, until one of
    a later block.  Returns the transactions and how many rows were taken. *)
Fixpoint block_txs (l2BlockNumber : Z) (rows : list DSL2Transaction) :
    list DSL2Transaction * nat :=
  match rows with
  | [] => ([], 0%nat)
  | l2Tx :: rows =>
      if l2BlockNumber <? dt_L2BlockNumber l2Tx then ([], 0%nat)
      else
        let '(txs, n) := block_txs l2BlockNumber rows in
        if dt_L2BlockNumber l2Tx =? l2BlockNumber then (l2Tx :: txs, S n) else (txs, n)
  end.

(** The blocks of a batch: the rows from [currentL2Block] on, until one of a
    later batch.  Returns the blocks, how many rows were taken, and the new
    [currentL2Tx]. *)
Fixpoint batch_blocks (batchNumber : Z) (rows : list DSL2Block) (l2Txs : list DSL2Transaction)
    (currentL2Tx : nat) : list DSL2FullBlock * nat * nat :=
  match rows with
  | [] => ([], 0%nat, currentL2Tx)
  | l2Block :: rows =>
      if db_BatchNumber l2Block =? batchNumber
      then
        let '(txs, n) := block_txs (db_L2BlockNumber l2Block) (drop currentL2Tx l2Txs) in
        let '(blocks, k, currentL2Tx) := batch_blocks batchNumber rows l2Txs (currentL2Tx + n) in
        (mkDSL2FullBlock l2Block txs :: blocks, S k, currentL2Tx)
      else if batchNumber <? db_BatchNumber l2Block then ([], 0%nat, currentL2Tx)
      else batch_blocks batchNumber rows l2Txs currentL2Tx
  end.

Fixpoint full_batches (batches : list DSBatch) (l2Blocks : list DSL2Block)
    (l2Txs : list DSL2Transaction) (currentL2Block currentL2Tx : nat) : list DSFullBatch :=
  match batches with
  | [] => []
  | batch :: batches =>
      let '(blocks, k, currentL2Tx) :=
        batch_blocks (sb_BatchNumber (dsb_Batch batch)) (drop currentL2Block l2Blocks) l2Txs
          currentL2Tx in
      mkDSFullBatch batch blocks ::
        full_batches batches l2Blocks l2Txs (currentL2Block + k) currentL2Tx
  end.

Definition computeFullBatches (batches : list DSBatch) (l2Blocks : list DSL2Block)
    (l2Txs : list DSL2Transaction) : list DSFullBatch :=
  full_batches batches l2Blocks l2Txs 0 0.

(** ** The stream server *)

Record Entry := mkEntry { en_Type : Z; en_Data : bytes }.

Class DataStreamer := {
  Stream : Type;
  EtBookmark : Z;
  ss_TotalEntries : Stream → Z;
  ss_GetEntry : Stream → Z → string + Entry;
  ss_GetFirstEventAfterBookmark : Stream → bytes → string + Entry;
  ss_StartAtomicOp : Stream → Stream * option string;
  ss_AddStreamBookmark : Stream → bytes → Stream * (string + Z);
  ss_AddStreamEntry : Stream → Z → bytes → Stream * (string + Z);
  ss_CommitAtomicOp : Stream → Stream * option string;
  ss_RollbackAtomicOp : Stream → Stream * option string
}.

(** [ss_entries] is what the clients of the stream can read, [ss_pending] the
    entries of the operation that was started. *)
Class DataStreamerSpec `{!DataStreamer} := {
  ss_entries : Stream → list Entry;
  ss_pending : Stream → option (list Entry);
  ss_Total_ok s : ss_TotalEntries s = zlen (ss_entries s);
  ss_Start_ok s s' : ss_StartAtomicOp s = (s', None) →
    ss_entries s' = ss_entries s ∧ ss_pending s' = Some [];
  ss_Start_err s s' e : ss_StartAtomicOp s = (s', Some e) →
    ss_entries s' = ss_entries s ∧ ss_pending s' = ss_pending s;
  ss_Bookmark_ok s s' d n : ss_AddStreamBookmark s d = (s', inr n) →
    ss_entries s' = ss_entries s ∧
    ∃ p, ss_pending s = Some p ∧ ss_pending s' = Some (p ++ [mkEntry EtBookmark d]);
  ss_Bookmark_err s s' d e : ss_AddStreamBookmark s d = (s', inl e) →
    ss_entries s' = ss_entries s ∧ ss_pending s' = ss_pending s;
  ss_Entry_ok s s' t d n : ss_AddStreamEntry s t d = (s', inr n) →
    ss_entries s' = ss_entries s ∧
    ∃ p, ss_pending s = Some p ∧ ss_pending s' = Some (p ++ [mkEntry t d]);
  ss_Entry_err s s' t d e : ss_AddStreamEntry s t d = (s', inl e) →
    ss_entries s' = ss_entries s ∧ ss_pending s' = ss_pending s;
  ss_Commit_ok s s' : ss_CommitAtomicOp s = (s', None) →
    ∃ p, ss_pending s = Some p ∧ ss_entries s' = ss_entries s ++ p ∧ ss_pending s' = None;
  ss_Commit_err s s' e : ss_CommitAtomicOp s = (s', Some e) →
    ss_entries s' = ss_entries s ∧ ss_pending s' = ss_pending s;
  ss_Rollback_any s s' e : ss_RollbackAtomicOp s = (s', e) →
    ss_entries s' = ss_entries s ∧ ss_pending s' = None
}.

Inductive DSErr :=
  | DSStream (e : string)
  | DSStateNotSynchronized
  | DSState (e : string).

(** The interface [DSState] *)
Class DSStateI := {
  GetDSGenesisBlock : DSErr + DSL2Block;
  GetDSBatches : Z → Z → bool → DSErr + list DSBatch;
  GetDSL2Blocks : Z → Z → DSErr + list DSL2Block;
  GetDSL2Transactions : Z → Z → DSErr + list DSL2Transaction;
  ds_GetStorageAt : Z → Z → Z → DSErr + Z
}.

(** The rows of the queries of [pgstatestorage], in the order in which the
    database returns them; a batch comes with whether its state root is set.
    The blocks and the transactions are ordered by the number of the block, the
    query of the batches has no [ORDER BY]. *)
Record DSRows := mkDSRows {
  row_genesis : option DSL2Block;
  row_batches : list (DSBatch * bool);
  row_blocks : list DSL2Block;
  row_txs : list DSL2Transaction
}.

(** What becomes of a query: all rows are read, the connection is lost after
    [k] of them, or the query, or the scan of a row, reports an error.  No
    query looks at [rows.Err()] after its loop over [rows.Next()]: rows that
    were cut are returned without an error. *)
Inductive RowsOutcome :=
  | AllRows
  | CutAfter (k : nat)
  | QueryFails (e : string).

Definition fetch {A} (o : RowsOutcome) (l : list A) : DSErr + list A :=
  match o with
  | AllRows => inr l
  | CutAfter k => inr (take k l)
  | QueryFails e => inl (DSState e)
  end.

(** The outcome of each query, by the bounds it is called with *)
Record DSFaults := mkDSFaults {
  df_genesis : option string;
  df_batches : Z → Z → RowsOutcome;
  df_blocks : Z → Z → RowsOutcome;
  df_txs : Z → Z → RowsOutcome
}.

Definition pg_DSState (rows : DSRows) (faults : DSFaults) (storage : Z → Z → Z → DSErr + Z) :
    DSStateI := {|
  GetDSGenesisBlock := match df_genesis faults, row_genesis rows with
                       | Some e, _ => inl (DSState e)
                       | None, Some b => inr b
                       | None, None => inl (DSState "no rows in result set")
                       end;
  GetDSBatches firstBatchNumber lastBatchNumber readWIPBatch :=
    fetch (df_batches faults firstBatchNumber lastBatchNumber)
      (fst <$> filter (λ r,
        firstBatchNumber ≤ sb_BatchNumber (dsb_Batch r.1) ≤ lastBatchNumber ∧
        readWIPBatch || r.2) (row_batches rows));
  GetDSL2Blocks firstBatchNumber lastBatchNumber :=
    fetch (df_blocks faults firstBatchNumber lastBatchNumber)
      (filter (λ b, firstBatchNumber ≤ db_BatchNumber b ≤ lastBatchNumber) (row_blocks rows));
  GetDSL2Transactions firstL2Block lastL2Block :=
    fetch (df_txs faults firstL2Block lastL2Block)
      (filter (λ t, firstL2Block ≤ dt_L2BlockNumber t ≤ lastL2Block) (row_txs rows));
  ds_GetStorageAt := storage
|}.

(** ** Writing the stream *)

Abbreviation StreamM := (GoM Stream DSErr).

Section stream.
Context `{!EthHash, !DataStreamer}.

Definition ss_call (m : Stream → Stream * option string) : StreamM () := λ s,
  match m s with
  | (s, None) => (s, Ret tt)
  | (s, Some e) => (s, Fail (DSStream e))
  end.
Definition ss_add (m : Stream → Stream * (string + Z)) : StreamM () := λ s,
  match m s with
  | (s, inr _) => (s, Ret tt)
  | (s, inl e) => (s, Fail (DSStream e))
  end.
Definition StartAtomicOp : StreamM () := ss_call ss_StartAtomicOp.
Definition CommitAtomicOp : StreamM () := ss_call ss_CommitAtomicOp.
Definition AddStreamEntry (t : Z) (d : bytes) : StreamM () := ss_add (λ s, ss_AddStreamEntry s t d).
Definition AddStreamBookmark (d : bytes) : StreamM () := ss_add (λ s, ss_AddStreamBookmark s d).
Definition ds_call {A} (r : DSErr + A) : StreamM A :=
  match r with inl e => fail e | inr a => mret a end.

Definition block_start (b : DSL2Block) : DSL2BlockStart :=
  mkDSL2BlockStart (db_BatchNumber b) (db_L2BlockNumber b) (db_Timestamp b) (db_GlobalExitRoot b)
    (db_Coinbase b) (db_ForkID b).
Definition block_end (b : DSL2Block) : DSL2BlockEnd :=
  mkDSL2BlockEnd (db_L2BlockNumber b) (db_BlockHash b) (db_StateRoot b).
Definition block_mark (b : DSL2Block) : DSBookMark :=
  mkDSBookMark BookMarkTypeL2Block (db_L2BlockNumber b).
Definition with_root (t : DSL2Transaction) (root : Z) : DSL2Transaction :=
  mkDSL2Transaction (dt_L2BlockNumber t) (dt_EffectiveGasPricePercentage t) (dt_IsValid t) root
    (dt_EncodedLength t) (dt_Encoded t).
End stream.

Section generate.
Context `{!EthHash, !DataStreamer, !DSStateI} (keccak256_Hash : bytes → bytes).

(** The number of the block and the constant 1, both in 32 bytes *)
Definition GetSystemSCPosition (blockNumber : Z) : bytes :=
  let pad (v : bytes) := replicate (32 - length v) 0 ++ v in
  keccak256_Hash (pad (digits 256 blockNumber) ++ pad (digits 256 1)).

Definition SystemSC : Z := 0x5ca1ab1e.

(** The intermediate root of the transactions of a block: from the map that
    was given, or from the storage of the system contract *)
Definition tx_root (imStateRoots : option (gmap Z bytes)) (b : DSL2Block) : DSErr + Z :=
  match m ← imStateRoots; m !! db_L2BlockNumber b with
  | Some root => inr (eth_BytesToHash root)
  | None =>
      match ds_GetStorageAt SystemSC (of_digits 256 (GetSystemSCPosition (db_L2BlockNumber b)))
              (db_StateRoot b) with
      | inl e => inl e
      | inr imStateRoot => inr (eth_BigToHash imStateRoot)
      end
  end.

Definition stream_block (imStateRoots : option (gmap Z bytes)) (b : DSL2FullBlock) : StreamM () :=
  AddStreamBookmark (DSBookMark_Encode (block_mark (fu_Block b))) ;;
  AddStreamEntry EntryTypeL2BlockStart (DSL2BlockStart_Encode (block_start (fu_Block b))) ;;
  for_each (fu_Txs b) (λ tx,
    root ← ds_call (tx_root imStateRoots (fu_Block b));
    AddStreamEntry EntryTypeL2Tx (DSL2Transaction_Encode (with_root tx root))) ;;
  AddStreamEntry EntryTypeL2BlockEnd (DSL2BlockEnd_Encode (block_end (fu_Block b))).

Definition update_ger (b : DSBatch) : DSUpdateGER :=
  mkDSUpdateGER (sb_BatchNumber (dsb_Batch b)) (Unix (sb_Timestamp (dsb_Batch b)))
    (sb_GlobalExitRoot (dsb_Batch b)) (sb_Coinbase (dsb_Batch b)) (dsb_ForkID b)
    (sb_StateRoot (dsb_Batch b)).

(** One batch: its blocks, or the update of the exit root of an empty one.
    Returns the new [currentGER]. *)
Definition stream_batch (imStateRoots : option (gmap Z bytes)) (currentGER : Z)
    (batch : DSFullBatch) : StreamM Z :=
  let ger := sb_GlobalExitRoot (dsb_Batch (fu_Batch batch)) in
  match fu_L2Blocks batch with
  | [] =>
      if decide (ger ≠ currentGER ∧ ger ≠ 0)
      then
        StartAtomicOp ;;
        AddStreamEntry EntryTypeUpdateGER (DSUpdateGER_Encode (update_ger (fu_Batch batch))) ;;
        CommitAtomicOp ;;
        mret ger
      else mret currentGER
  | blocks =>
      StartAtomicOp ;;
      for_each blocks (stream_block imStateRoots) ;;
      CommitAtomicOp ;;
      mret (default currentGER (db_GlobalExitRoot ∘ fu_Block <$> last blocks))
  end.

Fixpoint stream_batches (imStateRoots : option (gmap Z bytes)) (currentGER : Z)
    (batches : list DSFullBatch) : StreamM Z :=
  match batches with
  | [] => mret currentGER
  | batch :: batches =>
      currentGER ← stream_batch imStateRoots currentGER batch;
      stream_batches imStateRoots currentGER batches
  end.

Abbreviation limit := 10000 (only parsing).

(** The rows of one round; [None] ends the loop. *)
Definition next_batches (readWIPBatch : bool) (currentBatchNumber : Z) :
    DSErr + option (list DSFullBatch) :=
  match GetDSBatches currentBatchNumber (currentBatchNumber +₆₄ limit) readWIPBatch with
  | inl DSStateNotSynchronized => inr None
  | inl e => inl e
  | inr [] => inr None
  | inr ((b0 :: _) as batches) =>
      let bl := default b0 (last batches) in
      match GetDSL2Blocks (sb_BatchNumber (dsb_Batch b0)) (sb_BatchNumber (dsb_Batch bl)) with
      | inl e => inl e
      | inr [] => inr (Some (computeFullBatches batches [] []))
      | inr ((k0 :: _) as l2Blocks) =>
          let kl := default k0 (last l2Blocks) in
          match GetDSL2Transactions (db_L2BlockNumber k0) (db_L2BlockNumber kl) with
          | inl e => inl e
          | inr l2Txs => inr (Some (computeFullBatches batches l2Blocks l2Txs))
          end
      end
  end.

(** [None] is a loop that has not ended after [fuel] rounds. *)
Fixpoint generate_loop (readWIPBatch : bool) (imStateRoots : option (gmap Z bytes)) (fuel : nat)
    (currentBatchNumber currentGER : Z) (s : Stream) : option (Stream * GoRes DSErr ()) :=
  match fuel with
  | O => None
  | S fuel =>
      match next_batches readWIPBatch currentBatchNumber with
      | inl e => Some (s, Fail e)
      | inr None => Some (s, Ret tt)
      | inr (Some fullBatches) =>
          match stream_batches imStateRoots currentGER fullBatches s with
          | (s, Ret currentGER) =>
              generate_loop readWIPBatch imStateRoots fuel (currentBatchNumber +₆₄ limit)
                currentGER s
          | (s, Fail e) => Some (s, Fail e)
          | (s, Panic) => Some (s, Panic)
          end
      end
  end.

(** The number in the first eight bytes of an entry *)
Definition entry_number (e : Entry) : GoRes DSErr Z := le_Uint <$> slice (en_Data e) 0 8.

(** An empty stream gets the genesis block; otherwise the batch of the latest
    entry is found. *)
Definition stream_position : StreamM Z := λ s,
  (if decide (ss_TotalEntries s = 0)
   then
     genesisL2Block ← ds_call GetDSGenesisBlock;
     StartAtomicOp ;;
     AddStreamBookmark (DSBookMark_Encode (block_mark genesisL2Block)) ;;
     AddStreamEntry 1 (DSL2BlockStart_Encode (block_start genesisL2Block)) ;;
     AddStreamEntry EntryTypeL2BlockEnd (DSL2BlockEnd_Encode (block_end genesisL2Block)) ;;
     CommitAtomicOp ;;
     mret 0
   else
     latestEntry ← ds_call (sum_map DSStream id (ss_GetEntry s (ss_TotalEntries s - 1)));
     if decide (en_Type latestEntry = EntryTypeUpdateGER)
     then lift (entry_number latestEntry)
     else if decide (en_Type latestEntry = EntryTypeL2BlockEnd)
     then
       currentL2Block ← lift (entry_number latestEntry);
       firstEntry ← ds_call (sum_map DSStream id (ss_GetFirstEventAfterBookmark s
         (DSBookMark_Encode (mkDSBookMark BookMarkTypeL2Block currentL2Block))));
       lift (entry_number firstEntry)
     else mret 0) s.

Definition GenerateDataStreamerFile (readWIPBatch : bool) (imStateRoots : option (gmap Z bytes))
    (fuel : nat) (s : Stream) : option (Stream * GoRes DSErr ()) :=
  match stream_position s with
  | (s, Ret currentBatchNumber) =>
      generate_loop readWIPBatch imStateRoots fuel (currentBatchNumber +₆₄ 1) 0 s
  | (s, Fail e) => Some (s, Fail e)
  | (s, Panic) => Some (s, Panic)
  end.
End generate.

(** ** Streaming the blocks of the sequencer *)

Section send.
Context `{!DataStreamer}.

(** An error of a transaction is logged and the next one is sent. *)
Definition send_block (b : DSL2FullBlock) : StreamM () :=
  StartAtomicOp ;;
  AddStreamBookmark (DSBookMark_Encode (block_mark (fu_Block b))) ;;
  AddStreamEntry EntryTypeL2BlockStart (DSL2BlockStart_Encode (block_start (fu_Block b))) ;;
  for_each (fu_Txs b) (λ tx,
    try (AddStreamEntry EntryTypeL2Tx (DSL2Transaction_Encode tx)) ;; mret tt) ;;
  AddStreamEntry EntryTypeL2BlockEnd (DSL2BlockEnd_Encode (block_end (fu_Block b))) ;;
  CommitAtomicOp.

(** The stream, whether the pointer to its server was set to nil, and the
    error of the previous round *)
Record Sender := mkSender { sn_stream : Stream; sn_nil : bool; sn_err : option DSErr }.

(** One round of [sendDataToStreamer] *)
Definition sendDataToStreamer (b : DSL2FullBlock) (st : Sender) : GoRes Empty_set Sender :=
  st ← match sn_err st with
       | None => Ret st
       | Some _ =>
           if sn_nil st then Panic
           else let '(s, e) := ss_RollbackAtomicOp (sn_stream st) in
                Ret (mkSender s true (DSStream <$> e))
       end;
  if sn_nil st then Ret st
  else match send_block b (sn_stream st) with
       | (s, Ret _) => Ret (mkSender s false None)
       | (s, Fail e) => Ret (mkSender s false (Some e))
       | (_, Panic) => Panic
       end.
End send.

(** ** A stream in memory

    [rs_faults] says which of the next operations fail. *)
Module RefStream.
Record ref_stream := mkRefStream {
  rs_entries : list Entry;
  rs_pending : option (list Entry);
  rs_faults : list bool
}.

Definition rs_next (s : ref_stream) : bool * ref_stream :=
  match rs_faults s with
  | [] => (false, s)
  | b :: bs => (b, mkRefStream (rs_entries s) (rs_pending s) bs)
  end.

Definition rs_start (s : ref_stream) : ref_stream * option string :=
  let '(fault, s) := rs_next s in
  if fault : bool then (s, Some "fault") else (mkRefStream (rs_entries s) (Some []) (rs_faults s), None).

Definition rs_add (t : Z) (d : bytes) (s : ref_stream) : ref_stream * (string + Z) :=
  let '(fault, s) := rs_next s in
  match fault, rs_pending s with
  | false, Some p => (mkRefStream (rs_entries s) (Some (p ++ [mkEntry t d])) (rs_faults s),
                      inr (zlen (rs_entries s) + zlen p))
  | _, _ => (s, inl "fault")
  end.

Definition rs_commit (s : ref_stream) : ref_stream * option string :=
  let '(fault, s) := rs_next s in
  match fault, rs_pending s with
  | false, Some p => (mkRefStream (rs_entries s ++ p) None (rs_faults s), None)
  | _, _ => (s, Some "fault")
  end.

(** The first entry after the last bookmark with these bytes *)
Fixpoint rs_after (t : Z) (d : bytes) (l : list Entry) (found : option Entry) : option Entry :=
  match l with
  | [] => found
  | e :: l =>
      if decide (en_Type e = t ∧ en_Data e = d)
      then rs_after t d l (match l with e' :: _ => Some e' | [] => found end)
      else rs_after t d l found
  end.

Definition or_missing (e : option Entry) : string + Entry :=
  match e with Some e => inr e | None => inl "not found" end.

#[export] Instance ref_streamer : DataStreamer := {|
  Stream := ref_stream;
  EtBookmark := 176;
  ss_TotalEntries s := zlen (rs_entries s);
  ss_GetEntry s n := or_missing (if 0 <=? n then rs_entries s !! Z.to_nat n else None);
  ss_GetFirstEventAfterBookmark s d := or_missing (rs_after 176 d (rs_entries s) None);
  ss_StartAtomicOp := rs_start;
  ss_AddStreamBookmark s d := rs_add 176 d s;
  ss_AddStreamEntry s t d := rs_add t d s;
  ss_CommitAtomicOp := rs_commit;
  ss_RollbackAtomicOp s := (mkRefStream (rs_entries s) None (rs_faults s), None)
|}.

Lemma rs_next_spec s b s' : rs_next s = (b, s') →
  rs_entries s' = rs_entries s ∧ rs_pending s' = rs_pending s.
Proof. unfold rs_next. destruct (rs_faults s); by intros [= <- <-]. Qed.

Ltac rs_solve :=
  cbn [Stream EtBookmark ss_StartAtomicOp ss_AddStreamBookmark ss_AddStreamEntry ss_CommitAtomicOp
       ss_RollbackAtomicOp ref_streamer]; unfold rs_start, rs_add, rs_commit; intros;
  repeat match goal with
  | H : context [rs_next ?s] |- _ =>
      let Hn := fresh in destruct (rs_next s) as [[] ?] eqn:Hn; apply rs_next_spec in Hn as [? ?]
  | H : context [match ?x with _ => _ end] |- _ => destruct x eqn:?; simplify_eq
  end; simplify_eq/=; try (split; congruence).

#[export] Instance ref_stream_spec : DataStreamerSpec.
Proof.
  refine {| ss_entries := (rs_entries : @Stream ref_streamer → _);
            ss_pending := (rs_pending : @Stream ref_streamer → _) |}; [done|..]; rs_solve.
  - split; [congruence|]. eexists. split; [by etrans|done].
  - split; [congruence|]. eexists. split; [by etrans|done].
  - eexists. split_and!; [by etrans|congruence|done].
Defined.
End RefStream.
