(* ===== verification/StreamOk.v ===== *)
(** * What the data stream holds

    The entries decode to what was encoded; the rows of the database are
    grouped by batch and block; the file is written one whole batch at a time,
    and what it holds is the concatenation of the rounds. *)

From S2P Require Import Prelude Digits Hex GoEthereum TxCodec BatchV2 NewTracker.
From S2P Require Import Resources TxTracker AddrQueue Worker ExecErrors ExecTypes GoMonad Postgres StateStore.
From S2P Require Import DataStream.

(** ** Round trips *)

Definition is_hash (h : Z) : Prop := 0 ≤ h < 2 ^ 256.
Definition is_addr (a : Z) : Prop := 0 ≤ a < 2 ^ 160.
Definition in_u16 (z : Z) : Prop := 0 ≤ z < 2 ^ 16.
Definition in_i64 (z : Z) : Prop := - 2 ^ 63 ≤ z < 2 ^ 63.
Definition in_byte (z : Z) : Prop := 0 ≤ z < 256.

Record start_ok (b : DSL2BlockStart) : Prop := {
  so_batch : in_u64 (ds_BatchNumber b);
  so_block : in_u64 (ds_L2BlockNumber b);
  so_time : in_i64 (ds_Timestamp b);
  so_ger : is_hash (ds_GlobalExitRoot b);
  so_coinbase : is_addr (ds_Coinbase b);
  so_fork : in_u16 (ds_ForkID b)
}.
Record tx_ok (t : DSL2Transaction) : Prop := {
  to_pct : in_byte (dt_EffectiveGasPricePercentage t);
  to_valid : in_byte (dt_IsValid t);
  to_root : is_hash (dt_StateRoot t);
  to_len : in_u32 (dt_EncodedLength t)
}.
Record end_ok (b : DSL2BlockEnd) : Prop := {
  eo_block : in_u64 (de_L2BlockNumber b);
  eo_hash : is_hash (de_BlockHash b);
  eo_root : is_hash (de_StateRoot b)
}.
Record ger_ok (g : DSUpdateGER) : Prop := {
  go_batch : in_u64 (dg_BatchNumber g);
  go_time : in_i64 (dg_Timestamp g);
  go_ger : is_hash (dg_GlobalExitRoot g);
  go_coinbase : is_addr (dg_Coinbase g);
  go_fork : in_u16 (dg_ForkID g);
  go_root : is_hash (dg_StateRoot g)
}.

Lemma le_roundtrip k z : 0 ≤ z < 256 ^ Z.of_nat k → le_Uint (le_Append k z) = z.
Proof.
  intros Hz. unfold le_Uint, le_Append. rewrite reverse_involutive, of_split_digits by lia.
  by apply Z.mod_small.
Qed.

Lemma length_le k z : length (le_Append k z) = k.
Proof. unfold le_Append. rewrite length_reverse. apply length_split_digits. Qed.

Lemma int64_roundtrip t : in_i64 t → to_int64 (wrap64 t) = t.
Proof.
  unfold in_i64, to_int64, wrap64. intros Ht. destruct (Z.ltb_spec (t mod 2 ^ 64) (2 ^ 63)).
  all: pose proof (Z.div_mod t (2 ^ 64)); pose proof (Z.mod_pos_bound t (2 ^ 64)); nia.
Qed.

Section roundtrip.
Context `{!GoEthereum, !GoEthereumLaws, !EthHash, !EthHashLaws} {E : Type}.

Lemma hash_roundtrip h : is_hash h → eth_BytesToHash (hash_bytes h) = h.
Proof.
  intros Hh. unfold hash_bytes. rewrite BytesToHash_32.
  - rewrite of_split_digits by lia. by apply Z.mod_small.
  - apply split_digits_is_digits. lia.
  - apply length_split_digits.
Qed.

Lemma addr_roundtrip a : is_addr a → BytesToAddress (addr_bytes a) = a.
Proof.
  intros Ha. unfold addr_bytes. rewrite BytesToAddress_20.
  - rewrite of_split_digits by lia. by apply Z.mod_small.
  - apply split_digits_is_digits. lia.
  - apply length_split_digits.
Qed.

Lemma length_hash h : length (hash_bytes h) = 32%nat.
Proof. apply length_split_digits. Qed.
Lemma length_addr a : length (addr_bytes a) = 20%nat.
Proof. apply length_split_digits. Qed.

(** Cuts the field [l2] out of an encoding. *)
Ltac cut_field l1 l2 l3 :=
  match goal with |- mbind _ (@slice ?E ?A ?s ?a ?b) = _ =>
    rewrite (@slice_at E A l1 l2 l3 s a b) end;
    [go_bind
    |cbn [app]; rewrite <-?app_assoc, ?app_nil_r; done
    |repeat match goal with x := _ |- _ => subst x end;
     rewrite ?length_app, ?length_le, ?length_hash, ?length_addr; cbn [length]; lia..].
Ltac fields :=
  rewrite ?le_roundtrip, ?int64_roundtrip, ?hash_roundtrip, ?addr_roundtrip; try done.

Lemma start_roundtrip b : start_ok b →
  DSL2BlockStart_Decode (E := E) (DSL2BlockStart_Encode b) = Ret b.
Proof.
  intros []. unfold DSL2BlockStart_Decode, DSL2BlockStart_Encode.
  set (f1 := le_Append 8 (ds_BatchNumber b)). set (f2 := le_Append 8 (ds_L2BlockNumber b)).
  set (f3 := le_Append 8 (wrap64 (ds_Timestamp b))). set (f4 := hash_bytes (ds_GlobalExitRoot b)).
  set (f5 := addr_bytes (ds_Coinbase b)). set (f6 := le_Append 2 (ds_ForkID b)).
  cut_field (@nil Z) f1 (f2 ++ f3 ++ f4 ++ f5 ++ f6).
  cut_field f1 f2 (f3 ++ f4 ++ f5 ++ f6).
  cut_field (f1 ++ f2) f3 (f4 ++ f5 ++ f6).
  cut_field (f1 ++ f2 ++ f3) f4 (f5 ++ f6).
  cut_field (f1 ++ f2 ++ f3 ++ f4) f5 f6.
  cut_field (f1 ++ f2 ++ f3 ++ f4 ++ f5) f6 (@nil Z).
  subst f1 f2 f3 f4 f5 f6. fields; [by destruct b|apply wrap64_range].
Qed.

Lemma end_roundtrip b : end_ok b → DSL2BlockEnd_Decode (E := E) (DSL2BlockEnd_Encode b) = Ret b.
Proof.
  intros []. unfold DSL2BlockEnd_Decode, DSL2BlockEnd_Encode.
  set (f1 := le_Append 8 (de_L2BlockNumber b)). set (f2 := hash_bytes (de_BlockHash b)).
  set (f3 := hash_bytes (de_StateRoot b)).
  cut_field (@nil Z) f1 (f2 ++ f3). cut_field f1 f2 f3. cut_field (f1 ++ f2) f3 (@nil Z).
  subst f1 f2 f3. fields. by destruct b.
Qed.

Lemma ger_roundtrip g : ger_ok g → DSUpdateGER_Decode (E := E) (DSUpdateGER_Encode g) = Ret g.
Proof.
  intros []. unfold DSUpdateGER_Decode, DSUpdateGER_Encode.
  set (f1 := le_Append 8 (dg_BatchNumber g)). set (f2 := le_Append 8 (wrap64 (dg_Timestamp g))).
  set (f3 := hash_bytes (dg_GlobalExitRoot g)). set (f4 := addr_bytes (dg_Coinbase g)).
  set (f5 := le_Append 2 (dg_ForkID g)). set (f6 := hash_bytes (dg_StateRoot g)).
  cut_field (@nil Z) f1 (f2 ++ f3 ++ f4 ++ f5 ++ f6).
  cut_field f1 f2 (f3 ++ f4 ++ f5 ++ f6).
  cut_field (f1 ++ f2) f3 (f4 ++ f5 ++ f6).
  cut_field (f1 ++ f2 ++ f3) f4 (f5 ++ f6).
  cut_field (f1 ++ f2 ++ f3 ++ f4) f5 f6.
  cut_field (f1 ++ f2 ++ f3 ++ f4 ++ f5) f6 (@nil Z).
  subst f1 f2 f3 f4 f5 f6. fields; [by destruct g|apply wrap64_range].
Qed.

Lemma tx_roundtrip n t : tx_ok t →
  DSL2Transaction_Decode (E := E) n (DSL2Transaction_Encode t)
  = Ret (mkDSL2Transaction (dt_L2BlockNumber n) (dt_EffectiveGasPricePercentage t) (dt_IsValid t)
           (dt_StateRoot t) (dt_EncodedLength t) (dt_Encoded t)).
Proof.
  intros []. unfold DSL2Transaction_Decode, DSL2Transaction_Encode.
  set (pct := dt_EffectiveGasPricePercentage t). set (iv := dt_IsValid t).
  set (f1 := hash_bytes (dt_StateRoot t)). set (f2 := le_Append 4 (dt_EncodedLength t)).
  set (enc := dt_Encoded t). cbn [app].
  change (index (pct :: iv :: f1 ++ f2 ++ enc) 0) with (Ret (E := E) pct). go_bind.
  change (index (pct :: iv :: f1 ++ f2 ++ enc) 1) with (Ret (E := E) iv). go_bind.
  cut_field [pct; iv] f1 (f2 ++ enc). cut_field ([pct; iv] ++ f1) f2 enc.
  unfold zlen. rewrite (slice_at ([pct; iv] ++ f1 ++ f2) enc (@nil Z)).
  - go_bind. subst f1 f2. fields.
  - cbn [app]. by rewrite app_nil_r, <-!app_assoc.
  - subst f1 f2. rewrite !length_app, length_hash, length_le. done.
  - subst f1 f2. cbn [length]. rewrite !length_app, length_hash, length_le. lia.
Qed.

Lemma mark_roundtrip b : in_u64 (bm_L2BlockNumber b) →
  DSBookMark_Decode (E := E) (DSBookMark_Encode b) = Ret b.
Proof.
  intros Hn. unfold DSBookMark_Decode, DSBookMark_Encode. cbn [app].
  set (f1 := le_Append 8 (bm_L2BlockNumber b)). set (ty := bm_Type b).
  change (index (ty :: f1) 0) with (Ret (E := E) ty). go_bind.
  cut_field [ty] f1 (@nil Z). subst f1. fields. by destruct b.
Qed.
End roundtrip.

(** Every entry of the stream is read back as it was written: the start
    and the end of a block, a transaction, a bookmark, an update of the exit
    root.  The number of the block of a transaction is not part of it. *)
Theorem entries_roundtrip `{!GoEthereum, !GoEthereumLaws, !EthHash, !EthHashLaws} {E : Type} :
  (∀ b, start_ok b → DSL2BlockStart_Decode (E := E) (DSL2BlockStart_Encode b) = Ret b) ∧
  (∀ b, end_ok b → DSL2BlockEnd_Decode (E := E) (DSL2BlockEnd_Encode b) = Ret b) ∧
  (∀ g, ger_ok g → DSUpdateGER_Decode (E := E) (DSUpdateGER_Encode g) = Ret g) ∧
  (∀ b, in_u64 (bm_L2BlockNumber b) → DSBookMark_Decode (E := E) (DSBookMark_Encode b) = Ret b) ∧
  (∀ n t, tx_ok t → dt_L2BlockNumber n = dt_L2BlockNumber t →
     DSL2Transaction_Decode (E := E) n (DSL2Transaction_Encode t) = Ret t).
Proof.
  split_and!; [apply start_roundtrip|apply end_roundtrip|apply ger_roundtrip|apply mark_roundtrip|].
  intros n t Ht Hn. rewrite tx_roundtrip, Hn by done. by destruct t.
Qed.

(** ** Grouping *)

(** A list sorted by a key, of which a prefix has been read *)
Section window.
Context {A : Type} (key : A → Z).
Abbreviation by_key := (StronglySorted (λ x y, key x ≤ key y)).

Lemma filter_none (P : A → Prop) `{∀ x, Decision (P x)} l :
  (∀ x, x ∈ l → ¬ P x) → filter P l = [].
Proof.
  induction l as [|x l IH]; intros Hl; [done|].
  rewrite filter_cons_False by (apply Hl; left). apply IH. intros y Hy. apply Hl. by right.
Qed.

Lemma window_filter l cur m :
  (∀ x, x ∈ take cur l → key x < m) →
  filter (λ x, key x = m) (drop cur l) = filter (λ x, key x = m) l.
Proof.
  intros Ht. rewrite <-(take_drop cur l) at 2. rewrite filter_app.
  rewrite (filter_none _ (take cur l)); [done|]. intros x Hx. specialize (Ht x Hx). lia.
Qed.

(** As many elements as have the key [m] are read: none is beyond [m]. *)
Lemma window_taken l m x :
  by_key l → x ∈ take (length (filter (λ x, key x = m) l)) l → key x ≤ m.
Proof.
  induction 1 as [|y l Hs IH Hy]; [simpl; by rewrite elem_of_nil|].
  rewrite filter_cons. case_decide as Hk; simpl.
  - intros [->|Hx]%elem_of_cons; [lia|auto].
  - destruct (Z.lt_ge_cases m (key y)) as [Hlt|Hge].
    + rewrite filter_none; [simpl; by rewrite elem_of_nil|].
      intros z Hz. rewrite Forall_forall in Hy. specialize (Hy z Hz). lia.
    + destruct (length _) as [|n] eqn:Hn; simpl; [by rewrite elem_of_nil|].
      intros [->|Hx]%elem_of_cons; [lia|]. apply IH.
      eapply elem_of_subseteq; [|exact Hx]. intros z Hz.
      eapply list_elem_of_lookup in Hz as [i Hi].
      apply lookup_take_Some in Hi as [Hi Hlt]. eapply list_elem_of_lookup_2.
      apply lookup_take_Some. split; [exact Hi|lia].
Qed.

Lemma sorted_drop (R : A → A → Prop) l n : StronglySorted R l → StronglySorted R (drop n l).
Proof. revert n. induction l as [|x l IH]; intros [|n] Hs; try done. inversion Hs; subst. by apply IH. Qed.

Lemma window_step l cur m x :
  by_key l → (∀ x, x ∈ take cur l → key x < m) →
  x ∈ take (cur + length (filter (λ x, key x = m) (drop cur l))) l → key x ≤ m.
Proof.
  intros Hs Ht. rewrite <-take_take_drop. intros [Hx|Hx]%elem_of_app.
  - specialize (Ht x Hx). lia.
  - eapply window_taken; [|exact Hx]. by apply sorted_drop.
Qed.
End window.

Lemma filter_ext_in {A} (P Q : A → Prop) `{∀ x, Decision (P x), ∀ x, Decision (Q x)} (l : list A) :
  (∀ x, x ∈ l → (P x ↔ Q x)) → filter P l = filter Q l.
Proof.
  induction l as [|x l IH]; intros Hl; [done|]. rewrite !filter_cons.
  rewrite IH by (intros y Hy; apply Hl; by right).
  specialize (Hl x ltac:(by left)). by repeat case_decide; try tauto.
Qed.

Lemma elem_of_concat {A} (x : A) l ls : x ∈ l → l ∈ ls → x ∈ concat ls.
Proof.
  intros Hx. induction 1 as [ls|l' ls Hl IH]; simpl; apply elem_of_app; auto.
Qed.

Lemma sorted_filter {A} (R : A → A → Prop) (P : A → Prop) `{∀ x, Decision (P x)} l :
  StronglySorted R l → StronglySorted R (filter P l).
Proof.
  induction 1 as [|x l Hs IH Hx]; [constructor|]. rewrite filter_cons. case_decide; [|done].
  constructor; [done|]. rewrite Forall_forall in *. intros y [_ Hy]%list_elem_of_filter. auto.
Qed.

Lemma sorted_fmap {A B} (R : B → B → Prop) (f : A → B) l :
  StronglySorted (λ x y, R (f x) (f y)) l → StronglySorted R (f <$> l).
Proof. induction 1; simpl; constructor; [done|]. by apply Forall_fmap. Qed.

Lemma sorted_weaken {A} (R R' : A → A → Prop) l :
  (∀ x y, R x y → R' x y) → StronglySorted R l → StronglySorted R' l.
Proof.
  intros HR. induction 1; constructor; [done|]. eapply Forall_impl; [done|]. auto.
Qed.

(** The first and the last of a sorted list *)
Lemma sorted_bounds {A} (key : A → Z) x l y :
  StronglySorted (λ x y, key x ≤ key y) (x :: l) → y ∈ x :: l →
  key x ≤ key y ≤ key (default x (last (x :: l))).
Proof.
  revert x y. induction l as [|z l IH]; intros x y Hs Hy.
  - apply list_elem_of_singleton in Hy as ->. simpl. lia.
  - inversion Hs as [|?? Hs' Hx]; subst. rewrite Forall_forall in Hx.
    change (last (x :: z :: l)) with (last (z :: l)).
    assert (key z ≤ key (default z (last (z :: l)))) by (apply (IH z z Hs'); by left).
    assert (default x (last (z :: l)) = default z (last (z :: l))) as ->.
    { by destruct (last (z :: l)) eqn:Hl; [|apply last_None in Hl]. }
    apply elem_of_cons in Hy as [->|Hy].
    + assert (key x ≤ key z) by (apply Hx; by left). lia.
    + destruct (IH z y Hs' Hy). specialize (Hx y Hy). simpl in Hx. lia.
Qed.

Lemma block_txs_filter m rows :
  StronglySorted (λ x y, dt_L2BlockNumber x ≤ dt_L2BlockNumber y) rows →
  block_txs m rows = (filter (λ t, dt_L2BlockNumber t = m) rows,
                      length (filter (λ t, dt_L2BlockNumber t = m) rows)).
Proof.
  induction 1 as [|t rows Hs IH Ht]; [done|]. simpl.
  destruct (Z.ltb_spec m (dt_L2BlockNumber t)).
  - rewrite filter_none; [done|]. intros x [->|Hx]%elem_of_cons; [lia|].
    rewrite Forall_forall in Ht. specialize (Ht x Hx). lia.
  - rewrite IH, filter_cons. destruct (Z.eqb_spec (dt_L2BlockNumber t) m); by case_decide.
Qed.

Definition full_block (l2Txs : list DSL2Transaction) (b : DSL2Block) : DSL2FullBlock :=
  mkDSL2FullBlock b (filter (λ t, dt_L2BlockNumber t = db_L2BlockNumber b) l2Txs).

(** The transactions read so far belong to blocks before those of batch [n]
    and later that are still to be read. *)
Definition txs_before (l2Txs : list DSL2Transaction) (cur : nat) (rows : list DSL2Block)
    (P : Z → Prop) : Prop :=
  ∀ t k, t ∈ take cur l2Txs → k ∈ rows → P (db_BatchNumber k) →
    dt_L2BlockNumber t < db_L2BlockNumber k.

Lemma batch_blocks_spec n l2Txs rows : ∀ cur,
  StronglySorted (λ x y, dt_L2BlockNumber x ≤ dt_L2BlockNumber y) l2Txs →
  StronglySorted (λ x y, db_BatchNumber x ≤ db_BatchNumber y) rows →
  StronglySorted (λ x y, db_L2BlockNumber x < db_L2BlockNumber y) rows →
  txs_before l2Txs cur rows (Z.le n) →
  ∃ cur', batch_blocks n rows l2Txs cur =
    (full_block l2Txs <$> filter (λ k, db_BatchNumber k = n) rows,
     length (filter (λ k, db_BatchNumber k = n) rows), cur') ∧
    txs_before l2Txs cur' rows (Z.lt n).
Proof.
  induction rows as [|x rows IH]; intros cur Ht Hb Hn Hcur; simpl.
  { exists cur. split; [done|]. by intros ?? _ ?%elem_of_nil. }
  inversion Hb as [|?? Hb' Hxb]; subst. inversion Hn as [|?? Hn' Hxn]; subst.
  rewrite Forall_forall in Hxb, Hxn. rewrite filter_cons.
  destruct (Z.eqb_spec (db_BatchNumber x) n) as [He|He]; [|case_decide; [done|]].
  - rewrite decide_True by done.
    assert (∀ t, t ∈ take cur l2Txs → dt_L2BlockNumber t < db_L2BlockNumber x) as Hx.
    { intros t Hin. apply (Hcur t x Hin); [by left|lia]. }
    rewrite block_txs_filter by (by apply sorted_drop).
    destruct (IH (cur + length (filter (λ t, dt_L2BlockNumber t = db_L2BlockNumber x)
      (drop cur l2Txs)))%nat) as (cur' & -> & Hcur'); [done..| |].
    { intros t k Hin Hk _. eapply Z.le_lt_trans; [|by apply Hxn].
      by eapply (window_step dt_L2BlockNumber). }
    exists cur'. rewrite (window_filter dt_L2BlockNumber) by done. split; [done|].
    intros t k Hin [->|Hk]%elem_of_cons Hlt; [lia|]. by apply Hcur'.
  - destruct (Z.ltb_spec n (db_BatchNumber x)) as [Hlt|Hge].
    + exists cur. rewrite filter_none; [split; [done|]|].
      * intros t k Hin Hk Hnk. apply Hcur; [done..|lia].
      * intros k Hk. specialize (Hxb k Hk). simpl in Hxb. lia.
    + destruct (IH cur) as (cur' & -> & Hcur'); [done..| |].
      { intros t k Hin Hk. apply Hcur; [done|by right]. }
      exists cur'. split; [done|]. intros t k Hin [->|Hk]%elem_of_cons Hlt; [lia|]. by apply Hcur'.
Qed.

Definition full_batch (l2Blocks : list DSL2Block) (l2Txs : list DSL2Transaction) (b : DSBatch) :
    DSFullBatch :=
  mkDSFullBatch b (full_block l2Txs <$>
    filter (λ k, db_BatchNumber k = sb_BatchNumber (dsb_Batch b)) l2Blocks).

Abbreviation batch_num b := (sb_BatchNumber (dsb_Batch b)).

Lemma full_batches_spec batches l2Blocks l2Txs : ∀ cb ct,
  StronglySorted (λ x y, batch_num x < batch_num y) batches →
  StronglySorted (λ x y, db_BatchNumber x ≤ db_BatchNumber y) l2Blocks →
  StronglySorted (λ x y, db_L2BlockNumber x < db_L2BlockNumber y) l2Blocks →
  StronglySorted (λ x y, dt_L2BlockNumber x ≤ dt_L2BlockNumber y) l2Txs →
  (∀ b k, b ∈ batches → k ∈ take cb l2Blocks → db_BatchNumber k < batch_num b) →
  (∀ b, b ∈ batches → txs_before l2Txs ct (drop cb l2Blocks) (Z.le (batch_num b))) →
  full_batches batches l2Blocks l2Txs cb ct = full_batch l2Blocks l2Txs <$> batches.
Proof.
  induction batches as [|b batches IH]; intros cb ct Hs Hb Hn Ht Hcb Hct; [done|]. simpl.
  inversion Hs as [|?? Hs' Hlt]; subst. rewrite Forall_forall in Hlt.
  destruct (batch_blocks_spec (batch_num b) l2Txs (drop cb l2Blocks) ct) as (ct' & -> & Hct');
    [done|by apply sorted_drop..|apply Hct; by left|].
  rewrite (window_filter db_BatchNumber) by (intros; apply Hcb; [by left|done]).
  f_equal. apply IH; [done..| |].
  - intros b' k Hb' Hk. eapply Z.le_lt_trans; [|by apply Hlt].
    eapply (window_step db_BatchNumber); [done|intros; apply Hcb; [by left|done]|].
    by rewrite (window_filter db_BatchNumber) by (intros; apply Hcb; [by left|done]).
  - intros b' Hb' t k Hin Hk Hle. apply (Hct' t k Hin); [|specialize (Hlt b' Hb'); simpl in Hlt; lia].
    rewrite <-drop_drop in Hk. by eapply subseteq_drop.
Qed.

Lemma computeFullBatches_spec batches l2Blocks l2Txs :
  StronglySorted (λ x y, batch_num x < batch_num y) batches →
  StronglySorted (λ x y, db_BatchNumber x ≤ db_BatchNumber y) l2Blocks →
  StronglySorted (λ x y, db_L2BlockNumber x < db_L2BlockNumber y) l2Blocks →
  StronglySorted (λ x y, dt_L2BlockNumber x ≤ dt_L2BlockNumber y) l2Txs →
  computeFullBatches batches l2Blocks l2Txs = full_batch l2Blocks l2Txs <$> batches.
Proof.
  intros Hs Hb Hn Ht. apply full_batches_spec; [done..| |].
  - intros b k _ Hk. by apply elem_of_nil in Hk.
  - intros b _ t k Hk. by apply elem_of_nil in Hk.
Qed.

(** The rows of the database are grouped as they should, with two indices
    that only move forward: every batch gets its blocks and every block its
    transactions, each once and in order. *)
Theorem computeFullBatches_groups batches l2Blocks l2Txs :
  StronglySorted (λ x y, batch_num x < batch_num y) batches →
  StronglySorted (λ x y, db_BatchNumber x ≤ db_BatchNumber y) l2Blocks →
  StronglySorted (λ x y, db_L2BlockNumber x < db_L2BlockNumber y) l2Blocks →
  StronglySorted (λ x y, dt_L2BlockNumber x ≤ dt_L2BlockNumber y) l2Txs →
  computeFullBatches batches l2Blocks l2Txs = full_batch l2Blocks l2Txs <$> batches.
Proof. apply computeFullBatches_spec. Qed.

(** ** What a run writes *)

Section writes.
Context `{!EthHash, !DataStreamer, !DataStreamerSpec, !DSStateI} (keccak : bytes → bytes).
Context (im : option (gmap Z bytes)).
Implicit Types (s : Stream).

(** The entries of a block, of a batch and of a list of batches, one list per
    batch, with the exit root they leave *)
Definition root_of (b : DSL2Block) : Z :=
  match tx_root keccak im b with inr r => r | inl _ => 0 end.

Definition tx_entry (root : Z) (t : DSL2Transaction) : Entry :=
  mkEntry EntryTypeL2Tx (DSL2Transaction_Encode (with_root t root)).
Definition mark_entry (b : DSL2Block) : Entry :=
  mkEntry EtBookmark (DSBookMark_Encode (block_mark b)).
Definition start_entry (b : DSL2Block) : Entry :=
  mkEntry EntryTypeL2BlockStart (DSL2BlockStart_Encode (block_start b)).
Definition end_entry (b : DSL2Block) : Entry :=
  mkEntry EntryTypeL2BlockEnd (DSL2BlockEnd_Encode (block_end b)).

Definition block_entries (b : DSL2FullBlock) : list Entry :=
  mark_entry (fu_Block b) :: start_entry (fu_Block b) ::
  (tx_entry (root_of (fu_Block b)) <$> fu_Txs b) ++ [end_entry (fu_Block b)].

Definition batch_entries (ger : Z) (b : DSFullBatch) : list Entry * Z :=
  let ger' := sb_GlobalExitRoot (dsb_Batch (fu_Batch b)) in
  match fu_L2Blocks b with
  | [] => if decide (ger' ≠ ger ∧ ger' ≠ 0)
          then ([mkEntry EntryTypeUpdateGER (DSUpdateGER_Encode (update_ger (fu_Batch b)))], ger')
          else ([], ger)
  | blocks => (concat (block_entries <$> blocks),
               default ger (db_GlobalExitRoot ∘ fu_Block <$> last blocks))
  end.

Fixpoint all_entries (ger : Z) (bs : list DSFullBatch) : list (list Entry) * Z :=
  match bs with
  | [] => ([], ger)
  | b :: bs => let '(es, ger) := batch_entries ger b in
               let '(ess, ger) := all_entries ger bs in (es :: ess, ger)
  end.


Definition adds (es : list Entry) (m : StreamM ()) : Prop := ∀ s p, ss_pending s = Some p →
  wpm False m (λ _ s', ss_entries s' = ss_entries s ∧ ss_pending s' = Some (p ++ es))
    (λ _ s', ss_entries s' = ss_entries s) s.

Lemma adds_entry t d : adds [mkEntry t d] (AddStreamEntry t d).
Proof.
  intros s p Hp. unfold wpm, AddStreamEntry, ss_add. destruct (ss_AddStreamEntry s t d) as [s' [e|n]] eqn:He.
  - by apply ss_Entry_err in He as [He _].
  - apply ss_Entry_ok in He as (He & p' & Hp' & Hs'). split; [done|]. congruence.
Qed.

Lemma adds_mark d : adds [mkEntry EtBookmark d] (AddStreamBookmark d).
Proof.
  intros s p Hp. unfold wpm, AddStreamBookmark, ss_add.
  destruct (ss_AddStreamBookmark s d) as [s' [e|n]] eqn:He.
  - by apply ss_Bookmark_err in He as [He _].
  - apply ss_Bookmark_ok in He as (He & p' & Hp' & Hs'). split; [done|]. congruence.
Qed.

Lemma adds_bind es1 es2 m1 m2 : adds es1 m1 → adds es2 m2 → adds (es1 ++ es2) (m1 ;; m2).
Proof.
  intros Hm1 Hm2 s p Hp. apply wpm_bind. eapply wpm_mono; [by apply Hm1| |done].
  intros [] s1 [He Hp1]. eapply wpm_mono; [by apply Hm2| |].
  - intros [] s2 [He2 Hp2]. split; [congruence|]. by rewrite Hp2, app_assoc.
  - intros e s2 He2. congruence.
Qed.

Lemma adds_for_each {A} (f : A → list Entry) (body : A → StreamM ()) xs :
  (∀ x, adds (f x) (body x)) → adds (concat (f <$> xs)) (for_each xs body).
Proof.
  intros Hb. induction xs as [|x xs IH]; simpl.
  - intros s p Hp. by rewrite app_nil_r.
  - by apply adds_bind.
Qed.

Lemma concat_singletons {A B} (f : A → B) xs : concat ((λ x, [f x]) <$> xs) = f <$> xs.
Proof. induction xs; [done|]. simpl. by f_equal. Qed.

Lemma adds_tx b t :
  adds [tx_entry (root_of b) t]
    (root ← ds_call (tx_root keccak im b);
     AddStreamEntry EntryTypeL2Tx (DSL2Transaction_Encode (with_root t root))).
Proof.
  unfold root_of. destruct (tx_root keccak im b) as [e|r]; simpl; [by intros s p Hp|].
  apply adds_entry.
Qed.

Lemma adds_block b : adds (block_entries b) (stream_block keccak im b).
Proof.
  unfold block_entries, stream_block.
  change (mark_entry ?k :: start_entry ?k :: ?l) with ([mark_entry k] ++ [start_entry k] ++ l).
  apply adds_bind; [apply adds_mark|]. apply adds_bind; [apply adds_entry|].
  apply adds_bind; [|apply adds_entry].
  rewrite <-concat_singletons. apply adds_for_each. intros t. apply adds_tx.
Qed.

(** An operation is visible as a whole or not at all. *)
Lemma wp_start s (Q : () → Stream → Prop) :
  (∀ s', ss_entries s' = ss_entries s → ss_pending s' = Some [] → Q tt s') →
  wpm False StartAtomicOp Q (λ _ s', ss_entries s' = ss_entries s) s.
Proof.
  intros HQ. unfold wpm, StartAtomicOp, ss_call. destruct (ss_StartAtomicOp s) as [s' [e|]] eqn:Hs.
  - by apply ss_Start_err in Hs as [Hs _].
  - apply ss_Start_ok in Hs as [He Hp]. by apply HQ.
Qed.

Lemma wp_commit s es :
  ss_pending s = Some es →
  wpm False CommitAtomicOp (λ _ s', ss_entries s' = ss_entries s ++ es)
    (λ _ s', ss_entries s' = ss_entries s) s.
Proof.
  intros Hp. unfold wpm, CommitAtomicOp, ss_call. destruct (ss_CommitAtomicOp s) as [s' [e|]] eqn:Hs.
  - by apply ss_Commit_err in Hs as [Hs _].
  - apply ss_Commit_ok in Hs as (p & Hp' & He & _). congruence.
Qed.

Lemma atomic_op {A} es (m : StreamM ()) (a : A) s :
  adds es m →
  wpm False (StartAtomicOp ;; m ;; CommitAtomicOp ;; mret a)
    (λ a' s', a' = a ∧ ss_entries s' = ss_entries s ++ es)
    (λ _ s', ss_entries s' = ss_entries s) s.
Proof.
  intros Hm. apply wpm_bind, wp_start. intros s1 He1 Hp1. apply wpm_bind.
  eapply wpm_mono; [by apply Hm| |].
  - intros [] s2 [He2 Hp2]. apply wpm_bind. eapply wpm_mono; [by apply wp_commit| |].
    + intros [] s3 He3. apply wpm_ret. split; [done|]. by rewrite He3, He2, He1.
    + intros e s3 He3. congruence.
  - intros e s2 He2. congruence.
Qed.

Lemma stream_batch_spec ger b s :
  wpm False (stream_batch keccak im ger b)
    (λ ger' s', ger' = (batch_entries ger b).2 ∧
                ss_entries s' = ss_entries s ++ (batch_entries ger b).1)
    (λ _ s', ss_entries s' = ss_entries s) s.
Proof.
  unfold stream_batch, batch_entries. destruct (fu_L2Blocks b) as [|k ks].
  - case_decide; [|by rewrite app_nil_r]. apply atomic_op, adds_entry.
  - apply (atomic_op (concat (block_entries <$> (k :: ks)))).
    apply adds_for_each. intros x. apply adds_block.
Qed.

Lemma stream_batches_spec bs : ∀ ger s,
  wpm False (stream_batches keccak im ger bs)
    (λ ger' s', ger' = (all_entries ger bs).2 ∧
                ss_entries s' = ss_entries s ++ concat (all_entries ger bs).1)
    (λ _ s', ∃ k, ss_entries s' = ss_entries s ++ concat (take k (all_entries ger bs).1)) s.
Proof.
  induction bs as [|b bs IH]; intros ger s; simpl; [by rewrite app_nil_r|].
  apply wpm_bind. eapply wpm_mono; [apply stream_batch_spec| |].
  - intros ger' s1 [-> He1]. destruct (batch_entries ger b) as [es ger1]; simpl in *.
    specialize (IH ger1 s1). destruct (all_entries ger1 bs) as [ess ger2]; simpl in *.
    eapply wpm_mono; [exact IH| |].
    + intros ger' s2 [-> He2]. split; [done|]. by rewrite He2, He1, <-app_assoc.
    + intros e s2 [k He2]. exists (S k). simpl. by rewrite He2, He1, <-app_assoc.
  - intros e s1 He1. exists 0%nat. simpl. by rewrite app_nil_r.
Qed.

(** The lists of all rounds, given what each of them reads *)
Fixpoint rounds (read : Z → option (list DSFullBatch)) (fuel : nat) (cur ger : Z) :
    list (list Entry) :=
  match fuel with
  | O => []
  | S fuel =>
      match read cur with
      | Some bs => (all_entries ger bs).1 ++
          rounds read fuel (cur +₆₄ 10000) (all_entries ger bs).2
      | None => []
      end
  end.

(** [read] is what the queries return when they do not fail. *)
Lemma generate_loop_spec wip read fuel :
  (∀ cur p, next_batches wip cur = inr p → p = read cur) → ∀ cur ger s s' r,
  generate_loop keccak wip im fuel cur ger s = Some (s', r) →
  match r with
  | Ret _ => ss_entries s' = ss_entries s ++ concat (rounds read fuel cur ger)
  | Fail _ => ∃ k, ss_entries s' = ss_entries s ++ concat (take k (rounds read fuel cur ger))
  | Panic => False
  end.
Proof.
  intros Hread. induction fuel as [|fuel IH]; intros cur ger s s' r; simpl; [done|].
  destruct (next_batches wip cur) as [e|p] eqn:Hp.
  { intros [= <- <-]. exists 0%nat. by rewrite app_nil_r. }
  apply Hread in Hp as <-. destruct p as [bs|].
  - pose proof (stream_batches_spec bs ger s) as Hs. unfold wpm in Hs.
    destruct (stream_batches keccak im ger bs s) as [s1 [ger'|e|]]; [| |done].
    + destruct Hs as [-> He]. intros Hl%IH. rewrite concat_app.
      destruct r as [|e|]; [by rewrite Hl, He, <-app_assoc| |done].
      destruct Hl as [k Hk]. exists (length (all_entries ger bs).1 + k)%nat.
      rewrite take_app_add, concat_app, Hk, He. by rewrite <-app_assoc.
    + intros [= <- <-]. destruct Hs as [k Hk].
      exists (Nat.min k (length (all_entries ger bs).1)). rewrite Hk.
      rewrite take_app_le by lia. rewrite <-take_take, firstn_all. done.
  - intros [= <- <-]. by rewrite app_nil_r.
Qed.
End writes.

(** ** Runs on the rows of the database *)

Section database.
Context `{!EthHash, !DataStreamer, !DataStreamerSpec} (keccak : bytes → bytes).
Context (rows : DSRows) (faults : DSFaults) (storage : Z → Z → Z → DSErr + Z).
Context (im : option (gmap Z bytes)) (wip : bool).
#[local] Instance rows_state : DSStateI := pg_DSState rows faults storage.
Implicit Types (s : Stream).

Abbreviation row_num r := (sb_BatchNumber (dsb_Batch (fst r))).

Lemma rounds_end cur :
  (∀ r, r ∈ row_batches rows → row_num r < cur) →
  next_batches wip cur = inr None ∨ ∃ e, next_batches wip cur = inl e.
Proof.
  intros Hr. unfold next_batches. cbn [GetDSBatches pg_DSState rows_state].
  rewrite filter_none.
  - destruct (df_batches _ _ _) as [|[|k]|e]; simpl; eauto.
  - intros r Hin. specialize (Hr r Hin). lia.
Qed.

Lemma generate_loop_total N fuel : ∀ cur ger s,
  (∀ r, r ∈ row_batches rows → row_num r ≤ N) → N + 10000 < 2 ^ 64 →
  0 ≤ cur → N < cur + 10000 * Z.of_nat fuel →
  ∃ s' r, generate_loop keccak wip im (S fuel) cur ger s = Some (s', r).
Proof.
  induction fuel as [|fuel IH]; intros cur ger s Hr HN Hcur Hf.
  - simpl. destruct (rounds_end cur) as [->|[e ->]]; [|by eauto..].
    intros r Hin. specialize (Hr r Hin). lia.
  - cbn [generate_loop]. destruct (Z.lt_ge_cases N cur).
    { destruct (rounds_end cur) as [->|[e ->]]; [|by eauto..].
      intros r Hin. specialize (Hr r Hin). lia. }
    destruct (next_batches wip cur) as [e|[bs|]]; [eauto| |eauto].
    destruct (stream_batches keccak im ger bs s) as [s1 [ger'|e|]]; [|eauto..].
    apply IH; [done..| |]; rewrite wrap64_small by (unfold in_u64; lia); lia.
Qed.

Record rows_ok : Prop := {
  rows_batch : StronglySorted (λ x y, row_num x < row_num y) (row_batches rows);
  rows_block_batch : StronglySorted (λ x y, db_BatchNumber x ≤ db_BatchNumber y) (row_blocks rows);
  rows_block : StronglySorted (λ x y, db_L2BlockNumber x < db_L2BlockNumber y) (row_blocks rows);
  rows_tx : StronglySorted (λ x y, dt_L2BlockNumber x ≤ dt_L2BlockNumber y) (row_txs rows)
}.

(** A query fails or returns all rows. *)
Definition uncut : Prop := ∀ a b,
  (∀ k, df_batches faults a b ≠ CutAfter k) ∧ (∀ k, df_blocks faults a b ≠ CutAfter k) ∧
  (∀ k, df_txs faults a b ≠ CutAfter k).

Lemma fetch_uncut {A} o (l : list A) :
  (∀ k, o ≠ CutAfter k) → fetch o l = inr l ∨ ∃ e, fetch o l = inl (DSState e).
Proof. destruct o; naive_solver. Qed.

(** The batches of a round *)
Definition page (cur : Z) : list DSBatch :=
  fst <$> filter (λ r, cur ≤ row_num r ≤ cur + 10000 ∧ wip || r.2) (row_batches rows).

(** The batches of a round with their blocks and transactions *)
Definition full_page (cur : Z) : option (list DSFullBatch) :=
  if decide (page cur = []) then None
  else Some (full_batch (row_blocks rows) (row_txs rows) <$> page cur).

(** The blocks of a page are found between those of its first and its last
    batch, and so are the transactions of the blocks. *)
Lemma page_blocks b0 bs :
  rows_ok → StronglySorted (λ x y, batch_num x < batch_num y) (b0 :: bs) →
  let blocks := filter (λ k, batch_num b0 ≤ db_BatchNumber k ≤
    batch_num (default b0 (last (b0 :: bs)))) (row_blocks rows) in
  (blocks = [] → computeFullBatches (b0 :: bs) [] [] =
     full_batch (row_blocks rows) (row_txs rows) <$> b0 :: bs) ∧
  (∀ k0 ks, blocks = k0 :: ks → computeFullBatches (b0 :: bs) blocks
     (filter (λ t, db_L2BlockNumber k0 ≤ dt_L2BlockNumber t ≤
        db_L2BlockNumber (default k0 (last blocks))) (row_txs rows)) =
     full_batch (row_blocks rows) (row_txs rows) <$> b0 :: bs).
Proof.
  intros [_ Hkb Hk Ht] Hp blocks.
  assert (∀ b, b ∈ b0 :: bs → filter (λ k, db_BatchNumber k = batch_num b) blocks
    = filter (λ k, db_BatchNumber k = batch_num b) (row_blocks rows)) as Hblocks.
  { intros b Hin. apply list_filter_filter_l. intros k ->.
    apply (sorted_bounds (λ b, batch_num b)); [|done]. eapply sorted_weaken; [|exact Hp]. simpl; lia. }
  assert (StronglySorted (λ x y, db_BatchNumber x ≤ db_BatchNumber y) blocks ∧
    StronglySorted (λ x y, db_L2BlockNumber x < db_L2BlockNumber y) blocks) as [Hsb Hsn]
    by (split; by apply sorted_filter).
  clearbody blocks. split.
  - intros ->. rewrite computeFullBatches_spec by (done || constructor).
    apply list_fmap_ext. intros i b Hi%list_elem_of_lookup_2. unfold full_batch. f_equal.
    by rewrite <-Hblocks.
  - intros k0 ks ->. rewrite computeFullBatches_spec by (done || by apply sorted_filter).
    apply list_fmap_ext. intros i b Hi%list_elem_of_lookup_2. unfold full_batch. f_equal.
    rewrite Hblocks by done. apply list_fmap_ext. intros j k Hin%list_elem_of_lookup_2.
    unfold full_block. f_equal. apply list_filter_filter_l. intros t ->.
    apply (sorted_bounds db_L2BlockNumber).
    + eapply sorted_weaken; [|exact Hsn]. simpl. lia.
    + rewrite <-Hblocks in Hin by done. by apply list_elem_of_filter in Hin as [_ Hin].
Qed.

Lemma next_batches_page cur :
  rows_ok → uncut → 0 ≤ cur → cur + 10000 < 2 ^ 64 →
  next_batches wip cur = inr (full_page cur) ∨ ∃ e, next_batches wip cur = inl e.
Proof.
  intros Hok Hcut Hcur Hwrap. unfold next_batches, full_page.
  cbn [GetDSBatches GetDSL2Blocks GetDSL2Transactions pg_DSState rows_state].
  rewrite wrap64_small by (unfold in_u64; lia). fold (page cur).
  destruct (fetch_uncut (df_batches faults cur (cur + 10000)) (page cur)) as [->|[e ->]];
    [apply Hcut| |by eauto].
  assert (StronglySorted (λ x y, batch_num x < batch_num y) (page cur)) as Hp.
  { unfold page. apply sorted_fmap, sorted_filter, (rows_batch Hok). }
  destruct (page cur) as [|b0 bs]; [left; by rewrite decide_True|]. rewrite decide_False by done.
  destruct (page_blocks b0 bs Hok Hp) as [Hnone Hsome].
  set (blocks := filter (λ b, _ ≤ db_BatchNumber b ≤ _) (row_blocks rows)) in *. clearbody blocks.
  match goal with |- context [fetch ?o blocks] =>
    destruct (fetch_uncut o blocks) as [->|[e ->]]; [apply Hcut| |by eauto] end.
  destruct blocks as [|k0 ks]; [left; by rewrite Hnone|].
  match goal with |- context [fetch ?o ?l] =>
    destruct (fetch_uncut o l) as [->|[e ->]]; [apply Hcut| |by eauto] end.
  left. by rewrite (Hsome k0 ks).
Qed.

(** What a round reads when no query fails *)
Definition read_page (cur : Z) : option (list DSFullBatch) :=
  match next_batches wip cur with inr p => p | inl _ => full_page cur end.

Lemma read_page_eq cur :
  rows_ok → uncut → 0 ≤ cur → cur + 10000 < 2 ^ 64 → read_page cur = full_page cur.
Proof.
  intros Hok Hcut Hcur Hwrap. unfold read_page.
  by destruct (next_batches_page cur Hok Hcut Hcur Hwrap) as [->|[e ->]].
Qed.

Definition genesis_entries (g : DSL2Block) : list Entry :=
  [mark_entry g; start_entry g; end_entry g].

(** The genesis block of an empty stream *)
Lemma stream_position_empty s :
  ss_entries s = [] →
  wpm False stream_position
    (λ n s', n = 0 ∧ ∃ g, row_genesis rows = Some g ∧ ss_entries s' = genesis_entries g)
    (λ _ s', ss_entries s' = []) s.
Proof.
  intros He. unfold wpm, stream_position. rewrite decide_True by (by rewrite ss_Total_ok, He).
  cbn [GetDSGenesisBlock pg_DSState rows_state].
  destruct (df_genesis faults); [done|]. destruct (row_genesis rows) as [g|]; [|done].
  cbn [ds_call]. match goal with |- match ?m s with _ => _ end => enough (wpm False m
    (λ n s', n = 0 ∧ ∃ g', Some g = Some g' ∧ ss_entries s' = genesis_entries g')
    (λ _ s', ss_entries s' = []) s) as Hm by exact Hm end.
  apply wpm_bind, wpm_ret, wpm_bind. eapply wpm_mono with
    (Q := λ _ s1, ss_entries s1 = ss_entries s ∧ ss_pending s1 = Some []);
    [by apply wp_start| |by intros ?? ->].
  intros [] s1 [He1 Hp1]. apply wpm_bind.
  eapply wpm_mono; [by apply adds_mark| |intros; congruence]. intros [] s2 [He2 Hp2].
  apply wpm_bind.
  eapply wpm_mono; [by apply adds_entry| |intros; congruence]. intros [] s3 [He3 Hp3].
  apply wpm_bind.
  eapply wpm_mono; [by apply adds_entry| |intros; congruence]. intros [] s4 [He4 Hp4].
  apply wpm_bind.
  eapply wpm_mono; [by apply wp_commit| |intros; congruence]. intros [] s5 He5.
  apply wpm_ret. split; [done|]. exists g. split; [done|]. by rewrite He5, He4, He3, He2, He1, He.
Qed.

(** What a stream holds once the genesis block and [k] batches are written *)
Definition written (g : option DSL2Block) (es : list (list Entry)) : list Entry :=
  match g with Some g => genesis_entries g ++ concat es | None => [] end.

Lemma GenerateDataStreamerFile_run N fuel s :
  ss_entries s = [] → (∀ r, r ∈ row_batches rows → row_num r ≤ N) → N + 10000 < 2 ^ 64 →
  N ≤ 10000 * Z.of_nat fuel →
  ∃ s' r, GenerateDataStreamerFile keccak wip im (S fuel) s = Some (s', r) ∧
    match r with
    | Ret _ => row_genesis rows ≠ None ∧
        ss_entries s' = written (row_genesis rows) (rounds keccak im read_page (S fuel) 1 0)
    | Fail _ => ss_entries s' = [] ∨
        ∃ k, ss_entries s' = written (row_genesis rows) (take k (rounds keccak im read_page (S fuel) 1 0))
    | Panic => False
    end.
Proof.
  intros He Hr HN Hf. unfold GenerateDataStreamerFile.
  pose proof (stream_position_empty s He) as Hp. unfold wpm in Hp.
  destruct (stream_position s) as [s1 [n|e|]]; [|by exists s1, (Fail e); split; [|left]|done].
  destruct Hp as (-> & g & Hg & He1). change (0 +₆₄ 1) with 1.
  destruct (generate_loop_total N fuel 1 0 s1) as (s' & r & Hl); [done|done|lia|lia|].
  rewrite Hl. exists s', r. split; [done|].
  apply (generate_loop_spec _ _ _ read_page) in Hl; [|by intros cur p Hp; unfold read_page; rewrite Hp].
  rewrite Hg. simpl.
  destruct r as [|e|]; [split; [done|]| |done]; rewrite He1 in Hl; eauto.
Qed.
(** The batches the stream is made for *)
Definition visible : list DSBatch := fst <$> filter (λ r, wip || r.2) (row_batches rows).

Lemma rounds_small fuel :
  rows_ok → uncut → (∀ r, r ∈ row_batches rows → 1 ≤ row_num r ≤ 10000) →
  rounds keccak im read_page (S (S fuel)) 1 0 =
    (all_entries keccak im 0 (full_batch (row_blocks rows) (row_txs rows) <$> visible)).1.
Proof.
  intros Hok Hcut Hr. cbn [rounds]. rewrite read_page_eq by (done || lia). unfold full_page.
  assert (page 1 = visible) as ->.
  { unfold page, visible. f_equal. apply filter_ext_in. intros r Hin. specialize (Hr r Hin).
    simpl. intuition lia. }
  case_decide as Hv; [by rewrite Hv|]. change (1 +₆₄ 10000) with 10001.
  rewrite read_page_eq by (done || lia). unfold full_page.
  assert (page 10001 = []) as ->; [|by rewrite decide_True, app_nil_r].
  unfold page. rewrite filter_none; [done|]. intros r Hin. specialize (Hr r Hin). lia.
Qed.

(** The entries of a batch that has blocks *)
Definition blocks_entries (n : Z) : list Entry :=
  concat (block_entries keccak im <$> (full_block (row_txs rows) <$>
    filter (λ k, db_BatchNumber k = n) (row_blocks rows))).

Lemma blocks_in_page bs ger b :
  b ∈ bs → ∃ l l', concat
    (all_entries keccak im ger (full_batch (row_blocks rows) (row_txs rows) <$> bs)).1 =
    l ++ blocks_entries (batch_num b) ++ l'.
Proof.
  revert ger. induction bs as [|b' bs IH]; intros ger Hb; [by apply elem_of_nil in Hb|].
  cbn [fmap list_fmap all_entries]. destruct (batch_entries _ _ _ _) as [es ger1] eqn:He.
  destruct (all_entries _ _ ger1 _) as [ess ger2] eqn:Hes. simpl.
  apply elem_of_cons in Hb as [->|Hb].
  - unfold batch_entries in He. cbn [full_batch fu_L2Blocks fu_Batch] in He. unfold blocks_entries.
    destruct (full_block _ <$> _) as [|x xs]; [by exists [], (es ++ concat ess)|].
    exists [], (concat ess). injection He as <- _. done.
  - destruct (IH ger1 Hb) as (l & l' & Hl). rewrite Hes in Hl. simpl in Hl. exists (es ++ l), l'.
    by rewrite Hl, <-app_assoc.
Qed.


(** C31. In a database with more than ten thousand batches the stream repeats one: a round
    reads the batches from [n] to [n + 10000] and the next one starts at
    [n + 10000].  So once a run on a new stream ends without an error, the
    entries of all blocks of batch 10001, with their transactions, are in the
    stream twice.  The rows are in ascending order and not cut. *)
Theorem data_stream_repeats N fuel b closed s :
  rows_ok → uncut → ss_entries s = [] → (∀ r, r ∈ row_batches rows → row_num r ≤ N) →
  N + 10000 < 2 ^ 64 → N ≤ 10000 * Z.of_nat fuel →
  (b, closed) ∈ row_batches rows → batch_num b = 10001 → wip || closed →
  ∃ s' r, GenerateDataStreamerFile keccak wip im (S fuel) s = Some (s', r) ∧
    (r = Ret tt → ∃ l1 l2 l3, ss_entries s' =
       l1 ++ blocks_entries 10001 ++ l2 ++ blocks_entries 10001 ++ l3).
Proof.
  intros Hok Hcut He Hr HN Hf Hb Hn Hc.
  destruct (GenerateDataStreamerFile_run N fuel s) as (s' & r & Hg & Hres); [done..|].
  exists s', r. split; [exact Hg|]. intros ->. destruct Hres as [Hgen ->].
  assert (10001 ≤ N) by (specialize (Hr _ Hb); simpl in Hr; lia).
  destruct fuel as [|[|fuel]]; [lia..|].
  assert (∀ cur, cur = 1 ∨ cur = 10001 → b ∈ page cur) as Hin.
  { intros cur Hcur. apply list_elem_of_fmap. exists (b, closed). split; [done|].
    apply list_elem_of_filter. split; [|done]. simpl. split; [lia|done]. }
  assert (∀ cur, cur = 1 ∨ cur = 10001 → read_page cur =
    Some (full_batch (row_blocks rows) (row_txs rows) <$> page cur)) as Hpage.
  { intros cur Hcur. rewrite read_page_eq by (done || lia). unfold full_page.
    rewrite decide_False; [done|]. intros Hnil. specialize (Hin cur Hcur). rewrite Hnil in Hin.
    by apply elem_of_nil in Hin. }
  cbn [rounds]. rewrite Hpage by auto. change (1 +₆₄ 10000) with 10001. rewrite Hpage by auto.
  set (bs cur := full_batch (row_blocks rows) (row_txs rows) <$> page cur).
  destruct (blocks_in_page (page 1) 0 b) as (a1 & a2 & Ha); [by auto|].
  destruct (blocks_in_page (page 10001) (all_entries keccak im 0 (bs 1)).2 b) as (b1 & b2 & Hb');
    [by auto|].
  rewrite Hn in Ha, Hb'. destruct (row_genesis rows) as [g|]; [|done]. unfold written.
  rewrite !concat_app. unfold bs in *. rewrite Ha, Hb'.
  eexists (genesis_entries g ++ a1), (a2 ++ b1), (b2 ++ _).
  rewrite <-!app_assoc. done.
Qed.
End database.

(** ** The sequencer's stream *)

Section sender.
Context `{!DataStreamer, !DataStreamerSpec}.
Implicit Types (s : Stream) (st : Sender).

Definition sent_tx (t : DSL2Transaction) : Entry := mkEntry EntryTypeL2Tx (DSL2Transaction_Encode t).

(** The transactions whose entry the stream accepts *)
Fixpoint accepted s (txs : list DSL2Transaction) : list DSL2Transaction :=
  match txs with
  | [] => []
  | tx :: txs =>
      match ss_AddStreamEntry s EntryTypeL2Tx (DSL2Transaction_Encode tx) with
      | (s', inr _) => tx :: accepted s' txs
      | (s', inl _) => accepted s' txs
      end
  end.

Lemma send_txs txs : ∀ s p,
  ss_pending s = Some p →
  wpm False (for_each txs (λ tx,
      try (AddStreamEntry EntryTypeL2Tx (DSL2Transaction_Encode tx)) ;; mret tt))
    (λ _ s', ss_entries s' = ss_entries s ∧
       ss_pending s' = Some (p ++ (sent_tx <$> accepted s txs)))
    (λ _ _, False) s.
Proof.
  induction txs as [|t txs IH]; intros s p Hp; simpl.
  { split; [done|]. by rewrite app_nil_r. }
  apply wpm_bind, wpm_bind, wpm_try. unfold AddStreamEntry, ss_add, wpm at 1.
  destruct (ss_AddStreamEntry s _ _) as [s1 [e|n]] eqn:Ha; apply wpm_ret.
  - apply ss_Entry_err in Ha as [He Hp1]. rewrite <-Hp1 in Hp.
    eapply wpm_mono; [by apply IH| |done]. intros [] s2 [He2 Hp2]. split; [congruence|done].
  - apply ss_Entry_ok in Ha as (He & p' & Hp' & Hp1). assert (p' = p) as -> by congruence.
    eapply wpm_mono; [by apply IH| |done]. intros [] s2 [He2 Hp2].
    split; [congruence|]. simpl. by rewrite Hp2, <-app_assoc.
Qed.

(** The stream once the operation, the bookmark and the start of a block are
    written *)
Definition block_open (k : DSL2Block) s s3 : Prop :=
  ∃ s1 s2 n2 n3, ss_StartAtomicOp s = (s1, None) ∧
    ss_AddStreamBookmark s1 (DSBookMark_Encode (block_mark k)) = (s2, inr n2) ∧
    ss_AddStreamEntry s2 EntryTypeL2BlockStart (DSL2BlockStart_Encode (block_start k)) = (s3, inr n3).

Lemma ss_add_Ret m s s' r : ss_add m s = (s', Ret r) → ∃ n, m s = (s', inr n).
Proof. unfold ss_add. destruct (m s) as [s1 [e|n]]; [done|]. intros [= -> _]. by exists n. Qed.

Lemma wp_run {E A} `(m : GoM Stream E A) (Q : A → Stream → Prop) R s :
  wpm False m Q R s → wpm False m (λ a s', m s = (s', Ret a) ∧ Q a s') R s.
Proof. unfold wpm. by destruct (m s) as [s' []]. Qed.

Lemma send_block_spec b s :
  wpm False (send_block b)
    (λ _ s', ∃ s3, block_open (fu_Block b) s s3 ∧ ss_entries s' = ss_entries s ++
       mark_entry (fu_Block b) :: start_entry (fu_Block b) ::
       (sent_tx <$> accepted s3 (fu_Txs b)) ++ [end_entry (fu_Block b)])
    (λ _ s', ss_entries s' = ss_entries s) s.
Proof.
  unfold send_block. apply wpm_bind.
  eapply wpm_mono with (Q := λ a s1, StartAtomicOp s = (s1, Ret a) ∧
    ss_entries s1 = ss_entries s ∧ ss_pending s1 = Some []);
    [by apply wp_run, wp_start| |done]. intros [] s1 (Hr1 & He1 & Hp1).
  apply wpm_bind. eapply wpm_mono; [by apply wp_run, adds_mark| |by intros; congruence].
  intros [] s2 (Hr2 & He2 & Hp2). apply wpm_bind.
  eapply wpm_mono; [by apply wp_run, adds_entry| |by intros; congruence].
  intros [] s3 (Hr3 & He3 & Hp3).
  apply wpm_bind. eapply wpm_mono; [by apply send_txs| |done]. intros [] s4 [He4 Hp4].
  apply wpm_bind.
  eapply wpm_mono; [by apply adds_entry| |by intros; congruence]. intros [] s5 [He5 Hp5].
  eapply wpm_mono; [by apply wp_commit| |by intros; congruence]. intros [] s6 He6.
  exists s3. split; [|rewrite He6, He5, He4, He3, He2, He1; simpl; by rewrite <-?app_assoc].
  apply (ss_add_Ret (λ s, ss_AddStreamBookmark s _)) in Hr2 as [n2 Hr2].
  apply (ss_add_Ret (λ s, ss_AddStreamEntry s _ _)) in Hr3 as [n3 Hr3]. exists s1, s2, n2, n3.
  split_and!; [|done..]. unfold StartAtomicOp, ss_call in Hr1.
  by destruct (ss_StartAtomicOp s) as [? []]; simplify_eq.
Qed.

(** C13. A round of the sequencer's stream writes a whole block or nothing, with
    one exception: a transaction whose entry the stream refuses is left out,
    no other is, and the block is committed without it.  After an error the next round
    writes nothing, and no later one does. *)
Theorem sendDataToStreamer_spec b st :
  (sn_nil st = false → sn_err st = None → ∃ st',
     sendDataToStreamer b st = Ret st' ∧ sn_nil st' = false ∧
     (sn_err st' = None → ∃ s3, block_open (fu_Block b) (sn_stream st) s3 ∧
        ss_entries (sn_stream st') = ss_entries (sn_stream st) ++
          mark_entry (fu_Block b) :: start_entry (fu_Block b) ::
          (sent_tx <$> accepted s3 (fu_Txs b)) ++ [end_entry (fu_Block b)]) ∧
     (sn_err st' ≠ None → ss_entries (sn_stream st') = ss_entries (sn_stream st))) ∧
  (sn_nil st = false → sn_err st ≠ None → ∃ st',
     sendDataToStreamer b st = Ret st' ∧ sn_nil st' = true ∧
     ss_entries (sn_stream st') = ss_entries (sn_stream st)) ∧
  (sn_nil st = true → sendDataToStreamer b st =
     match sn_err st with None => Ret st | Some _ => Panic end).
Proof.
  unfold sendDataToStreamer. destruct st as [s nil err]; simpl. split_and!.
  - intros -> ->. go_bind. simpl. pose proof (send_block_spec b s) as Hs. unfold wpm in Hs.
    destruct (send_block b s) as [s' [[]|e|]]; [| |done]; eexists; split_and!; simpl; done.
  - intros -> Herr. destruct err as [e|]; [|done].
    destruct (ss_RollbackAtomicOp s) as [s' e'] eqn:Hr. go_bind. simpl.
    apply ss_Rollback_any in Hr as [Hr _]. eexists. split_and!; [done..|]. exact Hr.
  - intros ->. by destruct err.
Qed.
End sender.

(** ** Runs on a stream in memory *)

Module StreamRun.
#[export] Existing Instance RefEthereum.ref_ethereum.
#[export] Existing Instance RefEthereum.ref_laws.
#[export] Existing Instance RefStream.ref_streamer.
#[export] Existing Instance RefStream.ref_stream_spec.
#[export] Instance run_hash : EthHash :=
  {| eth_BytesToHash bs := of_digits 256 bs; eth_BigToHash z := z mod 2 ^ 256 |}.
#[export] Instance run_hash_laws : EthHashLaws.
Proof. by constructor. Qed.

Definition batch (n : Z) : DSBatch :=
  mkDSBatch (mkStateBatch n 3 [] n 0 0 0 9 None zero_resources false) 7.
Definition l2_block (batch number : Z) : DSL2Block := mkDSL2Block batch number 5 9 3 7 11 12.
Definition l2_tx (block : Z) (data : bytes) : DSL2Transaction :=
  mkDSL2Transaction block 255 1 0 (zlen data) data.

(** Batch 1 has two blocks, batch 2 none and batch 3 one. *)
Definition rows3 : DSRows :=
  mkDSRows (Some (l2_block 0 0)) [(batch 1, true); (batch 2, true); (batch 3, true)]
    [l2_block 1 1; l2_block 1 2; l2_block 3 3] [l2_tx 1 [1]; l2_tx 1 [2]; l2_tx 3 [3]].
Definition rows10001 : DSRows :=
  mkDSRows (Some (l2_block 0 0)) [(batch 10001, true)] [l2_block 10001 1] [l2_tx 1 [1]].
Definition storage : Z → Z → Z → DSErr + Z := λ _ _ _, inr 42.
Definition keccak : bytes → bytes := λ b, take 32 b.
Definition stream (faults : list bool) : @Stream RefStream.ref_streamer :=
  RefStream.mkRefStream [] None faults.

Ltac sorted_rows := repeat (constructor; simpl; try lia).

Lemma rows3_ok : rows_ok rows3.
Proof. split; sorted_rows. Qed.
Lemma rows10001_ok : rows_ok rows10001.
Proof. split; sorted_rows. Qed.

Lemma entries_roundtrip_witness :
  DSL2BlockStart_Decode (E := ()) (DSL2BlockStart_Encode (block_start (l2_block 10001 1)))
    = Ret (block_start (l2_block 10001 1)).
Proof.
  destruct (entries_roundtrip (E := ())) as (Hs & _). apply Hs.
  split; simpl; unfold in_u64, in_i64, is_hash, is_addr, in_u16; lia.
Defined.

Lemma computeFullBatches_groups_witness :
  length (computeFullBatches [batch 1; batch 2; batch 3] (row_blocks rows3) (row_txs rows3)) = 3%nat ∧
  computeFullBatches [batch 1; batch 2; batch 3] (row_blocks rows3) (row_txs rows3)
    = full_batch (row_blocks rows3) (row_txs rows3) <$> [batch 1; batch 2; batch 3].
Proof. split; [reflexivity|]. apply computeFullBatches_groups; sorted_rows. Defined.

Definition done {A} (r : option (A * GoRes DSErr ())) : bool :=
  match r with Some (_, Ret _) => true | _ => false end.

(** No query fails. *)
Definition sound : DSFaults :=
  mkDSFaults None (λ _ _, AllRows) (λ _ _, AllRows) (λ _ _, AllRows).
Lemma sound_uncut : uncut sound.
Proof. intros a b. split_and!; intros k [=]. Qed.

(** The run that generates the file *)
Definition run (rows : DSRows) (faults : DSFaults) (fuel : nat) :
    option (@Stream RefStream.ref_streamer * GoRes DSErr ()) :=
  @GenerateDataStreamerFile run_hash RefStream.ref_streamer (pg_DSState rows faults storage)
    keccak true None fuel (stream []).


Lemma data_stream_repeats_witness :
  done (run rows10001 sound 3) = true ∧
  ∃ s' l1 l2 l3 E, run rows10001 sound 3 = Some (s', Ret tt) ∧ length E = 4%nat ∧
    ss_entries s' = l1 ++ E ++ l2 ++ E ++ l3.
Proof.
  assert (done (run rows10001 sound 3) = true) as Hd by (vm_compute; reflexivity).
  split; [exact Hd|].
  destruct (data_stream_repeats keccak rows10001 sound storage None true 10001 2 (batch 10001) true
    (stream [])) as (s' & r & Hg & Hr);
    [exact rows10001_ok|exact sound_uncut|reflexivity| | | | | | |].
  - intros r Hr. simpl in Hr. apply elem_of_cons in Hr as [->|Hr]; [simpl; lia|].
    by apply elem_of_nil in Hr.
  - lia.
  - lia.
  - by left.
  - reflexivity.
  - exact I.
  - change (run rows10001 sound 3 = Some (s', r)) in Hg. rewrite Hg in Hd.
    destruct r as [[]|e|]; [|discriminate Hd|discriminate Hd].
    destruct (Hr eq_refl) as (l1 & l2 & l3 & Hl). do 5 eexists. split; [exact Hg|].
    split; [|exact Hl]. reflexivity.
Defined.

(** The entries a run leaves, when it ends without an error *)
Definition run_entries (rows : DSRows) (faults : DSFaults) : option (list Entry) :=
  match run rows faults 2 with
  | Some (s, Ret _) => Some (RefStream.rs_entries s)
  | _ => None
  end.

(** Nothing orders the rows of the batches.  When batch 3 is returned before
    batch 1, the blocks are asked for from batch 3 to batch 1: the run ends
    without an error, and the stream has no block but the genesis block. *)
Lemma unordered_batches_lose_blocks :
  run_entries (mkDSRows (row_genesis rows3) (reverse (row_batches rows3)) (row_blocks rows3)
    (row_txs rows3)) sound =
  Some (genesis_entries (l2_block 0 0) ++
    [mkEntry EntryTypeUpdateGER (DSUpdateGER_Encode (update_ger (batch 3)))]).
Proof. vm_compute. reflexivity. Qed.

(** The connection is lost after the first batch: the run ends without an
    error, with the blocks of batch 1 only. *)
Lemma cut_batches_lose_blocks :
  run_entries rows3 (mkDSFaults None (λ _ _, CutAfter 1) (λ _ _, AllRows) (λ _ _, AllRows)) =
  Some (genesis_entries (l2_block 0 0) ++ @blocks_entries run_hash RefStream.ref_streamer keccak
    rows3 sound storage None 1).
Proof. vm_compute. reflexivity. Qed.

(** The entry of the first of two transactions cannot be added: the block is
    committed with the second one only. *)
Definition sender : Sender := mkSender (stream [false; false; false; true]) false None.
Definition block2 : DSL2FullBlock :=
  mkDSL2FullBlock (l2_block 1 1) [l2_tx 1 [1]; l2_tx 1 [2]].

Lemma sendDataToStreamer_spec_witness :
  ∃ st' s3, sendDataToStreamer block2 sender = Ret st' ∧ sn_err st' = None ∧
    block_open (l2_block 1 1) (sn_stream sender) s3 ∧ accepted s3 (fu_Txs block2) = [l2_tx 1 [2]] ∧
    RefStream.rs_entries (sn_stream st') =
      [mark_entry (l2_block 1 1); start_entry (l2_block 1 1); sent_tx (l2_tx 1 [2]);
       end_entry (l2_block 1 1)].
Proof.
  destruct (sendDataToStreamer_spec block2 sender) as [Hs _].
  destruct (Hs eq_refl eq_refl) as (st' & Hrun & _ & Hok & _).
  assert (sendDataToStreamer block2 sender = Ret (mkSender (RefStream.mkRefStream
    [mark_entry (l2_block 1 1); start_entry (l2_block 1 1); sent_tx (l2_tx 1 [2]);
     end_entry (l2_block 1 1)] None []) false None)) as Heq by reflexivity.
  rewrite Heq in Hrun. injection Hrun as <-. destruct (Hok eq_refl) as (s3 & Ho & He).
  eexists _, s3. split; [exact Heq|]. split; [reflexivity|]. split; [exact Ho|].
  split; [|reflexivity]. destruct Ho as (s1 & s2 & n2 & n3 & H1 & H2 & H3).
  cbn in H1. injection H1 as <-. cbn in H2. injection H2 as <- _. cbn in H3. injection H3 as <- _.
  reflexivity.
Defined.
End StreamRun.
