(* ===== verification/FinBase.v ===== *)
(** * The finalizer of the sequencer: its state and what it calls

    The fields of [finalizer] of [sequencer/finalizer.go] that its methods
    change, the batch and the L2 block being built, and the world they act on:
    the trackers shared with the worker, the database and the statuses set in
    the pool.  The clock, the executor, the prices of L1 and L2, the answers
    of the pool and the iteration order of Go maps come from the environment:
    call number [n] gets the answer number [n].  The nil-able fields are
    options.  A goroutine that only writes a status to the pool is run where
    it is started. *)

From S2P Require Import Prelude Digits Hex GoEthereum TxCodec BatchV2 NewTracker.
From S2P Require Import Resources TxTracker AddrQueue Worker BestFit ExecErrors ExecTypes.
From S2P Require Import GoMonad Postgres StateStore GoFloat EffGasPrice DataStream.

(** ** Data *)

Record Batch := mkBatch {
  b_batchNumber : Z;
  b_coinbase : Z;
  b_timestamp : Z;
  b_initialStateRoot : Z;
  b_initialAccInputHash : Z;
  b_imStateRoot : Z;
  b_imAccInputHash : Z;
  b_finalStateRoot : Z;
  b_finalAccInputHash : Z;
  b_localExitRoot : Z;
  b_globalExitRoot : Z;
  b_countOfTxs : Z;
  b_remainingResources : BatchResources;
  b_closingReason : string
}.

Record L2Block `{!GoEthereum} := mkL2Block {
  l_timestamp : Z;
  l_deltaTimestamp : Z;
  l_initialStateRoot : Z;
  l_initialAccInputHash : Z;
  l_l1InfoTreeExitRoot : L1InfoTreeExitRootStorageEntry;
  l_transactions : list loc;
  l_batchResponse : option ProcessBatchResponse
}.
Arguments mkL2Block {_}.

Record FinalizerCfg := mkFinalizerCfg {
  ForcedBatchDeadlineTimeout : Z;
  ResourcePercentageToCloseBatch : Z;
  GERFinalityNumberOfBlocks : Z;
  TimestampResolution : Z;
  L2BlockTime : Z;
  StopSequencerOnBatchNum : Z;
  SequentialReprocessFullBatch : bool
}.

Inductive TxStatus := TxStatusPending | TxStatusInvalid | TxStatusSelected | TxStatusFailed.

(** The failed reason of a status: the text of an error, or what the worker
    left in the tracker *)
Inductive Reason := NoReason | ReasonError (e : error) | ReasonText (s : string).

Inductive ExecFailure := ExecErr (e : error) | ExecOther (msg : string).

(** ** Errors *)

Inductive FinErr `{!GoEthereum, !Postgres Tables} :=
  | ErrEffectiveGasPriceReprocess
  | ErrExecution (e : ExecFailure)
  | ErrRom (e : option error)
  | ErrResources (e : BatchResourceError)
  | ErrEgp (e : EgpErr)
  | ErrHexByte (e : HexErr)
  | ErrPoolStatus (e : string)
  | ErrMarshal (e : string)
  | ErrState (e : StoreErr)
  | ErrStoreBlock (e : L2StoreErr)
  | ErrBatchData (e : CodecErr)
  | ErrRollback (cause rollback : FinErr)
  | ErrNilWrapped
  | ErrExecutorError
  | ErrProcessBatchOOC
  | ErrGetBatchByNumber
  | ErrProcessBatch
  | ErrStateRootNoMatch
  | ErrFatal (e : FinErr).

(** What made the finalizer halt *)
Inductive HaltReason `{!GoEthereum, !Postgres Tables} :=
  | HaltNoResponse
  | HaltL2Reorg
  | HaltStopBatch
  | HaltProcessL2Block (e : option FinErr)
  | HaltStoreL2Block (e : FinErr)
  | HaltEmptyL2Block (e : FinErr)
  | HaltNewBatch (e : FinErr)
  | HaltReprocess.

(** ** State *)

Record finalizer (T : Type) `{!GoEthereum, !Postgres Tables} := mkFinalizer {
  worker : Worker T;
  wipBatch : option Batch;
  wipL2Block : option L2Block;
  haltError : option HaltReason;
  nextForcedBatches : list ForcedBatch;
  nextForcedBatchDeadline : Z;
  lastL1InfoTree : L1InfoTreeExitRootStorageEntry;
  pendingL2BlocksToProcess : list L2Block;
  pendingL2BlocksToStore : list L2Block;
  storedFlushID : Z;
  lastPendingFlushID : Z
}.
Arguments mkFinalizer {T _ _}.
Arguments worker {T _ _}.
Arguments wipBatch {T _ _}.
Arguments wipL2Block {T _ _}.
Arguments haltError {T _ _}.
Arguments nextForcedBatches {T _ _}.
Arguments nextForcedBatchDeadline {T _ _}.
Arguments lastL1InfoTree {T _ _}.
Arguments pendingL2BlocksToProcess {T _ _}.
Arguments pendingL2BlocksToStore {T _ _}.
Arguments storedFlushID {T _ _}.
Arguments lastPendingFlushID {T _ _}.

(** The trackers, the database, the statuses set so far (the last one first),
    the blocks sent to the data stream and the number of calls of the
    environment *)
Record World (T : Type) `{!GoEthereum, !Postgres Tables} := mkWorld {
  fin : finalizer T;
  trackers : store;
  db : @PgServer Tables _;
  statuses : list (Z * TxStatus * Reason);
  dataToStream : list DSL2FullBlock;
  ticks : nat
}.
Arguments mkWorld {T _ _}.
Arguments fin {T _ _}.
Arguments trackers {T _ _}.
Arguments db {T _ _}.
Arguments statuses {T _ _}.
Arguments dataToStream {T _ _}.
Arguments ticks {T _ _}.

(** [env_UpdateTxStatus] is the error of the pool; [env_order] and
    [env_addrs] are the orders in which Go ranges over the transactions of a
    queue and over the touched addresses; [env_WaitFlush] is the flush id the
    executor has stored when a wait for one ends, [None] when the context is
    done. *)
Class FinalizerEnv `{!GoEthereum} := {
  env_now : nat → Z;
  env_ProcessBatchV2 : nat → ProcessRequest → bool → ExecFailure + ProcessBatchResponse;
  env_GetL1AndL2GasPrice : nat → Z * Z;
  env_UpdateTxStatus : nat → option string;
  env_order : nat → addrQueue → list Z;
  env_addrs : nat → gmap Z InfoReadWrite → list Z;
  env_WaitFlush : nat → Z → option Z
}.

(** The orders visit every entry once; a wait ends with the id that was
    waited for or a later one. *)
Class FinalizerEnvLaws `{!GoEthereum, !FinalizerEnv} : Prop := {
  env_order_all : ∀ n a, map_order (notReadyTxs a) (env_order n a);
  env_addrs_all : ∀ n m, env_addrs n m ≡ₚ (map_to_list m).*1;
  env_WaitFlush_ge : ∀ n id s, env_WaitFlush n id = Some s → id ≤ s
}.

(** ** Assignments to the fields *)

Section fields.
Context {T : Type} `{!GoEthereum, !Postgres Tables}.
Implicit Types (f : finalizer T) (w : World T).

Definition set_worker (x : Worker T) f : finalizer T :=
    mkFinalizer x (wipBatch f) (wipL2Block f) (haltError f) (nextForcedBatches f)
    (nextForcedBatchDeadline f) (lastL1InfoTree f) (pendingL2BlocksToProcess f)
    (pendingL2BlocksToStore f) (storedFlushID f) (lastPendingFlushID f).
Definition set_wipBatch (x : option Batch) f : finalizer T :=
    mkFinalizer (worker f) x (wipL2Block f) (haltError f) (nextForcedBatches f)
    (nextForcedBatchDeadline f) (lastL1InfoTree f) (pendingL2BlocksToProcess f)
    (pendingL2BlocksToStore f) (storedFlushID f) (lastPendingFlushID f).
Definition set_wipL2Block (x : option L2Block) f : finalizer T :=
    mkFinalizer (worker f) (wipBatch f) x (haltError f) (nextForcedBatches f)
    (nextForcedBatchDeadline f) (lastL1InfoTree f) (pendingL2BlocksToProcess f)
    (pendingL2BlocksToStore f) (storedFlushID f) (lastPendingFlushID f).
Definition set_haltError (x : option HaltReason) f : finalizer T :=
    mkFinalizer (worker f) (wipBatch f) (wipL2Block f) x (nextForcedBatches f)
    (nextForcedBatchDeadline f) (lastL1InfoTree f) (pendingL2BlocksToProcess f)
    (pendingL2BlocksToStore f) (storedFlushID f) (lastPendingFlushID f).
Definition set_nextForcedBatches (x : list ForcedBatch) f : finalizer T :=
    mkFinalizer (worker f) (wipBatch f) (wipL2Block f) (haltError f) x
    (nextForcedBatchDeadline f) (lastL1InfoTree f) (pendingL2BlocksToProcess f)
    (pendingL2BlocksToStore f) (storedFlushID f) (lastPendingFlushID f).
Definition set_deadline (x : Z) f : finalizer T :=
    mkFinalizer (worker f) (wipBatch f) (wipL2Block f) (haltError f) (nextForcedBatches f) x
    (lastL1InfoTree f) (pendingL2BlocksToProcess f) (pendingL2BlocksToStore f)
    (storedFlushID f) (lastPendingFlushID f).
Definition set_toProcess (x : list L2Block) f : finalizer T :=
    mkFinalizer (worker f) (wipBatch f) (wipL2Block f) (haltError f) (nextForcedBatches f)
    (nextForcedBatchDeadline f) (lastL1InfoTree f) x (pendingL2BlocksToStore f)
    (storedFlushID f) (lastPendingFlushID f).
Definition set_toStore (x : list L2Block) f : finalizer T :=
    mkFinalizer (worker f) (wipBatch f) (wipL2Block f) (haltError f) (nextForcedBatches f)
    (nextForcedBatchDeadline f) (lastL1InfoTree f) (pendingL2BlocksToProcess f) x
    (storedFlushID f) (lastPendingFlushID f).
Definition set_storedFlushID (x : Z) f : finalizer T :=
    mkFinalizer (worker f) (wipBatch f) (wipL2Block f) (haltError f) (nextForcedBatches f)
    (nextForcedBatchDeadline f) (lastL1InfoTree f) (pendingL2BlocksToProcess f)
    (pendingL2BlocksToStore f) x (lastPendingFlushID f).
Definition set_lastPendingFlushID (x : Z) f : finalizer T :=
    mkFinalizer (worker f) (wipBatch f) (wipL2Block f) (haltError f) (nextForcedBatches f)
    (nextForcedBatchDeadline f) (lastL1InfoTree f) (pendingL2BlocksToProcess f)
    (pendingL2BlocksToStore f) (storedFlushID f) x.

Definition on_fin (g : finalizer T → finalizer T) w : World T :=
  mkWorld (g (fin w)) (trackers w) (db w) (statuses w) (dataToStream w) (ticks w).
Definition set_trackers (σ : store) w : World T :=
  mkWorld (fin w) σ (db w) (statuses w) (dataToStream w) (ticks w).
Definition set_db (s : PgServer) w : World T :=
  mkWorld (fin w) (trackers w) s (statuses w) (dataToStream w) (ticks w).
Definition add_status (x : Z * TxStatus * Reason) w : World T :=
  mkWorld (fin w) (trackers w) (db w) (x :: statuses w) (dataToStream w) (ticks w).
Definition add_stream (b : DSL2FullBlock) w : World T :=
  mkWorld (fin w) (trackers w) (db w) (statuses w) (dataToStream w ++ [b]) (ticks w).
Definition set_ticks (n : nat) w : World T :=
  mkWorld (fin w) (trackers w) (db w) (statuses w) (dataToStream w) n.
End fields.

(** ** Calls *)

Abbreviation FinM T := (GoM (World T) FinErr).

Section calls.
Context `{!GoEthereum, !Postgres Tables, !FinalizerEnv, !EthStrings}.
Context {T : Type} `{!ReadyListOps T}.

(** The next answer of the environment *)
Definition ask {A} (answer : nat → A) : FinM T A := λ w,
  (set_ticks (S (ticks w)) w, Ret (answer (ticks w))).

Definition now : FinM T Z := ask env_now.

Definition ProcessBatchV2 (request : ProcessRequest) (updateMerkleTree : bool) :
    FinM T (ExecFailure + ProcessBatchResponse) :=
  ask (λ n, env_ProcessBatchV2 n request updateMerkleTree).

(** The error of the pool, if any, is returned. *)
Definition UpdateTxStatus (hash : Z) (newStatus : TxStatus) (failedReason : Reason) :
    FinM T (option string) :=
  modify (add_status (hash, newStatus, failedReason)) ;; ask env_UpdateTxStatus.

(** A method of the state, with its error as a value or as the error *)
Definition state_call {A} (m : StoreM A) : FinM T A :=
  wrap_err ErrState (zoom db set_db m).
Definition block_call {A} (m : L2StoreM A) : FinM T A :=
  wrap_err ErrStoreBlock (zoom db set_db m).

(** [f.wipBatch.field] and [f.wipL2Block.field]: nil panics. *)
Definition get_wipBatch : FinM T Batch := w ← gets (wipBatch ∘ fin); lift (or_panic w).
Definition get_wipL2Block : FinM T L2Block := b ← gets (wipL2Block ∘ fin); lift (or_panic b).
Definition put_wipBatch (b : Batch) : FinM T () := modify (on_fin (set_wipBatch (Some b))).
Definition put_wipL2Block (b : L2Block) : FinM T () := modify (on_fin (set_wipL2Block (Some b))).

Definition get_tracker (l : loc) : FinM T TxTracker := gets (λ w, trackers w l).
Definition put_tracker (l : loc) (t : TxTracker) : FinM T () :=
  modify (λ w, set_trackers (upd (trackers w) l t) w).

(** The order in which the worker ranges over the queue of an address *)
Definition queue_order (w : World T) (addr : Z) : list Z :=
  match pool (worker (fin w)) !! addr_String addr with
  | Some a => env_order (ticks w) a
  | None => []
  end.

(** The methods of the worker; [None] is a panic. *)
Definition worker_DeleteTx (txHash addr : Z) : FinM T () := λ w,
  match DeleteTx (trackers w) (worker (fin w)) txHash addr (queue_order w addr) with
  | Some wk => (set_ticks (S (ticks w)) (on_fin (set_worker wk) w), Ret tt)
  | None => (w, Panic)
  end.

Definition worker_MoveTxToNotReady (txHash from : Z) (nonce balance : option Z) :
    FinM T (list loc) := λ w,
  match MoveTxToNotReady (trackers w) (worker (fin w)) txHash from nonce balance
          (queue_order w from) with
  | Some (σ, wk, txs) =>
      (set_ticks (S (ticks w)) (set_trackers σ (on_fin (set_worker wk) w)), Ret txs)
  | None => (w, Panic)
  end.

Definition worker_UpdateAfter (from : Z) (touched : gmap Z InfoReadWrite) :
    FinM T (list loc) := λ w,
  match UpdateAfterSingleSuccessfulTxExecution (trackers w) (worker (fin w)) from touched
          (env_addrs (ticks w) touched) (queue_order w) with
  | Some (σ, wk, txs) =>
      (set_ticks (S (ticks w)) (set_trackers σ (on_fin (set_worker wk) w)), Ret txs)
  | None => (w, Panic)
  end.

Definition worker_UpdateTxZKCounters (txHash from : Z) (counters : ZKCounters) : FinM T () := λ w,
  (set_ticks (S (ticks w)) (set_trackers
     (Worker_UpdateTxZKCounters (trackers w) (worker (fin w)) txHash from counters
        (queue_order w from)) w), Ret tt).

Definition worker_side (g : Worker T → Worker T) : FinM T () :=
  modify (λ w, on_fin (set_worker (g (worker (fin w)))) w).
End calls.
