(* ===== verification/FinTx.v ===== *)
(** * Processing of transactions by the finalizer

    [processTransaction], [handleProcessTransactionResponse],
    [handleProcessTransactionError], [compareTxEffectiveGasPrice] and
    [updateWorkerAfterSuccessfulProcessing] of [sequencer/finalizer.go],
    [checkRemainingResources] of [sequencer/batch.go], and the loop of
    [finalizeBatches] that processes a transaction again when its effective
    gas price changed.  [tx] is nil ([None]) for an empty L2 block. *)

From S2P Require Import Prelude Digits Hex GoEthereum TxCodec BatchV2 NewTracker.
From S2P Require Import Resources TxTracker AddrQueue Worker BestFit ExecErrors ExecTypes.
From S2P Require Import GoMonad Postgres StateStore GoFloat EffGasPrice DataStream FinBase.

(** ** Updates of a tracker *)

Definition with_egp (t : TxTracker) (egp pct : Z) (last : bool) (log : EffectiveGasPriceLog) :
    TxTracker :=
  mkTxTracker (Hash t) (HashStr t) (From t) (FromStr t) (Nonce t) (Gas t) (GasPrice t) (Cost t)
    (Resources_ t) (RawTx t) (ReceivedAt t) (IP t) (FailedReason t) egp pct last log
    (L1GasPrice t) (L2GasPrice t) (FlushId t).

Definition with_prices (t : TxTracker) (l1 l2 : Z) : TxTracker :=
  mkTxTracker (Hash t) (HashStr t) (From t) (FromStr t) (Nonce t) (Gas t) (GasPrice t) (Cost t)
    (Resources_ t) (RawTx t) (ReceivedAt t) (IP t) (FailedReason t) (EffectiveGasPrice t)
    (EGPPercentage t) (IsLastExecution t) (EGPLog t) l1 l2 (FlushId t).

Definition with_FlushId (t : TxTracker) (flushId : Z) : TxTracker :=
  mkTxTracker (Hash t) (HashStr t) (From t) (FromStr t) (Nonce t) (Gas t) (GasPrice t) (Cost t)
    (Resources_ t) (RawTx t) (ReceivedAt t) (IP t) (FailedReason t) (EffectiveGasPrice t)
    (EGPPercentage t) (IsLastExecution t) (EGPLog t) (L1GasPrice t) (L2GasPrice t) flushId.

Definition with_log (t : TxTracker) (log : EffectiveGasPriceLog) : TxTracker :=
  with_egp t (EffectiveGasPrice t) (EGPPercentage t) (IsLastExecution t) log.

(** The entries of the log, in the order in which they are written *)
Definition log_start (l : EffectiveGasPriceLog) (l1 l2 gasUsed gasPrice : Z) :=
  mkEGPLog (egpEnabled l) (ValueFinal l) (ValueFirst l) (ValueSecond l) (FinalDeviation l)
    (MaxDeviation l) gasUsed (GasUsedSecond l) gasPrice (Percentage l) (Reprocess l)
    (GasPriceOC l) (BalanceOC l) l1 l2 (egpError l).
Definition log_error (l : EffectiveGasPriceLog) (text : string) :=
  mkEGPLog (egpEnabled l) (ValueFinal l) (ValueFirst l) (ValueSecond l) (FinalDeviation l)
    (MaxDeviation l) (GasUsedFirst l) (GasUsedSecond l) (egpGasPrice l) (Percentage l)
    (Reprocess l) (GasPriceOC l) (BalanceOC l) (egpL1GasPrice l) (egpL2GasPrice l) text.
Definition log_first (l : EffectiveGasPriceLog) (value : Z) :=
  mkEGPLog (egpEnabled l) (ValueFinal l) value (ValueSecond l) (FinalDeviation l)
    (MaxDeviation l) (GasUsedFirst l) (GasUsedSecond l) (egpGasPrice l) (Percentage l)
    (Reprocess l) (GasPriceOC l) (BalanceOC l) (egpL1GasPrice l) (egpL2GasPrice l) (egpError l).
Definition log_percentage (l : EffectiveGasPriceLog) (pct : Z) :=
  mkEGPLog (egpEnabled l) (ValueFinal l) (ValueFirst l) (ValueSecond l) (FinalDeviation l)
    (MaxDeviation l) (GasUsedFirst l) (GasUsedSecond l) (egpGasPrice l) pct
    (Reprocess l) (GasPriceOC l) (BalanceOC l) (egpL1GasPrice l) (egpL2GasPrice l) (egpError l).
Definition log_second (l : EffectiveGasPriceLog) (value gasUsed : Z) :=
  mkEGPLog (egpEnabled l) (ValueFinal l) (ValueFirst l) value (FinalDeviation l)
    (MaxDeviation l) (GasUsedFirst l) gasUsed (egpGasPrice l) (Percentage l)
    (Reprocess l) (GasPriceOC l) (BalanceOC l) (egpL1GasPrice l) (egpL2GasPrice l) (egpError l).
Definition log_deviation (l : EffectiveGasPriceLog) (diff maxDeviation : Z) (reprocess : bool) :=
  mkEGPLog (egpEnabled l) (ValueFinal l) (ValueFirst l) (ValueSecond l) diff maxDeviation
    (GasUsedFirst l) (GasUsedSecond l) (egpGasPrice l) (Percentage l) reprocess
    (GasPriceOC l) (BalanceOC l) (egpL1GasPrice l) (egpL2GasPrice l) (egpError l).
Definition log_final (l : EffectiveGasPriceLog) (enabled gasPriceOC balanceOC : bool) (value : Z) :=
  mkEGPLog enabled value (ValueFirst l) (ValueSecond l) (FinalDeviation l) (MaxDeviation l)
    (GasUsedFirst l) (GasUsedSecond l) (egpGasPrice l) (Percentage l) (Reprocess l)
    gasPriceOC balanceOC (egpL1GasPrice l) (egpL2GasPrice l) (egpError l).

Definition egp_text (e : EgpErr) : string :=
  match e with
  | ErrZeroL1GasPrice => "L1 gas price 0"
  | ErrEffectiveGasPriceEmpty => "effectiveGasPrice or gasPrice cannot be nil or zero"
  | ErrEffectiveGasPriceIsZero => "effectiveGasPrice cannot be zero"
  end.

(** ** Updates of the batch *)

Definition with_remaining (b : Batch) (r : BatchResources) : Batch :=
  mkBatch (b_batchNumber b) (b_coinbase b) (b_timestamp b) (b_initialStateRoot b)
    (b_initialAccInputHash b) (b_imStateRoot b) (b_imAccInputHash b) (b_finalStateRoot b)
    (b_finalAccInputHash b) (b_localExitRoot b) (b_globalExitRoot b) (b_countOfTxs b) r
    (b_closingReason b).

Definition with_count (b : Batch) (n : Z) : Batch :=
  mkBatch (b_batchNumber b) (b_coinbase b) (b_timestamp b) (b_initialStateRoot b)
    (b_initialAccInputHash b) (b_imStateRoot b) (b_imAccInputHash b) (b_finalStateRoot b)
    (b_finalAccInputHash b) (b_localExitRoot b) (b_globalExitRoot b) n (b_remainingResources b)
    (b_closingReason b).

Definition with_im (b : Batch) (stateRoot localExitRoot accInputHash : Z) : Batch :=
  mkBatch (b_batchNumber b) (b_coinbase b) (b_timestamp b) (b_initialStateRoot b)
    (b_initialAccInputHash b) stateRoot accInputHash (b_finalStateRoot b)
    (b_finalAccInputHash b) localExitRoot (b_globalExitRoot b) (b_countOfTxs b)
    (b_remainingResources b) (b_closingReason b).

Section tx.
Context `{!GoEthereum, !Postgres Tables, !FinalizerEnv, !EthStrings, !GoFloatConv}.
Context {T : Type} `{!ReadyListOps T}.
Context (effectiveGasPrice : Egp.EffectiveGasPrice) (forkCfg : ForkCfg).

Definition halt (reason : HaltReason) : FinM T () :=
  modify (on_fin (set_haltError (Some reason))).

Definition L2Block_isEmpty (b : L2Block) : bool := bool_decide (l_transactions b = []).

Definition L2Block_addTx (b : L2Block) (tx : loc) : L2Block :=
  mkL2Block (l_timestamp b) (l_deltaTimestamp b) (l_initialStateRoot b)
    (l_initialAccInputHash b) (l_l1InfoTreeExitRoot b) (l_transactions b ++ [tx])
    (l_batchResponse b).

Definition updateLastPendingFlushID (newFlushID : Z) : FinM T () :=
  modify (on_fin (λ f, if lastPendingFlushID f <? newFlushID
                       then set_lastPendingFlushID newFlushID f else f)).

(** The sign of the new price against the signed one decides the price; an
    opcode that reads the price or a balance forces the signed one. *)
Definition compareTxEffectiveGasPrice (tx : loc) (newEffectiveGasPrice : Z)
    (hasGasPriceOC hasBalanceOC : bool) : FinM T () :=
  t ← get_tracker tx;
  let '(txGasPrice, _) :=
    Egp.GetTxAndL2GasPrice effectiveGasPrice (GasPrice t) (L1GasPrice t) (L2GasPrice t) in
  let diff := Z.abs (EffectiveGasPrice t - newEffectiveGasPrice) in
  let maxDeviation :=
    Egp.big_Div (EffectiveGasPrice t * Egp.GetFinalDeviation effectiveGasPrice) 100 in
  if maxDeviation <? diff
  then
    let egp :=
      if newEffectiveGasPrice <? txGasPrice
      then if hasGasPriceOC || hasBalanceOC then txGasPrice else newEffectiveGasPrice
      else txGasPrice in
    put_tracker tx (with_egp t egp (EGPPercentage t) (IsLastExecution t)
                      (log_deviation (EGPLog t) diff maxDeviation true)) ;;
    fail ErrEffectiveGasPriceReprocess
  else
    put_tracker tx (with_log t (log_deviation (EGPLog t) diff maxDeviation (Reprocess (EGPLog t)))).

(** The counters of the executor and the bytes of the transaction *)
Definition checkRemainingResources (result : ProcessBatchResponse)
    (txResponse : ProcessTransactionResponse) (tx : loc) : FinM T () :=
  t ← get_tracker tx;
  let usedResources := mkBatchResources (pb_UsedZkCounters result) (wrap64 (zlen (RawTx t))) in
  b ← get_wipBatch;
  let '(remaining, err) := BatchResources_Sub (b_remainingResources b) usedResources in
  put_wipBatch (with_remaining b remaining) ;;
  match err with
  | Some e =>
      worker_UpdateTxZKCounters (tr_TxHash txResponse) (From t) (ZKC usedResources) ;;
      fail (ErrResources e)
  | None => mret tt
  end.

Definition failed_reason (t : TxTracker) : Reason :=
  match FailedReason t with Some s => ReasonText s | None => NoReason end.

Definition updateWorkerAfterSuccessfulProcessing (txHash txFrom : Z) (isForced : bool)
    (result : ProcessBatchResponse) : FinM T () :=
  if isForced then worker_side (λ wk, DeleteForcedTx wk txHash txFrom)
  else
    worker_DeleteTx txHash txFrom ;;
    txsToDelete ← worker_UpdateAfter txFrom (pb_ReadWriteAddresses result);
    for_each txsToDelete (λ l,
      t ← get_tracker l;
      UpdateTxStatus (Hash t) TxStatusFailed (failed_reason t) ;; mret tt).

Definition handleProcessTransactionError (result : ProcessBatchResponse)
    (txResponse : ProcessTransactionResponse) (tx : loc) : FinM T () :=
  t ← get_tracker tx;
  let errorCode := RomErrorCode (tr_RomError txResponse) in
  let addressInfo := pb_ReadWriteAddresses result !! From t in
  failedReason ← lift (or_panic (RomErr errorCode));
  if IsROMOutOfCountersError errorCode
  then
    worker_DeleteTx (Hash t) (From t) ;;
    UpdateTxStatus (Hash t) TxStatusInvalid (ReasonError failedReason) ;; mret tt
  else if IsInvalidNonceError errorCode || IsInvalidBalanceError errorCode
  then
    txsToDelete ← worker_MoveTxToNotReady (Hash t) (From t) (addressInfo ≫= infoNonce)
                    (addressInfo ≫= infoBalance);
    for_each txsToDelete (λ l,
      t ← get_tracker l;
      UpdateTxStatus (Hash t) TxStatusFailed (ReasonError failedReason) ;; mret tt)
  else
    worker_DeleteTx (Hash t) (From t) ;;
    UpdateTxStatus (Hash t) TxStatusFailed (ReasonError failedReason) ;; mret tt.

(** The second calculation of the price, with the gas used by the execution *)
Definition second_egp (tx : loc) (txResponse : ProcessTransactionResponse) : FinM T () :=
  t ← get_tracker tx;
  put_tracker tx (with_egp t (EffectiveGasPrice t) (EGPPercentage t) true (EGPLog t)) ;;
  t ← get_tracker tx;
  let egpEnabled := Egp.IsEnabled effectiveGasPrice in
  let '(txGasPrice, txL2GasPrice) :=
    Egp.GetTxAndL2GasPrice effectiveGasPrice (GasPrice t) (L1GasPrice t) (L2GasPrice t) in
  match Egp.CalculateEffectiveGasPrice effectiveGasPrice (RawTx t) txGasPrice
          (tr_GasUsed txResponse) (L1GasPrice t) txL2GasPrice with
  | Panic => panic
  | Fail err =>
      if egpEnabled then fail (ErrEgp err)
      else put_tracker tx (with_log t (log_error (EGPLog t)
             (egpError (EGPLog t) +:+ "; CalculateEffectiveGasPrice#2: " +:+ egp_text err)))
  | Ret newEffectiveGasPrice =>
      put_tracker tx (with_log t (log_second (EGPLog t) newEffectiveGasPrice
                                    (tr_GasUsed txResponse))) ;;
      errCompare ← try (compareTxEffectiveGasPrice tx newEffectiveGasPrice
                          (tr_HasGaspriceOpcode txResponse) (tr_HasBalanceOpcode txResponse));
      t ← get_tracker tx;
      (if egpEnabled then mret tt
       else match Egp.CalculateEffectiveGasPricePercentage (Some txGasPrice)
                    (Some (EffectiveGasPrice t)) with
            | Ret effectivePercentage =>
                put_tracker tx (with_log t (log_percentage (EGPLog t) effectivePercentage))
            | Fail err =>
                put_tracker tx (with_log t (log_error (EGPLog t) (egpError (EGPLog t) +:+
                  ", CalculateEffectiveGasPricePercentage#2: " +:+ egp_text err)))
            | Panic => panic
            end) ;;
      match errCompare with
      | inl e => if egpEnabled then fail e else mret tt
      | inr _ => mret tt
      end
  end.

(** [result.BlockResponses[0].TransactionResponses[0]] *)
Definition first_response (result : ProcessBatchResponse) :
    GoRes FinErr ProcessTransactionResponse :=
  block ← index (pb_BlockResponses result) 0;
  index (bl_TransactionResponses block) 0.

Definition handleProcessTransactionResponse (tx : loc) (result : ProcessBatchResponse) :
    FinM T () :=
  txResponse ← lift (first_response result);
  let errorCode := RomErrorCode (tr_RomError txResponse) in
  if negb (IsStateRootChanged errorCode)
  then
    handleProcessTransactionError result txResponse tx ;;
    fail (ErrRom (tr_RomError txResponse))
  else
    checkRemainingResources result txResponse tx ;;
    t ← get_tracker tx;
    (if IsLastExecution t then mret tt else second_egp tx txResponse) ;;
    t ← get_tracker tx;
    put_tracker tx (with_FlushId
      (with_log t (log_final (EGPLog t) (Egp.IsEnabled effectiveGasPrice)
                     (tr_HasGaspriceOpcode txResponse) (tr_HasBalanceOpcode txResponse)
                     (EffectiveGasPrice t)))
      (pb_FlushID result)) ;;
    block ← get_wipL2Block;
    put_wipL2Block (L2Block_addTx block tx) ;;
    updateLastPendingFlushID (pb_FlushID result) ;;
    b ← get_wipBatch;
    put_wipBatch (with_count b (b_countOfTxs b + 1)) ;;
    updateWorkerAfterSuccessfulProcessing (Hash t) (From t) false result.

(** The first calculation of the price.  The price of the tracker is capped
    by the one used in the calculation. *)
Definition first_egp (tx : loc) : FinM T () :=
  prices ← ask env_GetL1AndL2GasPrice;
  t ← get_tracker tx;
  let t := with_prices t prices.1 prices.2 in
  let '(txGasPrice, txL2GasPrice) :=
    Egp.GetTxAndL2GasPrice effectiveGasPrice (GasPrice t) (L1GasPrice t) (L2GasPrice t) in
  let gasUsed := GasUsed (ZKC (Resources_ t)) in
  let t := with_log t (log_start (EGPLog t) (L1GasPrice t) txL2GasPrice gasUsed txGasPrice) in
  put_tracker tx t ;;
  match Egp.CalculateEffectiveGasPrice effectiveGasPrice (RawTx t) txGasPrice gasUsed
          (L1GasPrice t) txL2GasPrice with
  | Panic => panic
  | Fail err =>
      if Egp.IsEnabled effectiveGasPrice then fail (ErrEgp err)
      else put_tracker tx (with_log t (log_error (EGPLog t)
             ("CalculateEffectiveGasPrice#1: " +:+ egp_text err)))
  | Ret egp =>
      let log := log_first (EGPLog t) egp in
      if txGasPrice <=? egp
      then put_tracker tx (with_egp t txGasPrice (EGPPercentage t) true log)
      else put_tracker tx (with_egp t egp (EGPPercentage t) (IsLastExecution t) log)
  end.

(** The part of [processTransaction] for a transaction: the bytes it adds to
    the request.  The percentage is taken of the signed price. *)
Definition prepare_tx (tx : loc) (firstTxProcess : bool) : FinM T bytes :=
  (if firstTxProcess : bool then first_egp tx else mret tt) ;;
  t ← get_tracker tx;
  pct ← match Egp.CalculateEffectiveGasPricePercentage (Some (GasPrice t))
                (Some (EffectiveGasPrice t)) with
        | Panic => panic
        | Fail err =>
            if Egp.IsEnabled effectiveGasPrice then fail (ErrEgp err)
            else put_tracker tx (with_log t (log_error (EGPLog t) (egpError (EGPLog t) +:+
                   "; CalculateEffectiveGasPricePercentage#1: " +:+ egp_text err))) ;;
                 mret 0
        | Ret p => put_tracker tx (with_log t (log_percentage (EGPLog t) p)) ;; mret p
        end;
  let pct := if Egp.IsEnabled effectiveGasPrice then pct else MaxEffectivePercentage in
  t ← get_tracker tx;
  put_tracker tx (with_egp t (EffectiveGasPrice t) pct (IsLastExecution t) (EGPLog t)) ;;
  effectivePercentageAsDecodedHex ← lift (map_err ErrHexByte (DecodeHex (nat_text pct)));
  mret (RawTx t ++ effectivePercentageAsDecodedHex).

(** [Start] fills the mock root with the bytes 0 to 31. *)
Definition mockL1InfoRoot : Z := of_digits 256 (Z.of_nat <$> seq 0 32).

(** The request without its transactions: [L1InfoTreeData_V2] is still the
    nil map when it is written to. *)
Definition tx_request : FinM T ProcessRequest :=
  b ← get_wipBatch;
  block ← get_wipL2Block;
  forkID ← lift (GetForkIDByBatchNumber forkCfg (b_batchNumber b));
  let request := mkProcessRequest (b_batchNumber b) mockL1InfoRoot None (b_imStateRoot b)
    (b_imAccInputHash b) [] (b_coinbase b) 0 (wrap64 (Unix (l_timestamp block))) false true true
    forkID in
  let root := l_l1InfoTreeExitRoot block in
  data ← lift (map_write (rq_L1InfoTreeData_V2 request) (li_L1InfoTreeIndex root)
                 (mkL1DataV2 (li_GlobalExitRoot root) (li_PreviousBlockHash root)
                    (wrap64 (Unix (li_Timestamp root)))));
  mret (mkProcessRequest (rq_BatchNumber request) (rq_L1InfoRoot_V2 request) (Some data)
          (rq_OldStateRoot request) (rq_OldAccInputHash request) (rq_Transactions request)
          (rq_Coinbase request) (rq_ForcedBlockHashL1 request) (rq_TimestampLimit_V2 request)
          (rq_SkipFirstChangeL2Block_V2 request) (rq_SkipWriteBlockInfoRoot_V2 request)
          (rq_SkipVerifyL1InfoRoot_V2 request) (rq_ForkID request)).

(** The transactions of the request: the header of a new L2 block and the
    transaction *)
Definition with_transactions (r : ProcessRequest) (txs : bytes) (skipChange : bool) :
    ProcessRequest :=
  mkProcessRequest (rq_BatchNumber r) (rq_L1InfoRoot_V2 r) (rq_L1InfoTreeData_V2 r)
    (rq_OldStateRoot r) (rq_OldAccInputHash r) txs (rq_Coinbase r) (rq_ForcedBlockHashL1 r)
    (rq_TimestampLimit_V2 r) skipChange (rq_SkipWriteBlockInfoRoot_V2 r)
    (rq_SkipVerifyL1InfoRoot_V2 r) (rq_ForkID r).

(** The end of [processTransaction]: the outcome of the executor.  Without a
    response the flag of the executor's error is read through a nil pointer. *)
Definition handle_outcome (tx : option loc) (outcome : ExecFailure + ProcessBatchResponse) :
    FinM T () :=
  match outcome with
  | inl (ExecErr ErrExecutorDBError) => fail (ErrExecution (ExecErr ErrExecutorDBError))
  | inl _ => panic
  | inr r =>
      stop ←
        match tx with
        | None => mret false
        | Some tx =>
            if negb (pb_IsRomLevelError r) && bool_decide (pb_BlockResponses r = [])
            then halt HaltNoResponse ;; mret false
            else if pb_IsExecutorLevelError r
            then
              t ← get_tracker tx;
              worker_DeleteTx (Hash t) (From t) ;;
              errMsg ← lift (or_panic (pb_ExecutorError r));
              err ← UpdateTxStatus (Hash t) TxStatusInvalid (ReasonError errMsg);
              match err with Some e => fail (ErrPoolStatus e) | None => mret true end
            else mret false
        end;
      if stop : bool then mret tt
      else
        match tx with
        | Some tx => if bool_decide (pb_BlockResponses r = []) then mret tt
                     else handleProcessTransactionResponse tx r
        | None => mret tt
        end ;;
        b ← get_wipBatch;
        put_wipBatch (with_im b (pb_NewStateRoot r) (pb_NewLocalExitRoot r) (pb_NewAccInputHash r))
  end.

(** [processTransaction] once it has a request *)
Definition run_request (request : ProcessRequest) (tx : option loc) (firstTxProcess : bool) :
    FinM T () :=
  block ← get_wipL2Block;
  let header :=
    if L2Block_isEmpty block
    then BuildChangeL2Block (l_deltaTimestamp block)
           (li_L1InfoTreeIndex (l_l1InfoTreeExitRoot block))
    else [] in
  txBytes ← match tx with Some tx => prepare_tx tx firstTxProcess | None => mret [] end;
  outcome ← ProcessBatchV2 (with_transactions request (header ++ txBytes)
                              (negb (L2Block_isEmpty block))) false;
  handle_outcome tx outcome.

Definition processTransaction (tx : option loc) (firstTxProcess : bool) : FinM T () :=
  request ← tx_request;
  run_request request tx firstTxProcess.

(** The loop of [finalizeBatches] on a transaction, for any way of processing
    it once; every error but the request to process it again ends it.  [None]
    is a loop that has not ended after [fuel] rounds. *)
Fixpoint process_loop (process : bool → FinM T ()) (fuel : nat) (firstTxProcess : bool) :
    World T → option (World T * GoRes FinErr ()) := λ w,
  match fuel with
  | O => None
  | S fuel =>
      match process firstTxProcess w with
      | (w, Fail ErrEffectiveGasPriceReprocess) => process_loop process fuel false w
      | (w, Panic) => Some (w, Panic)
      | (w, r) => Some (w, r)
      end
  end.
End tx.
