(* ===== verification/FinTxOk.v ===== *)
(** * What becomes of a transaction

    The worker stays consistent while the finalizer processes transactions;
    what becomes of a transaction is told by the answer of the executor and
    the resources that are left; it is processed at most twice, and pays for its resources
    each time. *)

From S2P Require Import Prelude Digits Hex GoEthereum TxCodec BatchV2 NewTracker.
From S2P Require Import Resources TxTracker AddrQueue Worker BestFit ExecErrors ExecTypes.
From S2P Require Import GoMonad Postgres StateStore StoreOk GoFloat EffGasPrice DataStream FinBase FinTx TxSortedList.

Section world.
Context `{!GoEthereum, !Postgres Tables, !FinalizerEnv, !FinalizerEnvLaws, !EthStrings}.
Context {T : Type} `{!ReadyListOps T, !ReadyList T}.
Implicit Types (w : World T).

(** ** The worker inside the finalizer *)

Definition worker_ok w : Prop :=
  store_ok (trackers w) ∧ worker_inv (trackers w) (worker (fin w)).

(** Nothing but the worker, the mutable fields of the trackers and the
    statuses differs. *)
Record quiet w w' : Prop := {
  q_batch : wipBatch (fin w') = wipBatch (fin w);
  q_block : wipL2Block (fin w') = wipL2Block (fin w);
  q_halt : haltError (fin w') = haltError (fin w);
  q_db : db w' = db w;
  q_static : static_eq (trackers w') (trackers w)
}.

#[export] Instance quiet_preorder : PreOrder quiet.
Proof.
  split.
  - intros w. by split.
  - intros w1 w2 w3 [] []. split; congruence.
Qed.

Definition quiet_ok w w' : Prop := worker_ok w' ∧ quiet w w'.

(** A method that keeps the worker consistent, never panics and is quiet *)
Definition quiet_method {A} (m : FinM T A) : Prop :=
  ∀ w, worker_ok w → wpm False m (λ _, quiet_ok w) (λ _ _, False) w.

Lemma quiet_bind {A B} (m : FinM T A) (f : A → FinM T B) :
  quiet_method m → (∀ a, quiet_method (f a)) → quiet_method (m ≫= f).
Proof.
  intros Hm Hf w Hw. apply wpm_bind. eapply wpm_mono; [by apply Hm| |done].
  intros a w1 [Hw1 Hq]. eapply wpm_mono; [by apply Hf| |done].
  intros b w2 [Hw2 Hq2]. split; [done|]. by etrans.
Qed.

Lemma quiet_ret {A} (a : A) : quiet_method (mret a).
Proof. intros w Hw. by split. Qed.

Lemma quiet_get_tracker l : quiet_method (get_tracker l).
Proof. intros w Hw. by split. Qed.

Lemma quiet_for_each {A} (xs : list A) (body : A → FinM T ()) :
  (∀ x, quiet_method (body x)) → quiet_method (for_each xs body).
Proof.
  intros Hb. induction xs as [|x xs IH]; [apply quiet_ret|]. apply quiet_bind; [done|]. auto.
Qed.

Lemma quiet_UpdateTxStatus h st r : quiet_method (UpdateTxStatus h st r).
Proof. intros w Hw. unfold UpdateTxStatus. by do 2 (apply wpm_bind || split). Qed.

Lemma queue_order_ok w addr a :
  pool (worker (fin w)) !! addr_String addr = Some a →
  map_order (notReadyTxs a) (queue_order w addr).
Proof. intros Ha. unfold queue_order. rewrite Ha. apply env_order_all. Qed.

Lemma quiet_DeleteTx h a : quiet_method (worker_DeleteTx h a).
Proof.
  intros w [Hs Hi]. unfold wpm, worker_DeleteTx.
  destruct (DeleteTx_inv (trackers w) (worker (fin w)) h a (queue_order w a)) as (wk & -> & Hi' & _);
    [done..|]. by split.
Qed.

Lemma quiet_MoveTxToNotReady h a n b : quiet_method (worker_MoveTxToNotReady h a n b).
Proof.
  intros w [Hs Hi]. unfold wpm, worker_MoveTxToNotReady, MoveTxToNotReady.
  destruct (applyAddressUpdate_inv (trackers w) (worker (fin w)) a n b (queue_order w a))
    as (σ & wk & nr & pr & del & -> & Hi' & Hst & _); [done|done|apply queue_order_ok|].
  simpl. split; [split; [by eapply store_ok_static|done] | by split].
Qed.

Lemma quiet_UpdateAfter a touched : quiet_method (worker_UpdateAfter a touched).
Proof.
  intros w [Hs Hi]. unfold wpm, worker_UpdateAfter.
  destruct (UpdateAfter_inv (trackers w) (worker (fin w)) a touched
    (env_addrs (ticks w) touched) (queue_order w)) as (σ & wk & del & -> & Hi' & Hst & _);
    [done|done| |].
  - split; [|by intros; apply queue_order_ok].
    rewrite env_addrs_all. apply NoDup_fst_map_to_list.
  - simpl. split; [split; [by eapply store_ok_static|done] | by split].
Qed.

Lemma quiet_UpdateTxZKCounters h a z : quiet_method (worker_UpdateTxZKCounters h a z).
Proof.
  intros w [Hs Hi]. unfold wpm, worker_UpdateTxZKCounters. simpl.
  assert (static_eq (Worker_UpdateTxZKCounters (trackers w) (worker (fin w)) h a z
    (queue_order w a)) (trackers w)) as Hst.
  { unfold Worker_UpdateTxZKCounters. case_match; [apply UpdateTxZKCounters_static|done]. }
  split; [split; [by eapply store_ok_static|by eapply worker_inv_static] | by split].
Qed.

(** Writing the fields of a tracker that the worker does not look at *)
Lemma put_tracker_ok w l t :
  worker_ok w → static t = static (trackers w l) →
  quiet_ok w (set_trackers (upd (trackers w) l t) w).
Proof.
  intros [Hs Hi] Ht. pose proof (upd_static (trackers w) l t Ht) as Hst.
  split; [split; [by eapply store_ok_static|by eapply worker_inv_static] | by split].
Qed.

Create HintDb quiet.
Hint Resolve quiet_ret quiet_get_tracker quiet_UpdateTxStatus quiet_DeleteTx
  quiet_MoveTxToNotReady quiet_UpdateAfter quiet_UpdateTxZKCounters : quiet.

Ltac quiet_tac :=
  repeat lazymatch goal with
  | |- quiet_method (mbind _ _) => apply quiet_bind; [|intros ?]
  | |- quiet_method (for_each _ _) => apply quiet_for_each; intros ?
  | |- quiet_method _ => solve [eauto with quiet]
  end.

Lemma quiet_updateWorker h a r : quiet_method (updateWorkerAfterSuccessfulProcessing h a false r).
Proof. unfold updateWorkerAfterSuccessfulProcessing. quiet_tac. Qed.

(** Only an error code that has no error panics. *)
Lemma quiet_handleError result x tx :
  RomErr (RomErrorCode (tr_RomError x)) ≠ None →
  quiet_method (handleProcessTransactionError result x tx).
Proof.
  intros Hr. unfold handleProcessTransactionError. apply quiet_bind; [apply quiet_get_tracker|].
  intros t. destruct (RomErr _) as [reason|]; [|done].
  apply quiet_bind; [by intros w Hw; split|]. intros ?. repeat case_match; quiet_tac.
Qed.

Lemma quiet_intro {A} (m : FinM T A) Q w :
  quiet_method m → worker_ok w → (∀ a w', quiet_ok w w' → Q a w') →
  ∀ R, wpm False m Q R w.
Proof. intros Hm Hw HQ R. eapply wpm_mono; [by apply Hm|done|done]. Qed.
End world.

(** A code that leaves the state root alone has an error. *)
Lemma unchanged_root_err c : IsStateRootChanged c = false → RomErr c ≠ None.
Proof. destruct c; done. Qed.

(** Reading a slice and the fork of a batch panic or return. *)
Lemma index_not_fail {E A} (s : list A) i (e : E) : index s i ≠ Fail e.
Proof. unfold index. case_match; [|done]. by destruct (s !! _). Qed.

Lemma ForkID_not_fail {E} cfg n (e : E) : GetForkIDByBatchNumber cfg n ≠ Fail e.
Proof.
  unfold GetForkIDByBatchNumber. case_match; [done|]. case_match; [done|].
  pose proof (index_not_fail (ForkIDIntervals cfg) (zlen (ForkIDIntervals cfg) - 1) e).
  destruct (index _ _); [done| |done]. by intros [= ->].
Qed.

(** ** Prices *)

#[local] Arguments Egp.CalculateEffectiveGasPricePercentage : simpl never.

Section prices.
Context `{!GoFloatConv, !GoFloatConvLaws}.

Lemma CalculateEffectiveGasPrice_no_panic e rawTx txGasPrice gasUsed l1 l2 :
  (txGasPrice ≤ l2 ∨ 0 < l2) →
  Egp.CalculateEffectiveGasPrice e rawTx txGasPrice gasUsed l1 l2 ≠ Panic.
Proof.
  intros Hl2. unfold Egp.CalculateEffectiveGasPrice.
  destruct (Egp.CalculateBreakEvenGasPrice _ _ _ _ _) as [be|err|] eqn:Hbe; go_bind; [|done|].
  2:{ unfold Egp.CalculateBreakEvenGasPrice in Hbe. by repeat case_decide. }
  assert (bf_gt (bf_SetInt txGasPrice) (bf_SetUint64 l2) = (l2 <? txGasPrice)) as ->
    by (simpl; by rewrite !Z.mul_1_r).
  destruct (Z.ltb_spec l2 txGasPrice).
  - unfold bf_Quo, bf_SetInt, bf_SetUint64. rewrite decide_False by lia.
    destruct (round_to _ _ _) as [m x]. go_bind. unfold bf_Mul.
    destruct (round_to _ _ _) as [m' x']. go_bind. by case_decide.
  - go_bind. unfold bf_Mul, bf_SetInt, bf_one.
    destruct (round_to _ _ _) as [m' x']. go_bind. by case_decide.
Qed.

(** The prices the finalizer passes for a transaction *)
Lemma GetTxAndL2GasPrice_no_panic e rawTx gasPrice gasUsed l1 l2 :
  0 < l2 →
  let p := Egp.GetTxAndL2GasPrice e gasPrice l1 l2 in
  Egp.CalculateEffectiveGasPrice e rawTx p.1 gasUsed l1 p.2 ≠ Panic.
Proof.
  intros Hl2. apply CalculateEffectiveGasPrice_no_panic. unfold Egp.GetTxAndL2GasPrice.
  case_match; simpl; [|by right]. left.
  rewrite big_Uint64_small; [done|apply uint64_of_float64_range].
Qed.

Lemma Percentage_no_panic p q : Egp.CalculateEffectiveGasPricePercentage p q ≠ Panic.
Proof. unfold Egp.CalculateEffectiveGasPricePercentage. by repeat case_match. Qed.
End prices.

(** ** The fate of a transaction *)

Section fate.
Context `{!GoEthereum, !Postgres Tables, !FinalizerEnv, !FinalizerEnvLaws, !EthStrings}.
Context `{!GoFloatConv, !GoFloatConvLaws}.
Context {T : Type} `{!ReadyListOps T, !ReadyList T}.
Context (effectiveGasPrice : Egp.EffectiveGasPrice).
Implicit Types (w : World T).

Lemma quiet_trans w1 w2 w3 : quiet_ok w1 w2 → quiet_ok w2 w3 → quiet_ok w1 w3.
Proof. intros [_ H12] [Hok H23]. split; [done|]. by etrans. Qed.

Lemma put_tracker_step w0 w l t :
  quiet_ok w0 w → static t = static (trackers w l) →
  quiet_ok w0 (set_trackers (upd (trackers w) l t) w).
Proof. intros Hq Ht. eapply quiet_trans, put_tracker_ok; [done|apply Hq|done]. Qed.

Definition egp_error (e : FinErr) : Prop :=
  e = ErrEffectiveGasPriceReprocess ∨ ∃ err, e = ErrEgp err.

Lemma compare_steady w0 w tx egp gasOC balOC :
  quiet_ok w0 w →
  wpm False (compareTxEffectiveGasPrice effectiveGasPrice tx egp gasOC balOC) (λ _, quiet_ok w0)
    (λ e w', e = ErrEffectiveGasPriceReprocess ∧ quiet_ok w0 w') w.
Proof.
  intros Hw. unfold compareTxEffectiveGasPrice. apply wpm_bind, wpm_gets.
  destruct (Egp.GetTxAndL2GasPrice _ _ _ _) as [txGasPrice ?]. case_match.
  - apply wpm_bind, wpm_modify, wpm_fail. split; [done|]. by apply put_tracker_step.
  - apply wpm_modify. by apply put_tracker_step.
Qed.

Lemma second_egp_steady w tx x :
  worker_ok w → 0 < L2GasPrice (trackers w tx) →
  wpm False (second_egp effectiveGasPrice tx x) (λ _, quiet_ok w)
    (λ e w', egp_error e ∧ quiet_ok w w') w.
Proof.
  intros Hw Hl2. unfold second_egp. do 2 apply wpm_bind. apply wpm_modify.
  apply wpm_bind, wpm_gets. simpl. rewrite upd_same. simpl.
  pose proof (GetTxAndL2GasPrice_no_panic effectiveGasPrice (RawTx (trackers w tx))
    (GasPrice (trackers w tx)) (tr_GasUsed x) (L1GasPrice (trackers w tx)) _ Hl2) as Hnp.
  destruct (Egp.GetTxAndL2GasPrice _ _ _ _) as [txGasPrice txL2]; simpl in Hnp.
  match goal with |- wpm _ _ _ _ ?w1 => set (w' := w1) end.
  assert (quiet_ok w w') as Hq by (by apply put_tracker_ok).
  assert (trackers w' tx = with_egp (trackers w tx) (EffectiveGasPrice (trackers w tx))
    (EGPPercentage (trackers w tx)) true (EGPLog (trackers w tx))) as Ht
    by (subst w'; simpl; by rewrite upd_same).
  clearbody w'. destruct (Egp.CalculateEffectiveGasPrice _ _ _ _ _ _) as [egp|err|]; [| |done].
  2:{ case_match; [apply wpm_fail; split; [right; eauto|done]|].
      apply wpm_modify. apply put_tracker_step; [done|]. by rewrite Ht. }
  apply wpm_bind, wpm_modify, wpm_bind, wpm_try.
  eapply wpm_mono; [apply (compare_steady w); apply put_tracker_step; [done|by rewrite Ht]| |].
  1: intros [] w2 Hw2.
  2: intros e w2 [-> Hw2].
  all: apply wpm_bind, wpm_gets, wpm_bind; case_match;
    [first [done | by apply wpm_fail; split; [left|]]|].
  all: destruct (Egp.CalculateEffectiveGasPricePercentage _ _) eqn:Hp;
    [by apply put_tracker_step.. | by apply Percentage_no_panic in Hp].
Qed.

(** From [w] to a state with this batch and this block, the worker consistent
    and the database untouched *)
Record lands w (b : Batch) (block : L2Block) w' : Prop := {
  lands_worker : worker_ok w';
  lands_batch : wipBatch (fin w') = Some b;
  lands_block : wipL2Block (fin w') = Some block;
  lands_db : db w' = db w;
  lands_static : static_eq (trackers w') (trackers w)
}.

Lemma lands_quiet w b block w1 w2 : lands w b block w1 → quiet_ok w1 w2 → lands w b block w2.
Proof. intros [] [Hok []]. split; congruence || by etrans. Qed.

Lemma lands_set_batch w b b' block w1 :
  lands w b block w1 → lands w b' block (on_fin (set_wipBatch (Some b')) w1).
Proof. by intros []; split. Qed.

Lemma lands_set_block w b block block' w1 :
  lands w b block w1 → lands w b block' (on_fin (set_wipL2Block (Some block')) w1).
Proof. by intros []; split. Qed.

Lemma lands_flush w b block w1 n :
  lands w b block w1 → wpm False (updateLastPendingFlushID n) (λ _, lands w b block) (λ _ _, False) w1.
Proof. intros []. apply wpm_modify. unfold on_fin. case_match; by split. Qed.

(** What the batch is charged for a transaction *)
Definition charge (r : ProcessBatchResponse) (t : TxTracker) : BatchResources :=
  mkBatchResources (pb_UsedZkCounters r) (wrap64 (zlen (RawTx t))).

Lemma wp_get_wipBatch w b block w1 Q R K :
  lands w b block w1 → Q b w1 → wpm K get_wipBatch Q R w1.
Proof. intros [_ Hb _ _ _] HQ. unfold wpm, get_wipBatch, mbind, GoM_bind. simpl. by rewrite Hb. Qed.

Lemma wp_get_wipL2Block w b block w1 Q R K :
  lands w b block w1 → Q block w1 → wpm K get_wipL2Block Q R w1.
Proof.
  intros [_ _ Hb _ _] HQ. unfold wpm, get_wipL2Block, mbind, GoM_bind. simpl. by rewrite Hb.
Qed.

Lemma checkRemainingResources_spec w b block r x tx :
  lands w b block w →
  let '(rem, err) := BatchResources_Sub (b_remainingResources b) (charge r (trackers w tx)) in
  wpm False (checkRemainingResources r x tx)
    (λ _ w', err = None ∧ w' = on_fin (set_wipBatch (Some (with_remaining b rem))) w)
    (λ e w', ∃ er, err = Some er ∧ e = ErrResources er ∧ lands w (with_remaining b rem) block w') w.
Proof.
  intros Hw. destruct (BatchResources_Sub _ _) as [rem err] eqn:Hsub.
  unfold checkRemainingResources. apply wpm_bind, wpm_gets, wpm_bind.
  eapply wp_get_wipBatch; [done|]. cbv zeta. fold (charge r (trackers w tx)). rewrite Hsub.
  apply wpm_bind, wpm_modify.
  pose proof (lands_set_batch _ _ (with_remaining b rem) _ _ Hw) as Hl.
  destruct err as [er|]; [|by split]. apply wpm_bind.
  eapply quiet_intro; [apply quiet_UpdateTxZKCounters|apply Hl|].
  intros [] w2 Hq. apply wpm_fail. exists er. split_and!; [done..|]. by eapply lands_quiet.
Qed.

Definition response_spec w b block tx r x (res : GoRes FinErr ()) w' : Prop :=
  let changed := IsStateRootChanged (RomErrorCode (tr_RomError x)) in
  let '(rem, err) := BatchResources_Sub (b_remainingResources b) (charge r (trackers w tx)) in
  match res with
  | Ret _ => changed = true ∧ err = None ∧
      lands w (with_count (with_remaining b rem) (b_countOfTxs b + 1)) (L2Block_addTx block tx) w'
  | Fail (ErrRom e) => changed = false ∧ e = tr_RomError x ∧ lands w b block w'
  | Fail (ErrResources er) => changed = true ∧ err = Some er ∧ lands w (with_remaining b rem) block w'
  | Fail ErrEffectiveGasPriceReprocess | Fail (ErrEgp _) =>
      changed = true ∧ err = None ∧ lands w (with_remaining b rem) block w'
  | _ => False
  end.

(** The end of a transaction that is kept *)
Lemma include_spec w b block tx r x w1 :
  lands w b block w1 →
  wpm False
    (t ← get_tracker tx;
     put_tracker tx (with_FlushId
       (with_log t (log_final (EGPLog t) (Egp.IsEnabled effectiveGasPrice)
                      (tr_HasGaspriceOpcode x) (tr_HasBalanceOpcode x) (EffectiveGasPrice t)))
       (pb_FlushID r)) ;;
     block ← get_wipL2Block;
     put_wipL2Block (L2Block_addTx block tx) ;;
     updateLastPendingFlushID (pb_FlushID r) ;;
     b ← get_wipBatch;
     put_wipBatch (with_count b (b_countOfTxs b + 1)) ;;
     updateWorkerAfterSuccessfulProcessing (Hash t) (From t) false r)
    (λ _, lands w (with_count b (b_countOfTxs b + 1)) (L2Block_addTx block tx))
    (λ _ _, False) w1.
Proof.
  intros Hl. apply wpm_bind, wpm_gets, wpm_bind, wpm_modify, wpm_bind.
  assert (worker_ok w1) as Hok by apply Hl.
  eapply wp_get_wipL2Block; [eapply lands_quiet; [done|by apply put_tracker_ok]|].
  apply wpm_bind, wpm_modify, wpm_bind. eapply wpm_mono; [apply (lands_flush w)| |done].
  { eapply lands_set_block, lands_quiet; [done|by apply put_tracker_ok]. }
  intros [] w2 Hl2. apply wpm_bind. eapply wp_get_wipBatch; [done|].
  apply wpm_bind, wpm_modify. pose proof (lands_set_batch _ _ (with_count b (b_countOfTxs b + 1)) _ _ Hl2).
  eapply quiet_intro; [apply quiet_updateWorker|by eapply lands_worker|].
  intros [] w3 Hq. by eapply lands_quiet.
Qed.

Lemma handleProcessTransactionResponse_spec w b block tx r x :
  lands w b block w → 0 < L2GasPrice (trackers w tx) → first_response r = Ret x →
  wpm False (handleProcessTransactionResponse effectiveGasPrice tx r)
    (λ a, response_spec w b block tx r x (Ret a)) (λ e, response_spec w b block tx r x (Fail e)) w.
Proof.
  intros Hw Hl2 Hx. unfold handleProcessTransactionResponse, response_spec.
  apply wpm_bind, wpm_lift. rewrite Hx. cbv zeta.
  pose proof (checkRemainingResources_spec w b block r x tx Hw) as Hcheck.
  destruct (BatchResources_Sub _ _) as [rem err].
  destruct (IsStateRootChanged _) eqn:Hch; simpl negb; cbv iota.
  2:{ apply wpm_bind. eapply quiet_intro; [by apply quiet_handleError, unchanged_root_err|apply Hw|].
      intros [] w1 Hq. apply wpm_fail. split_and!; [done..|]. by eapply lands_quiet. }
  apply wpm_bind. eapply wpm_mono; [exact Hcheck| |].
  2:{ intros e w1 (er & -> & -> & Hl). by split_and!. }
  intros [] w1 [-> ->]. set (w1 := on_fin _ w).
  assert (lands w (with_remaining b rem) block w1) as Hl by by eapply lands_set_batch.
  assert (trackers w1 = trackers w) as Ht by done. clearbody w1.
  apply wpm_bind, wpm_gets, wpm_bind. rewrite Ht.
  eapply wpm_mono with (Q := λ _, lands w (with_remaining b rem) block)
    (R := λ e w', egp_error e ∧ lands w (with_remaining b rem) block w').
  - case_match; [by apply wpm_ret|].
    eapply wpm_mono; [apply second_egp_steady; [apply Hl|by rewrite Ht]|..].
    + intros [] w2 Hq. by eapply lands_quiet.
    + intros e w2 [He Hq]. split; [done|]. by eapply lands_quiet.
  - intros [] w2 Hl'. eapply wpm_mono; [by apply include_spec| |done]. by intros [] w3 Hl3.
  - by intros e w2 [[->|[err ->]] Hl'].
Qed.

(** A response with blocks has a transaction in the first one, and an
    executor level error is an error. *)
Record response_ok (r : ProcessBatchResponse) : Prop := {
  resp_first : pb_BlockResponses r ≠ [] → ∃ x, first_response r = Ret x;
  resp_error : pb_IsExecutorLevelError r = true → pb_ExecutorError r ≠ None
}.

Definition with_roots (b : Batch) (r : ProcessBatchResponse) : Batch :=
  with_im b (pb_NewStateRoot r) (pb_NewLocalExitRoot r) (pb_NewAccInputHash r).

Lemma with_remaining_same b : with_remaining b (b_remainingResources b) = b.
Proof. by destruct b. Qed.

(** The charge fits exactly when it is subtracted without error. *)
Lemma Sub_fits_iff r u rem err :
  res_ok r → res_ok u → BatchResources_Sub r u = (rem, err) →
  (err = None ∧ fits u r) ∨ (∃ e, err = Some e ∧ rem = r ∧ ¬ fits u r).
Proof.
  intros Hr Hu Hs. destruct (decide (fits u r)) as [Hf|Hf].
  - destruct (BatchResources_Sub_fits r u) as (r' & Hs' & _); [done..|]. left.
    rewrite Hs in Hs'. by injection Hs'.
  - destruct (BatchResources_Sub_nofit r u) as (e & Hs'); [done..|]. right.
    rewrite Hs in Hs'. injection Hs' as -> ->. eauto.
Qed.

Lemma set_roots w b block r w1 :
  lands w b block w1 →
  wpm False (b ← get_wipBatch; put_wipBatch (with_roots b r))
    (λ _ w2, lands w (with_roots b r) block w2 ∧ haltError (fin w2) = haltError (fin w1))
    (λ _ _, False) w1.
Proof.
  intros Hl. apply wpm_bind. eapply wp_get_wipBatch; [done|]. apply wpm_modify.
  split; [by eapply lands_set_batch|done].
Qed.

(** The executor level error of a transaction *)
Lemma executor_error_spec w b block tx r :
  lands w b block w → pb_ExecutorError r ≠ None →
  wpm False
    (t ← get_tracker tx;
     worker_DeleteTx (Hash t) (From t) ;;
     errMsg ← lift (or_panic (pb_ExecutorError r));
     err ← UpdateTxStatus (Hash t) TxStatusInvalid (ReasonError errMsg);
     match err with Some e => fail (ErrPoolStatus e) | None => mret true end)
    (λ stop w', stop = true ∧ lands w b block w' ∧ haltError (fin w') = haltError (fin w))
    (λ e w', (∃ err, e = ErrPoolStatus err) ∧ lands w b block w') w.
Proof.
  intros Hw He. apply wpm_bind, wpm_gets, wpm_bind.
  eapply quiet_intro; [apply quiet_DeleteTx|apply Hw|]. intros [] w1 Hq. apply wpm_bind.
  destruct (pb_ExecutorError r) as [err|]; [|done]. apply wpm_bind.
  eapply quiet_intro; [apply quiet_UpdateTxStatus|apply Hq|]. intros ans w2 Hq2.
  pose proof (quiet_trans _ _ _ Hq Hq2) as Hq'. pose proof (lands_quiet _ _ _ _ _ Hw Hq') as Hl.
  destruct ans; [apply wpm_fail|apply wpm_ret]; split; eauto. split; [done|]. apply Hq'.
Qed.

(** The executor reports no error and answers nothing. *)
Definition no_answer (r : ProcessBatchResponse) : bool :=
  negb (pb_IsRomLevelError r) && bool_decide (pb_BlockResponses r = []).

(** The transaction was executed, and its state root changed or not. *)
Definition executed r (x : ProcessTransactionResponse) (changed : bool) : Prop :=
  no_answer r = false ∧ pb_IsExecutorLevelError r = false ∧ pb_BlockResponses r ≠ [] ∧
  first_response r = Ret x ∧ IsStateRootChanged (RomErrorCode (tr_RomError x)) = changed.

(** The transaction changed the state root, and what it used fits in the batch
    and leaves [rem]. *)
Definition paid w (b : Batch) tx r (rem : BatchResources) : Prop :=
  (∃ x, executed r x true) ∧ fits (charge r (trackers w tx)) (b_remainingResources b) ∧
  BatchResources_Sub (b_remainingResources b) (charge r (trackers w tx)) = (rem, None).

(** The processing returns. *)
Definition fate_ret w b block tx r w' : Prop :=
  if no_answer r
  then lands w (with_roots b r) block w' ∧ haltError (fin w') = Some HaltNoResponse
  else if pb_IsExecutorLevelError r then lands w b block w' ∧ haltError (fin w') = haltError (fin w)
  else if bool_decide (pb_BlockResponses r = []) then lands w (with_roots b r) block w'
  else ∃ rem, paid w b tx r rem ∧
    lands w (with_roots (with_count (with_remaining b rem) (b_countOfTxs b + 1)) r)
      (L2Block_addTx block tx) w'.

(** The processing returns an error. *)
Definition fate_fail w b block tx r (e : FinErr) w' : Prop :=
  match e with
  | ErrPoolStatus _ =>
      no_answer r = false ∧ pb_IsExecutorLevelError r = true ∧ lands w b block w'
  | ErrRom e => ∃ x, executed r x false ∧ e = tr_RomError x ∧ lands w b block w'
  | ErrResources _ =>
      (∃ x, executed r x true) ∧ ¬ fits (charge r (trackers w tx)) (b_remainingResources b) ∧
      lands w b block w'
  | ErrEffectiveGasPriceReprocess | ErrEgp _ =>
      ∃ rem, paid w b tx r rem ∧ lands w (with_remaining b rem) block w'
  | _ => False
  end.

Lemma response_fate w b block tx r x res w' :
  res_ok (b_remainingResources b) → res_ok (charge r (trackers w tx)) →
  executed r x (IsStateRootChanged (RomErrorCode (tr_RomError x))) →
  response_spec w b block tx r x res w' →
  match res with
  | Ret _ => ∃ rem, paid w b tx r rem ∧
      lands w (with_count (with_remaining b rem) (b_countOfTxs b + 1)) (L2Block_addTx block tx) w'
  | Fail e => fate_fail w b block tx r e w'
  | Panic => False
  end.
Proof.
  intros Hb Hc Hx. unfold response_spec, paid. destruct (BatchResources_Sub _ _) as [rem err] eqn:Hs.
  pose proof (Sub_fits_iff _ _ _ _ Hb Hc Hs) as Hf.
  destruct res as [[]|[] |]; simpl; try done; intros Hr; destruct_and?; subst.
  all: repeat match goal with H : IsStateRootChanged _ = _ |- _ => rewrite H in Hx; clear H end.
  all: unfold paid; destruct Hf as [[He Hf]|(er & He & -> & Hf)]; simplify_eq; eauto 10.
  split_and!; [by eauto|done|]. by rewrite with_remaining_same in *.
Qed.

End fate.

(** ** A transaction is processed at most twice *)

Section rounds.
Context `{!GoEthereum, !Postgres Tables, !FinalizerEnv, !EthStrings, !GoFloatConv}.
Context {T : Type} `{!ReadyListOps T}.
Context (effectiveGasPrice : Egp.EffectiveGasPrice).
Implicit Types (w : World T).

(** Never asks for another round *)
Definition no_repeat {A} (m : FinM T A) : Prop :=
  ∀ w, wpm True m (λ _ _, True) (λ e _, e ≠ ErrEffectiveGasPriceReprocess) w.

Lemma no_repeat_bind {A B} (m : FinM T A) (f : A → FinM T B) :
  no_repeat m → (∀ a, no_repeat (f a)) → no_repeat (m ≫= f).
Proof. intros Hm Hf w. apply wpm_bind. eapply wpm_mono; [apply Hm| |done]. intros a w1 _. apply Hf. Qed.

(** A method without errors of its own *)
Lemma no_repeat_total {A} (m : FinM T A) : (∀ w e, (m w).2 ≠ Fail e) → no_repeat m.
Proof. intros Hm w. specialize (Hm w). unfold wpm. destruct (m w) as [w' []]; naive_solver. Qed.

Lemma no_repeat_for_each {A} (xs : list A) (body : A → FinM T ()) :
  (∀ x, no_repeat (body x)) → no_repeat (for_each xs body).
Proof.
  intros Hb. induction xs; [by apply no_repeat_total|]. apply no_repeat_bind; auto.
Qed.

Ltac no_repeat_tac :=
  repeat lazymatch goal with
  | |- no_repeat (mbind _ _) => apply no_repeat_bind; [|intros ?]
  | |- no_repeat (for_each _ _) => apply no_repeat_for_each; intros ?
  | |- no_repeat (match ?x with _ => _ end) => destruct x
  | |- no_repeat (let _ := _ in _) => cbv zeta
  | |- no_repeat (fail _) => intros ?; by apply wpm_fail
  | |- no_repeat (lift (or_panic ?x)) => by destruct x
  | |- no_repeat (UpdateTxStatus _ _ _) => unfold UpdateTxStatus
  | |- no_repeat (worker_DeleteTx _ _) =>
      apply no_repeat_total; intros ??; unfold worker_DeleteTx; by case_match
  | |- no_repeat (worker_MoveTxToNotReady _ _ _ _) =>
      apply no_repeat_total; intros ??; unfold worker_MoveTxToNotReady; by repeat case_match
  | |- no_repeat (worker_UpdateAfter _ _) =>
      apply no_repeat_total; intros ??; unfold worker_UpdateAfter; by repeat case_match
  | |- no_repeat _ => by apply no_repeat_total
  end.

Lemma no_repeat_error r x tx : no_repeat (handleProcessTransactionError r x tx).
Proof. unfold handleProcessTransactionError. no_repeat_tac. Qed.

Lemma no_repeat_delete h a : no_repeat (worker_DeleteTx h a).
Proof. no_repeat_tac. Qed.

Lemma no_repeat_worker h a r : no_repeat (updateWorkerAfterSuccessfulProcessing h a false r).
Proof. unfold updateWorkerAfterSuccessfulProcessing. no_repeat_tac. Qed.

Lemma no_repeat_get_batch : no_repeat get_wipBatch.
Proof. unfold get_wipBatch. no_repeat_tac. Qed.
Lemma no_repeat_get_block : no_repeat get_wipL2Block.
Proof. unfold get_wipL2Block. no_repeat_tac. Qed.

Lemma no_repeat_prepare tx first : no_repeat (prepare_tx effectiveGasPrice tx first).
Proof.
  unfold prepare_tx, first_egp. no_repeat_tac.
  intros w. apply wpm_lift. by destruct (DecodeHex _).
Qed.

Abbreviation asks_again tx w := (λ e w', e = ErrEffectiveGasPriceReprocess →
  IsLastExecution (trackers w tx) = false ∧ IsLastExecution (trackers w' tx) = true).

Lemma no_repeat_wp {A} (m : FinM T A) tx w w1 :
  no_repeat m → wpm True m (λ _ _, True) (asks_again tx w) w1.
Proof. intros Hm. by eapply wpm_mono; [apply Hm| |]. Qed.

Lemma second_egp_last tx x w :
  wpm True (second_egp effectiveGasPrice tx x) (λ _ _, True)
    (λ e w', e = ErrEffectiveGasPriceReprocess → IsLastExecution (trackers w' tx) = true) w.
Proof.
  unfold second_egp. apply wpm_bind, wpm_gets, wpm_bind, wpm_modify, wpm_bind, wpm_gets.
  set (w1 := set_trackers _ w).
  assert (IsLastExecution (trackers w1 tx) = true) as Hl by (subst w1; simpl; by rewrite upd_same).
  clearbody w1. destruct (Egp.GetTxAndL2GasPrice _ _ _ _) as [p q]. cbv zeta.
  destruct (Egp.CalculateEffectiveGasPrice _ _ _ _ _ _) as [egp|err|]; [|by case_match|done].
  apply wpm_bind, wpm_modify, wpm_bind, wpm_try. unfold compareTxEffectiveGasPrice.
  apply wpm_bind, wpm_gets. simpl. rewrite upd_same.
  destruct (Egp.GetTxAndL2GasPrice _ _ _ _) as [p' q']. destruct (_ <? _).
  - apply wpm_bind, wpm_modify, wpm_fail, wpm_bind, wpm_gets, wpm_bind. simpl.
    rewrite !upd_same. destruct (Egp.IsEnabled _); [by apply wpm_fail; simpl; rewrite !upd_same|].
    by destruct (Egp.CalculateEffectiveGasPricePercentage _ _).
  - apply wpm_modify, wpm_bind, wpm_gets, wpm_bind.
    destruct (Egp.IsEnabled _); [done|]. by destruct (Egp.CalculateEffectiveGasPricePercentage _ _).
Qed.

Lemma check_trackers r x tx w :
  wpm True (checkRemainingResources r x tx) (λ _ w', trackers w' = trackers w)
    (λ e _, e ≠ ErrEffectiveGasPriceReprocess) w.
Proof.
  unfold checkRemainingResources, get_wipBatch. apply wpm_bind, wpm_gets, wpm_bind, wpm_bind, wpm_gets.
  destruct ((wipBatch ∘ fin) w); [|done].
  apply wpm_lift; simpl or_panic; cbv zeta iota beta.
  destruct (BatchResources_Sub _ _) as [rem []]; apply wpm_bind, wpm_modify; done.
Qed.

Lemma handleResponse_again tx r w :
  wpm True (handleProcessTransactionResponse effectiveGasPrice tx r) (λ _ _, True)
    (asks_again tx w) w.
Proof.
  unfold handleProcessTransactionResponse. apply wpm_bind, wpm_lift.
  destruct (first_response r) as [x|e|] eqn:Hx; [| |done].
  2:{ unfold first_response in Hx. destruct (index (pb_BlockResponses r) 0) eqn:Hb; go_bind.
      all: by (apply index_not_fail in Hx || apply index_not_fail in Hb || done). }
  destruct (negb _).
  { apply no_repeat_wp. apply no_repeat_bind; [apply no_repeat_error|]. by intros ? ?. }
  apply wpm_bind. eapply wpm_mono; [apply check_trackers| |naive_solver].
  intros [] w1 Ht. apply wpm_bind, wpm_gets, wpm_bind.
  eapply wpm_mono with (Q := λ _ _, True) (R := asks_again tx w).
  - rewrite Ht. destruct (IsLastExecution (trackers w tx)) eqn:Hl; [done|].
    eapply wpm_mono; [apply second_egp_last|done|]. naive_solver.
  - intros [] w2 _. apply no_repeat_wp. unfold updateLastPendingFlushID, get_wipL2Block, get_wipBatch.
    no_repeat_tac. apply no_repeat_worker.
  - done.
Qed.

Lemma handle_outcome_again tx outcome w :
  wpm True (handle_outcome effectiveGasPrice (Some tx) outcome) (λ _ _, True) (asks_again tx w) w.
Proof.
  destruct outcome as [[[]|]|r]; try done. unfold handle_outcome. apply wpm_bind.
  eapply wpm_mono with (Q := λ stop w', stop = true ∨ trackers w' = trackers w)
    (R := λ e _, e ≠ ErrEffectiveGasPriceReprocess); [| |naive_solver].
  - destruct (negb _ && _); [by right|]. destruct (pb_IsExecutorLevelError r); [|by right].
    eapply wpm_mono with (Q := λ stop _, stop = true)
      (R := λ e _, e ≠ ErrEffectiveGasPriceReprocess); [|by intros; left|done].
    apply wpm_bind, wpm_gets, wpm_bind. eapply wpm_mono; [apply no_repeat_delete| |done].
    intros [] w1 _. apply wpm_bind, wpm_lift. destruct (pb_ExecutorError r); [|done]. simpl.
    apply wpm_bind. unfold UpdateTxStatus. apply wpm_bind, wpm_modify.
    unfold wpm, ask. by destruct (env_UpdateTxStatus _).
  - intros [] w1 [|Ht]; try done. cbv iota. apply wpm_bind. destruct (bool_decide _).
    { apply wpm_ret, no_repeat_wp. unfold get_wipBatch. no_repeat_tac. }
    rewrite <-Ht. eapply wpm_mono; [apply handleResponse_again| |done].
    intros [] w2 _. apply no_repeat_wp. unfold get_wipBatch. no_repeat_tac.
Qed.

(** A round that is not the first one leaves the mark of the last execution *)
Lemma prepare_keeps_last tx w :
  wpm True (prepare_tx effectiveGasPrice tx false)
    (λ _ w', IsLastExecution (trackers w' tx) = IsLastExecution (trackers w tx))
    (λ e _, e ≠ ErrEffectiveGasPriceReprocess) w.
Proof.
  unfold prepare_tx. apply wpm_bind, wpm_ret, wpm_bind, wpm_gets, wpm_bind.
  eapply wpm_mono with (Q := λ _ w', IsLastExecution (trackers w' tx) = IsLastExecution (trackers w tx))
    (R := λ e _, e ≠ ErrEffectiveGasPriceReprocess); [| |done].
  - repeat case_match; try done; repeat (wpm_step || apply wpm_modify); simpl; by rewrite ?upd_same.
  - intros pct w1 Hl. apply wpm_bind, wpm_gets, wpm_bind, wpm_modify, wpm_bind, wpm_lift.
    destruct (DecodeHex _); try done. apply wpm_ret. simpl. by rewrite upd_same.
Qed.

Lemma run_request_again request tx first w :
  wpm True (run_request effectiveGasPrice request (Some tx) first) (λ _ _, True)
    (λ e w', e = ErrEffectiveGasPriceReprocess → IsLastExecution (trackers w' tx) = true ∧
       (first = false → IsLastExecution (trackers w tx) = false)) w.
Proof.
  unfold run_request, get_wipL2Block. apply wpm_bind, wpm_bind, wpm_gets, wpm_lift.
  destruct ((wipL2Block ∘ fin) w) as [block|]; [|done]. simpl or_panic. cbv iota.
  apply wpm_bind. eapply wpm_mono with (Q := λ _ w', first = false →
      IsLastExecution (trackers w' tx) = IsLastExecution (trackers w tx))
    (R := λ e _, e ≠ ErrEffectiveGasPriceReprocess); [| |naive_solver].
  - destruct first; [eapply wpm_mono; [apply no_repeat_prepare|done..]|].
    by eapply wpm_mono; [apply prepare_keeps_last| |].
  - intros bs w1 Hl. apply wpm_bind. unfold ProcessBatchV2, ask, wpm at 1. simpl.
    eapply wpm_mono; [apply handle_outcome_again|done|]. simpl. intros e w2 He Hr.
    destruct (He Hr) as [H1' H2']. split; [done|]. intros Hf. by rewrite <-Hl.
Qed.

(** C25. The loop of the finalizer on a transaction ends after at most two
    rounds, whatever the executor, the pool and the clock answer: a second
    round is marked as the last one. *)
Theorem process_loop_terminates (request : World T → ProcessRequest) tx w :
  ∃ w' res, process_loop
    (λ first w, run_request effectiveGasPrice (request w) (Some tx) first w) 2 true w
    = Some (w', res) ∧ res ≠ Fail ErrEffectiveGasPriceReprocess.
Proof.
  pose proof (run_request_again (request w) tx true w) as Hfirst. simpl.
  destruct (run_request _ _ _ true w) as [w1 [[]|e|]] eqn:Hr1; [eauto| |eauto].
  pose proof (wpm_Fail _ _ _ _ _ _ _ Hfirst Hr1) as Hag1. destruct e; eauto.
  destruct (Hag1 eq_refl) as [Hlast _].
  pose proof (run_request_again (request w1) tx false w1) as Hsecond.
  destruct (run_request _ _ _ false w1) as [w2 [[]|e|]] eqn:Hr2; [eauto| |eauto].
  pose proof (wpm_Fail _ _ _ _ _ _ _ Hsecond Hr2) as Hag2. destruct e; eauto.
  destruct (Hag2 eq_refl) as [_ Hno]. by rewrite Hno in Hlast.
Qed.

(** C37. Processing a transaction panics: the map of the request that receives
    the L1 info of the block was never made. *)
Theorem processTransaction_panics forkCfg tx first w :
  processTransaction effectiveGasPrice forkCfg tx first w = (w, Panic).
Proof.
  unfold processTransaction. apply GoM_bind_panic.
  unfold tx_request, get_wipBatch, get_wipL2Block, mbind, GoM_bind, gets, lift. simpl.
  destruct (wipBatch (fin w)) as [b|]; [|done]. simpl.
  destruct (wipL2Block (fin w)) as [block|]; [|done]. simpl.
  destruct (GetForkIDByBatchNumber _ _) eqn:Hf; [done|by apply ForkID_not_fail in Hf|done].
Qed.
End rounds.

(** ** Runs *)

Module FinRun.
Export StoreRun.
#[export] Existing Instance Samples.dec_strings.
#[export] Existing Instance Egp.EgpRun.run_conv.
#[export] Existing Instance Egp.EgpRun.run_conv_laws.
Abbreviation RList := TxList.txSortedList.

(** An executor that has no answers of its own: the runs give them. *)
#[export] Instance run_env : FinalizerEnv := {|
  env_now n := 1000000000 * Z.of_nat n;
  env_ProcessBatchV2 _ _ _ := inl (ExecOther "");
  env_GetL1AndL2GasPrice _ := (4, 10);
  env_UpdateTxStatus _ := None;
  env_order _ a := (map_to_list (notReadyTxs a)).*1;
  env_addrs _ m := (map_to_list m).*1;
  env_WaitFlush _ id := Some id
|}.
#[export] Instance run_env_laws : FinalizerEnvLaws.
Proof.
  split; [|done|by intros n id s [= <-]]. intros n a. split; [apply NoDup_fst_map_to_list|]. intros k. simpl.
  rewrite list_elem_of_fmap. split.
  - intros ([k' l] & -> & Hl%elem_of_map_to_list). by exists l.
  - intros [l Hl]. exists (k, l). by rewrite elem_of_map_to_list.
Qed.

Definition info0 : L1InfoTreeExitRootStorageEntry := mkL1InfoEntry 0 0 0 0 0 0 0 0.
Definition batch0 : Batch :=
  mkBatch 1 3 0 7 0 7 0 7 0 0 0 0 (res_const 100000 100000 100000) "".
Definition block0 : L2Block := mkL2Block 0 0 7 0 info0 [] None.
Definition fin0 : finalizer RList :=
  mkFinalizer WorkerRun.w_init (Some batch0) (Some block0) None [] 0 info0 [] [] 0 0.

(** Tracker 0 was sent with a price that is far from what it costs. *)
Definition σ1 : store := upd Samples.σ0 0%nat (with_prices (Samples.σ0 0%nat) 4 10).
Definition world0 : World RList := mkWorld fin0 σ1 (run_server []) [] [] 0.

Lemma world0_ok : worker_ok world0.
Proof.
  split; [|apply NewWorker_inv]. eapply store_ok_static, WorkerRun.σ0_ok. by apply upd_static.
Qed.

Definition answer (err : option error) : ProcessBatchResponse :=
  mkBatchResponse 8 9 0 1 (ZKC (res_const 21000 5 5))
    [mkBlockResponse 0 3 1 1 0 21000 0 77 [response err]] None ∅ false false false 3.

Lemma batch0_res : res_ok (b_remainingResources batch0).
Proof. res_unfold; res_solve. Qed.
Lemma charge0_res : res_ok (charge (answer None) (σ1 0%nat)).
Proof. change (res_ok (mkBatchResources (ZKC (res_const 21000 5 5)) 0)). res_unfold; res_solve. Qed.

Definition again {A} (r : GoRes FinErr A) : bool :=
  match r with Fail ErrEffectiveGasPriceReprocess => true | _ => false end.

End FinRun.
