(* ===== verification/FinForced.v ===== *)
(** * Forced batches in the finalizer

    [sequencer/forcedbatch.go], [sortForcedBatches],
    [setNextForcedBatchDeadline] and the signals of [listenForClosingSignals]
    of [sequencer/finalizer.go], and [DSSendL2Block] of
    [sequencer/datastreamer.go]. *)

From S2P Require Import Prelude Digits Hex GoEthereum TxCodec BatchV2 NewTracker.
From S2P Require Import Resources TxTracker AddrQueue Worker BestFit ExecErrors ExecTypes.
From S2P Require Import GoMonad Postgres StateStore GoFloat EffGasPrice DataStream FinBase FinTx.

(** ** Sorting *)

(** [if fb[i].ForcedBatchNumber > fb[j].ForcedBatchNumber] they are swapped;
    both indices are in range. *)
Definition swap_if (fb : list ForcedBatch) (i j : nat) : list ForcedBatch :=
  match fb !! i, fb !! j with
  | Some x, Some y =>
      if fb_ForcedBatchNumber y <? fb_ForcedBatchNumber x then <[j := x]> (<[i := y]> fb) else fb
  | _, _ => fb
  end.

(** [n] is the number of rounds left of [j] and of [i]. *)
Fixpoint sort_inner (n i j : nat) (fb : list ForcedBatch) : list ForcedBatch :=
  match n with
  | O => fb
  | S n => sort_inner n i (S j) (swap_if fb i j)
  end.

Fixpoint sort_outer (n i : nat) (fb : list ForcedBatch) : list ForcedBatch :=
  match n with
  | O => fb
  | S n => sort_outer n (S i) (sort_inner (length fb - S i) i (S i) fb)
  end.

Definition sortForcedBatches (fb : list ForcedBatch) : list ForcedBatch :=
  match fb with [] => fb | _ => sort_outer (length fb - 1) 0 fb end.

Class EthMarshal `{!GoEthereum} := tx_MarshalBinary : Transaction → string + bytes.

Section forced.
Context `{!GoEthereum, !EthSigner, !EthMarshal, !EthBlocks, !Postgres Tables, !FinalizerEnv}.
Context `{!EthStrings}.
Context {T : Type} `{!ReadyListOps T}.
Context (cfg : FinalizerCfg) (forkCfg : ForkCfg) (sequencerAddress : Z) (streamServer : bool).

(** ** Signals *)

(** [int64(d.Seconds())] of the time out, in seconds *)
Definition setNextForcedBatchDeadline : FinM T () :=
  t ← now;
  modify (on_fin (set_deadline (Unix t + ForcedBatchDeadlineTimeout cfg))).

(** A forced batch or an L2 reorg is received. *)
Definition receive_ForcedBatch (fb : ForcedBatch) : FinM T () :=
  batches ← gets (λ w, nextForcedBatches (fin w));
  modify (on_fin (set_nextForcedBatches (sortForcedBatches (batches ++ [fb])))) ;;
  deadline ← gets (λ w, nextForcedBatchDeadline (fin w));
  if decide (deadline = 0) then setNextForcedBatchDeadline else mret tt.

Definition receive_L2Reorg : FinM T () := halt HaltL2Reorg.

(** ** The data stream *)

Fixpoint stream_txs (blockNumber : Z) (rs : list ProcessTransactionResponse) :
    GoRes FinErr (list DSL2Transaction) :=
  match rs with
  | [] => Ret []
  | r :: rs =>
      match tx_MarshalBinary (tr_Tx r) with
      | inl e => Fail (ErrMarshal e)
      | inr binaryTxData =>
          txs ← stream_txs blockNumber rs;
          Ret (mkDSL2Transaction blockNumber (wrap8 (tr_EffectivePercentage r)) 1 0
                 (wrap32 (zlen binaryTxData)) binaryTxData :: txs)
      end
  end.

Definition DSSendL2Block (batchNumber : Z) (b : ProcessBlockResponse) : FinM T () :=
  forkID ← lift (GetForkIDByBatchNumber forkCfg batchNumber);
  if streamServer
  then
    txs ← lift (stream_txs (bl_BlockNumber b) (bl_TransactionResponses b));
    modify (add_stream (mkDSL2FullBlock
      (mkDSL2Block batchNumber (bl_BlockNumber b) (to_int64 (bl_Timestamp b)) (bl_BlockInfoRoot b)
         sequencerAddress (forkID mod 2 ^ 16) (bl_BlockHash b) (bl_BlockHash b)) txs))
  else mret tt.

(** ** Processing *)

Definition addForcedTxToWorker (r : ProcessBatchResponse) : FinM T () :=
  for_each (pb_BlockResponses r) (λ b,
    for_each (bl_TransactionResponses b) (λ tx,
      match GetSender (tr_Tx tx) with
      | Ret from => worker_side (λ wk, AddForcedTx wk (tr_TxHash tx) from)
      | Fail _ => mret tt
      | Panic => panic
      end)).

(** Whether the executor has stored the flush id; otherwise the context was
    cancelled. *)
Definition wait_flush (flushID : Z) : FinM T bool :=
  stored ← gets (λ w, storedFlushID (fin w));
  if stored <? flushID
  then
    id ← ask (λ n, env_WaitFlush n flushID);
    match id with
    | Some id => modify (on_fin (set_storedFlushID id)) ;; mret true
    | None => mret false
    end
  else mret true.

Definition handleProcessForcedBatchResponse (r : ProcessBatchResponse) (t : PgTx) : FinM T () :=
  addForcedTxToWorker r ;;
  updateLastPendingFlushID (pb_FlushID r) ;;
  flushed ← wait_flush (pb_FlushID r);
  if negb flushed then mret tt
  else
    for_each (pb_BlockResponses r) (λ b,
      block_call (StoreL2Block forkCfg (pb_NewBatchNumber r) b None (Some t)) ;;
      for_each (bl_TransactionResponses b) (λ tx,
        match GetSender (tr_Tx tx) with
        | Ret from => updateWorkerAfterSuccessfulProcessing (tr_TxHash tx) from true r
        | Fail _ => mret tt
        | Panic => panic
        end) ;;
      try (DSSendL2Block (pb_NewBatchNumber r) b) ;;
      mret tt).

Definition rollbackOnError {A} (t : PgTx) (retError : FinErr) : FinM T A :=
  err ← try (state_call (Rollback t));
  match err with
  | inl err => fail (ErrRollback retError err)
  | inr _ => fail retError
  end.

(** A call after which the transaction is rolled back *)
Definition or_rollback {A} (t : PgTx) (m : FinM T A) : FinM T A :=
  r ← try m;
  match r with inl err => rollbackOnError t err | inr a => mret a end.

(** The number of the last batch, its state root and its input hash; an error
    leaves them as they were. *)
Abbreviation Position := (Z * Z * Z)%type.

(** The request for the executor *)
Definition forced_request (fb : ForcedBatch) (l1Block : BlockRow) (p : Position) (forkID : Z) :
    ProcessRequest :=
  let '(lastBatchNumber, stateRoot, accInputHash) := p in
  mkProcessRequest (lastBatchNumber +₆₄ 1) (fb_GlobalExitRoot fb) None stateRoot accInputHash
    (fb_RawTxsData fb) sequencerAddress (parent_hash l1Block) (wrap64 (Unix (fb_ForcedAt fb)))
    false false true forkID.

(** [processForcedBatch] up to the commit: the batch is opened, executed and
    closed in a new transaction. *)
Definition close_forced (fb : ForcedBatch) (p : Position) : FinM T (PgTx * ProcessBatchResponse) :=
  let '(lastBatchNumber, stateRoot, accInputHash) := p in
  dbTx ← state_call BeginStateTransaction;
  fbL1Block ← state_call (GetBlockByNumber (fb_ForcedBatchNumber fb) (Some dbTx));
  let newBatchNumber := lastBatchNumber +₆₄ 1 in
  timestamp ← now;
  or_rollback dbTx (state_call (OpenBatch
    (mkProcessingContext newBatchNumber sequencerAddress timestamp (fb_GlobalExitRoot fb)
       (Some (fb_ForcedBatchNumber fb)) None) (Some dbTx))) ;;
  forkID ← lift (GetForkIDByBatchNumber forkCfg lastBatchNumber);
  outcome ← ProcessBatchV2 (forced_request fb fbL1Block p forkID) true;
  match outcome with
  | inl err => rollbackOnError dbTx (ErrExecution err)
  | inr r =>
      or_rollback dbTx (state_call (CloseBatch
        (mkProcessingReceipt newBatchNumber (pb_NewStateRoot r) (pb_NewLocalExitRoot r)
           (pb_NewAccInputHash r) (fb_RawTxsData fb) "Forced Batch"
           (mkBatchResources (pb_UsedZkCounters r) (wrap64 (zlen (fb_RawTxsData fb)))))
        (Some dbTx))) ;;
      mret (dbTx, r)
  end.

(** The commit, and the response of the executor *)
Definition processForcedBatch (fb : ForcedBatch) (p : Position) : FinM T Position :=
  let '(lastBatchNumber, stateRoot, accInputHash) := p in
  closed ← close_forced fb p;
  let '(dbTx, r) := closed in
  or_rollback dbTx (state_call (Commit dbTx)) ;;
  if bool_decide (pb_BlockResponses r ≠ []) && negb (pb_IsRomOOCError r)
  then
    err ← try (handleProcessForcedBatchResponse r dbTx);
    rollbackOnError dbTx (match err with inl err => err | inr _ => ErrNilWrapped end)
  else mret (lastBatchNumber +₆₄ 1, pb_NewStateRoot r, pb_NewAccInputHash r).

(** The loop of [processForcedBatches]; an error ends it. *)
Fixpoint forced_loop (fbs : list ForcedBatch) (nextForcedBatchNumber : Z) (p : Position) :
    FinM T Position :=
  match fbs with
  | [] => modify (on_fin (set_nextForcedBatches [])) ;; mret p
  | fb :: fbs =>
      if fb_ForcedBatchNumber fb <? nextForcedBatchNumber
      then forced_loop fbs nextForcedBatchNumber p
      else
        toProcess ←
          (if nextForcedBatchNumber <? fb_ForcedBatchNumber fb
           then try (state_call (GetForcedBatch nextForcedBatchNumber None))
           else mret (inr fb));
        match toProcess with
        | inl _ => mret p
        | inr fb =>
            r ← try (processForcedBatch fb p);
            match r with
            | inl _ => mret p
            | inr p => forced_loop fbs (nextForcedBatchNumber +₆₄ 1) p
            end
        end
  end.

Definition processForcedBatches (p : Position) : FinM T Position :=
  modify (on_fin (set_deadline 0)) ;;
  last ← try (state_call (GetLastTrustedForcedBatchNumber None));
  match last with
  | inl _ => mret p
  | inr lastForcedBatchNumber =>
      fbs ← gets (λ w, nextForcedBatches (fin w));
      forced_loop fbs (lastForcedBatchNumber +₆₄ 1) p
  end.
End forced.
