(* ===== verification/FinForcedOk.v ===== *)
(** * Forced batches: what is sorted, what is stored

    The signals are kept in order; a forced batch whose execution returns
    blocks is committed without them and reported as failed. *)

From S2P Require Import Prelude Digits Hex GoEthereum TxCodec BatchV2 NewTracker.
From S2P Require Import Resources TxTracker AddrQueue Worker BestFit ExecErrors ExecTypes.
From S2P Require Import GoMonad Postgres StateStore StoreOk StoreWp GoFloat EffGasPrice.
From S2P Require Import DataStream FinBase FinTx FinTxOk FinForced TxSortedList.

(** ** Sorting *)

Abbreviation fnum x := (fb_ForcedBatchNumber x).

(** The elements before [i] are sorted and not above any later one. *)
Definition sorted_upto (i : nat) (fb : list ForcedBatch) : Prop :=
  ∀ a b x y, (a < i)%nat → (a < b)%nat → fb !! a = Some x → fb !! b = Some y → fnum x ≤ fnum y.

(** Element [i] is not above those between it and [j]. *)
Definition least_upto (i j : nat) (fb : list ForcedBatch) : Prop :=
  ∀ b x y, (i < b < j)%nat → fb !! i = Some x → fb !! b = Some y → fnum x ≤ fnum y.

Lemma swap_if_perm fb i j : swap_if fb i j ≡ₚ fb.
Proof.
  unfold swap_if. destruct (fb !! i) as [x|] eqn:Hi, (fb !! j) as [y|] eqn:Hj; try done.
  case_match; [|done]. by apply Permutation_insert_swap.
Qed.

Lemma swap_if_step fb i j :
  (i < j)%nat → (j < length fb)%nat → sorted_upto i fb → least_upto i j fb →
  sorted_upto i (swap_if fb i j) ∧ least_upto i (S j) (swap_if fb i j).
Proof.
  intros Hij Hj Hs Hl. unfold swap_if.
  destruct (lookup_lt_is_Some_2 fb i) as [x Hx]; [lia|].
  destruct (lookup_lt_is_Some_2 fb j) as [y Hy]; [lia|]. rewrite Hx, Hy.
  destruct (Z.ltb_spec (fnum y) (fnum x)) as [Hlt|Hge].
  2:{ split; [done|]. intros b u v Hb Hu Hv. simplify_eq.
      destruct (decide (b = j)) as [->|]; [by simplify_eq|]. eapply Hl; [|done..]. lia. }
  assert (∀ b v, <[j:=x]> (<[i:=y]> fb) !! b = Some v →
    (b = i ∧ v = y) ∨ (b = j ∧ v = x) ∨ (b ≠ i ∧ b ≠ j ∧ fb !! b = Some v)) as Hget.
  { intros b v. destruct (decide (b = j)) as [->|]; [|destruct (decide (b = i)) as [->|]].
    - rewrite list_lookup_insert_eq by (rewrite length_insert; lia). naive_solver.
    - rewrite list_lookup_insert_ne by lia. rewrite list_lookup_insert_eq by lia. naive_solver.
    - rewrite !list_lookup_insert_ne by lia. naive_solver. }
  split.
  - intros a b u v Ha Hab Hu Hv.
    apply Hget in Hu as [[-> ->]|[[-> ->]|(_ & _ & Hu)]]; [lia..|].
    apply Hget in Hv as [[-> ->]|[[-> ->]|(_ & _ & Hv)]];
      [apply (Hs a j)|apply (Hs a i)|apply (Hs a b)]; (done || lia).
  - intros b u v Hb Hu Hv. apply Hget in Hu as [[_ ->]|[[-> ->]|(? & _ & _)]]; [|lia|done].
    apply Hget in Hv as [[-> ->]|[[-> ->]|(? & ? & Hv)]]; [lia..|].
    assert (fnum x ≤ fnum v); [|lia]. eapply Hl; [|done..]. lia.
Qed.

Lemma sort_inner_spec n : ∀ i j fb,
  (i < j)%nat → (j + n)%nat = length fb → sorted_upto i fb → least_upto i j fb →
  sort_inner n i j fb ≡ₚ fb ∧ sorted_upto (S i) (sort_inner n i j fb).
Proof.
  induction n as [|n IH]; intros i j fb Hij Hn Hs Hl; simpl.
  - split; [done|]. intros a b x y Ha Hab Hx Hy. destruct (decide (a = i)) as [->|].
    + eapply Hl; [|done..]. apply lookup_lt_Some in Hy. lia.
    + by apply (Hs a b); [lia|..].
  - destruct (swap_if_step fb i j) as [Hs' Hl']; [lia|lia|done..|].
    pose proof (swap_if_perm fb i j) as Hp.
    destruct (IH i (S j) (swap_if fb i j)) as [Hp' Hs'']; [lia| |done..|].
    + rewrite (Permutation_length Hp). lia.
    + split; [|done]. by rewrite Hp'.
Qed.

Lemma sort_outer_spec n : ∀ i fb,
  (i + n + 1)%nat = length fb → sorted_upto i fb →
  sort_outer n i fb ≡ₚ fb ∧ sorted_upto (i + n) (sort_outer n i fb).
Proof.
  induction n as [|n IH]; intros i fb Hn Hs; simpl; [split; [done|by rewrite Nat.add_0_r]|].
  destruct (sort_inner_spec (length fb - S i) i (S i) fb) as [Hp Hs']; [lia|lia|done| |].
  { intros b x y Hb. lia. }
  destruct (IH (S i) (sort_inner (length fb - S i) i (S i) fb)) as [Hp' Hs''];
    [rewrite (Permutation_length Hp); lia|done|].
  split; [by rewrite Hp'|]. by replace (i + S n)%nat with (S i + n)%nat by lia.
Qed.

(** The forced batches that wait are kept in the order of their numbers,
    whatever the order in which they were received: none is lost, none is
    added. *)
Theorem sortForcedBatches_sorts fb :
  sortForcedBatches fb ≡ₚ fb ∧
  ∀ a b x y, (a < b)%nat → sortForcedBatches fb !! a = Some x → sortForcedBatches fb !! b = Some y →
    fb_ForcedBatchNumber x ≤ fb_ForcedBatchNumber y.
Proof.
  destruct fb as [|f fb]; [done|]. unfold sortForcedBatches.
  destruct (sort_outer_spec (length (f :: fb) - 1) 0 (f :: fb)) as [Hp Hs]; [simpl; lia| |].
  { intros a b x y Ha. lia. }
  split; [done|]. intros a b x y Hab Hx Hy. apply (Hs a b); [|done..].
  apply lookup_lt_Some in Hy. rewrite (Permutation_length Hp) in Hy. simpl in *. lia.
Qed.

(** ** Forced batches in the database *)

Section forced_ok.
Context `{!GoEthereum, !EthSigner, !EthMarshal, !EthBlocks, !Postgres Tables, !PostgresSpec Tables}.
Context `{!FinalizerEnv, !EthStrings}.
Context {T : Type} `{!ReadyListOps T}.
Context (forkCfg : ForkCfg) (sequencerAddress : Z) (streamServer : bool).
Implicit Types (w : World T).

(** A method of the state inside the finalizer *)
Lemma wp_state_call {A} (K : Prop) (m : StoreM A) (Q : A → World T → Prop) R w :
  wpm K m (λ a s, Q a (set_db s w)) (λ e s, R (ErrState e) (set_db s w)) (db w) →
  wpm K (state_call m) Q R w.
Proof. intros Hm. by apply wpm_wrap, wpm_zoom. Qed.

Lemma wp_rollbackOnError {A} t (e : FinErr) old w :
  committed old (db w) →
  wpm False (rollbackOnError (A := A) t e) (λ _ _, False) (λ _ w', committed old (db w')) w.
Proof.
  intros Hw. unfold rollbackOnError. apply wpm_bind, wpm_try, wp_state_call.
  eapply wpm_mono; [by apply (wp_rollback t)|..]; by intros.
Qed.

(** An operation of a transaction: its effect is in the transaction only, and
    an error leaves the committed tables. *)
Lemma wp_or_rollback {A} t (m : StoreM A) x post err old w :
  op_spec False t m x post err → in_tx t old x (db w) →
  wpm False (or_rollback t (state_call m))
    (λ a w', ∃ s y, w' = set_db s w ∧ post a y ∧ in_tx t old y s)
    (λ _ w', committed old (db w')) w.
Proof.
  intros Hm Hw. unfold or_rollback. apply wpm_bind, wpm_try, wp_state_call.
  eapply wpm_mono; [by apply Hm|..].
  - intros a s (y & Hy & Hs). apply wpm_ret. eauto.
  - intros e s [_ Hs]. eapply wpm_mono; [by apply wp_rollbackOnError|done|done].
Qed.

Lemma block_loop_nil rs : ∀ i txs data rcs, ∃ r, block_loop rs i None txs data rcs = Ret r.
Proof. induction rs as [|r rs IH]; intros; simpl; [eauto|]. case_match; go_bind; apply IH. Qed.

Lemma unseen_block_call {A} K old (m : L2StoreM A) :
  unseen id K old m → unseen db K old (block_call (T := T) m).
Proof. intros Hm w Hw. by apply wpm_wrap, wpm_zoom, Hm. Qed.

Lemma unseen_DSSendL2Block old n b :
  ForkIDIntervals forkCfg ≠ [] →
  unseen db False old (DSSendL2Block (T := T) forkCfg sequencerAddress streamServer n b).
Proof.
  intros Hf. unfold DSSendL2Block. destruct (ForkID_Ret (E := FinErr) forkCfg n Hf) as [id ->].
  rewrite lift_Ret_bind. destruct streamServer; [|by intros w].
  apply unseen_bind; [|by intros txs w]. apply unseen_pure. intros w. split; [done|]. simpl.
  induction (bl_TransactionResponses b) as [|r rs IH]; simpl; [done|].
  destruct (tx_MarshalBinary _); [done|]. destruct (stream_txs _ rs); go_bind; [done..|]. by apply IH.
Qed.

Lemma unseen_sender old tx (m : Z → FinM T ()) :
  (∀ from, unseen db False old (m from)) →
  unseen db False old (match GetSender tx with
                       | Ret from => m from | Fail _ => mret tt | Panic => panic end).
Proof. intros Hm. unfold GetSender. destruct (EIP155Signer_Sender _ _); [by intros w|apply Hm]. Qed.

Lemma unseen_handle old r t :
  ForkIDIntervals forkCfg ≠ [] →
  unseen db False old
    (handleProcessForcedBatchResponse (T := T) forkCfg sequencerAddress streamServer r t).
Proof.
  intros Hf. unfold handleProcessForcedBatchResponse, addForcedTxToWorker.
  apply unseen_bind.
  { apply unseen_for_each. intros b. apply unseen_for_each. intros tx. apply unseen_sender.
    by intros from w. }
  intros _. apply unseen_bind; [intros w Hw; apply wpm_modify; unfold on_fin; by case_match|].
  intros _. apply unseen_bind.
  { unfold wait_flush. apply unseen_bind; [by intros w|]. intros stored. case_match; [|by intros w].
    apply unseen_bind; [by intros w|]. intros [id|]; [|by intros w]. apply unseen_bind; [by intros w|by intros ? w]. }
  intros flushed. case_match; [by intros w|]. apply unseen_for_each. intros b.
  apply unseen_bind.
  { apply unseen_block_call, unseen_StoreL2Block; [done|].
    destruct (block_loop_nil (bl_TransactionResponses b) 0 [] [] []) as [? ->]. done. }
  intros _. apply unseen_bind.
  { apply unseen_for_each. intros tx. apply unseen_sender. by intros from w. }
  intros _. apply unseen_bind; [|by intros ? w].
  by apply unseen_try, unseen_DSSendL2Block.
Qed.

(** The batch a forced batch becomes *)
Definition forced_closed (fb : ForcedBatch) (n : Z) (old new : Tables) : Prop := ∃ row,
  t_batch old !! n = None ∧ t_batch new = <[n := row]> (t_batch old) ∧ wip row = false ∧
  forced_batch_num row = Some (fb_ForcedBatchNumber fb) ∧
  raw_txs_data row = Some (fb_RawTxsData fb) ∧
  t_l2block new = t_l2block old ∧ t_transaction new = t_transaction old.

Lemma wp_close_forced fb lastBatchNumber stateRoot accInputHash r old w :
  ForkIDIntervals forkCfg ≠ [] → committed old (db w) →
  (∀ request, env_ProcessBatchV2 (S (ticks w)) request true = inr r) →
  wpm False (close_forced forkCfg sequencerAddress fb (lastBatchNumber, stateRoot, accInputHash))
    (λ a w', a.2 = r ∧ ∃ new, in_tx a.1 old new (db w') ∧
       forced_closed fb (lastBatchNumber +₆₄ 1) old new)
    (λ _ w', committed old (db w')) w.
Proof.
  intros Hf Hw Henv. unfold close_forced. apply wpm_bind, wp_state_call.
  eapply wpm_mono; [by apply wp_begin| |by intros].
  intros t s1 Hs1. apply wpm_bind, wp_state_call.
  eapply wpm_mono; [eapply (op_query t); exact Hs1| |by intros e s [_ Hs]].
  intros l1 s2 (y & [-> _] & Hs2). apply wpm_bind. unfold now, ask at 1, wpm at 1. cbv beta iota.
  apply wpm_bind.
  eapply wpm_mono; [eapply wp_or_rollback; [apply op_OpenBatch|done]| |by intros].
  intros [] w3 (s3 & y & -> & (_ & Hnone & ->) & Hs3).
  destruct (ForkID_Ret (E := FinErr) forkCfg lastBatchNumber Hf) as [id ->]. rewrite lift_Ret_bind.
  apply wpm_bind. unfold ProcessBatchV2, ask at 1, wpm at 1. cbv beta iota.
  cbn [ticks set_db set_ticks]. rewrite Henv.
  apply wpm_bind.
  eapply wpm_mono; [eapply wp_or_rollback; [apply op_CloseBatch|done]| |by intros].
  intros [] w4 (s4 & y & -> & (row & Hrow & _ & ->) & Hs4). simpl in Hrow, Hnone.
  rewrite lookup_insert_eq in Hrow. injection Hrow as <-.
  apply wpm_ret. split; [done|]. eexists. split; [exact Hs4|].
  eexists. split; [exact Hnone|]. split; [simpl; by rewrite insert_insert_eq|]. done.
Qed.

Lemma bind_eq {A B} (m : FinM T A) (f : A → FinM T B) w :
  (m ≫= f) w = match m w with
                | (w', Ret a) => f a w'
                | (w', Fail e) => (w', Fail e)
                | (w', Panic) => (w', Panic)
                end.
Proof. reflexivity. Qed.

(** After a commit whose outcome is not known *)
Lemma wp_rollbackOnError_either {A} t (e : FinErr) old new w :
  committed old (db w) ∨ committed new (db w) →
  wpm False (rollbackOnError (A := A) t e) (λ _ _, False)
    (λ _ w', committed old (db w') ∨ committed new (db w')) w.
Proof.
  intros [Hw|Hw]; (eapply wpm_mono; [by apply wp_rollbackOnError|done|]); cbv beta; auto.
Qed.

End forced_ok.

(** ** A run *)

Module ForcedRun.
Export FinRun.
#[export] Instance run_marshal : EthMarshal := λ _, inr [1; 2].
Definition run_answer : ProcessBatchResponse := answer None.
Definition forced_env : FinalizerEnv := {|
  env_now n := 1000000000 * Z.of_nat n;
  env_ProcessBatchV2 _ _ _ := inr run_answer;
  env_GetL1AndL2GasPrice _ := (4, 10);
  env_UpdateTxStatus _ := None;
  env_order _ a := (map_to_list (notReadyTxs a)).*1;
  env_addrs _ m := (map_to_list m).*1;
  env_WaitFlush _ id := Some id
|}.

(** Forced batch 5 is in the database; the L1 block that is read is number 5
    too. *)
Definition forced5 : ForcedBatch := mkForcedBatch 5 5 3 8 [0x0B; 0xFF] 900000000.
Definition tables5 : Tables :=
  set_forced genesis_tables {[5 := mkForcedRow 8 900000000 (EncodeToString [0x0B; 0xFF]) 3 5]}.
Definition cfg0 : ForkCfg := mkForkCfg 0 0 [mkForkIDInterval 0 100 7 0].
Definition world5 : World RList :=
  mkWorld fin0 σ1 (RefPostgres.mkRefServer tables5 ∅ 0 [] : server) [] [] 5.

Definition forced_run : World RList * GoRes FinErr (Z * Z * Z) :=
  @processForcedBatch _ _ _ _ _ forced_env _ RList _ cfg0 3 true forced5 (0, 7, 0) world5.

(** The outcome is an error, and batch 1 is in the database and closed. *)
Definition failed {A} (r : GoRes FinErr A) : bool := match r with Fail _ => true | _ => false end.
Definition batch1_closed (w : World RList) : bool :=
  match t_batch (RefPostgres.committed (db w : server)) !! 1 with
  | Some row => negb (wip row)
  | None => false
  end.

End ForcedRun.
