(* ===== verification/EvmBase.v ===== *)
(** * The virtual machine: environment, state and effects

    The types [state/runtime/fakevm] is written in.  Code of other modules is a
    class: the 256-bit integers of [holiman/uint256] ([Uint256]), the constants
    of [go-ethereum/params] ([Params]), hashes, addresses and checked arithmetic
    of go-ethereum ([Geth]) and
    the interface [FakeDB] of the state ([FakeDB], [fakedb.go]); [Uint256Laws]
    and the other law classes state what the theorems rely on.

    The mutable fields the code reaches through pointers are the record [St]: the
    program counter, stack, memory and contract of the running frame, and the
    fields of [FakeEVM] and [EVMInterpreter] all frames share.  The top of the
    stack is the head of the list, the last element of the Go slice.  A slice of
    bytes is a list; nil is the empty list.  A slice expression past the length
    of a slice counts as a panic, although Go allows it up to the capacity. *)

From S2P Require Import Prelude OpCodes.

(** ** Code of other modules *)

(** [holiman/uint256]: a method [z.Op(x, y)] that stores its result in the
    receiver is the function of its operands. *)
Class Uint256 := {
  U : Type;
  u_Add : U → U → U;
  u_Sub : U → U → U;
  u_Mul : U → U → U;
  u_Div : U → U → U;
  u_SDiv : U → U → U;
  u_Mod : U → U → U;
  u_SMod : U → U → U;
  u_Exp : U → U → U;
  u_ExtendSign : U → U → U;
  u_Not : U → U;
  u_Lt : U → U → bool;
  u_Gt : U → U → bool;
  u_Slt : U → U → bool;
  u_Sgt : U → U → bool;
  u_Eq : U → U → bool;
  u_IsZero : U → bool;
  u_One : U;
  u_Zero : U;
  u_AllOne : U;
  u_And : U → U → U;
  u_Or : U → U → U;
  u_Xor : U → U → U;
  u_Byte : U → U → U;
  u_AddMod : U → U → U → U;
  u_MulMod : U → U → U → U;
  u_LtUint64 : U → Z → bool;
  u_GtUint64 : U → Z → bool;
  u_Uint64 : U → Z;
  u_Lsh : U → Z → U;
  u_Rsh : U → Z → U;
  u_SRsh : U → Z → U;
  u_Sign : U → Z;
  u_SetBytes : bytes → U;
  u_SetUint64 : Z → U;
  u_FromBig : Z → U;
  u_SetFromBig : Z → U;
  u_ToBig : U → Z;
  u_Bytes20 : U → bytes;
  u_Bytes32 : U → bytes;
  u_IsUint64 : U → bool;
  u_Uint64WithOverflow : U → Z * bool;
  u_BitLen : U → Z
}.

(** What the interpreter relies on: an integer has a value of 256 bits, and the
    conversions to 64 bits are those of the value. *)
Class Uint256Laws (uint : Uint256) := {
  u_val : U → Z;
  u_val_range x : 0 ≤ u_val x < 2 ^ 256;
  u_Uint64_spec x : u_Uint64 x = wrap64 (u_val x);
  u_IsUint64_spec x : u_IsUint64 x = (u_val x <? 2 ^ 64);
  u_Uint64WithOverflow_spec x : u_Uint64WithOverflow x = (wrap64 (u_val x), 2 ^ 64 <=? u_val x);
  u_IsZero_spec x : u_IsZero x = (u_val x =? 0);
  u_Sign_zero x : u_Sign x = 0 ↔ u_val x = 0;
  u_Add_spec x y : u_val (u_Add x y) = (u_val x + u_val y) mod 2 ^ 256;
  u_BitLen_range x : 0 ≤ u_BitLen x ≤ 256
}.

(** The constants of [go-ethereum/params] the machine uses. *)
Class Params := {
  CallValueTransferGas : Z;
  CallNewAccountGas : Z;
  CallStipend : Z;
  MemoryGas : Z;
  QuadCoeffDiv : Z;
  CopyGas : Z;
  SstoreSetGas : Z;
  SstoreResetGas : Z;
  SstoreClearGas : Z;
  SstoreRefundGas : Z;
  NetSstoreNoopGas : Z;
  NetSstoreInitGas : Z;
  NetSstoreCleanGas : Z;
  NetSstoreDirtyGas : Z;
  NetSstoreClearRefund : Z;
  NetSstoreResetRefund : Z;
  NetSstoreResetClearRefund : Z;
  SstoreSentryGasEIP2200 : Z;
  SstoreSetGasEIP2200 : Z;
  SstoreResetGasEIP2200 : Z;
  SstoreClearsScheduleRefundEIP2200 : Z;
  SstoreClearsScheduleRefundEIP3529 : Z;
  ColdAccountAccessCostEIP2929 : Z;
  ColdSloadCostEIP2929 : Z;
  WarmStorageReadCostEIP2929 : Z;
  LogGas : Z;
  LogTopicGas : Z;
  LogDataGas : Z;
  Keccak256Gas : Z;
  Keccak256WordGas : Z;
  InitCodeWordGas : Z;
  MaxInitCodeSize : Z;
  MaxCodeSize : Z;
  ExpGas : Z;
  ExpByteFrontier : Z;
  ExpByteEIP158 : Z;
  SelfdestructGasEIP150 : Z;
  CreateBySelfdestructGas : Z;
  SelfdestructRefundGas : Z;
  CreateGas : Z;
  Create2Gas : Z;
  CreateDataGas : Z;
  JumpdestGas : Z;
  SloadGasFrontier : Z;
  SloadGasEIP150 : Z;
  SloadGasEIP1884 : Z;
  SloadGasEIP2200 : Z;
  BalanceGasFrontier : Z;
  BalanceGasEIP150 : Z;
  BalanceGasEIP1884 : Z;
  ExtcodeSizeGasFrontier : Z;
  ExtcodeSizeGasEIP150 : Z;
  ExtcodeCopyBaseFrontier : Z;
  ExtcodeCopyBaseEIP150 : Z;
  ExtcodeHashGasConstantinople : Z;
  ExtcodeHashGasEIP1884 : Z;
  CallGasFrontier : Z;
  CallGasEIP150 : Z;
  StackLimit : Z;
  CallCreateDepth : Z
}.

(** The documented values of the constants are positive and small; some relations
    between them matter. *)
Class ParamsLaws (p : Params) := {
  params_bounds : Forall (λ z, 0 < z < 2 ^ 20)
    [CallValueTransferGas; CallNewAccountGas; CallStipend; CopyGas; SstoreSetGas;
     SstoreResetGas; SstoreClearGas; NetSstoreNoopGas; NetSstoreInitGas; NetSstoreCleanGas;
     NetSstoreDirtyGas; SstoreSetGasEIP2200; SstoreResetGasEIP2200;
     ColdAccountAccessCostEIP2929; ColdSloadCostEIP2929; WarmStorageReadCostEIP2929; LogGas;
     LogTopicGas; LogDataGas; Keccak256Gas; Keccak256WordGas; InitCodeWordGas;
     MaxInitCodeSize; MaxCodeSize; ExpGas; ExpByteFrontier; ExpByteEIP158;
     SelfdestructGasEIP150; CreateBySelfdestructGas; CreateGas; Create2Gas; CreateDataGas;
     JumpdestGas; SloadGasFrontier; SloadGasEIP150; SloadGasEIP1884; SloadGasEIP2200;
     BalanceGasFrontier; BalanceGasEIP150; BalanceGasEIP1884; ExtcodeSizeGasFrontier;
     ExtcodeSizeGasEIP150; ExtcodeCopyBaseFrontier; ExtcodeCopyBaseEIP150;
     ExtcodeHashGasConstantinople; ExtcodeHashGasEIP1884; CallGasFrontier; CallGasEIP150;
     CallCreateDepth];
  MemoryGas_value : MemoryGas = 3;
  QuadCoeffDiv_value : QuadCoeffDiv = 512;
  StackLimit_value : StackLimit = 1024;
  stipend_paid : CallStipend < CallValueTransferGas;
  sload_below_reset : ColdSloadCostEIP2929 < SstoreResetGasEIP2200;
  warm_below_cold : WarmStorageReadCostEIP2929 ≤ ColdAccountAccessCostEIP2929
}.

(** Addresses ([common.Address]) and hashes ([common.Hash]) are their bytes. *)
Abbreviation Address := (list Z) (only parsing).
Abbreviation Hash := (list Z) (only parsing).

(** The functions of the packages [crypto], [common] and [common/math] of
    go-ethereum.  [RightPadBytes] allocates the padded slice: [None] is the panic of
    [make]. *)
Class Geth := {
  Keccak256 : bytes → Hash;
  CreateAddress : Address → Z → Address;
  CreateAddress2 : Address → bytes → bytes → Address;
  RightPadBytes : bytes → Z → option bytes;
  SafeAdd : Z → Z → Z * bool;
  SafeMul : Z → Z → Z * bool
}.

(** The longest slice of bytes that [make] tries to allocate, on the 64-bit platforms
    of Go *)
Definition maxAlloc : Z := 2 ^ 48.

(** Padding adds zeros up to a length and never cuts; a slice longer than [maxAlloc]
    cannot be made.  The safe operations tell whether the result overflowed. *)
Class GethLaws (geth : Geth) := {
  RightPadBytes_spec sl l :
    l ≤ maxAlloc → RightPadBytes sl l = Some (sl ++ replicate (Z.to_nat (l - zlen sl)) 0);
  RightPadBytes_panic sl l : maxAlloc < l → zlen sl < l → RightPadBytes sl l = None;
  SafeAdd_spec x y : in_u64 x → in_u64 y → SafeAdd x y = (x +₆₄ y, 2 ^ 64 <=? x + y);
  SafeMul_spec x y : in_u64 x → in_u64 y → SafeMul x y = (wrap64 (x * y), 2 ^ 64 <=? x * y)
}.

Definition zero_hash : Hash := replicate 32 0.
Definition zero_address : Address := replicate 20 0.

(** [types.Log] *)
Record Log := mkLog {
  log_Address : Address;
  log_Topics : list Hash;
  log_Data : bytes;
  log_BlockNumber : Z
}.

(** [fakedb.go]: a method that changes the state returns the new one.  A balance may be
    nil; [GetState], [Exist] and [Empty] may panic ([None]), as those of [state/fakedb.go]
    do when the tree does not answer. *)
Class FakeDB := {
  db : Type;
  CreateAccount : db → Address → db;
  SubBalance : db → Address → Z → db;
  AddBalance : db → Address → option Z → db;
  GetBalance : db → Address → option Z;
  GetNonce : db → Address → Z;
  SetNonce : db → Address → Z → db;
  GetCodeHash : db → Address → Hash;
  GetCode : db → Address → bytes;
  SetCode : db → Address → bytes → db;
  GetCodeSize : db → Address → Z;
  AddRefund : db → Z → db;
  SubRefund : db → Z → db;
  GetCommittedState : db → Address → Hash → Hash;
  GetState : db → Address → Hash → option Hash;
  SetState : db → Address → Hash → Hash → db;
  GetTransientState : db → Address → Hash → Hash;
  SetTransientState : db → Address → Hash → Hash → db;
  Suicide : db → Address → db;
  HasSuicided : db → Address → bool;
  Exist : db → Address → option bool;
  Empty : db → Address → option bool;
  AddressInAccessList : db → Address → bool;
  SlotInAccessList : db → Address → Hash → bool * bool;
  AddAddressToAccessList : db → Address → db;
  AddSlotToAccessList : db → Address → Hash → db;
  RevertToSnapshot : db → Z → db;
  Snapshot : db → db * Z;
  AddLog : db → Log → db;
  AddPreimage : db → Hash → bytes → db
}.

(** [params.Rules] *)
Record Rules := mkRules {
  IsHomestead : bool;
  IsEIP150 : bool;
  IsEIP158 : bool;
  IsByzantium : bool;
  IsConstantinople : bool;
  IsPetersburg : bool;
  IsIstanbul : bool;
  IsBerlin : bool;
  IsLondon : bool;
  IsMerge : bool;
  IsShanghai : bool
}.

(** The fields of [BlockContext], [TxContext] and [FakeEVM] a run does not
    change.  [CanTransfer] reads a balance and panics on a nil one ([None]).  [abort] is
    set by another goroutine: its [n]-th atomic load yields [abort_at n]. *)
Class Env `{FakeDB} := {
  CanTransfer : db → Address → Z → option bool;
  Transfer : db → Address → Address → Z → db;
  GetHash : Z → Hash;
  Coinbase : Address;
  GasLimit : Z;
  BlockNumber : Z;
  Time : Z;
  Difficulty : Z;
  BaseFee : Z;
  Random : option Hash;
  Origin : Address;
  GasPrice : Z;
  ChainID : Z;
  chainRules : Rules;
  EnablePreimageRecording : bool;
  abort_at : nat → bool
}.

(** ** Errors

    [errors.go]; [ErrSentry] is the error [gasSStoreEIP2200] and
    [makeGasSStoreFunc] build, [ErrPrecompiled] one of a precompiled contract. *)
Inductive EvmErr :=
  | ErrOutOfGas
  | ErrCodeStoreOutOfGas
  | ErrDepth
  | ErrInsufficientBalance
  | ErrContractAddressCollision
  | ErrExecutionReverted
  | ErrMaxInitCodeSizeExceeded
  | ErrMaxCodeSizeExceeded
  | ErrInvalidJump
  | ErrWriteProtection
  | ErrReturnDataOutOfBounds
  | ErrGasUintOverflow
  | ErrInvalidCode
  | ErrNonceUintOverflow
  | errStopToken
  | ErrStackUnderflow (stackLen required : Z)
  | ErrStackOverflow (stackLen limit : Z)
  | ErrInvalidOpCode (opcode : Z)
  | ErrSentry
  | ErrPrecompiled (msg : string).

#[export] Instance EvmErr_eq_dec : EqDecision EvmErr.
Proof. solve_decision. Defined.

(** ** State *)

(** [memory.go] *)
Record Memory := mkMemory {
  store : bytes;
  lastGasCost : Z
}.

(** [contract.go]; [caller] is only used for its address and its [jumpdests],
    [self] for its address; a nil [analysis] is [None]. *)
Record Contract := mkContract {
  CallerAddress : Address;
  self : Address;
  analysis : option bytes;
  Code : bytes;
  CodeHash : Hash;
  CodeAddr : option Address;
  Input : bytes;
  Gas : Z;
  value : Z
}.

Section state.
Context `{Uint256, FakeDB}.

(** What all frames share: the state, [depth] and [callGasTemp] of [FakeEVM], the
    number of loads of [abort] so far, [readOnly] and [returnData] of
    [EVMInterpreter], and the map of JUMPDEST analyses ([Contract.jumpdests]),
    which a contract shares with the contract that calls it. *)
Record Evm := mkEvm {
  StateDB : db;
  depth : Z;
  callGasTemp : Z;
  abort_loads : nat;
  readOnly : bool;
  returnData : bytes;
  jumpdests : gmap bytes bytes
}.

Record St := mkSt {
  pc : Z;
  Stack : list U;
  Mem : Memory;
  Con : Contract;
  evm : Evm
}.

(** ** Effects

    [Raised] is a panic the environment causes, with its cause: a read of the state that
    has no answer ([NoAnswer]), the panic of [makeGasSStoreFunc] for a slot and an address
    that are not in the access list ([NotListed]), and an analysis that is too short for
    the code whose hash it is stored under ([StaleAnalysis]).  [GoPanic] is any other
    runtime error of Go or panic of the code; [OutOfFuel] is of the model. *)
Inductive DbRead :=
  | ReadBalance (a : Address)
  | ReadState (a : Address) (k : Hash)
  | ReadExist (a : Address)
  | ReadEmpty (a : Address)
  | ReadTransfer (a : Address) (v : Z).

Inductive Cause :=
  | NoAnswer (d : db) (r : DbRead)
  | NotListed (d : db) (a : Address) (k : Hash)
  | StaleAnalysis (h : Hash) (code : bytes) (bits : bytes).

Inductive Out (A : Type) :=
  | Done (a : A)
  | GoPanic
  | Raised (c : Cause)
  | OutOfFuel.

Definition Exec (A : Type) := St → Out (St * A).

End state.
Arguments Done {_ A} _.
Arguments GoPanic {_ A}.
Arguments Raised {_ A} _.
Arguments OutOfFuel {_ A}.

Section effects.
Context `{Uint256, FakeDB}.

#[export] Instance Out_ret : MRet Out := λ A, Done.
#[export] Instance Out_bind : MBind Out := λ A B f m,
  match m with
  | Done a => f a
  | GoPanic => GoPanic
  | Raised c => Raised c
  | OutOfFuel => OutOfFuel
  end.

(** A read of the state that may have no answer *)
Definition answer {A} (d : db) (r : DbRead) (o : option A) : Out A :=
  match o with Some a => Done a | None => Raised (NoAnswer d r) end.

#[export] Instance Exec_ret : MRet Exec := λ A a s, Done (s, a).
#[export] Instance Exec_bind : MBind Exec := λ A B f m s,
  '(s', a) ← m s; f a s'.

Definition panic {A} : Exec A := λ _, GoPanic.

(** A value that a pure function computes or panics on. *)
Definition lift {A} (r : GoRes EvmErr A) : Exec A :=
  match r with Ret a => mret a | _ => panic end.

Definition get {A} (f : St → A) : Exec A := λ s, Done (s, f s).
Definition modify (f : St → St) : Exec unit := λ s, Done (f s, tt).

Definition set_pc (v : Z) (s : St) : St := mkSt v (Stack s) (Mem s) (Con s) (evm s).
Definition set_stack (st : list U) (s : St) : St := mkSt (pc s) st (Mem s) (Con s) (evm s).
Definition set_mem (m : Memory) (s : St) : St := mkSt (pc s) (Stack s) m (Con s) (evm s).
Definition set_con (c : Contract) (s : St) : St := mkSt (pc s) (Stack s) (Mem s) c (evm s).
Definition set_evm (e : Evm) (s : St) : St := mkSt (pc s) (Stack s) (Mem s) (Con s) e.

Definition with_db (f : db → db) (e : Evm) : Evm :=
  mkEvm (f (StateDB e)) (depth e) (callGasTemp e) (abort_loads e) (readOnly e) (returnData e)
    (jumpdests e).
Definition with_depth (f : Z → Z) (e : Evm) : Evm :=
  mkEvm (StateDB e) (f (depth e)) (callGasTemp e) (abort_loads e) (readOnly e) (returnData e)
    (jumpdests e).
Definition with_callGasTemp (v : Z) (e : Evm) : Evm :=
  mkEvm (StateDB e) (depth e) v (abort_loads e) (readOnly e) (returnData e) (jumpdests e).
Definition with_load (e : Evm) : Evm :=
  mkEvm (StateDB e) (depth e) (callGasTemp e) (S (abort_loads e)) (readOnly e) (returnData e)
    (jumpdests e).
Definition with_readOnly (v : bool) (e : Evm) : Evm :=
  mkEvm (StateDB e) (depth e) (callGasTemp e) (abort_loads e) v (returnData e) (jumpdests e).
Definition with_returnData (v : bytes) (e : Evm) : Evm :=
  mkEvm (StateDB e) (depth e) (callGasTemp e) (abort_loads e) (readOnly e) v (jumpdests e).
Definition with_jumpdests (v : gmap bytes bytes) (e : Evm) : Evm :=
  mkEvm (StateDB e) (depth e) (callGasTemp e) (abort_loads e) (readOnly e) (returnData e) v.

Definition with_gas (g : Z) (c : Contract) : Contract :=
  mkContract (CallerAddress c) (self c) (analysis c) (Code c) (CodeHash c) (CodeAddr c) (Input c)
    g (value c).
Definition with_input (i : bytes) (c : Contract) : Contract :=
  mkContract (CallerAddress c) (self c) (analysis c) (Code c) (CodeHash c) (CodeAddr c) i
    (Gas c) (value c).
Definition with_analysis (a : option bytes) (c : Contract) : Contract :=
  mkContract (CallerAddress c) (self c) a (Code c) (CodeHash c) (CodeAddr c) (Input c)
    (Gas c) (value c).

Definition upd_evm (f : Evm → Evm) : Exec unit := modify (λ s, set_evm (f (evm s)) s).
Definition upd_db (f : db → db) : Exec unit := upd_evm (with_db f).
Definition get_db {A} (f : db → A) : Exec A := get (λ s, f (StateDB (evm s))).
Definition read_db {A} (r : DbRead) (f : db → option A) : Exec A := λ s,
  a ← answer (StateDB (evm s)) r (f (StateDB (evm s))); Done (s, a).

Definition read_balance (a : Address) : Exec Z := read_db (ReadBalance a) (λ d, GetBalance d a).
Definition read_state (a : Address) (k : Hash) : Exec Hash :=
  read_db (ReadState a k) (λ d, GetState d a k).
Definition read_exist (a : Address) : Exec bool := read_db (ReadExist a) (λ d, Exist d a).
Definition read_empty (a : Address) : Exec bool := read_db (ReadEmpty a) (λ d, Empty d a).

End effects.

(** Evaluates the operations of the monad. *)
Ltac exec :=
  cbv beta iota zeta delta
    [mbind Exec_bind Out_bind mret Exec_ret Out_ret lift panic get modify upd_evm upd_db get_db
     GoRes_bind GoRes_ret fmap GoRes_fmap or_panic read_balance read_state read_exist read_empty
     read_db answer].
