(* ===== verification/EvmData.v ===== *)
(** * The virtual machine: stack, memory and contracts

    [stack.go], [memory.go], [memory_table.go], [stack_table.go], [common.go],
    [analysis.go] and [contract.go] of [state/runtime/fakevm].  The pooling of
    stacks is not visible: a stack taken from the pool is empty. *)

From S2P Require Import Prelude OpCodes EvmBase.

(** ** Signed integers *)

(** [int64(x)] for a [uint64], and the sum of two [int64] *)
Definition int64 (x : Z) : Z := if x <? 2 ^ 63 then x else x - 2 ^ 64.
Definition add_int64 (x y : Z) : Z := int64 (wrap64 (x + y)).

(** [int8(x)] for a byte *)
Definition int8 (x : Z) : Z := if x <? 2 ^ 7 then x else x - 2 ^ 8.

(** [OpCode(x)], a byte *)
Definition OpCode (x : Z) : Z := wrap8 x.

(** ** stack.go *)

Section stack.
Context `{Uint256, FakeDB}.

Definition Back (st : list U) (n : Z) : GoRes EvmErr U := index st n.

Definition Push (d : U) : Exec unit := modify (λ s, set_stack (d :: Stack s) s).

Definition pop : Exec U := λ s,
  match Stack s with
  | x :: st => Done (set_stack st s, x)
  | [] => GoPanic
  end.

(** [peek] returns a pointer to the top: [peek] reads it, [poke] writes it. *)
Definition peek : Exec U := λ s, lift (Back (Stack s) 0) s.

Definition poke (x : U) : Exec unit := λ s,
  match Stack s with
  | _ :: st => Done (set_stack (x :: st) s, tt)
  | [] => GoPanic
  end.

Definition swap (n : Z) : Exec unit := λ s,
  (x ← lift (index (Stack s) (n - 1)); y ← lift (index (Stack s) 0);
   modify (set_stack (<[0%nat := x]> (<[Z.to_nat (n - 1) := y]> (Stack s))))) s.

Definition dup (n : Z) : Exec unit := λ s,
  (x ← lift (index (Stack s) (n - 1)); Push x) s.

End stack.

(** ** stack_table.go *)

Section stack_table.
Context `{Params}.

Definition maxStack (pop push : Z) : Z := StackLimit + pop - push.
Definition minStack (pops push : Z) : Z := pops.
Definition minSwapStack (n : Z) : Z := minStack n n.
Definition maxSwapStack (n : Z) : Z := maxStack n n.
Definition minDupStack (n : Z) : Z := minStack n (n + 1).
Definition maxDupStack (n : Z) : Z := maxStack n (n + 1).

End stack_table.

(** ** memory.go *)

Section memory.
Context `{Uint256}.

Definition NewMemory : Memory := mkMemory [] 0.

Definition mem_Len (m : Memory) : Z := zlen (store m).

Definition with_store (m : Memory) (st : bytes) : Memory := mkMemory st (lastGasCost m).

(** [copy(st[a:b], src)] *)
Definition copy_range (st : bytes) (a b : Z) (src : bytes) : GoRes EvmErr bytes :=
  dst ← slice st a b;
  let n := Nat.min (length dst) (length src) in
  Ret (take (Z.to_nat a) st ++ take n src ++ drop (Z.to_nat a + n) st).

Definition mem_Set (m : Memory) (offset size : Z) (val : bytes) : GoRes EvmErr Memory :=
  if 0 <? size then
    if mem_Len m <? offset +₆₄ size then Panic
    else with_store m <$> copy_range (store m) offset (offset +₆₄ size) val
  else Ret m.

Definition mem_Set32 (m : Memory) (offset : Z) (val : U) : GoRes EvmErr Memory :=
  if mem_Len m <? offset +₆₄ 32 then Panic
  else with_store m <$> copy_range (store m) offset (mem_Len m) (u_Bytes32 val).

Definition Resize (m : Memory) (size : Z) : Memory :=
  if mem_Len m <? size
  then with_store m (store m ++ replicate (Z.to_nat (size - mem_Len m)) 0)
  else if size <? mem_Len m then with_store m (take (Z.to_nat size) (store m))
  else m.

Definition GetPtr (m : Memory) (offset size : Z) : GoRes EvmErr bytes :=
  if size =? 0 then Ret []
  else if offset <? mem_Len m then slice (store m) offset (add_int64 offset size)
  else Ret [].

(** [make] panics on a negative size; the copy has the size of the slice. *)
Definition GetCopy (m : Memory) (offset size : Z) : GoRes EvmErr bytes :=
  if size =? 0 then Ret []
  else if offset <? mem_Len m then
    if size <? 0 then Panic else slice (store m) offset (add_int64 offset size)
  else Ret [].

End memory.

(** ** common.go *)

Section common.
Context `{Uint256, Geth}.

Definition calcMemSize64WithUint (off : U) (length64 : Z) : Z * bool :=
  if length64 =? 0 then (0, false)
  else
    let '(offset64, overflow) := u_Uint64WithOverflow off in
    if overflow then (0, true)
    else let val := offset64 +₆₄ length64 in (val, val <? offset64).

Definition calcMemSize64 (off l : U) : Z * bool :=
  if negb (u_IsUint64 l) then (0, true) else calcMemSize64WithUint off (u_Uint64 l).

Definition getData (data : bytes) (start size : Z) : GoRes EvmErr bytes :=
  let length := zlen data in
  let start := if length <? start then length else start in
  let stop := start +₆₄ size in
  let stop := if length <? stop then length else stop in
  d ← slice data start stop;
  or_panic (RightPadBytes d (int64 size)).

Definition MaxUint64 : Z := 2 ^ 64 - 1.

Definition toWordSize (size : Z) : Z :=
  if MaxUint64 - 31 <? size then MaxUint64 / 32 + 1 else (size +₆₄ 31) / 32.

Fixpoint allZero (b : bytes) : bool :=
  match b with
  | [] => true
  | x :: b => if negb (x =? 0) then false else allZero b
  end.

End common.

(** ** memory_table.go *)

Section memory_table.
Context `{Uint256}.

Definition memorySizeFunc := list U → GoRes EvmErr (Z * bool).

(** [calcMemSize64(stack.Back(i), stack.Back(j))] *)
Definition memory_at (i j : Z) : memorySizeFunc := λ stack,
  off ← Back stack i; l ← Back stack j; Ret (calcMemSize64 off l).

Definition memoryKeccak256 : memorySizeFunc := memory_at 0 1.
Definition memoryCallDataCopy : memorySizeFunc := memory_at 0 2.
Definition memoryReturnDataCopy : memorySizeFunc := memory_at 0 2.
Definition memoryCodeCopy : memorySizeFunc := memory_at 0 2.
Definition memoryExtCodeCopy : memorySizeFunc := memory_at 1 3.

Definition memoryMLoad : memorySizeFunc := λ stack,
  off ← Back stack 0; Ret (calcMemSize64WithUint off 32).
Definition memoryMStore8 : memorySizeFunc := λ stack,
  off ← Back stack 0; Ret (calcMemSize64WithUint off 1).
Definition memoryMStore : memorySizeFunc := λ stack,
  off ← Back stack 0; Ret (calcMemSize64WithUint off 32).

Definition memoryCreate : memorySizeFunc := memory_at 1 2.
Definition memoryCreate2 : memorySizeFunc := memory_at 1 2.

(** The larger of two ranges, the first one at [i], [j] *)
Definition memory_max (i j i' j' : Z) : memorySizeFunc := λ stack,
  '(x, overflow) ← memory_at i j stack;
  if overflow : bool then Ret (0, true)
  else
    '(y, overflow) ← memory_at i' j' stack;
    if overflow : bool then Ret (0, true)
    else if y <? x then Ret (x, false) else Ret (y, false).

Definition memoryCall : memorySizeFunc := memory_max 5 6 3 4.
Definition memoryDelegateCall : memorySizeFunc := memory_max 4 5 2 3.
Definition memoryStaticCall : memorySizeFunc := memory_max 4 5 2 3.
Definition memoryReturn : memorySizeFunc := memory_at 0 1.
Definition memoryRevert : memorySizeFunc := memory_at 0 1.
Definition memoryLog : memorySizeFunc := memory_at 0 1.

End memory_table.

(** ** analysis.go

    A [bitvec] has a bit per byte of code, set when the byte is data. *)

Abbreviation set2BitsMask := 3 (only parsing).
Abbreviation set3BitsMask := 7 (only parsing).
Abbreviation set4BitsMask := 15 (only parsing).
Abbreviation set5BitsMask := 31 (only parsing).
Abbreviation set6BitsMask := 63 (only parsing).
Abbreviation set7BitsMask := 127 (only parsing).

(** [bits[i] = f(bits[i])] *)
Definition set_at (bits : bytes) (i : Z) (f : Z → Z) : GoRes EvmErr bytes :=
  b ← index bits i; Ret (<[Z.to_nat i := f b]> bits).

Definition set1 (bits : bytes) (pos : Z) : GoRes EvmErr bytes :=
  set_at bits (pos / 8) (λ b, Z.lor b (wrap8 (Z.shiftl 1 (pos mod 8)))).

Definition setN (bits : bytes) (flag pos : Z) : GoRes EvmErr bytes :=
  let a := Z.shiftl flag (pos mod 8) mod 2 ^ 16 in
  bits ← set_at bits (pos / 8) (λ b, Z.lor b (wrap8 a));
  let b := wrap8 (Z.shiftr a 8) in
  if negb (b =? 0) then set_at bits (pos / 8 + 1) (λ _, b) else Ret bits.

Definition set8 (bits : bytes) (pos : Z) : GoRes EvmErr bytes :=
  let a := wrap8 (Z.shiftl 255 (pos mod 8)) in
  bits ← set_at bits (pos / 8) (λ b, Z.lor b a);
  set_at bits (pos / 8 + 1) (λ _, Z.lxor a 255).

Definition set16 (bits : bytes) (pos : Z) : GoRes EvmErr bytes :=
  let a := wrap8 (Z.shiftl 255 (pos mod 8)) in
  bits ← set_at bits (pos / 8) (λ b, Z.lor b a);
  bits ← set_at bits (pos / 8 + 1) (λ _, 255);
  set_at bits (pos / 8 + 2) (λ _, Z.lxor a 255).

Definition codeSegment (bits : bytes) (pos : Z) : GoRes EvmErr bool :=
  b ← index bits (pos / 8); Ret (Z.land (Z.shiftr b (pos mod 8)) 1 =? 0).

(** The loops of [codeBitmapInternal] over [numbits], at most 32 *)
Fixpoint loop16 (fuel : nat) (bits : bytes) (pc numbits : Z) : GoRes EvmErr (bytes * Z * Z) :=
  match fuel with
  | O => Ret (bits, pc, numbits)
  | S fuel =>
      if 16 <=? numbits
      then bits ← set16 bits pc; loop16 fuel bits (pc +₆₄ 16) (numbits - 16)
      else Ret (bits, pc, numbits)
  end.

Fixpoint loop8 (fuel : nat) (bits : bytes) (pc numbits : Z) : GoRes EvmErr (bytes * Z * Z) :=
  match fuel with
  | O => Ret (bits, pc, numbits)
  | S fuel =>
      if 8 <=? numbits
      then bits ← set8 bits pc; loop8 fuel bits (pc +₆₄ 8) (numbits - 8)
      else Ret (bits, pc, numbits)
  end.

Definition set_rest (bits : bytes) (pc numbits : Z) : GoRes EvmErr (bytes * Z) :=
  match numbits with
  | 1 => bits ← set1 bits pc; Ret (bits, pc +₆₄ 1)
  | 2 => bits ← setN bits set2BitsMask pc; Ret (bits, pc +₆₄ 2)
  | 3 => bits ← setN bits set3BitsMask pc; Ret (bits, pc +₆₄ 3)
  | 4 => bits ← setN bits set4BitsMask pc; Ret (bits, pc +₆₄ 4)
  | 5 => bits ← setN bits set5BitsMask pc; Ret (bits, pc +₆₄ 5)
  | 6 => bits ← setN bits set6BitsMask pc; Ret (bits, pc +₆₄ 6)
  | 7 => bits ← setN bits set7BitsMask pc; Ret (bits, pc +₆₄ 7)
  | _ => Ret (bits, pc)
  end.

(** One round of the loop of [codeBitmapInternal] *)
Definition bitmap_round (code bits : bytes) (pc : Z) : GoRes EvmErr (bytes * Z) :=
  op ← OpCode <$> index code pc;
  let pc := pc +₆₄ 1 in
  if int8 op <? int8 PUSH1 then Ret (bits, pc)
  else
    let numbits := wrap8 (op - PUSH1 + 1) in
    '(bits, pc, numbits) ←
      (if 8 <=? numbits then
         '(bits, pc, numbits) ← loop16 3 bits pc numbits; loop8 3 bits pc numbits
       else Ret (bits, pc, numbits));
    set_rest bits pc numbits.

Fixpoint bitmap_loop (fuel : nat) (code bits : bytes) (pc : Z) : GoRes EvmErr bytes :=
  match fuel with
  | O => Panic
  | S fuel =>
      if pc <? zlen code
      then '(bits, pc) ← bitmap_round code bits pc; bitmap_loop fuel code bits pc
      else Ret bits
  end.

(** Every round advances [pc]: one more round than bytes is enough. *)
Definition codeBitmapInternal (code bits : bytes) : GoRes EvmErr bytes :=
  bitmap_loop (S (length code)) code bits 0.

Definition codeBitmap (code : bytes) : GoRes EvmErr bytes :=
  codeBitmapInternal code (replicate (Z.to_nat (zlen code / 8 + 1 + 4)) 0).

(** ** contract.go *)

(** [ContractRef]: an account, or the contract of the running frame *)
Inductive ContractRef :=
  | AccountRef (addr : Address)
  | ContractPtr (c : Contract).

Definition ref_Address (r : ContractRef) : Address :=
  match r with AccountRef a => a | ContractPtr c => self c end.

Definition NewContract (caller : ContractRef) (object : Address) (value gas : Z) : Contract :=
  mkContract (ref_Address caller) object None [] zero_hash None [] gas value.

(** The map of analyses a new contract gets: the one of its caller, when that is
    a contract. *)
Definition new_jumpdests (caller : ContractRef) (parent : gmap bytes bytes) : gmap bytes bytes :=
  match caller with ContractPtr _ => parent | AccountRef _ => ∅ end.

(** [caller] must be a contract. *)
Definition AsDelegate (caller : ContractRef) (c : Contract) : GoRes EvmErr Contract :=
  match caller with
  | ContractPtr parent =>
      Ret (mkContract (CallerAddress parent) (self c) (analysis c) (Code c) (CodeHash c)
             (CodeAddr c) (Input c) (Gas c) (value parent))
  | AccountRef _ => Panic
  end.

Definition SetCallCode (c : Contract) (addr : option Address) (hash : Hash) (code : bytes) :
    Contract :=
  mkContract (CallerAddress c) (self c) (analysis c) code hash addr (Input c) (Gas c) (value c).

(** [codeAndHash] of [fakevm.go], and its method [Hash], which computes the hash
    once *)
Record codeAndHash := mkCodeAndHash {
  cah_code : bytes;
  cah_hash : Hash
}.

Definition cah_Hash `{Geth} (c : codeAndHash) : codeAndHash :=
  if bool_decide (cah_hash c = zero_hash)
  then mkCodeAndHash (cah_code c) (Keccak256 (cah_code c)) else c.

Definition SetCodeOptionalHash (c : Contract) (addr : option Address) (ch : codeAndHash) :
    Contract :=
  mkContract (CallerAddress c) (self c) (analysis c) (cah_code ch) (cah_hash ch) addr (Input c)
    (Gas c) (value c).

Definition GetOp (c : Contract) (n : Z) : Z :=
  if n <? zlen (Code c) then default STOP (OpCode <$> Code c !! Z.to_nat n) else STOP.

Definition UseGas (c : Contract) (gas : Z) : Contract * bool :=
  if Gas c <? gas then (c, false) else (with_gas (Gas c - gas) c, true).

Section contract.
Context `{Uint256, FakeDB}.

(** [scope.Contract.UseGas(gas)] *)
Definition use_gas (gas : Z) : Exec bool := λ s,
  let '(c, ok) := UseGas (Con s) gas in Done (set_con c s, ok).

(** [scope.Contract.Gas += gas] *)
Definition AddGas (gas : Z) : Exec unit :=
  modify (λ s, set_con (with_gas (Gas (Con s) +₆₄ gas) (Con s)) s).

(** [a.codeSegment(udest)] for the analysis [a] of the running contract *)
Definition segment (a : bytes) (udest : Z) : Exec bool := λ s,
  match codeSegment a udest with
  | Ret b => Done (s, b)
  | _ => Raised (StaleAnalysis (CodeHash (Con s)) (Code (Con s)) a)
  end.

Definition isCode (udest : Z) : Exec bool := λ s,
  let c := Con s in
  match analysis c with
  | Some a => segment a udest s
  | None =>
      if negb (bool_decide (CodeHash c = zero_hash)) then
        match jumpdests (evm s) !! CodeHash c with
        | Some a =>
            (modify (set_con (with_analysis (Some a) c));; segment a udest) s
        | None =>
            (a ← lift (codeBitmap (Code c));
             upd_evm (with_jumpdests (<[CodeHash c := a]> (jumpdests (evm s))));;
             modify (set_con (with_analysis (Some a) c));;
             segment a udest) s
        end
      else
        (a ← lift (codeBitmap (Code c));
         modify (set_con (with_analysis (Some a) c));;
         segment a udest) s
  end.

Definition validJumpdest (dest : U) : Exec bool := λ s,
  let '(udest, overflow) := u_Uint64WithOverflow dest in
  if overflow || (zlen (Code (Con s)) <=? udest) then Done (s, false)
  else
    (op ← lift (OpCode <$> index (Code (Con s)) udest);
     if negb (op =? JUMPDEST) then mret false else isCode udest) s.

End contract.
