(* ===== verification/EvmGas.v ===== *)
(** * The virtual machine: gas

    [gas.go], [gas_table.go] and [operations_acl.go] of [state/runtime/fakevm].  A
    gas function may change the state (refunds, access lists, [callGasTemp],
    [lastGasCost]) and returns the gas or an error. *)

From S2P Require Import Prelude OpCodes EvmBase EvmData.

Section gas.
Context `{Uint256, Params, Geth, FakeDB, !Env}.

(** ** Errors as values *)

Definition fail {A} (e : EvmErr) : Exec (EvmErr + A) := mret (inl e).
Definition ok {A} (a : A) : Exec (EvmErr + A) := mret (inr a).

Definition try_bind {A B} (k : A → Exec (EvmErr + B)) (m : Exec (EvmErr + A)) :
    Exec (EvmErr + B) :=
  r ← m; match r with inl e => fail e | inr a => k a end.

Definition add_or_overflow (x y : Z) : Exec (EvmErr + Z) :=
  let '(r, overflow) := SafeAdd x y in if overflow then fail ErrGasUintOverflow else ok r.

Definition mul_or_overflow (x y : Z) : Exec (EvmErr + Z) :=
  let '(r, overflow) := SafeMul x y in if overflow then fail ErrGasUintOverflow else ok r.

Definition uint64_or_overflow (x : U) : Exec (EvmErr + Z) :=
  let '(r, overflow) := u_Uint64WithOverflow x in
  if overflow then fail ErrGasUintOverflow else ok r.

(** [stack.Back(n)] *)
Definition back (n : Z) : Exec U := λ s, lift (Back (Stack s) n) s.

Definition address : Exec Address := get (λ s, self (Con s)).

End gas.
Notation "x ←? y ; z" := (try_bind (λ x : _, z) y)
  (at level 20, y at level 100, z at level 200, only parsing) : go_scope.

(** ** gas.go *)

Abbreviation GasQuickStep := 2 (only parsing).
Abbreviation GasFastestStep := 3 (only parsing).
Abbreviation GasFastStep := 5 (only parsing).
Abbreviation GasMidStep := 8 (only parsing).
Abbreviation GasSlowStep := 10 (only parsing).
Abbreviation GasExtStep := 20 (only parsing).

Definition callGas `{Uint256} (isEip150 : bool) (availableGas base : Z) (callCost : U) :
    EvmErr + Z :=
  let availableGas := availableGas -₆₄ base in
  let gas := availableGas -₆₄ (availableGas / 64) in
  if isEip150 && (negb (u_IsUint64 callCost) || (gas <? u_Uint64 callCost)) then inr gas
  else if negb (u_IsUint64 callCost) then inl ErrGasUintOverflow
  else inr (u_Uint64 callCost).

(** ** gas_table.go *)

Section gas_table.
Context `{Uint256, Params, Geth, FakeDB, !Env}.

(** The last parameter is the requested memory size. *)
Definition gasFunc := Z → Exec (EvmErr + Z).

Definition memoryGasCost (newMemSize : Z) : Exec (EvmErr + Z) :=
  mem ← get Mem;
  if newMemSize =? 0 then ok 0
  else if 0x1FFFFFFFE0 <? newMemSize then fail ErrGasUintOverflow
  else
    let newMemSizeWords := toWordSize newMemSize in
    let newMemSize := wrap64 (newMemSizeWords * 32) in
    if mem_Len mem <? newMemSize then
      let square := wrap64 (newMemSizeWords * newMemSizeWords) in
      let linCoef := wrap64 (newMemSizeWords * MemoryGas) in
      let quadCoef := square / QuadCoeffDiv in
      let newTotalFee := linCoef +₆₄ quadCoef in
      let fee := newTotalFee -₆₄ lastGasCost mem in
      modify (set_mem (mkMemory (store mem) newTotalFee));;
      ok fee
    else ok 0.

Definition memoryCopierGas (stackpos : Z) : gasFunc := λ memorySize,
  gas ←? memoryGasCost memorySize;
  x ← back stackpos;
  words ←? uint64_or_overflow x;
  words ←? mul_or_overflow (toWordSize words) CopyGas;
  add_or_overflow gas words.

Definition gasCallDataCopy : gasFunc := memoryCopierGas 2.
Definition gasCodeCopy : gasFunc := memoryCopierGas 2.
Definition gasExtCodeCopy : gasFunc := memoryCopierGas 3.
Definition gasReturnDataCopy : gasFunc := memoryCopierGas 2.

Definition is_zero_hash (h : Hash) : bool := bool_decide (h = zero_hash).

Definition gasSStore : gasFunc := λ _,
  y ← back 1; x ← back 0; addr ← address;
  current ← read_state addr (u_Bytes32 x);
  if IsPetersburg chainRules || negb (IsConstantinople chainRules) then
    if is_zero_hash current && negb (u_Sign y =? 0) then ok SstoreSetGas
    else if negb (is_zero_hash current) && (u_Sign y =? 0) then
      upd_db (λ d, AddRefund d SstoreRefundGas);; ok SstoreClearGas
    else ok SstoreResetGas
  else
    let value := u_Bytes32 y in
    if bool_decide (current = value) then ok NetSstoreNoopGas
    else
      original ← get_db (λ d, GetCommittedState d addr (u_Bytes32 x));
      if bool_decide (original = current) then
        if is_zero_hash original then ok NetSstoreInitGas
        else
          (if is_zero_hash value then upd_db (λ d, AddRefund d NetSstoreClearRefund)
           else mret tt);;
          ok NetSstoreCleanGas
      else
        (if negb (is_zero_hash original) then
           if is_zero_hash current then upd_db (λ d, SubRefund d NetSstoreClearRefund)
           else if is_zero_hash value then upd_db (λ d, AddRefund d NetSstoreClearRefund)
           else mret tt
         else mret tt);;
        (if bool_decide (original = value) then
           if is_zero_hash original then upd_db (λ d, AddRefund d NetSstoreResetClearRefund)
           else upd_db (λ d, AddRefund d NetSstoreResetRefund)
         else mret tt);;
        ok NetSstoreDirtyGas.

Definition gasSStoreEIP2200 : gasFunc := λ _,
  gas ← get (λ s, Gas (Con s));
  if gas <=? SstoreSentryGasEIP2200 then fail ErrSentry
  else
    y ← back 1; x ← back 0; addr ← address;
    current ← read_state addr (u_Bytes32 x);
    let value := u_Bytes32 y in
    if bool_decide (current = value) then ok SloadGasEIP2200
    else
      original ← get_db (λ d, GetCommittedState d addr (u_Bytes32 x));
      if bool_decide (original = current) then
        if is_zero_hash original then ok SstoreSetGasEIP2200
        else
          (if is_zero_hash value
           then upd_db (λ d, AddRefund d SstoreClearsScheduleRefundEIP2200) else mret tt);;
          ok SstoreResetGasEIP2200
      else
        (if negb (is_zero_hash original) then
           if is_zero_hash current
           then upd_db (λ d, SubRefund d SstoreClearsScheduleRefundEIP2200)
           else if is_zero_hash value
           then upd_db (λ d, AddRefund d SstoreClearsScheduleRefundEIP2200)
           else mret tt
         else mret tt);;
        (if bool_decide (original = value) then
           if is_zero_hash original
           then upd_db (λ d, AddRefund d (SstoreSetGasEIP2200 -₆₄ SloadGasEIP2200))
           else upd_db (λ d, AddRefund d (SstoreResetGasEIP2200 -₆₄ SloadGasEIP2200))
         else mret tt);;
        ok SloadGasEIP2200.

Definition makeGasLog (n : Z) : gasFunc := λ memorySize,
  x ← back 1;
  requestedSize ←? uint64_or_overflow x;
  gas ←? memoryGasCost memorySize;
  gas ←? add_or_overflow gas LogGas;
  gas ←? add_or_overflow gas (wrap64 (n * LogTopicGas));
  memorySizeGas ←? mul_or_overflow requestedSize LogDataGas;
  add_or_overflow gas memorySizeGas.

Definition gasKeccak256 : gasFunc := λ memorySize,
  gas ←? memoryGasCost memorySize;
  x ← back 1;
  wordGas ←? uint64_or_overflow x;
  wordGas ←? mul_or_overflow (toWordSize wordGas) Keccak256WordGas;
  add_or_overflow gas wordGas.

Definition pureMemoryGascost : gasFunc := memoryGasCost.
Definition gasReturn : gasFunc := pureMemoryGascost.
Definition gasRevert : gasFunc := pureMemoryGascost.
Definition gasMLoad : gasFunc := pureMemoryGascost.
Definition gasMStore8 : gasFunc := pureMemoryGascost.
Definition gasMStore : gasFunc := pureMemoryGascost.
Definition gasCreate : gasFunc := pureMemoryGascost.

Definition gasCreate2 : gasFunc := λ memorySize,
  gas ←? memoryGasCost memorySize;
  x ← back 2;
  wordGas ←? uint64_or_overflow x;
  wordGas ←? mul_or_overflow (toWordSize wordGas) Keccak256WordGas;
  add_or_overflow gas wordGas.

Definition gasCreateEip3860 : gasFunc := λ memorySize,
  gas ←? memoryGasCost memorySize;
  x ← back 2;
  let '(size, overflow) := u_Uint64WithOverflow x in
  if overflow || (MaxInitCodeSize <? size) then fail ErrGasUintOverflow
  else
    let moreGas := wrap64 (InitCodeWordGas * ((size +₆₄ 31) / 32)) in
    add_or_overflow gas moreGas.

Definition gasCreate2Eip3860 : gasFunc := λ memorySize,
  gas ←? memoryGasCost memorySize;
  x ← back 2;
  let '(size, overflow) := u_Uint64WithOverflow x in
  if overflow || (MaxInitCodeSize <? size) then fail ErrGasUintOverflow
  else
    let moreGas := wrap64 ((InitCodeWordGas +₆₄ Keccak256WordGas) * ((size +₆₄ 31) / 32)) in
    add_or_overflow gas moreGas.

Definition gasExpFrontier : gasFunc := λ _,
  x ← back 1;
  let expByteLen := (u_BitLen x + 7) / 8 in
  add_or_overflow (wrap64 (expByteLen * ExpByteFrontier)) ExpGas.

Definition gasExpEIP158 : gasFunc := λ _,
  x ← back 1;
  let expByteLen := (u_BitLen x + 7) / 8 in
  add_or_overflow (wrap64 (expByteLen * ExpByteEIP158)) ExpGas.

End gas_table.

Section gas_calls.
Context `{Uint256, Params, Geth, FakeDB, !Env}.

(** [evm.callGasTemp, err = callGas(...)]: an error leaves 0. *)
Definition set_callGas (gas : Z) : Exec (EvmErr + Z) :=
  x ← back 0; available ← get (λ s, Gas (Con s));
  match callGas (IsEIP150 chainRules) available gas x with
  | inl e => upd_evm (with_callGasTemp 0);; fail e
  | inr g => upd_evm (with_callGasTemp g);; ok g
  end.

Definition gasCall : gasFunc := λ memorySize,
  x ← back 2; a ← back 1;
  let transfersValue := negb (u_IsZero x) in
  let address := u_Bytes20 a in
  new ← (if IsEIP158 chainRules
         then if transfersValue then read_empty address else mret false
         else exist ← read_exist address; mret (negb exist));
  let gas := if new : bool then 0 +₆₄ CallNewAccountGas else 0 in
  let gas := if transfersValue then gas +₆₄ CallValueTransferGas else gas in
  memoryGas ←? memoryGasCost memorySize;
  gas ←? add_or_overflow gas memoryGas;
  temp ←? set_callGas gas;
  add_or_overflow gas temp.

Definition gasCallCode : gasFunc := λ memorySize,
  memoryGas ←? memoryGasCost memorySize;
  x ← back 2;
  let gas := if negb (u_Sign x =? 0) then 0 +₆₄ CallValueTransferGas else 0 in
  gas ←? add_or_overflow gas memoryGas;
  temp ←? set_callGas gas;
  add_or_overflow gas temp.

Definition gasDelegateCall : gasFunc := λ memorySize,
  gas ←? memoryGasCost memorySize;
  temp ←? set_callGas gas;
  add_or_overflow gas temp.

Definition gasStaticCall : gasFunc := λ memorySize,
  gas ←? memoryGasCost memorySize;
  temp ←? set_callGas gas;
  add_or_overflow gas temp.

(** [evm.StateDB.Empty(address) && evm.StateDB.GetBalance(self).Sign() != 0] *)
Definition funds_new (self address : Address) : Exec bool :=
  empty ← read_empty address;
  if empty : bool then balance ← read_balance self; mret (negb (balance =? 0))
  else mret false.

Definition gasSelfdestruct : gasFunc := λ _,
  addr ← address;
  gas ←
    (if IsEIP150 chainRules then
       x ← back 0;
       let address := u_Bytes20 x in
       new ← (if IsEIP158 chainRules then funds_new addr address
              else exist ← read_exist address; mret (negb exist));
       mret (if new : bool then SelfdestructGasEIP150 +₆₄ CreateBySelfdestructGas
             else SelfdestructGasEIP150)
     else mret 0);
  suicided ← get_db (λ d, HasSuicided d addr);
  (if negb suicided then upd_db (λ d, AddRefund d SelfdestructRefundGas) else mret tt);;
  ok gas.

(** ** operations_acl.go *)

(** The panic for a slot whose address is not in the access list of [d] *)
Definition canary {A} (d : db) (a : Address) (k : Hash) : Exec A := λ _,
  Raised (NotListed d a k).

Definition makeGasSStoreFunc (clearingRefund : Z) : gasFunc := λ _,
  gas ← get (λ s, Gas (Con s));
  if gas <=? SstoreSentryGasEIP2200 then fail ErrSentry
  else
    y ← back 1; x ← back 0; addr ← address;
    let slot := u_Bytes32 x in
    current ← read_state addr slot;
    db ← get_db id;
    let '(addrPresent, slotPresent) := SlotInAccessList db addr slot in
    cost ←
      (if negb slotPresent then
         upd_db (λ d, AddSlotToAccessList d addr slot);;
         if negb addrPresent then canary db addr slot else mret ColdSloadCostEIP2929
       else mret 0);
    let value := u_Bytes32 y in
    if bool_decide (current = value) then ok (cost +₆₄ WarmStorageReadCostEIP2929)
    else
      original ← get_db (λ d, GetCommittedState d addr (u_Bytes32 x));
      if bool_decide (original = current) then
        if is_zero_hash original then ok (cost +₆₄ SstoreSetGasEIP2200)
        else
          (if is_zero_hash value then upd_db (λ d, AddRefund d clearingRefund) else mret tt);;
          ok (cost +₆₄ (SstoreResetGasEIP2200 -₆₄ ColdSloadCostEIP2929))
      else
        (if negb (is_zero_hash original) then
           if is_zero_hash current then upd_db (λ d, SubRefund d clearingRefund)
           else if is_zero_hash value then upd_db (λ d, AddRefund d clearingRefund)
           else mret tt
         else mret tt);;
        (if bool_decide (original = value) then
           if is_zero_hash original
           then upd_db (λ d, AddRefund d (SstoreSetGasEIP2200 -₆₄ WarmStorageReadCostEIP2929))
           else upd_db (λ d, AddRefund d
                  (SstoreResetGasEIP2200 -₆₄ ColdSloadCostEIP2929 -₆₄ WarmStorageReadCostEIP2929))
         else mret tt);;
        ok (cost +₆₄ WarmStorageReadCostEIP2929).

Definition gasSLoadEIP2929 : gasFunc := λ _,
  loc ← peek; addr ← address;
  let slot := u_Bytes32 loc in
  '(_, slotPresent) ← get_db (λ d, SlotInAccessList d addr slot);
  if negb slotPresent
  then upd_db (λ d, AddSlotToAccessList d addr slot);; ok ColdSloadCostEIP2929
  else ok WarmStorageReadCostEIP2929.

Definition gasExtCodeCopyEIP2929 : gasFunc := λ memorySize,
  gas ←? gasExtCodeCopy memorySize;
  x ← peek;
  let addr := u_Bytes20 x in
  warm ← get_db (λ d, AddressInAccessList d addr);
  if negb warm then
    upd_db (λ d, AddAddressToAccessList d addr);;
    add_or_overflow gas (ColdAccountAccessCostEIP2929 -₆₄ WarmStorageReadCostEIP2929)
  else ok gas.

Definition gasEip2929AccountCheck : gasFunc := λ _,
  x ← peek;
  let addr := u_Bytes20 x in
  warm ← get_db (λ d, AddressInAccessList d addr);
  if negb warm then
    upd_db (λ d, AddAddressToAccessList d addr);;
    ok (ColdAccountAccessCostEIP2929 -₆₄ WarmStorageReadCostEIP2929)
  else ok 0.

Definition makeCallVariantGasCallEIP2929 (oldCalculator : gasFunc) : gasFunc := λ memorySize,
  x ← back 1;
  let addr := u_Bytes20 x in
  warmAccess ← get_db (λ d, AddressInAccessList d addr);
  let coldCost := ColdAccountAccessCostEIP2929 -₆₄ WarmStorageReadCostEIP2929 in
  if warmAccess : bool then oldCalculator memorySize
  else
    upd_db (λ d, AddAddressToAccessList d addr);;
    paid ← use_gas coldCost;
    if negb paid then fail ErrOutOfGas
    else
      gas ←? oldCalculator memorySize;
      AddGas coldCost;;
      ok (gas +₆₄ coldCost).

Definition makeSelfdestructGasFn (refundsEnabled : bool) : gasFunc := λ _,
  x ← peek; self ← address;
  let address := u_Bytes20 x in
  warm ← get_db (λ d, AddressInAccessList d address);
  gas ←
    (if negb warm
     then upd_db (λ d, AddAddressToAccessList d address);; mret ColdAccountAccessCostEIP2929
     else mret 0);
  new ← funds_new self address;
  let gas := if new : bool then gas +₆₄ CreateBySelfdestructGas else gas in
  suicided ← get_db (λ d, HasSuicided d self);
  (if refundsEnabled && negb suicided
   then upd_db (λ d, AddRefund d SelfdestructRefundGas) else mret tt);;
  ok gas.

Definition gasCallEIP2929 : gasFunc := makeCallVariantGasCallEIP2929 gasCall.
Definition gasDelegateCallEIP2929 : gasFunc := makeCallVariantGasCallEIP2929 gasDelegateCall.
Definition gasStaticCallEIP2929 : gasFunc := makeCallVariantGasCallEIP2929 gasStaticCall.
Definition gasCallCodeEIP2929 : gasFunc := makeCallVariantGasCallEIP2929 gasCallCode.
Definition gasSelfdestructEIP2929 : gasFunc := makeSelfdestructGasFn true.
Definition gasSelfdestructEIP3529 : gasFunc := makeSelfdestructGasFn false.
Definition gasSStoreEIP2929 : gasFunc := makeGasSStoreFunc SstoreClearsScheduleRefundEIP2200.
Definition gasSStoreEIP3529 : gasFunc := makeGasSStoreFunc SstoreClearsScheduleRefundEIP3529.

End gas_calls.
