(* ===== verification/EvmPrecompiles.v ===== *)
(** * The virtual machine: precompiled contracts

    [contracts.go] of [state/runtime/fakevm], the contracts [FakeEVM.precompile]
    can select; those of EIP-2537 are never selected.  The cryptography is
    [PrecompileCrypto]. *)

From Stdlib Require Import Zpow_facts.
From S2P Require Import Prelude Digits OpCodes EvmBase EvmData.

(** Hashes, curves and prices of other packages.  An operation that returns an
    error returns the text of the error. *)
Class PrecompileCrypto := {
  LeftPadBytes : bytes → Z → option bytes;
  ValidateSignatureValues : Z → Z → Z → bool → bool;
  Ecrecover : bytes → bytes → string + bytes;
  sha256_Sum256 : bytes → bytes;
  ripemd160_Sum : bytes → bytes;
  G1 : Type;
  G2 : Type;
  G1_Unmarshal : bytes → string + G1;
  G2_Unmarshal : bytes → string + G2;
  G1_Add : G1 → G1 → G1;
  G1_ScalarMult : G1 → Z → G1;
  G1_Marshal : G1 → bytes;
  PairingCheck : list G1 → list G2 → bool;
  blake2b_F : list Z → list Z → list Z → bool → Z → list Z;
  EcrecoverGas : Z;
  Sha256PerWordGas : Z;
  Sha256BaseGas : Z;
  Ripemd160PerWordGas : Z;
  Ripemd160BaseGas : Z;
  IdentityPerWordGas : Z;
  IdentityBaseGas : Z;
  Bn256AddGasIstanbul : Z;
  Bn256AddGasByzantium : Z;
  Bn256ScalarMulGasIstanbul : Z;
  Bn256ScalarMulGasByzantium : Z;
  Bn256PairingBaseGasIstanbul : Z;
  Bn256PairingPerPointGasIstanbul : Z;
  Bn256PairingBaseGasByzantium : Z;
  Bn256PairingPerPointGasByzantium : Z
}.

(** A slice that can be made can be padded; a public key has 65 bytes, a hash has 32,
    the state of BLAKE2b has 8 words; the prices are [uint64]. *)
Class PrecompileLaws (geth : Geth) (crypto : PrecompileCrypto) := {
  LeftPadBytes_spec sl l :
    l ≤ maxAlloc → LeftPadBytes sl l = Some (replicate (Z.to_nat (l - zlen sl)) 0 ++ sl);
  Ecrecover_length h sig pub : Ecrecover h sig = inr pub → length pub = 65%nat;
  Keccak256_length b : length (Keccak256 b) = 32%nat;
  blake2b_F_length h m t final rounds :
    length h = 8%nat → length (blake2b_F h m t final rounds) = 8%nat;
  prices_u64 : Forall in_u64
    [EcrecoverGas; Bn256AddGasIstanbul; Bn256AddGasByzantium; Bn256ScalarMulGasIstanbul;
     Bn256ScalarMulGasByzantium]
}.

Inductive PrecompiledContract :=
  | ecrecover
  | sha256hash
  | ripemd160hash
  | dataCopy
  | bigModExp (eip2565 : bool)
  | bn256AddByzantium
  | bn256AddIstanbul
  | bn256ScalarMulByzantium
  | bn256ScalarMulIstanbul
  | bn256PairingByzantium
  | bn256PairingIstanbul
  | blake2F.

(** [common.BytesToAddress([]byte{n})] for a byte [n] *)
Definition byte_address (n : Z) : Address := replicate 19 0 ++ [n].

Definition contract_map (l : list (Z * PrecompiledContract)) (addr : Address) :
    option PrecompiledContract :=
  snd <$> find (λ p, bool_decide (byte_address p.1 = addr)) l.

Definition PrecompiledContractsHomestead : Address → option PrecompiledContract :=
  contract_map [(1, ecrecover); (2, sha256hash); (3, ripemd160hash); (4, dataCopy)].

Definition PrecompiledContractsByzantium : Address → option PrecompiledContract :=
  contract_map
    [(1, ecrecover); (2, sha256hash); (3, ripemd160hash); (4, dataCopy);
     (5, bigModExp false); (6, bn256AddByzantium); (7, bn256ScalarMulByzantium);
     (8, bn256PairingByzantium)].

Definition PrecompiledContractsIstanbul : Address → option PrecompiledContract :=
  contract_map
    [(1, ecrecover); (2, sha256hash); (3, ripemd160hash); (4, dataCopy);
     (5, bigModExp false); (6, bn256AddIstanbul); (7, bn256ScalarMulIstanbul);
     (8, bn256PairingIstanbul); (9, blake2F)].

Definition PrecompiledContractsBerlin : Address → option PrecompiledContract :=
  contract_map
    [(1, ecrecover); (2, sha256hash); (3, ripemd160hash); (4, dataCopy);
     (5, bigModExp true); (6, bn256AddIstanbul); (7, bn256ScalarMulIstanbul);
     (8, bn256PairingIstanbul); (9, blake2F)].

(** [FakeEVM.precompile] *)
Definition precompile (rules : Rules) (addr : Address) : option PrecompiledContract :=
  if IsBerlin rules then PrecompiledContractsBerlin addr
  else if IsIstanbul rules then PrecompiledContractsIstanbul addr
  else if IsByzantium rules then PrecompiledContractsByzantium addr
  else PrecompiledContractsHomestead addr.

(** ** Big integers and words *)

(** [new(big.Int).SetBytes(b)] and [z.BitLen()] for [0 ≤ z]; an element of a slice
    counts as a byte. *)
Definition big_SetBytes (b : bytes) : Z := of_digits 256 (wrap8 <$> b).
Definition BitLen (z : Z) : Z := if z =? 0 then 0 else Z.log2 z + 1.

Definition LittleEndian_Uint64 (b : bytes) : Z := big_SetBytes (reverse b).
Definition LittleEndian_PutUint64 (z : Z) : bytes := reverse (split_digits 256 8 z).
Definition BigEndian_Uint32 (b : bytes) : Z := big_SetBytes b.

Section precompiles.
Context `{Geth, PrecompileCrypto}.

(** [return b, nil], for a slice that is allocated *)
Definition no_error (b : option bytes) : GoRes EvmErr (bytes * option EvmErr) :=
  b ← or_panic b; Ret (b, None).

Definition words32 (input : bytes) : Z := wrap64 (zlen input + 31) / 32.

(** ** bigModExp *)

Definition modexpMultComplexity (x : Z) : Z :=
  if x <=? 64 then x * x
  else if x <=? 1024 then x * x / 4 + (96 * x - 3072)
  else x * x / 16 + (480 * x - 199680).

(** [input[96:]], empty when the input is shorter *)
Definition modexp_operands (input : bytes) : bytes :=
  if 96 <? zlen input then drop 96 input else [].

Definition modexp_expHead (input : bytes) (baseLen expLen : Z) : GoRes EvmErr Z :=
  if zlen input <=? baseLen then Ret 0
  else if 32 <? expLen then big_SetBytes <$> getData input (big_Uint64 baseLen) 32
  else big_SetBytes <$> getData input (big_Uint64 baseLen) (big_Uint64 expLen).

Definition modexp_gas (eip2565 : bool) (baseLen modLen adjExpLen : Z) : Z :=
  let gas := Z.max modLen baseLen in
  if eip2565 then
    let gas := (gas + 7) / 8 in
    let gas := gas * gas * Z.max adjExpLen 1 / 3 in
    if 64 <? BitLen gas then MaxUint64
    else if big_Uint64 gas <? 200 then 200 else big_Uint64 gas
  else
    let gas := modexpMultComplexity gas * Z.max adjExpLen 1 / 20 in
    if 64 <? BitLen gas then MaxUint64 else big_Uint64 gas.

Definition modexp_RequiredGas (eip2565 : bool) (input : bytes) : GoRes EvmErr Z :=
  baseLen ← big_SetBytes <$> getData input 0 32;
  expLen ← big_SetBytes <$> getData input 32 32;
  modLen ← big_SetBytes <$> getData input 64 32;
  let input := modexp_operands input in
  expHead ← modexp_expHead input baseLen expLen;
  let msb := if 0 <? BitLen expHead then BitLen expHead - 1 else 0 in
  let adjExpLen := (if 32 <? expLen then 8 * (expLen - 32) else 0) + msb in
  Ret (modexp_gas eip2565 baseLen modLen adjExpLen).

Definition modexp_Run (input : bytes) : GoRes EvmErr (bytes * option EvmErr) :=
  baseLen ← (λ b, big_Uint64 (big_SetBytes b)) <$> getData input 0 32;
  expLen ← (λ b, big_Uint64 (big_SetBytes b)) <$> getData input 32 32;
  modLen ← (λ b, big_Uint64 (big_SetBytes b)) <$> getData input 64 32;
  let input := modexp_operands input in
  if (baseLen =? 0) && (modLen =? 0) then Ret ([], None)
  else
    base ← big_SetBytes <$> getData input 0 baseLen;
    exp ← big_SetBytes <$> getData input baseLen expLen;
    mod_ ← big_SetBytes <$> getData input (baseLen +₆₄ expLen) modLen;
    if BitLen mod_ =? 0 then no_error (LeftPadBytes [] (int64 modLen))
    else
      let v := if BitLen base =? 1 then digits 256 (base mod mod_)
               else digits 256 (Zpow_mod base exp mod_) in
      no_error (LeftPadBytes v (int64 modLen)).

(** ** The other contracts *)

Definition ecrecover_Run (input : bytes) : GoRes EvmErr (bytes * option EvmErr) :=
  input ← or_panic (RightPadBytes input 128);
  r ← big_SetBytes <$> slice input 64 96;
  s ← big_SetBytes <$> slice input 96 128;
  v ← (λ b, wrap8 (b - 27)) <$> index input 63;
  high ← slice input 32 63;
  if negb (allZero high) || negb (ValidateSignatureValues v r s false) then Ret ([], None)
  else
    sig ← slice input 64 128;
    hash ← slice input 0 32;
    match Ecrecover hash (sig ++ [v]) with
    | inl _ => Ret ([], None)
    | inr pubKey =>
        key ← slice pubKey 1 (zlen pubKey);
        let h := Keccak256 key in
        tail ← slice h 12 (zlen h);
        no_error (LeftPadBytes tail 32)
    end.

(** The outcome of a function that returns an error of a curve *)
Definition or_error {A} (r : string + A) (k : A → GoRes EvmErr (bytes * option EvmErr)) :
    GoRes EvmErr (bytes * option EvmErr) :=
  match r with inl msg => Ret ([], Some (ErrPrecompiled msg)) | inr a => k a end.

Definition runBn256Add (input : bytes) : GoRes EvmErr (bytes * option EvmErr) :=
  bx ← getData input 0 64;
  or_error (G1_Unmarshal bx) (λ x,
    by_ ← getData input 64 64;
    or_error (G1_Unmarshal by_) (λ y, Ret (G1_Marshal (G1_Add x y), None))).

Definition runBn256ScalarMul (input : bytes) : GoRes EvmErr (bytes * option EvmErr) :=
  bp ← getData input 0 64;
  or_error (G1_Unmarshal bp) (λ p,
    k ← big_SetBytes <$> getData input 64 32;
    Ret (G1_Marshal (G1_ScalarMult p k), None)).

Definition true32Byte : bytes := replicate 31 0 ++ [1].
Definition false32Byte : bytes := replicate 32 0.
Definition errBadPairingInput : EvmErr := ErrPrecompiled "bad elliptic curve pairing size".

(** The loop over the points; [n] bounds the number of rounds. *)
Fixpoint pairing_loop (n : nat) (input : bytes) (i : Z) (cs : list G1) (ts : list G2) :
    GoRes EvmErr (bytes * option EvmErr) :=
  let finish := Ret (if PairingCheck cs ts then true32Byte else false32Byte, None) in
  match n with
  | O => finish
  | S n =>
      if i <? zlen input then
        bc ← slice input i (i + 64);
        or_error (G1_Unmarshal bc) (λ c,
          bt ← slice input (i + 64) (i + 192);
          or_error (G2_Unmarshal bt) (λ t,
            pairing_loop n input (i + 192) (cs ++ [c]) (ts ++ [t])))
      else finish
  end.

Definition runBn256Pairing (input : bytes) : GoRes EvmErr (bytes * option EvmErr) :=
  if 0 <? zlen input mod 192 then Ret ([], Some errBadPairingInput)
  else pairing_loop (length input) input 0 [] [].

Definition blake2FInputLength : Z := 213.

(** [k] little-endian words of the input, the first one at [offset] *)
Fixpoint read_words (k : nat) (input : bytes) (offset : Z) : GoRes EvmErr (list Z) :=
  match k with
  | O => Ret []
  | S k =>
      w ← LittleEndian_Uint64 <$> slice input offset (offset + 8);
      ws ← read_words k input (offset + 8);
      Ret (w :: ws)
  end.

Definition blake2F_Run (input : bytes) : GoRes EvmErr (bytes * option EvmErr) :=
  if negb (zlen input =? blake2FInputLength)
  then Ret ([], Some (ErrPrecompiled "invalid input length"))
  else
    flag ← index input 212;
    if negb (flag =? 0) && negb (flag =? 1)
    then Ret ([], Some (ErrPrecompiled "invalid final flag"))
    else
      rounds ← BigEndian_Uint32 <$> slice input 0 4;
      let final := flag =? 1 in
      h ← read_words 8 input 4;
      m ← read_words 16 input 68;
      t ← read_words 2 input 196;
      let h := blake2b_F h m t final rounds in
      Ret (concat (LittleEndian_PutUint64 <$> h), None).

(** ** All contracts *)

Definition ecrecover_RequiredGas (input : bytes) : Z := EcrecoverGas.

Definition sha256hash_RequiredGas (input : bytes) : Z :=
  wrap64 (words32 input * Sha256PerWordGas) +₆₄ Sha256BaseGas.
Definition sha256hash_Run (input : bytes) : GoRes EvmErr (bytes * option EvmErr) :=
  Ret (sha256_Sum256 input, None).

Definition ripemd160hash_RequiredGas (input : bytes) : Z :=
  wrap64 (words32 input * Ripemd160PerWordGas) +₆₄ Ripemd160BaseGas.
Definition ripemd160hash_Run (input : bytes) : GoRes EvmErr (bytes * option EvmErr) :=
  no_error (LeftPadBytes (ripemd160_Sum input) 32).

Definition dataCopy_RequiredGas (input : bytes) : Z :=
  wrap64 (words32 input * IdentityPerWordGas) +₆₄ IdentityBaseGas.
Definition dataCopy_Run (input : bytes) : GoRes EvmErr (bytes * option EvmErr) :=
  Ret (input, None).

Definition bn256PairingByzantium_RequiredGas (input : bytes) : Z :=
  Bn256PairingBaseGasByzantium
  +₆₄ wrap64 (zlen input / 192 * Bn256PairingPerPointGasByzantium).
Definition bn256PairingIstanbul_RequiredGas (input : bytes) : Z :=
  Bn256PairingBaseGasIstanbul
  +₆₄ wrap64 (zlen input / 192 * Bn256PairingPerPointGasIstanbul).

Definition blake2F_RequiredGas (input : bytes) : GoRes EvmErr Z :=
  if negb (zlen input =? blake2FInputLength) then Ret 0
  else BigEndian_Uint32 <$> slice input 0 4.

(** The methods of the interface [PrecompiledContract], dispatched on the contract *)
Definition RequiredGas (p : PrecompiledContract) (input : bytes) : GoRes EvmErr Z :=
  match p with
  | ecrecover => Ret (ecrecover_RequiredGas input)
  | sha256hash => Ret (sha256hash_RequiredGas input)
  | ripemd160hash => Ret (ripemd160hash_RequiredGas input)
  | dataCopy => Ret (dataCopy_RequiredGas input)
  | bigModExp eip2565 => modexp_RequiredGas eip2565 input
  | bn256AddByzantium => Ret Bn256AddGasByzantium
  | bn256AddIstanbul => Ret Bn256AddGasIstanbul
  | bn256ScalarMulByzantium => Ret Bn256ScalarMulGasByzantium
  | bn256ScalarMulIstanbul => Ret Bn256ScalarMulGasIstanbul
  | bn256PairingByzantium => Ret (bn256PairingByzantium_RequiredGas input)
  | bn256PairingIstanbul => Ret (bn256PairingIstanbul_RequiredGas input)
  | blake2F => blake2F_RequiredGas input
  end.

Definition precompiled_Run (p : PrecompiledContract) (input : bytes) :
    GoRes EvmErr (bytes * option EvmErr) :=
  match p with
  | ecrecover => ecrecover_Run input
  | sha256hash => sha256hash_Run input
  | ripemd160hash => ripemd160hash_Run input
  | dataCopy => dataCopy_Run input
  | bigModExp _ => modexp_Run input
  | bn256AddByzantium | bn256AddIstanbul => runBn256Add input
  | bn256ScalarMulByzantium | bn256ScalarMulIstanbul => runBn256ScalarMul input
  | bn256PairingByzantium | bn256PairingIstanbul => runBn256Pairing input
  | blake2F => blake2F_Run input
  end.

(** The output, the remaining gas and the error *)
Definition RunPrecompiledContract (p : PrecompiledContract) (input : bytes) (suppliedGas : Z) :
    GoRes EvmErr (bytes * Z * option EvmErr) :=
  gasCost ← RequiredGas p input;
  if suppliedGas <? gasCost then Ret ([], 0, Some ErrOutOfGas)
  else
    '(output, err) ← precompiled_Run p input;
    Ret (output, suppliedGas - gasCost, err).

End precompiles.
