(* ===== verification/EvmCalls.v ===== *)
(** * The virtual machine: calls and creations

    The methods of [FakeEVM] in [fakevm.go] that run contracts.  They are
    parameterised by the interpreter's [Run], which the instructions call back;
    the hooks of the tracer are not modelled.  A method returns the output, the
    gas that is left and the error. *)

From S2P Require Import Prelude OpCodes EvmBase EvmData EvmGas EvmPrecompiles.

Definition reverted (err : EvmErr) : bool := bool_decide (err = ErrExecutionReverted).

Section calls.
Context `{Uint256, Params, Geth, PrecompileCrypto, FakeDB, !Env}.

(** [EVMInterpreter.Run(contract, input, readOnly)]: the output and the error,
    with the contract as the run leaves it *)
Definition RunFn : Type :=
  Contract → bytes → bool → Evm → Out (Evm * Contract * (bytes * option EvmErr)).

Definition CallRes : Type := bytes * Z * option EvmErr.

Section with_run.
Variable run : RunFn.

(** A run of a new contract of [caller], which shares the caller's map of analyses
    when the caller is a contract and has its own otherwise *)
Definition run_new (caller : ContractRef) (c : Contract) (input : bytes) (readOnly : bool)
    (e : Evm) : Out (Evm * Contract * (bytes * option EvmErr)) :=
  '(e', c', res) ← run c input readOnly
                     (with_jumpdests (new_jumpdests caller (jumpdests e)) e);
  mret (match caller with
        | ContractPtr _ => e'
        | AccountRef _ => with_jumpdests (jumpdests e) e'
        end, c', res).

(** The end of the calls: an error reverts the state and, unless it is
    [ErrExecutionReverted], consumes the gas. *)
Definition finish_call (snapshot : Z) (e : Evm) (res : CallRes) : Out (Evm * CallRes) :=
  let '(ret, gas, err) := res in
  match err with
  | None => mret (e, (ret, gas, None))
  | Some err =>
      mret (with_db (λ d, RevertToSnapshot d snapshot) e,
            (ret, if reverted err then gas else 0, Some err))
  end.

Definition run_precompiled (p : PrecompiledContract) (input : bytes) (gas : Z) : Out CallRes :=
  match RunPrecompiledContract p input gas with Ret r => Done r | _ => GoPanic end.

(** [ret, err = evm.interpreter.Run(contract, input, readOnly); gas = contract.Gas] *)
Definition run_call (caller : ContractRef) (c : Contract) (input : bytes) (readOnly : bool)
    (e : Evm) : Out (Evm * CallRes) :=
  '(e, c, (ret, err)) ← run_new caller c input readOnly e;
  mret (e, (ret, Gas c, err)).

(** [evm.Context.CanTransfer(evm.StateDB, addr, value)] *)
Definition can_transfer (d : db) (addr : Address) (value : Z) : Out bool :=
  answer d (ReadTransfer addr value) (CanTransfer d addr value).

Definition Call (caller : ContractRef) (addr : Address) (input : bytes) (gas value : Z)
    (e : Evm) : Out (Evm * CallRes) :=
  if CallCreateDepth <? depth e then mret (e, ([], gas, Some ErrDepth))
  else
  can ← (if negb (value =? 0) then can_transfer (StateDB e) (ref_Address caller) value
         else mret true);
  if negb can then mret (e, ([], gas, Some ErrInsufficientBalance))
  else
    let '(d, snapshot) := Snapshot (StateDB e) in
    let p := precompile chainRules addr in
    exist ← answer d (ReadExist addr) (Exist d addr);
    if negb exist && negb (bool_decide (is_Some p)) && IsEIP158 chainRules && (value =? 0)
    then mret (with_db (λ _, d) e, ([], gas, None))
    else
      let d := if negb exist then CreateAccount d addr else d in
      let d := Transfer d (ref_Address caller) addr value in
      let e := with_db (λ _, d) e in
      '(e, res) ←
        match p with
        | Some p => res ← run_precompiled p input gas; mret (e, res)
        | None =>
            let code := GetCode d addr in
            if zlen code =? 0 then mret (e, ([], gas, None))
            else
              let c := NewContract caller addr value gas in
              let c := SetCallCode c (Some addr) (GetCodeHash d addr) code in
              run_call caller c input false e
        end;
      finish_call snapshot e res.

Definition CallCode (caller : ContractRef) (addr : Address) (input : bytes) (gas value : Z)
    (e : Evm) : Out (Evm * CallRes) :=
  if CallCreateDepth <? depth e then mret (e, ([], gas, Some ErrDepth))
  else
  can ← can_transfer (StateDB e) (ref_Address caller) value;
  if negb can then mret (e, ([], gas, Some ErrInsufficientBalance))
  else
    let '(d, snapshot) := Snapshot (StateDB e) in
    let e := with_db (λ _, d) e in
    '(e, res) ←
      match precompile chainRules addr with
      | Some p => res ← run_precompiled p input gas; mret (e, res)
      | None =>
          let c := NewContract caller (ref_Address caller) value gas in
          let c := SetCallCode c (Some addr) (GetCodeHash d addr) (GetCode d addr) in
          run_call caller c input false e
      end;
    finish_call snapshot e res.

(** [NewContract] gets a nil value, which [AsDelegate] overwrites. *)
Definition DelegateCall (caller : ContractRef) (addr : Address) (input : bytes) (gas : Z)
    (e : Evm) : Out (Evm * CallRes) :=
  if CallCreateDepth <? depth e then mret (e, ([], gas, Some ErrDepth))
  else
    let '(d, snapshot) := Snapshot (StateDB e) in
    let e := with_db (λ _, d) e in
    '(e, res) ←
      match precompile chainRules addr with
      | Some p => res ← run_precompiled p input gas; mret (e, res)
      | None =>
          match AsDelegate caller (NewContract caller (ref_Address caller) 0 gas) with
          | Ret c =>
              let c := SetCallCode c (Some addr) (GetCodeHash d addr) (GetCode d addr) in
              run_call caller c input false e
          | _ => GoPanic
          end
      end;
    finish_call snapshot e res.

Definition StaticCall (caller : ContractRef) (addr : Address) (input : bytes) (gas : Z)
    (e : Evm) : Out (Evm * CallRes) :=
  if CallCreateDepth <? depth e then mret (e, ([], gas, Some ErrDepth))
  else
    let '(d, snapshot) := Snapshot (StateDB e) in
    let d := AddBalance d addr (Some 0) in
    let e := with_db (λ _, d) e in
    '(e, res) ←
      match precompile chainRules addr with
      | Some p => res ← run_precompiled p input gas; mret (e, res)
      | None =>
          let c := NewContract caller addr 0 gas in
          let c := SetCallCode c (Some addr) (GetCodeHash d addr) (GetCode d addr) in
          run_call caller c input true e
      end;
    finish_call snapshot e res.

Definition emptyCodeHash : Hash := Keccak256 [].

(** The checks on the code a creation returns *)
Definition check_code (ret : bytes) (err : option EvmErr) : option EvmErr :=
  let err :=
    if bool_decide (err = None) && IsEIP158 chainRules && (MaxCodeSize <? zlen ret)
    then Some ErrMaxCodeSizeExceeded else err in
  if bool_decide (err = None) && (1 <=? zlen ret) && bool_decide (head ret = Some 0xEF)
     && IsLondon chainRules
  then Some ErrInvalidCode else err.

(** The part of [create] after the run: store the code, or revert *)
Definition finish_create (snapshot : Z) (addr : Address) (c : Contract) (ret : bytes)
    (err : option EvmErr) (e : Evm) : Evm * (bytes * Address * Z * option EvmErr) :=
  let err := check_code ret err in
  let '(e, c, err) :=
    match err with
    | Some _ => (e, c, err)
    | None =>
        let '(c, paid) := UseGas c (wrap64 (zlen ret * CreateDataGas)) in
        if paid then (with_db (λ d, SetCode d addr ret) e, c, None)
        else (e, c, Some ErrCodeStoreOutOfGas)
    end in
  match err with
  | Some er =>
      if IsHomestead chainRules || negb (bool_decide (er = ErrCodeStoreOutOfGas)) then
        (with_db (λ d, RevertToSnapshot d snapshot) e,
         (ret, addr, if reverted er then Gas c else Gas (UseGas c (Gas c)).1, err))
      else (e, (ret, addr, Gas c, err))
  | None => (e, (ret, addr, Gas c, err))
  end.

Definition create (caller : ContractRef) (ch : codeAndHash) (gas value : Z) (addr : Address)
    (e : Evm) : Out (Evm * (bytes * Address * Z * option EvmErr)) :=
  let from := ref_Address caller in
  if CallCreateDepth <? depth e then mret (e, ([], zero_address, gas, Some ErrDepth))
  else
  can ← can_transfer (StateDB e) from value;
  if negb can then mret (e, ([], zero_address, gas, Some ErrInsufficientBalance))
  else
    let nonce := GetNonce (StateDB e) from in
    if nonce +₆₄ 1 <? nonce
    then mret (e, ([], zero_address, gas, Some ErrNonceUintOverflow))
    else
      let d := SetNonce (StateDB e) from (nonce +₆₄ 1) in
      let d := if IsBerlin chainRules then AddAddressToAccessList d addr else d in
      let contractHash := GetCodeHash d addr in
      if negb (GetNonce d addr =? 0)
         || (negb (is_zero_hash contractHash)
             && negb (bool_decide (contractHash = emptyCodeHash)))
      then mret (with_db (λ _, d) e, ([], zero_address, 0, Some ErrContractAddressCollision))
      else
        let '(d, snapshot) := Snapshot d in
        let d := CreateAccount d addr in
        let d := if IsEIP158 chainRules then SetNonce d addr 1 else d in
        let d := Transfer d from addr value in
        let c := NewContract caller addr value gas in
        let c := SetCodeOptionalHash c (Some addr) ch in
        '(e, c, (ret, err)) ← run_new caller c [] false (with_db (λ _, d) e);
        mret (finish_create snapshot addr c ret err e).

Definition Create (caller : ContractRef) (code : bytes) (gas value : Z) (e : Evm) :
    Out (Evm * (bytes * Address * Z * option EvmErr)) :=
  let from := ref_Address caller in
  let contractAddr := CreateAddress from (GetNonce (StateDB e) from) in
  create caller (mkCodeAndHash code zero_hash) gas value contractAddr e.

Definition Create2 (caller : ContractRef) (code : bytes) (gas endowment : Z) (salt : U)
    (e : Evm) : Out (Evm * (bytes * Address * Z * option EvmErr)) :=
  let ch := cah_Hash (mkCodeAndHash code zero_hash) in
  let contractAddr := CreateAddress2 (ref_Address caller) (u_Bytes32 salt) (cah_hash ch) in
  create caller ch gas endowment contractAddr e.

End with_run.
End calls.
