(* ===== verification/EvmInstr.v ===== *)
(** * The virtual machine: instructions

    [instructions.go] and the instructions of [eips.go] in
    [state/runtime/fakevm].  An instruction returns bytes and an error, [errStopToken]
    included; [run] is the interpreter's [Run] for the contracts it calls. *)

From S2P Require Import Prelude OpCodes EvmBase EvmData EvmGas EvmPrecompiles EvmCalls.

Section instructions.
Context `{Uint256, Params, Geth, PrecompileCrypto, FakeDB, !Env}.

Definition executionFunc : Type := RunFn → Exec (bytes * option EvmErr).

(** [return nil, nil], [return nil, err] and [return ret, err] *)
Definition next : Exec (bytes * option EvmErr) := mret ([], None).
Definition throw (e : EvmErr) : Exec (bytes * option EvmErr) := mret ([], Some e).
Definition leave (ret : bytes) (e : option EvmErr) : Exec (bytes * option EvmErr) :=
  mret (ret, e).

Definition from_bool (b : bool) : U := if b then u_One else u_Zero.

(** ** Arithmetic, comparison and bits *)

Definition opAdd : executionFunc := λ _, x ← pop; y ← peek; poke (u_Add x y);; next.
Definition opSub : executionFunc := λ _, x ← pop; y ← peek; poke (u_Sub x y);; next.
Definition opMul : executionFunc := λ _, x ← pop; y ← peek; poke (u_Mul x y);; next.
Definition opDiv : executionFunc := λ _, x ← pop; y ← peek; poke (u_Div x y);; next.
Definition opSdiv : executionFunc := λ _, x ← pop; y ← peek; poke (u_SDiv x y);; next.
Definition opMod : executionFunc := λ _, x ← pop; y ← peek; poke (u_Mod x y);; next.
Definition opSmod : executionFunc := λ _, x ← pop; y ← peek; poke (u_SMod x y);; next.

Definition opExp : executionFunc := λ _,
  base ← pop; exponent ← peek; poke (u_Exp base exponent);; next.

Definition opSignExtend : executionFunc := λ _,
  back ← pop; num ← peek; poke (u_ExtendSign num back);; next.

Definition opNot : executionFunc := λ _, x ← peek; poke (u_Not x);; next.

Definition opLt : executionFunc := λ _, x ← pop; y ← peek; poke (from_bool (u_Lt x y));; next.
Definition opGt : executionFunc := λ _, x ← pop; y ← peek; poke (from_bool (u_Gt x y));; next.
Definition opSlt : executionFunc := λ _, x ← pop; y ← peek; poke (from_bool (u_Slt x y));; next.
Definition opSgt : executionFunc := λ _, x ← pop; y ← peek; poke (from_bool (u_Sgt x y));; next.
Definition opEq : executionFunc := λ _, x ← pop; y ← peek; poke (from_bool (u_Eq x y));; next.

Definition opIszero : executionFunc := λ _, x ← peek; poke (from_bool (u_IsZero x));; next.

Definition opAnd : executionFunc := λ _, x ← pop; y ← peek; poke (u_And x y);; next.
Definition opOr : executionFunc := λ _, x ← pop; y ← peek; poke (u_Or x y);; next.
Definition opXor : executionFunc := λ _, x ← pop; y ← peek; poke (u_Xor x y);; next.

Definition opByte : executionFunc := λ _, th ← pop; val ← peek; poke (u_Byte val th);; next.

Definition opAddmod : executionFunc := λ _,
  x ← pop; y ← pop; z ← peek;
  poke (if u_IsZero z then u_Zero else u_AddMod x y z);; next.

Definition opMulmod : executionFunc := λ _,
  x ← pop; y ← pop; z ← peek; poke (u_MulMod x y z);; next.

Definition opSHL : executionFunc := λ _,
  shift ← pop; value ← peek;
  poke (if u_LtUint64 shift 256 then u_Lsh value (u_Uint64 shift) else u_Zero);; next.

Definition opSHR : executionFunc := λ _,
  shift ← pop; value ← peek;
  poke (if u_LtUint64 shift 256 then u_Rsh value (u_Uint64 shift) else u_Zero);; next.

Definition opSAR : executionFunc := λ _,
  shift ← pop; value ← peek;
  poke (if u_GtUint64 shift 256
        then if 0 <=? u_Sign value then u_Zero else u_AllOne
        else u_SRsh value (u_Uint64 shift));;
  next.

(** ** Memory *)

(** [scope.Memory.GetPtr], [GetCopy] and [Set] at [uint64] positions *)
Definition get_ptr (offset size : Z) : Exec bytes := λ s,
  lift (GetPtr (Mem s) (int64 offset) (int64 size)) s.
Definition get_copy (offset size : Z) : Exec bytes := λ s,
  lift (GetCopy (Mem s) (int64 offset) (int64 size)) s.
Definition mem_set (offset size : Z) (val : bytes) : Exec unit := λ s,
  (m ← lift (mem_Set (Mem s) offset size val); modify (set_mem m)) s.

(** The hasher is reset before each use. *)
Definition opKeccak256 : executionFunc := λ _,
  offset ← pop; size ← peek;
  data ← get_ptr (u_Uint64 offset) (u_Uint64 size);
  let hasherBuf := Keccak256 data in
  (if EnablePreimageRecording then upd_db (λ d, AddPreimage d hasherBuf data) else mret tt);;
  poke (u_SetBytes hasherBuf);; next.

(** ** Environment *)

Definition opAddress : executionFunc := λ _, a ← address; Push (u_SetBytes a);; next.

Definition opBalance : executionFunc := λ _,
  slot ← peek;
  b ← read_balance (u_Bytes20 slot);
  poke (u_SetFromBig b);; next.

Definition opOrigin : executionFunc := λ _, Push (u_SetBytes Origin);; next.

Definition opCaller : executionFunc := λ _,
  a ← get (λ s, CallerAddress (Con s)); Push (u_SetBytes a);; next.

Definition opCallValue : executionFunc := λ _,
  v ← get (λ s, value (Con s)); Push (u_FromBig v);; next.

Definition opCallDataLoad : executionFunc := λ _,
  x ← peek; input ← get (λ s, Input (Con s));
  let '(offset, overflow) := u_Uint64WithOverflow x in
  if negb overflow
  then data ← lift (getData input offset 32); poke (u_SetBytes data);; next
  else poke u_Zero;; next.

Definition opCallDataSize : executionFunc := λ _,
  input ← get (λ s, Input (Con s)); Push (u_SetUint64 (zlen input));; next.

(** An offset that overflows counts as the largest [uint64]. *)
Definition clamp64 (x : U) : Z :=
  let '(r, overflow) := u_Uint64WithOverflow x in
  if overflow then 0xffffffffffffffff else r.

Definition opCallDataCopy : executionFunc := λ _,
  memOffset ← pop; dataOffset ← pop; length ← pop;
  input ← get (λ s, Input (Con s));
  data ← lift (getData input (clamp64 dataOffset) (u_Uint64 length));
  mem_set (u_Uint64 memOffset) (u_Uint64 length) data;; next.

Definition opReturnDataSize : executionFunc := λ _,
  r ← get (λ s, returnData (evm s)); Push (u_SetUint64 (zlen r));; next.

Definition opReturnDataCopy : executionFunc := λ _,
  memOffset ← pop; dataOffset ← pop; length ← pop;
  r ← get (λ s, returnData (evm s));
  let '(offset64, overflow) := u_Uint64WithOverflow dataOffset in
  if overflow then throw ErrReturnDataOutOfBounds
  else
    let '(end64, overflow) := u_Uint64WithOverflow (u_Add dataOffset length) in
    if overflow || (zlen r <? end64) then throw ErrReturnDataOutOfBounds
    else
      data ← lift (slice r offset64 end64);
      mem_set (u_Uint64 memOffset) (u_Uint64 length) data;; next.

Definition opExtCodeSize : executionFunc := λ _,
  slot ← peek;
  n ← get_db (λ d, GetCodeSize d (u_Bytes20 slot));
  poke (u_SetUint64 (wrap64 n));; next.

Definition opCodeSize : executionFunc := λ _,
  code ← get (λ s, Code (Con s)); Push (u_SetUint64 (zlen code));; next.

Definition opCodeCopy : executionFunc := λ _,
  memOffset ← pop; codeOffset ← pop; length ← pop;
  code ← get (λ s, Code (Con s));
  codeCopy ← lift (getData code (clamp64 codeOffset) (u_Uint64 length));
  mem_set (u_Uint64 memOffset) (u_Uint64 length) codeCopy;; next.

Definition opExtCodeCopy : executionFunc := λ _,
  a ← pop; memOffset ← pop; codeOffset ← pop; length ← pop;
  code ← get_db (λ d, GetCode d (u_Bytes20 a));
  codeCopy ← lift (getData code (clamp64 codeOffset) (u_Uint64 length));
  mem_set (u_Uint64 memOffset) (u_Uint64 length) codeCopy;; next.

Definition opExtCodeHash : executionFunc := λ _,
  slot ← peek;
  let address := u_Bytes20 slot in
  empty ← read_empty address;
  if empty : bool then poke u_Zero;; next
  else h ← get_db (λ d, GetCodeHash d address); poke (u_SetBytes h);; next.

Definition opGasprice : executionFunc := λ _, Push (u_FromBig GasPrice);; next.

(** [big.Int.Uint64]: the low 64 bits of the absolute value *)
Definition block_number64 : Z := wrap64 (Z.abs BlockNumber).

Definition opBlockhash : executionFunc := λ _,
  num ← peek;
  let '(num64, overflow) := u_Uint64WithOverflow num in
  if overflow then poke u_Zero;; next
  else
    let upper := block_number64 in
    let lower := if upper <? 257 then 0 else upper - 256 in
    if (lower <=? num64) && (num64 <? upper)
    then poke (u_SetBytes (GetHash num64));; next
    else poke u_Zero;; next.

Definition opCoinbase : executionFunc := λ _, Push (u_SetBytes Coinbase);; next.
Definition opTimestamp : executionFunc := λ _, Push (u_SetUint64 Time);; next.
Definition opNumber : executionFunc := λ _, Push (u_FromBig BlockNumber);; next.
Definition opDifficulty : executionFunc := λ _, Push (u_FromBig Difficulty);; next.

(** A nil [Random] is dereferenced. *)
Definition opRandom : executionFunc := λ _,
  match Random with
  | Some r => Push (u_SetBytes r);; next
  | None => panic
  end.

Definition opGasLimit : executionFunc := λ _, Push (u_SetUint64 GasLimit);; next.

(** ** Stack, memory, storage and jumps *)

Definition opPop : executionFunc := λ _, pop;; next.

Definition opMload : executionFunc := λ _,
  v ← peek; data ← get_ptr (u_Uint64 v) 32; poke (u_SetBytes data);; next.

Definition opMstore : executionFunc := λ _,
  mStart ← pop; val ← pop;
  mem ← get Mem;
  m ← lift (mem_Set32 mem (u_Uint64 mStart) val);
  modify (set_mem m);; next.

(** [scope.Memory.store[off.Uint64()] = byte(val.Uint64())] *)
Definition opMstore8 : executionFunc := λ _,
  off ← pop; val ← pop;
  mem ← get Mem;
  _ ← lift (index (store mem) (u_Uint64 off));
  modify (set_mem (with_store mem
    (<[Z.to_nat (u_Uint64 off) := wrap8 (u_Uint64 val)]> (store mem))));;
  next.

Definition opSload : executionFunc := λ _,
  loc ← peek; addr ← address;
  val ← read_state addr (u_Bytes32 loc);
  poke (u_SetBytes val);; next.

Definition opSstore : executionFunc := λ _,
  ro ← get (λ s, readOnly (evm s));
  if ro : bool then throw ErrWriteProtection
  else
    loc ← pop; val ← pop; addr ← address;
    upd_db (λ d, SetState d addr (u_Bytes32 loc) (u_Bytes32 val));; next.

(** [atomic.LoadInt32(&interpreter.evm.abort) != 0] *)
Definition load_abort : Exec bool := λ s,
  Done (set_evm (with_load (evm s)) s, abort_at (abort_loads (evm s))).

Definition opJump : executionFunc := λ _,
  abort ← load_abort;
  if abort : bool then throw errStopToken
  else
    pos ← pop;
    valid ← validJumpdest pos;
    if negb valid then throw ErrInvalidJump
    else modify (set_pc (u_Uint64 pos -₆₄ 1));; next.

Definition opJumpi : executionFunc := λ _,
  abort ← load_abort;
  if abort : bool then throw errStopToken
  else
    pos ← pop; cond ← pop;
    if negb (u_IsZero cond) then
      valid ← validJumpdest pos;
      if negb valid then throw ErrInvalidJump
      else modify (set_pc (u_Uint64 pos -₆₄ 1));; next
    else next.

Definition opJumpdest : executionFunc := λ _, next.

Definition opPc : executionFunc := λ _, n ← get pc; Push (u_SetUint64 n);; next.
Definition opMsize : executionFunc := λ _, m ← get Mem; Push (u_SetUint64 (mem_Len m));; next.
Definition opGas : executionFunc := λ _,
  g ← get (λ s, Gas (Con s)); Push (u_SetUint64 g);; next.

(** ** Creations and calls *)

(** A method of [FakeEVM], called with the contract of the frame *)
Definition call_evm {A} (f : ContractRef → Evm → Out (Evm * A)) : Exec A := λ s,
  '(e, a) ← f (ContractPtr (Con s)) (evm s); Done (set_evm e s, a).

Definition set_returnData (r : bytes) : Exec unit := upd_evm (with_returnData r).

Definition big_value (x : U) : Z := if negb (u_IsZero x) then u_ToBig x else 0.

(** The end of [opCreate] and [opCreate2] *)
Definition finish_op_create (stackvalue : U) (res : bytes) (returnGas : Z)
    (suberr : option EvmErr) : Exec (bytes * option EvmErr) :=
  Push stackvalue;;
  AddGas returnGas;;
  if bool_decide (suberr = Some ErrExecutionReverted)
  then set_returnData res;; leave res None
  else set_returnData [];; next.

Definition opCreate : executionFunc := λ run,
  ro ← get (λ s, readOnly (evm s));
  if ro : bool then throw ErrWriteProtection
  else
    value ← pop; offset ← pop; size ← pop;
    input ← get_copy (u_Uint64 offset) (u_Uint64 size);
    gas ← get (λ s, Gas (Con s));
    let gas := if IsEIP150 chainRules then gas - gas / 64 else gas in
    _ ← use_gas gas;
    '(res, addr, returnGas, suberr) ←
      call_evm (λ caller, Create run caller input gas (big_value value));
    let stackvalue :=
      if IsHomestead chainRules && bool_decide (suberr = Some ErrCodeStoreOutOfGas)
      then u_Zero
      else if negb (bool_decide (suberr = None))
              && negb (bool_decide (suberr = Some ErrCodeStoreOutOfGas))
      then u_Zero
      else u_SetBytes addr in
    finish_op_create stackvalue res returnGas suberr.

Definition opCreate2 : executionFunc := λ run,
  ro ← get (λ s, readOnly (evm s));
  if ro : bool then throw ErrWriteProtection
  else
    endowment ← pop; offset ← pop; size ← pop; salt ← pop;
    input ← get_copy (u_Uint64 offset) (u_Uint64 size);
    gas ← get (λ s, Gas (Con s));
    let gas := gas - gas / 64 in
    _ ← use_gas gas;
    '(res, addr, returnGas, suberr) ←
      call_evm (λ caller, Create2 run caller input gas (big_value endowment) salt);
    let stackvalue :=
      if negb (bool_decide (suberr = None)) then u_Zero else u_SetBytes addr in
    finish_op_create stackvalue res returnGas suberr.

(** The end of the four calls *)
Definition finish_op_call (retOffset retSize : U) (ret : bytes) (returnGas : Z)
    (err : option EvmErr) : Exec (bytes * option EvmErr) :=
  Push (if negb (bool_decide (err = None)) then u_Zero else u_One);;
  (if bool_decide (err = None) || bool_decide (err = Some ErrExecutionReverted)
   then mem_set (u_Uint64 retOffset) (u_Uint64 retSize) ret else mret tt);;
  AddGas returnGas;;
  set_returnData ret;;
  leave ret None.

Definition opCall : executionFunc := λ run,
  _ ← pop;
  gas ← get (λ s, callGasTemp (evm s));
  addr ← pop; value ← pop; inOffset ← pop; inSize ← pop; retOffset ← pop; retSize ← pop;
  args ← get_ptr (u_Uint64 inOffset) (u_Uint64 inSize);
  ro ← get (λ s, readOnly (evm s));
  if ro && negb (u_IsZero value) then throw ErrWriteProtection
  else
    let gas := if negb (u_IsZero value) then gas +₆₄ CallStipend else gas in
    '(ret, returnGas, err) ←
      call_evm (λ caller, Call run caller (u_Bytes20 addr) args gas (big_value value));
    finish_op_call retOffset retSize ret returnGas err.

Definition opCallCode : executionFunc := λ run,
  _ ← pop;
  gas ← get (λ s, callGasTemp (evm s));
  addr ← pop; value ← pop; inOffset ← pop; inSize ← pop; retOffset ← pop; retSize ← pop;
  args ← get_ptr (u_Uint64 inOffset) (u_Uint64 inSize);
  let gas := if negb (u_IsZero value) then gas +₆₄ CallStipend else gas in
  '(ret, returnGas, err) ←
    call_evm (λ caller, CallCode run caller (u_Bytes20 addr) args gas (big_value value));
  finish_op_call retOffset retSize ret returnGas err.

Definition opDelegateCall : executionFunc := λ run,
  _ ← pop;
  gas ← get (λ s, callGasTemp (evm s));
  addr ← pop; inOffset ← pop; inSize ← pop; retOffset ← pop; retSize ← pop;
  args ← get_ptr (u_Uint64 inOffset) (u_Uint64 inSize);
  '(ret, returnGas, err) ←
    call_evm (λ caller, DelegateCall run caller (u_Bytes20 addr) args gas);
  finish_op_call retOffset retSize ret returnGas err.

Definition opStaticCall : executionFunc := λ run,
  _ ← pop;
  gas ← get (λ s, callGasTemp (evm s));
  addr ← pop; inOffset ← pop; inSize ← pop; retOffset ← pop; retSize ← pop;
  args ← get_ptr (u_Uint64 inOffset) (u_Uint64 inSize);
  '(ret, returnGas, err) ←
    call_evm (λ caller, StaticCall run caller (u_Bytes20 addr) args gas);
  finish_op_call retOffset retSize ret returnGas err.

Definition opReturn : executionFunc := λ _,
  offset ← pop; size ← pop;
  ret ← get_ptr (u_Uint64 offset) (u_Uint64 size);
  leave ret (Some errStopToken).

Definition opRevert : executionFunc := λ _,
  offset ← pop; size ← pop;
  ret ← get_ptr (u_Uint64 offset) (u_Uint64 size);
  set_returnData ret;;
  leave ret (Some ErrExecutionReverted).

Definition opUndefined : executionFunc := λ _,
  n ← get pc; code ← get (λ s, Code (Con s));
  op ← lift (OpCode <$> index code n);
  throw (ErrInvalidOpCode op).

Definition opStop : executionFunc := λ _, throw errStopToken.

Definition opSelfdestruct : executionFunc := λ _,
  ro ← get (λ s, readOnly (evm s));
  if ro : bool then throw ErrWriteProtection
  else
    beneficiary ← pop; addr ← address;
    balance ← get_db (λ d, GetBalance d addr);
    upd_db (λ d, AddBalance d (u_Bytes20 beneficiary) balance);;
    upd_db (λ d, Suicide d addr);;
    throw errStopToken.

(** ** Logs, pushes, duplications and swaps *)

Fixpoint pop_topics (n : nat) : Exec (list Hash) :=
  match n with
  | O => mret []
  | S n => addr ← pop; topics ← pop_topics n; mret (u_Bytes32 addr :: topics)
  end.

Definition makeLog (size : nat) : executionFunc := λ _,
  ro ← get (λ s, readOnly (evm s));
  if ro : bool then throw ErrWriteProtection
  else
    mStart ← pop; mSize ← pop;
    topics ← pop_topics size;
    d ← get_copy (u_Uint64 mStart) (u_Uint64 mSize);
    addr ← address;
    upd_db (λ st, AddLog st (mkLog addr topics d block_number64));; next.

Definition opPush1 : executionFunc := λ _,
  n ← get pc; code ← get (λ s, Code (Con s));
  let n := n +₆₄ 1 in
  modify (set_pc n);;
  if n <? zlen code
  then b ← lift (index code n); Push (u_SetUint64 b);; next
  else Push u_Zero;; next.

Definition makePush (size pushByteSize : Z) : executionFunc := λ _,
  n ← get pc; code ← get (λ s, Code (Con s));
  let codeLen := zlen code in
  let start := int64 (n +₆₄ 1) in
  let startMin := if start <? codeLen then start else codeLen in
  let stop := add_int64 startMin pushByteSize in
  let endMin := if stop <? codeLen then stop else codeLen in
  data ← lift (slice code startMin endMin);
  padded ← lift (or_panic (RightPadBytes data pushByteSize));
  Push (u_SetBytes padded);;
  modify (set_pc (n +₆₄ size));; next.

Definition makeDup (size : Z) : executionFunc := λ _, dup size;; next.

Definition makeSwap (size : Z) : executionFunc := λ _, swap (size + 1);; next.

(** ** eips.go *)

Definition opSelfBalance : executionFunc := λ _,
  addr ← address;
  balance ← read_balance addr;
  Push (u_FromBig balance);; next.

Definition opChainID : executionFunc := λ _, Push (u_FromBig ChainID);; next.

Definition opTload : executionFunc := λ _,
  loc ← peek; addr ← address;
  val ← get_db (λ d, GetTransientState d addr (u_Bytes32 loc));
  poke (u_SetBytes val);; next.

Definition opTstore : executionFunc := λ _,
  ro ← get (λ s, readOnly (evm s));
  if ro : bool then throw ErrWriteProtection
  else
    loc ← pop; val ← pop; addr ← address;
    upd_db (λ d, SetTransientState d addr (u_Bytes32 loc) (u_Bytes32 val));; next.

Definition opBaseFee : executionFunc := λ _, Push (u_FromBig BaseFee);; next.

Definition opPush0 : executionFunc := λ _, Push u_Zero;; next.

End instructions.
