(* ===== verification/EvmTable.v ===== *)
(** * The virtual machine: jump tables

    [jump_table.go] and the activators of [eips.go] in [state/runtime/fakevm].
    A table is a function from opcodes; assigning an entry or a field of an entry
    yields a new table, since each table is built from scratch or deeply copied. *)

From S2P Require Import Prelude OpCodes EvmBase EvmData EvmGas EvmPrecompiles EvmCalls.
From S2P Require Import EvmInstr.

Section tables.
Context `{Uint256, Params, Geth, PrecompileCrypto, FakeDB, !Env}.

Record operation := mkOperation {
  execute : executionFunc;
  constantGas : Z;
  dynamicGas : option gasFunc;
  op_minStack : Z;
  op_maxStack : Z;
  memorySize : option memorySizeFunc
}.

Definition JumpTable := Z → operation.

(** [jt[op] = o], [jt[op].constantGas = g] and [jt[op].dynamicGas = f] *)
Definition jt_set (op : Z) (o : operation) (jt : JumpTable) : JumpTable :=
  λ i, if i =? op then o else jt i.
Definition jt_constantGas (op g : Z) (jt : JumpTable) : JumpTable :=
  let o := jt op in
  jt_set op (mkOperation (execute o) g (dynamicGas o) (op_minStack o) (op_maxStack o)
               (memorySize o)) jt.
Definition jt_dynamicGas (op : Z) (f : gasFunc) (jt : JumpTable) : JumpTable :=
  let o := jt op in
  jt_set op (mkOperation (execute o) (constantGas o) (Some f) (op_minStack o) (op_maxStack o)
               (memorySize o)) jt.

(** ** Frontier *)

Definition frontier_arithmetic : list (Z * operation) := [
  (STOP, mkOperation opStop 0 None (minStack 0 0) (maxStack 0 0) None);
  (ADD, mkOperation opAdd GasFastestStep None (minStack 2 1) (maxStack 2 1) None);
  (MUL, mkOperation opMul GasFastStep None (minStack 2 1) (maxStack 2 1) None);
  (SUB, mkOperation opSub GasFastestStep None (minStack 2 1) (maxStack 2 1) None);
  (DIV, mkOperation opDiv GasFastStep None (minStack 2 1) (maxStack 2 1) None);
  (SDIV, mkOperation opSdiv GasFastStep None (minStack 2 1) (maxStack 2 1) None);
  (MOD, mkOperation opMod GasFastStep None (minStack 2 1) (maxStack 2 1) None);
  (SMOD, mkOperation opSmod GasFastStep None (minStack 2 1) (maxStack 2 1) None);
  (ADDMOD, mkOperation opAddmod GasMidStep None (minStack 3 1) (maxStack 3 1) None);
  (MULMOD, mkOperation opMulmod GasMidStep None (minStack 3 1) (maxStack 3 1) None);
  (EXP, mkOperation opExp 0 (Some gasExpFrontier) (minStack 2 1) (maxStack 2 1) None);
  (SIGNEXTEND, mkOperation opSignExtend GasFastStep None (minStack 2 1) (maxStack 2 1) None);
  (LT, mkOperation opLt GasFastestStep None (minStack 2 1) (maxStack 2 1) None);
  (GT, mkOperation opGt GasFastestStep None (minStack 2 1) (maxStack 2 1) None);
  (SLT, mkOperation opSlt GasFastestStep None (minStack 2 1) (maxStack 2 1) None);
  (SGT, mkOperation opSgt GasFastestStep None (minStack 2 1) (maxStack 2 1) None);
  (EQ, mkOperation opEq GasFastestStep None (minStack 2 1) (maxStack 2 1) None);
  (ISZERO, mkOperation opIszero GasFastestStep None (minStack 1 1) (maxStack 1 1) None);
  (AND, mkOperation opAnd GasFastestStep None (minStack 2 1) (maxStack 2 1) None);
  (XOR, mkOperation opXor GasFastestStep None (minStack 2 1) (maxStack 2 1) None);
  (OR, mkOperation opOr GasFastestStep None (minStack 2 1) (maxStack 2 1) None);
  (NOT, mkOperation opNot GasFastestStep None (minStack 1 1) (maxStack 1 1) None);
  (BYTE, mkOperation opByte GasFastestStep None (minStack 2 1) (maxStack 2 1) None)].

Definition frontier_environment : list (Z * operation) := [
  (KECCAK256, mkOperation opKeccak256 Keccak256Gas (Some gasKeccak256)
     (minStack 2 1) (maxStack 2 1) (Some memoryKeccak256));
  (ADDRESS, mkOperation opAddress GasQuickStep None (minStack 0 1) (maxStack 0 1) None);
  (BALANCE, mkOperation opBalance BalanceGasFrontier None (minStack 1 1) (maxStack 1 1) None);
  (ORIGIN, mkOperation opOrigin GasQuickStep None (minStack 0 1) (maxStack 0 1) None);
  (CALLER, mkOperation opCaller GasQuickStep None (minStack 0 1) (maxStack 0 1) None);
  (CALLVALUE, mkOperation opCallValue GasQuickStep None (minStack 0 1) (maxStack 0 1) None);
  (CALLDATALOAD, mkOperation opCallDataLoad GasFastestStep None
     (minStack 1 1) (maxStack 1 1) None);
  (CALLDATASIZE, mkOperation opCallDataSize GasQuickStep None (minStack 0 1) (maxStack 0 1) None);
  (CALLDATACOPY, mkOperation opCallDataCopy GasFastestStep (Some gasCallDataCopy)
     (minStack 3 0) (maxStack 3 0) (Some memoryCallDataCopy));
  (CODESIZE, mkOperation opCodeSize GasQuickStep None (minStack 0 1) (maxStack 0 1) None);
  (CODECOPY, mkOperation opCodeCopy GasFastestStep (Some gasCodeCopy)
     (minStack 3 0) (maxStack 3 0) (Some memoryCodeCopy));
  (GASPRICE, mkOperation opGasprice GasQuickStep None (minStack 0 1) (maxStack 0 1) None);
  (EXTCODESIZE, mkOperation opExtCodeSize ExtcodeSizeGasFrontier None
     (minStack 1 1) (maxStack 1 1) None);
  (EXTCODECOPY, mkOperation opExtCodeCopy ExtcodeCopyBaseFrontier (Some gasExtCodeCopy)
     (minStack 4 0) (maxStack 4 0) (Some memoryExtCodeCopy));
  (BLOCKHASH, mkOperation opBlockhash GasExtStep None (minStack 1 1) (maxStack 1 1) None);
  (COINBASE, mkOperation opCoinbase GasQuickStep None (minStack 0 1) (maxStack 0 1) None);
  (TIMESTAMP, mkOperation opTimestamp GasQuickStep None (minStack 0 1) (maxStack 0 1) None);
  (NUMBER, mkOperation opNumber GasQuickStep None (minStack 0 1) (maxStack 0 1) None);
  (DIFFICULTY, mkOperation opDifficulty GasQuickStep None (minStack 0 1) (maxStack 0 1) None);
  (GASLIMIT, mkOperation opGasLimit GasQuickStep None (minStack 0 1) (maxStack 0 1) None)].

Definition frontier_storage : list (Z * operation) := [
  (POP, mkOperation opPop GasQuickStep None (minStack 1 0) (maxStack 1 0) None);
  (MLOAD, mkOperation opMload GasFastestStep (Some gasMLoad)
     (minStack 1 1) (maxStack 1 1) (Some memoryMLoad));
  (MSTORE, mkOperation opMstore GasFastestStep (Some gasMStore)
     (minStack 2 0) (maxStack 2 0) (Some memoryMStore));
  (MSTORE8, mkOperation opMstore8 GasFastestStep (Some gasMStore8)
     (minStack 2 0) (maxStack 2 0) (Some memoryMStore8));
  (SLOAD, mkOperation opSload SloadGasFrontier None (minStack 1 1) (maxStack 1 1) None);
  (SSTORE, mkOperation opSstore 0 (Some gasSStore) (minStack 2 0) (maxStack 2 0) None);
  (JUMP, mkOperation opJump GasMidStep None (minStack 1 0) (maxStack 1 0) None);
  (JUMPI, mkOperation opJumpi GasSlowStep None (minStack 2 0) (maxStack 2 0) None);
  (PC, mkOperation opPc GasQuickStep None (minStack 0 1) (maxStack 0 1) None);
  (MSIZE, mkOperation opMsize GasQuickStep None (minStack 0 1) (maxStack 0 1) None);
  (GAS, mkOperation opGas GasQuickStep None (minStack 0 1) (maxStack 0 1) None);
  (JUMPDEST, mkOperation opJumpdest JumpdestGas None (minStack 0 0) (maxStack 0 0) None)].

Definition frontier_push_low : list (Z * operation) := [
  (PUSH1, mkOperation opPush1 GasFastestStep None (minStack 0 1) (maxStack 0 1) None);
  (PUSH2, mkOperation (makePush 2 2) GasFastestStep None (minStack 0 1) (maxStack 0 1) None);
  (PUSH3, mkOperation (makePush 3 3) GasFastestStep None (minStack 0 1) (maxStack 0 1) None);
  (PUSH4, mkOperation (makePush 4 4) GasFastestStep None (minStack 0 1) (maxStack 0 1) None);
  (PUSH5, mkOperation (makePush 5 5) GasFastestStep None (minStack 0 1) (maxStack 0 1) None);
  (PUSH6, mkOperation (makePush 6 6) GasFastestStep None (minStack 0 1) (maxStack 0 1) None);
  (PUSH7, mkOperation (makePush 7 7) GasFastestStep None (minStack 0 1) (maxStack 0 1) None);
  (PUSH8, mkOperation (makePush 8 8) GasFastestStep None (minStack 0 1) (maxStack 0 1) None);
  (PUSH9, mkOperation (makePush 9 9) GasFastestStep None (minStack 0 1) (maxStack 0 1) None);
  (PUSH10, mkOperation (makePush 10 10) GasFastestStep None (minStack 0 1) (maxStack 0 1) None);
  (PUSH11, mkOperation (makePush 11 11) GasFastestStep None (minStack 0 1) (maxStack 0 1) None);
  (PUSH12, mkOperation (makePush 12 12) GasFastestStep None (minStack 0 1) (maxStack 0 1) None);
  (PUSH13, mkOperation (makePush 13 13) GasFastestStep None (minStack 0 1) (maxStack 0 1) None);
  (PUSH14, mkOperation (makePush 14 14) GasFastestStep None (minStack 0 1) (maxStack 0 1) None);
  (PUSH15, mkOperation (makePush 15 15) GasFastestStep None (minStack 0 1) (maxStack 0 1) None);
  (PUSH16, mkOperation (makePush 16 16) GasFastestStep None (minStack 0 1) (maxStack 0 1) None)].

Definition frontier_push_high : list (Z * operation) := [
  (PUSH17, mkOperation (makePush 17 17) GasFastestStep None (minStack 0 1) (maxStack 0 1) None);
  (PUSH18, mkOperation (makePush 18 18) GasFastestStep None (minStack 0 1) (maxStack 0 1) None);
  (PUSH19, mkOperation (makePush 19 19) GasFastestStep None (minStack 0 1) (maxStack 0 1) None);
  (PUSH20, mkOperation (makePush 20 20) GasFastestStep None (minStack 0 1) (maxStack 0 1) None);
  (PUSH21, mkOperation (makePush 21 21) GasFastestStep None (minStack 0 1) (maxStack 0 1) None);
  (PUSH22, mkOperation (makePush 22 22) GasFastestStep None (minStack 0 1) (maxStack 0 1) None);
  (PUSH23, mkOperation (makePush 23 23) GasFastestStep None (minStack 0 1) (maxStack 0 1) None);
  (PUSH24, mkOperation (makePush 24 24) GasFastestStep None (minStack 0 1) (maxStack 0 1) None);
  (PUSH25, mkOperation (makePush 25 25) GasFastestStep None (minStack 0 1) (maxStack 0 1) None);
  (PUSH26, mkOperation (makePush 26 26) GasFastestStep None (minStack 0 1) (maxStack 0 1) None);
  (PUSH27, mkOperation (makePush 27 27) GasFastestStep None (minStack 0 1) (maxStack 0 1) None);
  (PUSH28, mkOperation (makePush 28 28) GasFastestStep None (minStack 0 1) (maxStack 0 1) None);
  (PUSH29, mkOperation (makePush 29 29) GasFastestStep None (minStack 0 1) (maxStack 0 1) None);
  (PUSH30, mkOperation (makePush 30 30) GasFastestStep None (minStack 0 1) (maxStack 0 1) None);
  (PUSH31, mkOperation (makePush 31 31) GasFastestStep None (minStack 0 1) (maxStack 0 1) None);
  (PUSH32, mkOperation (makePush 32 32) GasFastestStep None (minStack 0 1) (maxStack 0 1) None)].

Definition frontier_dup : list (Z * operation) := [
  (DUP1, mkOperation (makeDup 1) GasFastestStep None (minDupStack 1) (maxDupStack 1) None);
  (DUP2, mkOperation (makeDup 2) GasFastestStep None (minDupStack 2) (maxDupStack 2) None);
  (DUP3, mkOperation (makeDup 3) GasFastestStep None (minDupStack 3) (maxDupStack 3) None);
  (DUP4, mkOperation (makeDup 4) GasFastestStep None (minDupStack 4) (maxDupStack 4) None);
  (DUP5, mkOperation (makeDup 5) GasFastestStep None (minDupStack 5) (maxDupStack 5) None);
  (DUP6, mkOperation (makeDup 6) GasFastestStep None (minDupStack 6) (maxDupStack 6) None);
  (DUP7, mkOperation (makeDup 7) GasFastestStep None (minDupStack 7) (maxDupStack 7) None);
  (DUP8, mkOperation (makeDup 8) GasFastestStep None (minDupStack 8) (maxDupStack 8) None);
  (DUP9, mkOperation (makeDup 9) GasFastestStep None (minDupStack 9) (maxDupStack 9) None);
  (DUP10, mkOperation (makeDup 10) GasFastestStep None (minDupStack 10) (maxDupStack 10) None);
  (DUP11, mkOperation (makeDup 11) GasFastestStep None (minDupStack 11) (maxDupStack 11) None);
  (DUP12, mkOperation (makeDup 12) GasFastestStep None (minDupStack 12) (maxDupStack 12) None);
  (DUP13, mkOperation (makeDup 13) GasFastestStep None (minDupStack 13) (maxDupStack 13) None);
  (DUP14, mkOperation (makeDup 14) GasFastestStep None (minDupStack 14) (maxDupStack 14) None);
  (DUP15, mkOperation (makeDup 15) GasFastestStep None (minDupStack 15) (maxDupStack 15) None);
  (DUP16, mkOperation (makeDup 16) GasFastestStep None (minDupStack 16) (maxDupStack 16) None)].

Definition frontier_swap : list (Z * operation) := [
  (SWAP1, mkOperation (makeSwap 1) GasFastestStep None (minSwapStack 2) (maxSwapStack 2) None);
  (SWAP2, mkOperation (makeSwap 2) GasFastestStep None (minSwapStack 3) (maxSwapStack 3) None);
  (SWAP3, mkOperation (makeSwap 3) GasFastestStep None (minSwapStack 4) (maxSwapStack 4) None);
  (SWAP4, mkOperation (makeSwap 4) GasFastestStep None (minSwapStack 5) (maxSwapStack 5) None);
  (SWAP5, mkOperation (makeSwap 5) GasFastestStep None (minSwapStack 6) (maxSwapStack 6) None);
  (SWAP6, mkOperation (makeSwap 6) GasFastestStep None (minSwapStack 7) (maxSwapStack 7) None);
  (SWAP7, mkOperation (makeSwap 7) GasFastestStep None (minSwapStack 8) (maxSwapStack 8) None);
  (SWAP8, mkOperation (makeSwap 8) GasFastestStep None (minSwapStack 9) (maxSwapStack 9) None);
  (SWAP9, mkOperation (makeSwap 9) GasFastestStep None (minSwapStack 10) (maxSwapStack 10) None);
  (SWAP10, mkOperation (makeSwap 10) GasFastestStep None (minSwapStack 11) (maxSwapStack 11) None);
  (SWAP11, mkOperation (makeSwap 11) GasFastestStep None (minSwapStack 12) (maxSwapStack 12) None);
  (SWAP12, mkOperation (makeSwap 12) GasFastestStep None (minSwapStack 13) (maxSwapStack 13) None);
  (SWAP13, mkOperation (makeSwap 13) GasFastestStep None (minSwapStack 14) (maxSwapStack 14) None);
  (SWAP14, mkOperation (makeSwap 14) GasFastestStep None (minSwapStack 15) (maxSwapStack 15) None);
  (SWAP15, mkOperation (makeSwap 15) GasFastestStep None (minSwapStack 16) (maxSwapStack 16) None);
  (SWAP16, mkOperation (makeSwap 16) GasFastestStep None
     (minSwapStack 17) (maxSwapStack 17) None)].

Definition frontier_system : list (Z * operation) := [
  (LOG0, mkOperation (makeLog 0) 0 (Some (makeGasLog 0))
     (minStack 2 0) (maxStack 2 0) (Some memoryLog));
  (LOG1, mkOperation (makeLog 1) 0 (Some (makeGasLog 1))
     (minStack 3 0) (maxStack 3 0) (Some memoryLog));
  (LOG2, mkOperation (makeLog 2) 0 (Some (makeGasLog 2))
     (minStack 4 0) (maxStack 4 0) (Some memoryLog));
  (LOG3, mkOperation (makeLog 3) 0 (Some (makeGasLog 3))
     (minStack 5 0) (maxStack 5 0) (Some memoryLog));
  (LOG4, mkOperation (makeLog 4) 0 (Some (makeGasLog 4))
     (minStack 6 0) (maxStack 6 0) (Some memoryLog));
  (CREATE, mkOperation opCreate CreateGas (Some gasCreate)
     (minStack 3 1) (maxStack 3 1) (Some memoryCreate));
  (CALL, mkOperation opCall CallGasFrontier (Some gasCall)
     (minStack 7 1) (maxStack 7 1) (Some memoryCall));
  (CALLCODE, mkOperation opCallCode CallGasFrontier (Some gasCallCode)
     (minStack 7 1) (maxStack 7 1) (Some memoryCall));
  (RETURN, mkOperation opReturn 0 (Some gasReturn)
     (minStack 2 0) (maxStack 2 0) (Some memoryReturn));
  (SELFDESTRUCT, mkOperation opSelfdestruct 0 (Some gasSelfdestruct)
     (minStack 1 0) (maxStack 1 0) None)].

Definition frontier_entries : list (Z * operation) :=
  frontier_arithmetic ++ frontier_environment ++ frontier_storage ++ frontier_push_low
  ++ frontier_push_high ++ frontier_dup ++ frontier_swap ++ frontier_system.

(** An opcode without an entry *)
Definition undefined_operation : operation :=
  mkOperation opUndefined 0 None 0 (maxStack 0 0) None.

Definition newFrontierInstructionSet : JumpTable := λ op,
  default undefined_operation (snd <$> find (λ p, p.1 =? op) frontier_entries).

(** ** eips.go *)

Definition enable1884 (jt : JumpTable) : JumpTable :=
  let jt := jt_constantGas SLOAD SloadGasEIP1884 jt in
  let jt := jt_constantGas BALANCE BalanceGasEIP1884 jt in
  let jt := jt_constantGas EXTCODEHASH ExtcodeHashGasEIP1884 jt in
  jt_set SELFBALANCE
    (mkOperation opSelfBalance GasFastStep None (minStack 0 1) (maxStack 0 1) None) jt.

Definition enable1344 (jt : JumpTable) : JumpTable :=
  jt_set CHAINID (mkOperation opChainID GasQuickStep None (minStack 0 1) (maxStack 0 1) None) jt.

Definition enable2200 (jt : JumpTable) : JumpTable :=
  let jt := jt_constantGas SLOAD SloadGasEIP2200 jt in
  jt_dynamicGas SSTORE gasSStoreEIP2200 jt.

Definition enable2929 (jt : JumpTable) : JumpTable :=
  let warm := WarmStorageReadCostEIP2929 in
  let jt := jt_dynamicGas SSTORE gasSStoreEIP2929 jt in
  let jt := jt_dynamicGas SLOAD gasSLoadEIP2929 (jt_constantGas SLOAD 0 jt) in
  let jt := jt_dynamicGas EXTCODECOPY gasExtCodeCopyEIP2929 (jt_constantGas EXTCODECOPY warm jt) in
  let jt := jt_dynamicGas EXTCODESIZE gasEip2929AccountCheck (jt_constantGas EXTCODESIZE warm jt) in
  let jt := jt_dynamicGas EXTCODEHASH gasEip2929AccountCheck (jt_constantGas EXTCODEHASH warm jt) in
  let jt := jt_dynamicGas BALANCE gasEip2929AccountCheck (jt_constantGas BALANCE warm jt) in
  let jt := jt_dynamicGas CALL gasCallEIP2929 (jt_constantGas CALL warm jt) in
  let jt := jt_dynamicGas CALLCODE gasCallCodeEIP2929 (jt_constantGas CALLCODE warm jt) in
  let jt := jt_dynamicGas STATICCALL gasStaticCallEIP2929 (jt_constantGas STATICCALL warm jt) in
  let jt := jt_dynamicGas DELEGATECALL gasDelegateCallEIP2929
              (jt_constantGas DELEGATECALL warm jt) in
  jt_dynamicGas SELFDESTRUCT gasSelfdestructEIP2929
    (jt_constantGas SELFDESTRUCT SelfdestructGasEIP150 jt).

Definition enable3529 (jt : JumpTable) : JumpTable :=
  let jt := jt_dynamicGas SSTORE gasSStoreEIP3529 jt in
  jt_dynamicGas SELFDESTRUCT gasSelfdestructEIP3529 jt.

Definition enable3198 (jt : JumpTable) : JumpTable :=
  jt_set BASEFEE (mkOperation opBaseFee GasQuickStep None (minStack 0 1) (maxStack 0 1) None) jt.

Definition enable1153 (jt : JumpTable) : JumpTable :=
  let warm := WarmStorageReadCostEIP2929 in
  let jt := jt_set TLOAD (mkOperation opTload warm None (minStack 1 1) (maxStack 1 1) None) jt in
  jt_set TSTORE (mkOperation opTstore warm None (minStack 2 0) (maxStack 2 0) None) jt.

Definition enable3855 (jt : JumpTable) : JumpTable :=
  jt_set PUSH0 (mkOperation opPush0 GasQuickStep None (minStack 0 1) (maxStack 0 1) None) jt.

Definition enable3860 (jt : JumpTable) : JumpTable :=
  let jt := jt_dynamicGas CREATE gasCreateEip3860 jt in
  jt_dynamicGas CREATE2 gasCreate2Eip3860 jt.

Definition activators : list (Z * (JumpTable → JumpTable)) :=
  [(3855, enable3855); (3860, enable3860); (3529, enable3529); (3198, enable3198);
   (2929, enable2929); (2200, enable2200); (1884, enable1884); (1344, enable1344);
   (1153, enable1153)].

Definition ValidEip (eipNum : Z) : bool := existsb (λ p, p.1 =? eipNum) activators.

(** [None]: the EIP is undefined. *)
Definition EnableEIP (eipNum : Z) (jt : JumpTable) : option JumpTable :=
  p ← find (λ p, p.1 =? eipNum) activators; Some (p.2 jt).

(** ** The later instruction sets *)

(** [validate] panics on an entry with a memory size and no dynamic gas; an entry
    of a table of this type is always set. *)
Definition validate (jt : JumpTable) : GoRes EvmErr JumpTable :=
  if forallb (λ i, match memorySize (jt i), dynamicGas (jt i) with
                   | Some _, None => false
                   | _, _ => true
                   end) (seqZ 0 256)
  then Ret jt else Panic.

Definition newHomesteadInstructionSet : JumpTable :=
  jt_set DELEGATECALL
    (mkOperation opDelegateCall CallGasFrontier (Some gasDelegateCall)
       (minStack 6 1) (maxStack 6 1) (Some memoryDelegateCall))
    newFrontierInstructionSet.

Definition newTangerineWhistleInstructionSet : JumpTable :=
  let jt := newHomesteadInstructionSet in
  let jt := jt_constantGas BALANCE BalanceGasEIP150 jt in
  let jt := jt_constantGas EXTCODESIZE ExtcodeSizeGasEIP150 jt in
  let jt := jt_constantGas SLOAD SloadGasEIP150 jt in
  let jt := jt_constantGas EXTCODECOPY ExtcodeCopyBaseEIP150 jt in
  let jt := jt_constantGas CALL CallGasEIP150 jt in
  let jt := jt_constantGas CALLCODE CallGasEIP150 jt in
  jt_constantGas DELEGATECALL CallGasEIP150 jt.

Definition newSpuriousDragonInstructionSet : JumpTable :=
  jt_dynamicGas EXP gasExpEIP158 newTangerineWhistleInstructionSet.

Definition newByzantiumInstructionSet : JumpTable :=
  let jt := newSpuriousDragonInstructionSet in
  let jt := jt_set STATICCALL
              (mkOperation opStaticCall CallGasEIP150 (Some gasStaticCall)
                 (minStack 6 1) (maxStack 6 1) (Some memoryStaticCall)) jt in
  let jt := jt_set RETURNDATASIZE
              (mkOperation opReturnDataSize GasQuickStep None (minStack 0 1) (maxStack 0 1)
                 None) jt in
  let jt := jt_set RETURNDATACOPY
              (mkOperation opReturnDataCopy GasFastestStep (Some gasReturnDataCopy)
                 (minStack 3 0) (maxStack 3 0) (Some memoryReturnDataCopy)) jt in
  jt_set REVERT
    (mkOperation opRevert 0 (Some gasRevert) (minStack 2 0) (maxStack 2 0)
       (Some memoryRevert)) jt.

Definition newConstantinopleInstructionSet : JumpTable :=
  let jt := newByzantiumInstructionSet in
  let jt := jt_set SHL
              (mkOperation opSHL GasFastestStep None (minStack 2 1) (maxStack 2 1) None) jt in
  let jt := jt_set SHR
              (mkOperation opSHR GasFastestStep None (minStack 2 1) (maxStack 2 1) None) jt in
  let jt := jt_set SAR
              (mkOperation opSAR GasFastestStep None (minStack 2 1) (maxStack 2 1) None) jt in
  let jt := jt_set EXTCODEHASH
              (mkOperation opExtCodeHash ExtcodeHashGasConstantinople None
                 (minStack 1 1) (maxStack 1 1) None) jt in
  jt_set CREATE2
    (mkOperation opCreate2 Create2Gas (Some gasCreate2) (minStack 4 1) (maxStack 4 1)
       (Some memoryCreate2)) jt.

Definition newIstanbulInstructionSet : JumpTable :=
  enable2200 (enable1884 (enable1344 newConstantinopleInstructionSet)).

Definition newBerlinInstructionSet : JumpTable := enable2929 newIstanbulInstructionSet.

Definition newLondonInstructionSet : JumpTable :=
  enable3198 (enable3529 newBerlinInstructionSet).

Definition newMergeInstructionSet : JumpTable :=
  jt_set PREVRANDAO
    (mkOperation opRandom GasQuickStep None (minStack 0 1) (maxStack 0 1) None)
    newLondonInstructionSet.

Definition newShanghaiInstructionSet : JumpTable :=
  enable3860 (enable3855 newMergeInstructionSet).

(** ** interpreter.go: the table of an interpreter *)

Definition rules_table (rules : Rules) : JumpTable :=
  if IsShanghai rules then newShanghaiInstructionSet
  else if IsMerge rules then newMergeInstructionSet
  else if IsLondon rules then newLondonInstructionSet
  else if IsBerlin rules then newBerlinInstructionSet
  else if IsIstanbul rules then newIstanbulInstructionSet
  else if IsConstantinople rules then newConstantinopleInstructionSet
  else if IsByzantium rules then newByzantiumInstructionSet
  else if IsEIP158 rules then newSpuriousDragonInstructionSet
  else if IsEIP150 rules then newTangerineWhistleInstructionSet
  else if IsHomestead rules then newHomesteadInstructionSet
  else newFrontierInstructionSet.

(** The loop over [Config.ExtraEips]: the table and the EIPs that are active *)
Fixpoint enable_eips (eips : list Z) (jt : JumpTable) : JumpTable * list Z :=
  match eips with
  | [] => (jt, [])
  | eip :: eips =>
      match EnableEIP eip jt with
      | None => enable_eips eips jt
      | Some jt => let '(jt, active) := enable_eips eips jt in (jt, eip :: active)
      end
  end.

Definition NewEVMInterpreter (extraEips : list Z) : JumpTable * list Z :=
  enable_eips extraEips (rules_table chainRules).

End tables.
