(* ===== verification/EvmRun.v ===== *)
(** * The virtual machine: the interpreter

    [EVMInterpreter.Run] of [state/runtime/fakevm/interpreter.go].  [run_loop] runs
    the loop of a frame for at most [fuel] rounds, and the frames it calls with
    one round less; the captures of the tracer are not modelled. *)

From S2P Require Import Prelude OpCodes EvmBase EvmData EvmGas EvmPrecompiles EvmCalls.
From S2P Require Import EvmInstr EvmTable.

Section run.
Context `{Uint256, Params, Geth, PrecompileCrypto, FakeDB, !Env}.
Variable table : JumpTable.

(** The memory size an operation needs, in whole words *)
Definition required_memory (o : operation) : Exec (EvmErr + Z) :=
  match memorySize o with
  | None => ok 0
  | Some f =>
      stack ← get Stack;
      '(memSize, overflow) ← lift (f stack);
      if overflow : bool then fail ErrGasUintOverflow
      else mul_or_overflow (toWordSize memSize) 32
  end.

(** The dynamic part of the price, and the memory *)
Definition charge_dynamic (o : operation) (dynamic : gasFunc) : Exec (EvmErr + unit) :=
  size ←? required_memory o;
  cost ← dynamic size;
  match cost with
  | inl _ => fail ErrOutOfGas
  | inr dynamicCost =>
      paid ← use_gas dynamicCost;
      if negb paid then fail ErrOutOfGas
      else
        (if 0 <? size then modify (λ s, set_mem (Resize (Mem s) size) s) else mret tt);;
        ok tt
  end.

(** One round of the loop; an error ends the loop. *)
Definition step (run : RunFn) : Exec (bytes * option EvmErr) :=
  o ← get (λ s, table (GetOp (Con s) (pc s)));
  sLen ← get (λ s, zlen (Stack s));
  if sLen <? op_minStack o then throw (ErrStackUnderflow sLen (op_minStack o))
  else if op_maxStack o <? sLen then throw (ErrStackOverflow sLen (op_maxStack o))
  else
    paid ← use_gas (constantGas o);
    if negb paid then throw ErrOutOfGas
    else
      charged ← match dynamicGas o with
                | None => ok tt
                | Some dynamic => charge_dynamic o dynamic
                end;
      match charged with
      | inl e => throw e
      | inr _ => execute o run
      end.

Definition Run_with (loop : Exec (bytes * option EvmErr)) : RunFn := λ c input ro e,
  let e := with_depth (λ d, d + 1) e in
  let set_readOnly := ro && negb (readOnly e) in
  let e := if set_readOnly then with_readOnly true e else e in
  let e := with_returnData [] e in
  let exit e := with_depth (λ d, d - 1) (if set_readOnly then with_readOnly false e else e) in
  if zlen (Code c) =? 0 then mret (exit e, c, ([], None))
  else
    '(s, (res, err)) ← loop (mkSt 0 [] NewMemory (with_input input c) e);
    mret (exit (evm s), Con s,
          (res, if bool_decide (err = Some errStopToken) then None else err)).

Fixpoint run_loop (fuel : nat) : Exec (bytes * option EvmErr) :=
  match fuel with
  | O => λ _, OutOfFuel
  | S fuel =>
      '(res, err) ← step (Run_with (run_loop fuel));
      match err with
      | Some e => leave res (Some e)
      | None => modify (λ s, set_pc (pc s +₆₄ 1) s);; run_loop fuel
      end
  end.

Definition Run (fuel : nat) : RunFn := Run_with (run_loop fuel).

End run.
