(* ===== verification/EvmAnalysis.v ===== *)
(** * The virtual machine: JUMPDEST analysis

    [codeBitmap] of [analysis.go] marks the bytes that are data of a PUSH with
    operations on whole bytes of the bitmap.  It is shown equal to a reference
    that walks the code, for code of any length a Go slice can have here, and
    [validJumpdest] is shown to accept exactly the JUMPDEST bytes the walk reaches. *)

From S2P Require Import Prelude OpCodes EvmBase EvmData EvmGas EvmPrecompiles EvmCalls.
From S2P Require Import EvmInstr.

(** ** Reference *)

Definition push_size (op : Z) : nat := if IsPush op then Z.to_nat (op - PUSH1 + 1) else 0.

(** For each byte whether it is an instruction, [skip] bytes of data being left *)
Fixpoint code_positions (skip : nat) (code : bytes) : list bool :=
  match code, skip with
  | [], _ => []
  | _ :: code, S skip => false :: code_positions skip code
  | op :: code, O => true :: code_positions (push_size (OpCode op)) code
  end.

Definition is_code (code : bytes) (pos : Z) : bool :=
  nth (Z.to_nat pos) (code_positions 0 code) false.

Lemma index_lookup {E} (s : bytes) i x :
  0 ≤ i → s !! Z.to_nat i = Some x → index (E := E) s i = Ret x.
Proof. intros Hi Hx. unfold index. by rewrite (proj2 (Z.leb_le 0 i) Hi), Hx. Qed.

(** ** Bits of a bitmap *)

Definition bit (bits : bytes) (i : Z) : bool :=
  Z.testbit (nth (Z.to_nat (i / 8)) bits 0) (i mod 8).

(** [bits'] has the bits of [bits] and those from [a] to [b] *)
Definition marks (bits bits' : bytes) (a b : Z) : Prop :=
  zlen bits' = zlen bits ∧
  ∀ i, 0 ≤ i → bit bits' i = bit bits i || ((a <=? i) && (i <? b)).

Definition zeros_from (bits : bytes) (a : Z) : Prop := ∀ i, a ≤ i → bit bits i = false.

Lemma marks_refl bits a : marks bits bits a a.
Proof.
  split; [done|]. intros i Hi.
  destruct (Z.leb_spec a i), (Z.ltb_spec i a); cbn; try lia; by rewrite orb_false_r.
Qed.

Lemma marks_trans b0 b1 b2 a b c :
  a ≤ b ≤ c → marks b0 b1 a b → marks b1 b2 b c → marks b0 b2 a c.
Proof.
  intros Hab [Hl1 H1] [Hl2 H2]. split; [lia|]. intros i Hi.
  rewrite H2, H1 by done. rewrite <- orb_assoc. f_equal.
  destruct (Z.leb_spec a i), (Z.ltb_spec i b), (Z.leb_spec b i), (Z.ltb_spec i c); cbn;
    try done; lia.
Qed.

Lemma marks_zeros bits bits' a b :
  0 ≤ b → marks bits bits' a b → zeros_from bits a → a ≤ b → zeros_from bits' b.
Proof.
  intros Hb [_ Hm] Hz Hab i Hi. rewrite Hm by lia. rewrite Hz by lia.
  destruct (Z.ltb_spec i b); [lia|]. by rewrite andb_false_r.
Qed.

Lemma bit_insert bits k v i :
  0 ≤ i → (k < length bits)%nat →
  bit (<[k := v]> bits) i = if i / 8 =? Z.of_nat k then Z.testbit v (i mod 8) else bit bits i.
Proof.
  intros Hi Hk. unfold bit.
  assert (Hi8 : 0 ≤ i / 8) by (apply Z.div_pos; lia).
  rewrite !nth_lookup. destruct (Z.eqb_spec (i / 8) (Z.of_nat k)) as [E|E].
  - rewrite E, Nat2Z.id. by rewrite list_lookup_insert_eq.
  - by rewrite list_lookup_insert_ne by lia.
Qed.

Lemma set_at_ok bits i f :
  0 ≤ i < zlen bits →
  set_at bits i f = Ret (<[Z.to_nat i := f (nth (Z.to_nat i) bits 0)]> bits).
Proof.
  unfold zlen, set_at. intros Hi.
  destruct (lookup_lt_is_Some_2 bits (Z.to_nat i)) as [b Hb]; [lia|].
  unfold index. rewrite (proj2 (Z.leb_le 0 i)), Hb by lia. cbn. by rewrite nth_lookup, Hb.
Qed.

(** A property of all positions in a byte follows from the 8 cases. *)
Lemma byte_cases (P : Z → bool) r :
  forallb P (seqZ 0 8) = true → 0 ≤ r < 8 → P r = true.
Proof.
  intros HP Hr. rewrite forallb_forall in HP. apply HP, list_elem_of_In, elem_of_seqZ. lia.
Qed.

Lemma pos_split i : 0 ≤ i → i = 8 * (i / 8) + i mod 8 ∧ 0 ≤ i mod 8 < 8 ∧ 0 ≤ i / 8.
Proof.
  intros Hi. pose proof (Z.div_mod i 8 ltac:(lia)). pose proof (Z.mod_pos_bound i 8 ltac:(lia)).
  pose proof (Z.div_pos i 8 Hi ltac:(lia)). lia.
Qed.

(** Or-ing a mask into the byte of [pos] marks up to [n] bits, within the byte. *)
Lemma mark_low bits pos lo n :
  0 ≤ pos → pos / 8 < zlen bits → 0 ≤ n → pos mod 8 + n ≤ 8 →
  (∀ j, 0 ≤ j < 8 → Z.testbit lo j = (pos mod 8 <=? j) && (j <? pos mod 8 + n)) →
  marks bits (<[Z.to_nat (pos / 8) := Z.lor (nth (Z.to_nat (pos / 8)) bits 0) lo]> bits)
    pos (pos + n).
Proof.
  intros Hpos Hlen Hn Hr Hlo. destruct (pos_split pos Hpos) as (Hp & Hp8 & Hpk).
  unfold zlen in *. split; [unfold zlen; by rewrite length_insert|]. intros i Hi.
  destruct (pos_split i Hi) as (Hie & Hi8 & Hik).
  rewrite bit_insert by lia. destruct (Z.eqb_spec (i / 8) (Z.of_nat (Z.to_nat (pos / 8)))) as [E|E].
  - rewrite Z.lor_spec, Hlo by lia. unfold bit. replace (i / 8) with (pos / 8) by lia. f_equal.
    destruct (Z.leb_spec (pos mod 8) (i mod 8)), (Z.ltb_spec (i mod 8) (pos mod 8 + n)),
      (Z.leb_spec pos i), (Z.ltb_spec i (pos + n)); cbn; try done; lia.
  - destruct (Z.leb_spec pos i), (Z.ltb_spec i (pos + n)); cbn; try by rewrite orb_false_r. lia.
Qed.

(** Writing a zero byte marks its first [n] bits. *)
Lemma mark_byte bits k v n :
  0 ≤ k < zlen bits → zeros_from bits (8 * k) → 0 ≤ n ≤ 8 →
  (∀ j, 0 ≤ j < 8 → Z.testbit v j = (j <? n)) →
  marks bits (<[Z.to_nat k := v]> bits) (8 * k) (8 * k + n).
Proof.
  intros Hk Hz Hn Hv. unfold zlen in *. split; [unfold zlen; by rewrite length_insert|].
  intros i Hi. destruct (pos_split i Hi) as (Hie & Hi8 & Hik).
  rewrite bit_insert by lia. destruct (Z.eqb_spec (i / 8) (Z.of_nat (Z.to_nat k))) as [E|E].
  - rewrite Hv, Hz by lia. cbn.
    destruct (Z.ltb_spec (i mod 8) n), (Z.leb_spec (8 * k) i), (Z.ltb_spec i (8 * k + n)); cbn;
      try done; lia.
  - destruct (Z.leb_spec (8 * k) i), (Z.ltb_spec i (8 * k + n)); cbn; try by rewrite orb_false_r.
    lia.
Qed.

(** ** The masks *)

Lemma low_mask r n j :
  0 ≤ r < 8 → 0 ≤ n ≤ 8 → 0 ≤ j < 8 →
  Z.testbit (wrap8 (Z.shiftl (2 ^ n - 1) r)) j = (r <=? j) && (j <? r + n).
Proof.
  intros Hr Hn Hj. unfold wrap8. rewrite Z.mod_pow2_bits_low by lia.
  rewrite Z.shiftl_spec by lia.
  replace (2 ^ n - 1) with (Z.ones n) by (rewrite Z.ones_equiv; lia).
  destruct (Z.leb_spec r j).
  - rewrite Z.testbit_ones_nonneg by lia. cbn. destruct (Z.ltb_spec (j - r) n), (Z.ltb_spec j (r + n));
      try done; lia.
  - cbn. apply Z.testbit_neg_r. lia.
Qed.

Lemma high_mask r n j :
  0 ≤ r < 8 → 0 ≤ n ≤ 8 → 0 ≤ j < 8 →
  Z.testbit (wrap8 (Z.shiftr (Z.shiftl (2 ^ n - 1) r mod 2 ^ 16) 8)) j = (j <? r + n - 8).
Proof.
  intros Hr Hn Hj. unfold wrap8. rewrite Z.mod_pow2_bits_low by lia.
  rewrite Z.shiftr_spec, Z.mod_pow2_bits_low, Z.shiftl_spec by lia.
  replace (2 ^ n - 1) with (Z.ones n) by (rewrite Z.ones_equiv; lia).
  rewrite Z.testbit_ones_nonneg by lia.
  destruct (Z.ltb_spec (j + 8 - r) n), (Z.ltb_spec j (r + n - 8)); try done; lia.
Qed.

(** ** The setters *)

(** A setter marks [n] bits from a position where all bits are zero, and may write
    [k] bytes after the one of the position. *)
Definition setter (k n : Z) (f : bytes → Z → GoRes EvmErr bytes) : Prop :=
  ∀ bits pos, 0 ≤ pos → pos / 8 + k < zlen bits → zeros_from bits pos →
  ∃ bits', f bits pos = Ret bits' ∧ marks bits bits' pos (pos + n).

Lemma set1_ok : setter 1 1 set1.
Proof.
  intros bits pos Hpos Hlen Hz. destruct (pos_split pos Hpos) as (Hp & Hp8 & Hpk).
  unfold set1. rewrite set_at_ok by lia. eexists; split; [done|]. apply mark_low; try lia.
  intros j Hj. by apply (low_mask (pos mod 8) 1).
Qed.

Lemma next_byte_zeros bits bits' pos :
  0 ≤ pos → zeros_from bits pos → marks bits bits' pos (8 * (pos / 8 + 1)) →
  zeros_from bits' (8 * (pos / 8 + 1)).
Proof.
  intros Hpos Hz Hm. destruct (pos_split pos Hpos) as (Hp & Hp8 & Hpk).
  eapply marks_zeros; [| done | done |]; lia.
Qed.

Lemma setN_ok n : 2 ≤ n ≤ 7 → setter 1 n (λ bits pos, setN bits (2 ^ n - 1) pos).
Proof.
  intros Hn bits pos Hpos Hlen Hz. destruct (pos_split pos Hpos) as (Hp & Hp8 & Hpk).
  unfold setN. rewrite set_at_ok by lia. cbn [mbind GoRes_bind].
  set (hi := wrap8 (Z.shiftr _ 8)).
  assert (Hhi : ∀ j, 0 ≤ j < 8 → Z.testbit hi j = (j <? pos mod 8 + n - 8))
    by (intros j Hj; apply high_mask; lia).
  assert (Hlo : ∀ m j, m = Z.min n (8 - pos mod 8) → 0 ≤ j < 8 →
            Z.testbit (wrap8 (Z.shiftl (2 ^ n - 1) (pos mod 8) mod 2 ^ 16)) j =
            (pos mod 8 <=? j) && (j <? pos mod 8 + m)).
  { intros m j -> Hj. unfold wrap8. rewrite !Z.mod_pow2_bits_low by lia.
    pose proof (low_mask (pos mod 8) n j Hp8 ltac:(lia) Hj) as E. unfold wrap8 in E.
    rewrite Z.mod_pow2_bits_low in E by lia. rewrite E. f_equal.
    destruct (Z.ltb_spec j (pos mod 8 + n)), (Z.ltb_spec j (pos mod 8 + Z.min n (8 - pos mod 8)));
      try done; lia. }
  destruct (Z.leb_spec (pos mod 8 + n) 8) as [Hfit|Hfit].
  - assert (hi = 0) as ->.
    { apply Z.bits_inj_0. intros j. destruct (Z.ltb_spec j 0); [by apply Z.testbit_neg_r|].
      destruct (Z.ltb_spec j 8).
      - rewrite Hhi by lia. destruct (Z.ltb_spec j (pos mod 8 + n - 8)); [lia|done].
      - apply Z.mod_pow2_bits_high. lia. }
    cbn. eexists; split; [done|]. apply mark_low; try lia. intros j Hj. apply Hlo; lia.
  - destruct (Z.eqb_spec hi 0) as [E|_].
    { specialize (Hhi 0 ltac:(lia)). rewrite E in Hhi. cbn in Hhi.
      destruct (Z.ltb_spec 0 (pos mod 8 + n - 8)); [done|lia]. }
    cbn [negb].
    assert (Hm : marks bits
      (<[Z.to_nat (pos / 8) := Z.lor (nth (Z.to_nat (pos / 8)) bits 0)
           (wrap8 (Z.shiftl (2 ^ n - 1) (pos mod 8) mod 2 ^ 16))]> bits)
      pos (pos + (8 - pos mod 8))) by (apply mark_low; try lia; intros j Hj; apply Hlo; lia).
    replace (pos + (8 - pos mod 8)) with (8 * (pos / 8 + 1)) in Hm by lia.
    rewrite set_at_ok by (destruct Hm; lia). eexists; split; [done|].
    eapply marks_trans; [|exact Hm|].
    2: { replace (pos + n) with (8 * (pos / 8 + 1) + (pos mod 8 + n - 8)) by lia.
         apply mark_byte; [destruct Hm; lia | by eapply next_byte_zeros | lia | done]. }
    lia.
Qed.

(** Filling the byte of [pos] from [pos] on, as [set8] and [set16] start *)
Lemma fill_byte bits pos :
  0 ≤ pos → pos / 8 < zlen bits → zeros_from bits pos →
  ∃ bits', set_at bits (pos / 8) (λ b, Z.lor b (wrap8 (Z.shiftl 255 (pos mod 8)))) = Ret bits' ∧
    marks bits bits' pos (8 * (pos / 8 + 1)) ∧ zeros_from bits' (8 * (pos / 8 + 1)) ∧
    zlen bits' = zlen bits.
Proof.
  intros Hpos Hlen Hz. destruct (pos_split pos Hpos) as (Hp & Hp8 & Hpk).
  rewrite set_at_ok by lia. eexists; split; [done|].
  assert (Hm : marks bits (<[Z.to_nat (pos / 8) := Z.lor (nth (Z.to_nat (pos / 8)) bits 0)
                               (wrap8 (Z.shiftl 255 (pos mod 8)))]> bits)
                 pos (pos + (8 - pos mod 8))).
  { apply mark_low; try lia. intros j Hj. rewrite (low_mask (pos mod 8) 8) by lia.
    destruct (Z.ltb_spec j (pos mod 8 + 8)), (Z.ltb_spec j (pos mod 8 + (8 - pos mod 8)));
      try done; lia. }
  replace (pos + (8 - pos mod 8)) with (8 * (pos / 8 + 1)) in Hm by lia.
  split; [done|]. split; [by eapply next_byte_zeros|]. apply Hm.
Qed.

(** The complement of the mask: the first bits of a byte *)
Lemma rest_mask r j :
  0 ≤ r < 8 → 0 ≤ j < 8 →
  Z.testbit (Z.lxor (wrap8 (Z.shiftl 255 r)) 255) j = (j <? r).
Proof.
  intros Hr Hj. rewrite Z.lxor_spec, (low_mask r 8) by lia.
  change 255 with (Z.ones 8). rewrite Z.testbit_ones_nonneg by lia.
  destruct (Z.leb_spec r j), (Z.ltb_spec j (r + 8)), (Z.ltb_spec j 8), (Z.ltb_spec j r); cbn;
    try done; lia.
Qed.

Lemma set8_ok : setter 1 8 set8.
Proof.
  intros bits pos Hpos Hlen Hz. destruct (pos_split pos Hpos) as (Hp & Hp8 & Hpk).
  destruct (fill_byte bits pos Hpos ltac:(lia) Hz) as (bits' & E & Hm & Hz' & Hl).
  unfold set8. rewrite E. cbn [mbind GoRes_bind].
  rewrite set_at_ok by lia. eexists; split; [done|].
  eapply marks_trans; [|exact Hm|]; [lia|].
  replace (pos + 8) with (8 * (pos / 8 + 1) + pos mod 8) by lia.
  apply mark_byte; try done; try lia. intros j Hj. by apply rest_mask.
Qed.

Lemma set16_ok : setter 2 16 set16.
Proof.
  intros bits pos Hpos Hlen Hz. destruct (pos_split pos Hpos) as (Hp & Hp8 & Hpk).
  destruct (fill_byte bits pos Hpos ltac:(lia) Hz) as (bits' & E & Hm & Hz' & Hl).
  unfold set16. rewrite E. cbn [mbind GoRes_bind].
  rewrite set_at_ok by lia. cbn [mbind GoRes_bind].
  set (bits2 := <[Z.to_nat (pos / 8 + 1) := 255]> bits').
  assert (Hm2 : marks bits' bits2 (8 * (pos / 8 + 1)) (8 * (pos / 8 + 1) + 8)).
  { apply mark_byte; try done; try lia. intros j Hj. change 255 with (Z.ones 8).
    by rewrite Z.testbit_ones_nonneg by lia. }
  assert (Hz2 : zeros_from bits2 (8 * (pos / 8 + 2))).
  { eapply marks_zeros; [| | exact Hz' |]; [|replace (8 * (pos / 8 + 2))
      with (8 * (pos / 8 + 1) + 8) by lia; exact Hm2|]; lia. }
  change (<[Z.to_nat (pos / 8 + 1) := 255]> bits') with bits2.
  rewrite set_at_ok by (destruct Hm2; lia). eexists; split; [done|].
  eapply marks_trans; [|exact Hm|]; [lia|]. eapply marks_trans; [|exact Hm2|]; [lia|].
  replace (pos + 16) with (8 * (pos / 8 + 2) + pos mod 8) by lia.
  replace (8 * (pos / 8 + 1) + 8) with (8 * (pos / 8 + 2)) by lia.
  apply mark_byte; try done; [destruct Hm2; lia | lia |]. intros j Hj. by apply rest_mask.
Qed.

(** ** The data of a PUSH *)

Lemma set_rest_ok bits pos n :
  0 ≤ n ≤ 7 → 0 ≤ pos < 2 ^ 63 → (0 < n → pos / 8 + 1 < zlen bits) → zeros_from bits pos →
  ∃ bits', set_rest bits pos n = Ret (bits', pos + n) ∧ marks bits bits' pos (pos + n).
Proof.
  intros Hn Hpos Hlen Hz.
  assert (Hw : ∀ k, 0 ≤ k ≤ 7 → pos +₆₄ k = pos + k)
    by (intros k Hk; apply wrap64_small; unfold in_u64; lia).
  assert (Hcase : n = 0 ∨ n = 1 ∨ 2 ≤ n) by lia. destruct Hcase as [->|[->|H2]].
  - exists bits. rewrite Z.add_0_r. split; [done|apply marks_refl].
  - destruct (set1_ok bits pos) as (b & E & Hm); try done; [lia..|].
    exists b. cbn [set_rest]. rewrite E. cbn [mbind GoRes_bind]. by rewrite Hw by lia.
  - destruct (setN_ok n ltac:(lia) bits pos) as (b & E & Hm); try done; [lia..|].
    exists b. split; [|done]. rewrite <- Hw by lia. clear Hw.
    assert (Hcases : n = 2 ∨ n = 3 ∨ n = 4 ∨ n = 5 ∨ n = 6 ∨ n = 7) by lia.
    destruct_or! Hcases; subst n; cbn [set_rest];
      [change set2BitsMask with (2 ^ 2 - 1) | change set3BitsMask with (2 ^ 3 - 1)
      | change set4BitsMask with (2 ^ 4 - 1) | change set5BitsMask with (2 ^ 5 - 1)
      | change set6BitsMask with (2 ^ 6 - 1) | change set7BitsMask with (2 ^ 7 - 1)];
      by rewrite E.
Qed.

Ltac zeros_after Hm := eapply marks_zeros; [|exact Hm|eassumption|]; lia.

Lemma div_shift pos k : (pos + 8 * k) / 8 = pos / 8 + k.
Proof. rewrite Z.mul_comm. apply Z.div_add. lia. Qed.

(** The first loop leaves less than 16 bits, the second one less than 8. *)
Lemma loop16_ok bits pos n :
  0 ≤ n ≤ 32 → 0 ≤ pos < 2 ^ 62 → pos / 8 + 4 < zlen bits → zeros_from bits pos →
  ∃ bits' m, loop16 3 bits pos n = Ret (bits', pos + 8 * m, n - 8 * m) ∧
    marks bits bits' pos (pos + 8 * m) ∧ 0 ≤ m ∧ 0 ≤ n - 8 * m < 16.
Proof.
  intros Hn Hpos Hlen Hz. cbn [loop16].
  destruct (Z.leb_spec 16 n) as [H16|H16].
  2: { exists bits, 0. rewrite Z.mul_0_r, Z.add_0_r, Z.sub_0_r.
       split_and!; [done | apply marks_refl | lia..]. }
  destruct (set16_ok bits pos) as (b1 & E1 & Hm1); try done; [lia..|].
  rewrite E1. cbn [mbind GoRes_bind]. rewrite (wrap64_small (pos + 16)) by (unfold in_u64; lia).
  destruct (Z.leb_spec 16 (n - 16)) as [H32|H32].
  2: { exists b1, 2. by split_and!; [ | | lia..]. }
  pose proof (div_shift pos 2) as Hd. replace (8 * 2) with 16 in Hd by done.
  destruct (set16_ok b1 (pos + 16)) as (b2 & E2 & Hm2);
    [lia | destruct Hm1; lia | zeros_after Hm1 |].
  rewrite E2. cbn [mbind GoRes_bind]. rewrite (wrap64_small (pos + 16 + 16)) by (unfold in_u64; lia).
  destruct (Z.leb_spec 16 (n - 16 - 16)); [lia|].
  exists b2, 4. split_and!; [do 2 f_equal; [f_equal|]; lia | | lia..].
  eapply marks_trans; [|exact Hm1|]; [lia|]. by replace (pos + 8 * 4) with (pos + 16 + 16) by lia.
Qed.

Lemma loop8_ok bits pos n :
  0 ≤ n < 16 → 0 ≤ pos < 2 ^ 63 → (8 ≤ n → pos / 8 + 1 < zlen bits) → zeros_from bits pos →
  ∃ bits' m, loop8 3 bits pos n = Ret (bits', pos + 8 * m, n - 8 * m) ∧
    marks bits bits' pos (pos + 8 * m) ∧ 0 ≤ m ∧ 0 ≤ n - 8 * m < 8.
Proof.
  intros Hn Hpos Hlen Hz. cbn [loop8].
  destruct (Z.leb_spec 8 n) as [H8|H8].
  2: { exists bits, 0. rewrite Z.mul_0_r, Z.add_0_r, Z.sub_0_r.
       split_and!; [done | apply marks_refl | lia..]. }
  destruct (set8_ok bits pos) as (b1 & E1 & Hm1); try done; [lia..|].
  rewrite E1. cbn [mbind GoRes_bind]. rewrite (wrap64_small (pos + 8)) by (unfold in_u64; lia).
  destruct (Z.leb_spec 8 (n - 8)); [lia|].
  exists b1, 1. by split_and!; [ | | lia..].
Qed.

(** A round of the loop, on an instruction with [n] bytes of data *)
Lemma bitmap_round_ok code bits pc op :
  code !! Z.to_nat pc = Some op → 0 ≤ pc < 2 ^ 61 → (pc + 1) / 8 + 4 < zlen bits →
  zeros_from bits pc →
  let n := Z.of_nat (push_size (OpCode op)) in
  ∃ bits', bitmap_round code bits pc = Ret (bits', pc + 1 + n) ∧
    marks bits bits' (pc + 1) (pc + 1 + n).
Proof.
  intros Hop Hpc Hlen Hz n. unfold bitmap_round.
  rewrite (index_lookup code pc op) by (done || lia). cbn [fmap GoRes_fmap or_panic mbind GoRes_bind].
  rewrite wrap64_small by (unfold in_u64; lia).
  assert (Hz1 : zeros_from bits (pc + 1)) by (intros i Hi; apply Hz; lia).
  assert (Hr : 0 ≤ OpCode op < 256) by (apply Z.mod_pos_bound; lia).
  subst n. unfold push_size, IsPush, int8. change (96 <? 2 ^ 7) with true. cbv iota.
  change (2 ^ 7) with 128. change (2 ^ 8) with 256.
  destruct (Z.ltb_spec (OpCode op) 128), (Z.leb_spec 96 (OpCode op)), (Z.leb_spec (OpCode op) 127);
    cbn [andb]; try lia;
    match goal with |- context [?a <? 96] => destruct (Z.ltb_spec a 96); try lia end.
  2, 3: exists bits; rewrite Z.add_0_r; split; [done|apply marks_refl].
  rewrite Z2Nat.id by lia. set (n := OpCode op - 96 + 1).
  replace (wrap8 n) with n by (unfold wrap8; rewrite Z.mod_small; subst n; lia).
  assert (1 ≤ n ≤ 32) as Hn by (subst n; lia). clearbody n.
  destruct (Z.leb_spec 8 n) as [H8|H8].
  - destruct (loop16_ok bits (pc + 1) n) as (b1 & m1 & E1 & Hm1 & Hm & Hr1); [lia..|done|].
    assert (Hl1 : zlen b1 = zlen bits) by apply Hm1.
    rewrite E1. cbn [mbind GoRes_bind].
    destruct (loop8_ok b1 (pc + 1 + 8 * m1) (n - 8 * m1)) as (b2 & m2 & E2 & Hm2 & Hm' & Hr2);
      [lia | lia | rewrite div_shift; lia | zeros_after Hm1 |].
    assert (Hl2 : zlen b2 = zlen b1) by apply Hm2.
    rewrite E2. cbn [mbind GoRes_bind].
    destruct (set_rest_ok b2 (pc + 1 + 8 * m1 + 8 * m2) (n - 8 * m1 - 8 * m2)) as (b3 & E3 & Hm3);
      [lia | lia | rewrite !div_shift; lia | |].
    { eapply marks_zeros; [|exact Hm2| zeros_after Hm1 |]; lia. }
    exists b3. rewrite E3. split; [do 2 f_equal; lia|].
    eapply marks_trans; [|exact Hm1|]; [lia|]. eapply marks_trans; [|exact Hm2|]; [lia|].
    by replace (pc + 1 + n) with (pc + 1 + 8 * m1 + 8 * m2 + (n - 8 * m1 - 8 * m2)) by lia.
  - cbn [mbind GoRes_bind]. apply set_rest_ok; [lia..|done].
Qed.

(** ** The whole analysis *)

Lemma code_positions_skip k code j :
  nth j (code_positions k code) false =
  if (j <? k)%nat then false else nth (j - k) (code_positions 0 (drop k code)) false.
Proof.
  revert k j. induction code as [|op code IH]; intros [|k] j.
  - cbn. by rewrite Nat.sub_0_r.
  - rewrite drop_nil. cbn [code_positions]. rewrite !nth_overflow by (cbn; lia).
    by destruct (j <? S k)%nat.
  - cbn [drop]. by rewrite Nat.sub_0_r.
  - destruct j as [|j]; [done|]. cbn [code_positions nth drop]. rewrite IH. done.
Qed.

Lemma bitmap_loop_ok code fuel bits pc :
  zlen code < 2 ^ 61 → zlen code / 8 + 5 ≤ zlen bits → 0 ≤ pc → (0 < fuel)%nat →
  zlen code - pc < Z.of_nat fuel → zeros_from bits pc →
  ∃ bits', bitmap_loop fuel code bits pc = Ret bits' ∧ zlen bits' = zlen bits ∧
    ∀ i, 0 ≤ i < zlen code →
      bit bits' i =
      if i <? pc then bit bits i
      else negb (nth (Z.to_nat (i - pc)) (code_positions 0 (drop (Z.to_nat pc) code)) false).
Proof.
  intros Hcode. revert bits pc.
  induction fuel as [|fuel IH]; intros bits pc Hlen Hpc Hpos Hfuel Hz; [lia|].
  cbn [bitmap_loop]. destruct (Z.ltb_spec pc (zlen code)) as [Hlt|Hge].
  2: { exists bits. split_and!; [done..|]. intros i Hi. by destruct (Z.ltb_spec i pc); [|lia]. }
  destruct (lookup_lt_is_Some_2 code (Z.to_nat pc)) as [op Hop]; [unfold zlen in *; lia|].
  assert (Hd : (pc + 1) / 8 ≤ zlen code / 8) by (apply Z.div_le_mono; lia).
  destruct (bitmap_round_ok code bits pc op) as (b1 & E1 & Hm1); [done | lia | lia | done |].
  cbv zeta in E1, Hm1. set (n := push_size (OpCode op)) in *.
  rewrite E1. cbn [mbind GoRes_bind].
  destruct (IH b1 (pc + 1 + Z.of_nat n)) as (b2 & E2 & Hl2 & Hb2);
    [destruct Hm1; lia | lia | lia | lia | |].
  { eapply marks_zeros; [|exact Hm1| |]; [lia| |lia]. intros i Hi. apply Hz. lia. }
  exists b2. split_and!; [done | destruct Hm1; lia |]. intros i Hi. rewrite (Hb2 i Hi).
  destruct Hm1 as [_ Hm1]. rewrite (drop_S code op (Z.to_nat pc)) by done.
  cbn [code_positions]. fold n.
  destruct (Z.ltb_spec i (pc + 1 + Z.of_nat n)) as [Hin|Hin]; destruct (Z.ltb_spec i pc).
  - rewrite Hm1 by lia. destruct (Z.leb_spec (pc + 1) i); [lia|]. by rewrite orb_false_r.
  - rewrite Hm1, Hz by lia. cbn [orb].
    destruct (Z.ltb_spec i (pc + 1 + Z.of_nat n)); [|lia]. rewrite andb_true_r.
    destruct (Z.leb_spec (pc + 1) i).
    + replace (Z.to_nat (i - pc)) with (S (Z.to_nat (i - pc - 1))) by lia. cbn [nth].
      rewrite code_positions_skip. by destruct (Nat.ltb_spec (Z.to_nat (i - pc - 1)) n); [|lia].
    + by replace (Z.to_nat (i - pc)) with 0%nat by lia.
  - lia.
  - replace (Z.to_nat (i - pc)) with (S (Z.to_nat (i - pc - 1))) by lia. cbn [nth].
    rewrite (code_positions_skip n). destruct (Nat.ltb_spec (Z.to_nat (i - pc - 1)) n); [lia|].
    rewrite drop_drop. f_equal. f_equal; [lia|]. do 2 f_equal. lia.
Qed.

Lemma bit_zeros n i : bit (replicate n 0) i = false.
Proof.
  unfold bit. rewrite nth_lookup. destruct (_ !! _) as [x|] eqn:E; cbn; [|apply Z.testbit_0_l].
  apply lookup_replicate in E as [-> _]. apply Z.testbit_0_l.
Qed.

Lemma codeSegment_bit bits pos :
  0 ≤ pos → pos / 8 < zlen bits → codeSegment bits pos = Ret (negb (bit bits pos)).
Proof.
  intros Hpos Hlen. destruct (pos_split pos Hpos) as (_ & Hp8 & Hpk).
  unfold codeSegment, bit.
  destruct (lookup_lt_is_Some_2 bits (Z.to_nat (pos / 8))) as [b Hb]; [unfold zlen in *; lia|].
  rewrite (index_lookup bits (pos / 8) b), nth_lookup, Hb by done. cbn. f_equal.
  change 1 with (Z.ones 1). rewrite Z.land_ones by lia. change (2 ^ 1) with 2.
  rewrite Zmod_odd, <- Z.bit0_odd, Z.shiftr_spec, Z.add_0_l by lia. by destruct (Z.testbit _ _).
Qed.

(** On code of any length a slice has here, the analysis terminates without an index
    out of range, and its bitmap is the reference walk. *)
Lemma codeBitmap_ok code :
  zlen code < 2 ^ 61 →
  ∃ bits, codeBitmap code = Ret bits ∧
    ∀ pos, 0 ≤ pos < zlen code → codeSegment bits pos = Ret (is_code code pos).
Proof.
  intros Hcode. unfold codeBitmap, codeBitmapInternal.
  assert (Hd : 0 ≤ zlen code / 8) by (apply Z.div_pos; unfold zlen; lia).
  set (bits := replicate (Z.to_nat _) 0).
  assert (Hlen : zlen bits = zlen code / 8 + 5)
    by (unfold bits, zlen at 1; rewrite length_replicate; lia).
  destruct (bitmap_loop_ok code (S (length code)) bits 0) as (bits' & E & Hl & Hb);
    [done | lia | lia | lia | unfold zlen; lia | intros i Hi; apply bit_zeros |].
  exists bits'. split; [exact E|]. intros pos Hpos.
  rewrite codeSegment_bit; [|lia|].
  - rewrite Hb by done. destruct (Z.ltb_spec pos 0); [lia|].
    rewrite negb_involutive. unfold is_code. by rewrite Z.sub_0_r.
  - assert (pos / 8 ≤ zlen code / 8) by (apply Z.div_le_mono; lia). lia.
Qed.

(** C27. The optimised code analysis is equivalent to the walk over the code that defines
    it: on any code, [codeBitmap] terminates without an index out of range, and the
    bit of each position tells whether the walk from position zero, which skips the data
    of PUSH instructions, reaches it. *)
Theorem codeBitmap_equivalent code :
  zlen code < 2 ^ 61 →
  ∃ bits, codeBitmap code = Ret bits ∧
    ∀ pos, 0 ≤ pos < zlen code → codeSegment bits pos = Ret (is_code code pos).
Proof. apply codeBitmap_ok. Qed.

Lemma codeBitmap_equivalent_witness :
  ∃ bits, codeBitmap [PUSH1; JUMPDEST; JUMPDEST] = Ret bits ∧
    codeSegment bits 1 = Ret false ∧ codeSegment bits 2 = Ret true.
Proof.
  destruct (codeBitmap_equivalent [PUSH1; JUMPDEST; JUMPDEST]) as (bits & E & Hbits);
    [reflexivity|].
  exists bits. split; [exact E|]. rewrite !Hbits by done. split; reflexivity.
Defined.

(** ** Jump destinations *)

#[local] Arguments codeSegment : simpl never.
#[local] Arguments codeBitmap : simpl never.

Section jumps.
Context `{Uint256, !Uint256Laws H, Geth, !GethLaws H0, FakeDB}.

(** [h] is the hash the machine or the state gives to [code] *)
Definition named (h : Hash) (code : bytes) : Prop :=
  Keccak256 code = h ∨ ∃ d a, GetCodeHash d a = h ∧ GetCode d a = code.

(** Two codes have the hash [h], and [bits] is the analysis of the other one. *)
Definition stale (h : Hash) (code bits : bytes) : Prop :=
  ∃ x, x ≠ code ∧ codeBitmap x = Ret bits ∧ named h x ∧ named h code.

(** The analysis of a contract is that of its code, or of a code with the same hash, when
    it has one; the shared map has for a hash the analysis of a code with this hash. *)
Definition analysis_ok (c : Contract) : Prop :=
  zlen (Code c) < 2 ^ 61 ∧
  (CodeHash c = zero_hash ∨ named (CodeHash c) (Code c)) ∧
  ∀ a, analysis c = Some a → ∃ x, codeBitmap x = Ret a ∧
    (x = Code c ∨ CodeHash c ≠ zero_hash ∧ named (CodeHash c) x).

Definition jumpdests_ok (m : gmap bytes bytes) : Prop :=
  ∀ h a, m !! h = Some a → ∃ code, named h code ∧ codeBitmap code = Ret a.

(** The analysis a jump of the running contract would use is that of its code. *)
Definition own_analysis (s : St) : Prop :=
  ∀ a, analysis (Con s) = Some a ∨
       analysis (Con s) = None ∧ jumpdests (evm s) !! CodeHash (Con s) = Some a →
  codeBitmap (Code (Con s)) = Ret a.

(** A jump destination is a JUMPDEST that is not data. *)
Definition is_jumpdest (code : bytes) (d : Z) : bool :=
  (d <? zlen code) && (OpCode (nth (Z.to_nat d) code 0) =? JUMPDEST) && is_code code d.

(** What a test of a destination may change *)
Definition analysed (s s' : St) : Prop :=
  ∃ a m, s' = set_evm (with_jumpdests m (evm s)) (set_con (with_analysis a (Con s)) s) ∧
    analysis_ok (Con s') ∧ jumpdests_ok m.

(** The outcome of a test: [v], unless it uses the analysis of another code *)
Definition test_post (s : St) (v : bool) (r : Out (St * bool)) : Prop :=
  match r with
  | Done (s', b) => analysed s s' ∧ (own_analysis s → b = v)
  | Raised (StaleAnalysis h code bits) => stale h code bits ∧ ¬ own_analysis s
  | _ => False
  end.

(** An analysis that may be used for the contract of [s] is read. *)
Lemma segment_ok s0 s a d x :
  Code (Con s) = Code (Con s0) → CodeHash (Con s) = CodeHash (Con s0) →
  analysis_ok (Con s0) → analysed s0 s → 0 ≤ d < zlen (Code (Con s0)) →
  codeBitmap x = Ret a →
  (x = Code (Con s0) ∨ CodeHash (Con s0) ≠ zero_hash ∧ named (CodeHash (Con s0)) x) →
  (own_analysis s0 → codeBitmap (Code (Con s0)) = Ret a) →
  test_post s0 (is_code (Code (Con s0)) d) (segment a d s).
Proof.
  intros Ec Eh (Hlen & Hhash & _) Hs Hd Ea Hx Hown.
  destruct (codeBitmap_ok (Code (Con s0)) Hlen) as (bits & Ebits & Hseg). specialize (Hseg d Hd).
  assert (Hval : codeBitmap (Code (Con s0)) = Ret a →
            codeSegment a d = Ret (is_code (Code (Con s0)) d)).
  { rewrite Ebits. by intros [= ->]. }
  assert (Hpanic : (∀ b, codeSegment a d ≠ Ret b) →
            stale (CodeHash (Con s)) (Code (Con s)) a ∧ ¬ own_analysis s0).
  { intros Hno. split; [|by intros Ho; eapply Hno, Hval, Hown]. rewrite Ec, Eh.
    destruct Hx as [->|[Hnz Hx]]; [by destruct (Hno _ (Hval Ea))|].
    exists x. split_and!; [|done..|by destruct Hhash].
    intros ->. by destruct (Hno _ (Hval Ea)). }
  unfold segment. destruct (codeSegment a d) as [b| |] eqn:E; cbn; [|by apply Hpanic..].
  split; [done|]. intros Ho. specialize (Hval (Hown Ho)). congruence.
Qed.

Lemma isCode_ok s d :
  analysis_ok (Con s) → jumpdests_ok (jumpdests (evm s)) → 0 ≤ d < zlen (Code (Con s)) →
  test_post s (is_code (Code (Con s)) d) (isCode d s).
Proof.
  intros Hok Hjd Hd. pose proof Hok as (Hlen & Hhash & Han). unfold isCode.
  destruct (codeBitmap_ok (Code (Con s)) Hlen) as (bits & Ebits & _).
  assert (Hs : ∀ a x m, jumpdests_ok m → codeBitmap x = Ret a →
    (x = Code (Con s) ∨ CodeHash (Con s) ≠ zero_hash ∧ named (CodeHash (Con s)) x) → analysed s
    (set_evm (with_jumpdests m (evm s)) (set_con (with_analysis (Some a) (Con s)) s))).
  { intros a x m Hm Ex Hx. exists (Some a), m. split; [done|]. split; [|done].
    split_and!; [done..|]. intros a' [= <-]. by exists x. }
  assert (Hself : ∀ c, set_evm (with_jumpdests (jumpdests (evm s)) (evm s)) (set_con c s) = set_con c s)
    by (intros c; by destruct s as [? ? ? ? []]).
  destruct (analysis (Con s)) as [a|] eqn:Ea.
  { destruct (Han a eq_refl) as (x & Ex & Hx). apply (segment_ok s s a d x); try done.
    - specialize (Hs a x _ Hjd Ex Hx). rewrite Hself in Hs.
      replace (set_con _ s) with s in Hs; [done|].
      destruct s as [? ? ? [] ?]. cbn in *. by subst.
    - intros Ho. apply Ho. by left. }
  case_bool_decide as Hz; cbn [negb].
  { rewrite Ebits. exec. apply (segment_ok s _ _ _ (Code (Con s))); try done; [|by left].
    specialize (Hs bits _ _ Hjd Ebits (or_introl eq_refl)). by rewrite Hself in Hs. }
  destruct Hhash as [Hhash|Hhash]; [done|].
  destruct (jumpdests (evm s) !! CodeHash (Con s)) as [a|] eqn:Ej.
  - destruct (Hjd _ _ Ej) as (x & Hx & Ex). exec. apply (segment_ok s _ _ _ x); try done.
    + specialize (Hs a x _ Hjd Ex (or_intror (conj Hz Hx))). by rewrite Hself in Hs.
    + by right.
    + intros Ho. apply Ho. by right.
  - rewrite Ebits. exec. apply (segment_ok s _ _ _ (Code (Con s))); try done; [|by left].
    apply (Hs bits (Code (Con s))); [|done|by left].
    intros h a. rewrite lookup_insert. case_decide as Eh; [|apply Hjd].
    intros [= <-]. subst h. by exists (Code (Con s)).
Qed.

Lemma validJumpdest_ok s dest :
  analysis_ok (Con s) → jumpdests_ok (jumpdests (evm s)) →
  test_post s (is_jumpdest (Code (Con s)) (u_val dest)) (validJumpdest dest s).
Proof.
  intros Han Hjd. unfold validJumpdest, is_jumpdest. rewrite u_Uint64WithOverflow_spec.
  pose proof (u_val_range dest) as Hv.
  assert (Hself : analysed s s).
  { exists (analysis (Con s)), (jumpdests (evm s)). by destruct s as [? ? ? [] []]. }
  assert (Hlen : zlen (Code (Con s)) < 2 ^ 61) by apply Han.
  destruct (Z.leb_spec (2 ^ 64) (u_val dest)) as [Hbig|Hsmall]; cbn [orb].
  { split; [done|]. destruct (Z.ltb_spec (u_val dest) (zlen (Code (Con s)))); [lia|done]. }
  rewrite wrap64_small by (unfold in_u64; lia).
  destruct (Z.leb_spec (zlen (Code (Con s))) (u_val dest)) as [Hge|Hlt].
  { split; [done|]. destruct (Z.ltb_spec (u_val dest) (zlen (Code (Con s)))); [lia|done]. }
  rewrite (proj2 (Z.ltb_lt _ _) Hlt). cbn [andb].
  destruct (lookup_lt_is_Some_2 (Code (Con s)) (Z.to_nat (u_val dest))) as [op Hop];
    [unfold zlen in *; lia|].
  rewrite (index_lookup _ _ op), nth_lookup, Hop by (done || lia). exec. cbn [default from_option id].
  destruct (OpCode op =? JUMPDEST); cbn [negb andb]; [|by split].
  apply isCode_ok; [done..|lia].
Qed.

End jumps.

Section instructions.
Context `{Uint256, !Uint256Laws H, Params, Geth, !GethLaws H1, PrecompileCrypto, FakeDB, !Env}.

(** A jump goes exactly to JUMPDEST instructions: unless the run is aborted,
    JUMP continues at the 256-bit destination when it is the position of a JUMPDEST
    byte that the walk over the code reaches as an instruction, and fails otherwise, when
    the analysis that is cached for the hash of the code, if any, is that of the code;
    the caches stay correct. *)
Theorem opJump_spec run s dest st :
  analysis_ok (Con s) → jumpdests_ok (jumpdests (evm s)) → own_analysis s →
  Stack s = dest :: st → abort_at (abort_loads (evm s)) = false →
  ∃ s', analysed (set_evm (with_load (evm s)) (set_stack st s)) s' ∧
    opJump run s =
    Done (if is_jumpdest (Code (Con s)) (u_val dest)
          then (set_pc (u_val dest -₆₄ 1) s', ([], None))
          else (s', ([], Some ErrInvalidJump))).
Proof.
  intros Han Hjd Hown Hst Hab.
  set (s1 := set_evm (with_load (evm s)) (set_stack st s)).
  pose proof (validJumpdest_ok s1 dest Han Hjd) as Hv.
  destruct (validJumpdest dest s1) as [[s' b]| |[| |]|] eqn:E; cbn in Hv; try done;
    [|by destruct Hv]. destruct Hv as [Hs' Hb]. specialize (Hb Hown).
  exists s'. split; [done|]. unfold opJump, load_abort, pop. exec. rewrite Hab.
  cbn [Stack set_evm]. rewrite Hst.
  change (set_stack st (set_evm (with_load (evm s)) s)) with s1. rewrite E, Hb.
  change (is_jumpdest (Code (Con s1))) with (is_jumpdest (Code (Con s))).
  destruct (is_jumpdest _ _) eqn:Ej; cbn [negb]; [|done].
  pose proof (u_val_range dest). unfold is_jumpdest in Ej.
  apply andb_true_iff in Ej as [Ej _]. apply andb_true_iff in Ej as [Ej _].
  apply Z.ltb_lt in Ej. change (Code (Con s1)) with (Code (Con s)) in Ej.
  destruct Han as [Hlen _].
  by rewrite u_Uint64_spec, (wrap64_small (u_val dest)) by (unfold in_u64; lia).
Qed.

End instructions.
