(* ===== verification/EvmPrecompilesOk.v ===== *)
(** * The virtual machine: precompiled contracts are safe

    No input makes a precompiled contract panic when its price does not exceed
    [2 ^ 46], and it never returns more gas than it is given.  The price matters:
    only the price of the modular exponentiation bounds the slices that it allocates for
    its operands.  With more gas it panics. *)

From Stdlib Require Import Zpow_facts.
From S2P Require Import Prelude Digits OpCodes EvmBase EvmData EvmPrecompiles.

Section safe.
Context `{Geth, !GethLaws H, PrecompileCrypto, !PrecompileLaws H H0}.

Lemma slice_total (s : bytes) a b :
  0 ≤ a ≤ b → b ≤ zlen s → ∃ r, slice (E := EvmErr) s a b = Ret r ∧ zlen r = b - a.
Proof.
  intros Hab Hb. unfold slice, zlen in *.
  rewrite (proj2 (Z.leb_le 0 a)), (proj2 (Z.leb_le a b)), (proj2 (Z.leb_le b _)) by lia.
  eexists; split; [done|]. rewrite length_take, length_drop. lia.
Qed.

Lemma index_total (s : bytes) i : 0 ≤ i < zlen s → ∃ x, index (E := EvmErr) s i = Ret x.
Proof. intros Hi. destruct (index_ok (E := EvmErr) s i Hi) as (x & E & _). by exists x. Qed.

Lemma getData_total data start size :
  zlen data < 2 ^ 62 → 0 ≤ start → 0 ≤ size ≤ 2 ^ 48 →
  ∃ r, getData data start size = Ret r.
Proof.
  intros Hd Hs Hz. unfold getData. assert (0 ≤ zlen data) by (unfold zlen; lia).
  unfold int64. rewrite (proj2 (Z.ltb_lt size _)) by lia.
  replace (if zlen data <? start then zlen data else start) with (Z.min start (zlen data))
    by (destruct (Z.ltb_spec (zlen data) start); lia).
  rewrite wrap64_small by (unfold in_u64; lia).
  destruct (Z.ltb_spec (zlen data) (Z.min start (zlen data) + size));
    edestruct (slice_total data) as (r & E & _).
  3, 6: rewrite E; exec; rewrite RightPadBytes_spec by (unfold maxAlloc; lia); by eexists.
  all: lia.
Qed.

Lemma big_SetBytes_nonneg b : 0 ≤ big_SetBytes b.
Proof.
  unfold big_SetBytes. apply (of_digits_bound 256); [done|].
  apply Forall_fmap, Forall_true. intros x. apply Z.mod_pos_bound. done.
Qed.

Lemma int64_id x : x < 2 ^ 63 → int64 x = x.
Proof. intros Hx. unfold int64. by rewrite (proj2 (Z.ltb_lt _ _)). Qed.

Lemma no_error_ok b l : l ≤ 2 ^ 48 → ∃ r, no_error (LeftPadBytes b l) = Ret r.
Proof. intros Hl. rewrite LeftPadBytes_spec by done. by eexists. Qed.

(** ** The price of the modular exponentiation *)

Lemma BitLen_bound z : 0 ≤ z → BitLen z ≤ 64 → z < 2 ^ 64.
Proof.
  intros Hz. unfold BitLen. destruct (Z.eqb_spec z 0); [lia|]. intros Hb.
  apply Z.log2_lt_pow2; lia.
Qed.

Lemma BitLen_nonneg z : 0 ≤ BitLen z.
Proof. unfold BitLen. destruct (_ =? _); [lia|]. pose proof (Z.log2_nonneg z). lia. Qed.

Lemma complexity_bounds x : 1 ≤ x → 1 ≤ modexpMultComplexity x ∧ (2 ^ 40 ≤ x → 2 ^ 70 ≤ modexpMultComplexity x).
Proof.
  intros Hx. unfold modexpMultComplexity.
  destruct (Z.leb_spec x 64); [split; [nia|lia]|].
  pose proof (Z.div_mod (x * x) 4 ltac:(lia)). pose proof (Z.mod_pos_bound (x * x) 4 ltac:(lia)).
  pose proof (Z.div_mod (x * x) 16 ltac:(lia)). pose proof (Z.mod_pos_bound (x * x) 16 ltac:(lia)).
  destruct (Z.leb_spec x 1024); [split; [nia|lia]|]. split; [nia|]. intros Hb.
  assert (2 ^ 80 ≤ x * x) by (change (2 ^ 80) with (2 ^ 40 * 2 ^ 40); nia). lia.
Qed.

Lemma modexp_gas_nonneg eip2565 b m adj : 0 ≤ modexp_gas eip2565 b m adj.
Proof.
  unfold modexp_gas, big_Uint64. destruct eip2565; destruct (_ <? _); try done.
  - destruct (_ <? _); [done|apply wrap64_range].
  - apply wrap64_range.
Qed.

(** A price below [2 ^ 46] bounds the lengths, unless there is nothing to compute. *)
Lemma modexp_gas_bounds eip2565 b m adj :
  0 ≤ b → 0 ≤ m → 0 ≤ adj → modexp_gas eip2565 b m adj ≤ 2 ^ 46 →
  b = 0 ∧ m = 0 ∨ b < 2 ^ 40 ∧ m < 2 ^ 40 ∧ adj < 20 * (2 ^ 46 + 1).
Proof.
  intros Hb Hm Ha. unfold modexp_gas.
  set (x := Z.max m b). assert (Hx : 0 ≤ x) by lia.
  assert (Hmax : MaxUint64 = 2 ^ 64 - 1) by done.
  assert (Hcase : x = 0 ∨ 1 ≤ x) by lia. destruct eip2565.
  - set (y := (x + 7) / 8). pose proof (Z.div_mod (x + 7) 8 ltac:(lia)) as Hy8.
    pose proof (Z.mod_pos_bound (x + 7) 8 ltac:(lia)). fold y in Hy8.
    set (g := y * y * Z.max adj 1 / 3).
    assert (Hg : 0 ≤ g) by (apply Z.div_pos; [|lia]; nia).
    pose proof (Z.div_mod (y * y * Z.max adj 1) 3 ltac:(lia)) as Hdiv.
    pose proof (Z.mod_pos_bound (y * y * Z.max adj 1) 3 ltac:(lia)). fold g in Hdiv.
    destruct (Z.ltb_spec 64 (BitLen g)) as [|Hbl]; [lia|].
    pose proof (BitLen_bound g Hg Hbl). rewrite big_Uint64_small by (unfold in_u64; lia).
    intros Hle. assert (Hgle : g ≤ 2 ^ 46) by (destruct (Z.ltb_spec g 200); lia).
    destruct Hcase as [E|Hx1]; [left; lia|right].
    assert (Hy : 1 ≤ y) by lia. assert (Hyy : y < 2 ^ 36).
    { destruct (Z.ltb_spec y (2 ^ 36)); [done|]. exfalso.
      assert (2 ^ 72 ≤ y * y) by (change (2 ^ 72) with (2 ^ 36 * 2 ^ 36); nia). nia. }
    pose proof (Z.mul_le_mono_nonneg_r 1 (y * y) (Z.max adj 1) ltac:(lia) ltac:(nia)). lia.
  - set (c := modexpMultComplexity x). set (g := c * Z.max adj 1 / 20).
    assert (Hc0 : 0 ≤ c).
    { destruct Hcase as [E|Hx1]; [unfold c; by rewrite E|].
      destruct (complexity_bounds x Hx1). unfold c. lia. }
    assert (Hg : 0 ≤ g) by (apply Z.div_pos; [|lia]; nia).
    pose proof (Z.div_mod (c * Z.max adj 1) 20 ltac:(lia)) as Hdiv.
    pose proof (Z.mod_pos_bound (c * Z.max adj 1) 20 ltac:(lia)). fold g in Hdiv.
    destruct (Z.ltb_spec 64 (BitLen g)) as [|Hbl]; [lia|].
    pose proof (BitLen_bound g Hg Hbl). rewrite big_Uint64_small by (unfold in_u64; lia).
    intros Hle. destruct Hcase as [E|Hx1]; [left; lia|right].
    destruct (complexity_bounds x Hx1) as [Hc1 Hc2]. fold c in Hc1, Hc2.
    assert (x < 2 ^ 40).
    { destruct (Z.ltb_spec x (2 ^ 40)); [done|]. exfalso. specialize (Hc2 ltac:(lia)). nia. }
    pose proof (Z.mul_le_mono_nonneg_r 1 c (Z.max adj 1) ltac:(lia) Hc1). lia.
Qed.

(** [step_data] takes the result of a read that is in range. *)
Ltac step_data :=
  match goal with
  | |- context [getData ?d ?a ?n] =>
      let r := fresh "r" in let Hr := fresh "Hr" in
      destruct (getData_total d a n) as [r Hr];
      [try assumption | | | rewrite Hr; exec; clear Hr]
  | |- context [slice ?d ?a ?n] =>
      let r := fresh "r" in let Hr := fresh "Hr" in let Hl := fresh "Hl" in
      destruct (slice_total d a n) as (r & Hr & Hl); [| | rewrite Hr; exec; clear Hr]
  | |- context [index ?d ?i] =>
      let r := fresh "r" in let Hr := fresh "Hr" in
      destruct (index_total d i) as [r Hr]; [| rewrite Hr; exec; clear Hr]
  end.

Lemma modexp_operands_length input : zlen (modexp_operands input) ≤ zlen input.
Proof.
  unfold modexp_operands. destruct (_ <? _); unfold zlen; [rewrite length_drop|]; cbn; lia.
Qed.

Lemma modexp_expHead_ok input b e :
  zlen input < 2 ^ 62 → 0 ≤ b → 0 ≤ e → ∃ h, modexp_expHead input b e = Ret h ∧ 0 ≤ h.
Proof.
  intros Hi Hb He. unfold modexp_expHead.
  destruct (Z.leb_spec (zlen input) b); [by exists 0|].
  rewrite (big_Uint64_small b) by (unfold in_u64; lia).
  destruct (Z.ltb_spec 32 e); [|rewrite (big_Uint64_small e) by (unfold in_u64; lia)].
  all: step_data; [lia..|]; eexists; split; [done|apply big_SetBytes_nonneg].
Qed.

(** The lengths are the same for the price and for the computation. *)
Lemma modexp_ok eip2565 input :
  zlen input < 2 ^ 62 →
  ∃ g, modexp_RequiredGas eip2565 input = Ret g ∧ 0 ≤ g ∧
    (g ≤ 2 ^ 46 → ∃ r, modexp_Run input = Ret r).
Proof.
  intros Hi. unfold modexp_RequiredGas, modexp_Run.
  assert (Hlen : 0 ≤ zlen input) by (unfold zlen; lia).
  destruct (getData_total input 0 32) as [rb Eb]; [lia..|].
  destruct (getData_total input 32 32) as [re Ee]; [lia..|].
  destruct (getData_total input 64 32) as [rm Em]; [lia..|].
  rewrite Eb, Ee, Em. exec.
  set (b := big_SetBytes rb). set (e := big_SetBytes re). set (m := big_SetBytes rm).
  assert (Hb : 0 ≤ b) by apply big_SetBytes_nonneg.
  assert (He : 0 ≤ e) by apply big_SetBytes_nonneg.
  assert (Hm : 0 ≤ m) by apply big_SetBytes_nonneg.
  pose proof (modexp_operands_length input) as Hop. set (ops := modexp_operands input) in *.
  destruct (modexp_expHead_ok ops b e) as (h & Eh & Hh); [lia..|]. rewrite Eh. exec.
  set (msb := if 0 <? BitLen h then _ else 0).
  assert (Hmsb : 0 ≤ msb) by (subst msb; destruct (Z.ltb_spec 0 (BitLen h)); lia).
  set (adj := _ + msb).
  assert (Hadj : 0 ≤ adj ∧ (32 < e → 8 * (e - 32) ≤ adj))
    by (subst adj; destruct (Z.ltb_spec 32 e); lia).
  clearbody b e m adj ops. clear Eb Ee Em.
  eexists. split; [done|]. split; [apply modexp_gas_nonneg|]. intros Hle.
  destruct (modexp_gas_bounds eip2565 b m adj) as [[-> ->]|(Hb40 & Hm40 & Ha)]; try done; [lia| |].
  { by eexists. }
  assert (0 ≤ zlen ops) by (unfold zlen; lia).
  rewrite !(big_Uint64_small b), !(big_Uint64_small e), !(big_Uint64_small m) by (unfold in_u64; lia).
  destruct (_ && _); [by eexists|].
  assert (He48 : e ≤ 2 ^ 48) by lia.
  destruct (getData_total ops 0 b) as [x1 E1]; [lia..|].
  destruct (getData_total ops b e) as [x2 E2]; [lia..|].
  destruct (getData_total ops (b +₆₄ e) m) as [x3 E3];
    [lia | apply wrap64_range | lia |].
  rewrite E1, E2, E3. destruct (BitLen (big_SetBytes x3) =? 0); apply no_error_ok;
    rewrite int64_id; lia.
Qed.

(** ** The other contracts *)

Lemma ecrecover_ok input : ∃ r, ecrecover_Run input = Ret r.
Proof.
  unfold ecrecover_Run. rewrite RightPadBytes_spec by done. exec.
  set (l := input ++ _).
  assert (Hl : 128 ≤ zlen l) by (unfold l, zlen; rewrite length_app, length_replicate; lia).
  clearbody l. repeat (step_data; [lia..|]). destruct (_ || _); [by eexists|].
  destruct (Ecrecover _ _) as [msg|pub] eqn:E; [by eexists|].
  apply Ecrecover_length in E.
  step_data; [unfold zlen; lia | done |]. step_data; [unfold zlen; rewrite Keccak256_length; lia | done |].
  by apply no_error_ok.
Qed.

Lemma or_error_ok {A} (r : string + A) k :
  (∀ a, ∃ x, k a = Ret x) → ∃ x, or_error r k = Ret x.
Proof. intros Hk. destruct r; [by eexists|apply Hk]. Qed.

Lemma runBn256Add_ok input : zlen input < 2 ^ 62 → ∃ r, runBn256Add input = Ret r.
Proof.
  intros Hi. unfold runBn256Add. assert (0 ≤ zlen input) by (unfold zlen; lia).
  repeat (step_data; [lia..|]). apply or_error_ok. intros x. apply or_error_ok. by eexists.
Qed.

Lemma runBn256ScalarMul_ok input : zlen input < 2 ^ 62 → ∃ r, runBn256ScalarMul input = Ret r.
Proof.
  intros Hi. unfold runBn256ScalarMul. assert (0 ≤ zlen input) by (unfold zlen; lia).
  repeat (step_data; [lia..|]). apply or_error_ok. by eexists.
Qed.

Lemma pairing_loop_ok n input k cs ts :
  zlen input mod 192 = 0 → 0 ≤ k → ∃ r, pairing_loop n input (192 * k) cs ts = Ret r.
Proof.
  intros Hm. revert k cs ts. induction n as [|n IH]; intros k cs ts Hk; cbn [pairing_loop];
    [by eexists|].
  destruct (Z.ltb_spec (192 * k) (zlen input)); [|by eexists].
  pose proof (Z.div_mod (zlen input) 192 ltac:(lia)).
  repeat (step_data; [lia..|]). apply or_error_ok. intros c. apply or_error_ok. intros t. replace (192 * k + 192) with (192 * (k + 1)) by lia.
  apply IH. lia.
Qed.

Lemma runBn256Pairing_ok input : ∃ r, runBn256Pairing input = Ret r.
Proof.
  unfold runBn256Pairing. pose proof (Z.mod_pos_bound (zlen input) 192 ltac:(lia)).
  destruct (Z.ltb_spec 0 (zlen input mod 192)); [by eexists|].
  apply (pairing_loop_ok _ _ 0); lia.
Qed.

Lemma read_words_ok k input i :
  0 ≤ i → i + 8 * Z.of_nat k ≤ zlen input → ∃ ws, read_words k input i = Ret ws.
Proof.
  revert i. induction k as [|k IH]; intros i Hi Hk; cbn [read_words]; [by eexists|].
  step_data; [lia..|]. destruct (IH (i + 8)) as [ws E]; [lia..|]. rewrite E. by eexists.
Qed.

Lemma blake2F_ok input : ∃ r, blake2F_Run input = Ret r.
Proof.
  unfold blake2F_Run, blake2FInputLength. destruct (Z.eqb_spec (zlen input) 213); [|by eexists].
  cbn [negb]. repeat (step_data; [lia..|]). destruct (_ && _); [by eexists|].
  destruct (read_words_ok 8 input 4) as [h Eh]; [lia..|].
  destruct (read_words_ok 16 input 68) as [m Em]; [lia..|].
  destruct (read_words_ok 2 input 196) as [t Et]; [lia..|].
  rewrite Eh, Em, Et. by eexists.
Qed.

Lemma precompiled_ok p input :
  zlen input < 2 ^ 62 →
  ∃ g, RequiredGas p input = Ret g ∧ 0 ≤ g ∧
    (g ≤ 2 ^ 46 → ∃ r, precompiled_Run p input = Ret r).
Proof.
  intros Hi. pose proof prices_u64 as Hp. rewrite !Forall_cons in Hp. unfold in_u64 in Hp.
  destruct_and! Hp.
  destruct p; cbn [RequiredGas precompiled_Run]; unfold ecrecover_RequiredGas,
    sha256hash_RequiredGas, ripemd160hash_RequiredGas, dataCopy_RequiredGas,
    bn256PairingByzantium_RequiredGas, bn256PairingIstanbul_RequiredGas, blake2F_RequiredGas.
  5: by apply modexp_ok.
  11: { unfold blake2FInputLength. destruct (Z.eqb_spec (zlen input) 213); cbn [negb].
        - step_data; [lia..|]. eexists. split; [done|]. split; [apply big_SetBytes_nonneg|].
          intros _. apply blake2F_ok.
        - eexists. split; [done|]. split; [done|]. intros _. apply blake2F_ok. }
  all: eexists; split; [done|]; split; [lia || apply wrap64_range|intros _].
  all: auto using ecrecover_ok, runBn256Add_ok, runBn256ScalarMul_ok, runBn256Pairing_ok.
  all: first [by apply no_error_ok | by eexists].
Qed.


(** ** More gas than that *)

Lemma getData_exact data a n :
  0 ≤ a → 0 ≤ n ≤ 2 ^ 48 → a + n ≤ zlen data → zlen data < 2 ^ 62 →
  getData data a n = Ret (take (Z.to_nat n) (drop (Z.to_nat a) data)).
Proof.
  intros Ha Hn Hlen Hmax. unfold getData, slice.
  rewrite (proj2 (Z.ltb_ge _ a)) by lia. rewrite wrap64_small by (unfold in_u64; lia).
  rewrite (proj2 (Z.ltb_ge _ (a + n))) by lia.
  rewrite (proj2 (Z.leb_le 0 a)), (proj2 (Z.leb_le a _)), (proj2 (Z.leb_le _ (zlen data))) by lia.
  cbn [andb]. exec. rewrite int64_id by lia. rewrite RightPadBytes_spec by (unfold maxAlloc; lia).
  replace (a + n - a) with n by lia. cbn. f_equal.
  replace (n - _) with 0; [apply app_nil_r|].
  unfold zlen in *. rewrite length_take, length_drop. lia.
Qed.

(** The lengths of a base and a modulus of one byte, and of an exponent of [2 ^ 50] *)
Definition long_exponent : bytes :=
  replicate 31 0 ++ [1] ++ replicate 25 0 ++ [4; 0; 0; 0; 0; 0; 0] ++ replicate 31 0 ++ [1].

Lemma getData_panics data a n :
  zlen data < 2 ^ 48 → 0 ≤ a → 2 ^ 48 < n < 2 ^ 62 → getData data a n = Panic.
Proof.
  intros Hd Ha Hn. unfold getData. assert (0 ≤ zlen data) by (unfold zlen; lia).
  replace (if zlen data <? a then zlen data else a) with (Z.min a (zlen data))
    by (destruct (Z.ltb_spec (zlen data) a); lia).
  rewrite wrap64_small by (unfold in_u64; lia). rewrite (proj2 (Z.ltb_lt _ _)) by lia.
  destruct (slice_total data (Z.min a (zlen data)) (zlen data)) as (r & E & Hr); [lia..|].
  rewrite E. exec. rewrite int64_id by lia.
  by rewrite RightPadBytes_panic by (unfold maxAlloc; lia).
Qed.

(** Beyond the bound of [RunPrecompiledContract_safe] the contract is not safe: an exponent
    of [2 ^ 50] bytes for operands of one byte costs less than [2 ^ 52] gas under EIP-2565,
    and [getData] then asks for a slice that cannot be made. *)
Lemma modexp_long_exponent gas :
  2 ^ 52 ≤ gas → RunPrecompiledContract (bigModExp true) long_exponent gas = Panic.
Proof.
  intros Hg. unfold RunPrecompiledContract. cbn [RequiredGas precompiled_Run].
  unfold modexp_RequiredGas, modexp_Run. 
  assert (Hl : zlen long_exponent = 96) by reflexivity.
  rewrite !getData_exact by (rewrite ?Hl; lia). exec.
  set (b := take _ (drop (Z.to_nat 0) _)). set (e := take _ (drop (Z.to_nat 32) _)).
  set (m := take _ (drop (Z.to_nat 64) _)).
  assert (Eb : big_SetBytes b = 1) by (vm_compute; reflexivity).
  assert (Ee : big_SetBytes e = 2 ^ 50) by (vm_compute; reflexivity).
  assert (Em : big_SetBytes m = 1) by (vm_compute; reflexivity).
  assert (Eo : modexp_operands long_exponent = []) by reflexivity.
  rewrite Eb, Ee, Em, Eo. clearbody b e m.
  change (modexp_expHead [] 1 (2 ^ 50)) with (@Ret EvmErr Z 0). exec.
  set (cost := modexp_gas _ _ _ _). assert (Hcost : (cost <? 2 ^ 52) = true) by (vm_compute; reflexivity).
  apply Z.ltb_lt in Hcost. clearbody cost. rewrite (proj2 (Z.ltb_ge _ _)) by lia.
  change (big_Uint64 1) with 1. change (big_Uint64 (2 ^ 50)) with (2 ^ 50).
  destruct (getData_total [] 0 1) as [r E]; [done|done|lia|]. cbn [andb Z.eqb]. rewrite E.
  by rewrite (getData_panics [] 1 (2 ^ 50)) by (done || lia).
Qed.

End safe.
