(* ===== verification/EvmWp.v ===== *)
(** * The virtual machine: invariants

    The conditions the safety of the interpreter rests on.  [wp] is the weakest
    precondition of an outcome: it holds of no runtime panic and of no run out of
    fuel; a panic that the environment causes is let through with what caused it.  The
    potential of a frame is its gas and the gas it has paid for its memory. *)

From S2P Require Import Prelude OpCodes EvmBase EvmData EvmGas EvmPrecompiles EvmCalls.
From S2P Require Import EvmInstr EvmTable EvmRun EvmAnalysis.

(** ** Outcomes *)

Section outcomes.
Context `{Geth, FakeDB, !Env}.

Definition unanswered (d : db) (r : DbRead) : Prop :=
  match r with
  | ReadBalance a => GetBalance d a = None
  | ReadState a k => GetState d a k = None
  | ReadExist a => Exist d a = None
  | ReadEmpty a => Empty d a = None
  | ReadTransfer a v => CanTransfer d a v = None
  end.

(** What causes a panic: the state did not answer the read, its access list has neither
    the slot nor the address, or two codes have the same hash. *)
Definition cause_ok (c : Cause) : Prop :=
  match c with
  | NoAnswer d r => unanswered d r
  | NotListed d a k => SlotInAccessList d a k = (false, false)
  | StaleAnalysis h code bits => stale h code bits
  end.

Definition wp {A} (m : Out A) (Q : A → Prop) : Prop :=
  match m with
  | Done a => Q a
  | Raised c => cause_ok c
  | GoPanic | OutOfFuel => False
  end.

Lemma wp_mono {A} (m : Out A) (P Q : A → Prop) : wp m P → (∀ a, P a → Q a) → wp m Q.
Proof. destruct m; cbn; auto. Qed.

Lemma wp_out_bind {A B} (m : Out A) (f : A → Out B) Q :
  wp m (λ a, wp (f a) Q) → wp (m ≫= f) Q.
Proof. by destruct m. Qed.

Lemma wp_answer {A} d r (o : option A) (Q : A → Prop) :
  (o = None → unanswered d r) → (∀ a, o = Some a → Q a) → wp (answer d r o) Q.
Proof. destruct o; cbn; auto. Qed.

End outcomes.

Section wp.
Context `{Uint256, Geth, FakeDB, !Env}.

Lemma wp_bind {A B} (m : Exec A) (f : A → Exec B) s Q :
  wp (m s) (λ '(s', a), wp (f a s') Q) → wp ((m ≫= f) s) Q.
Proof. unfold mbind, Exec_bind, Out_bind. destruct (m s) as [[s' a]| | |]; auto. Qed.

Lemma wp_read_db {A} r (f : db → option A) s (Q : St * A → Prop) :
  (∀ d, f d = None → unanswered d r) → (∀ a, f (StateDB (evm s)) = Some a → Q (s, a)) →
  wp (read_db r f s) Q.
Proof. intros Hr HQ. unfold read_db. apply wp_out_bind, wp_answer; [apply Hr|done]. Qed.

Lemma wp_read_balance a s (Q : St * Z → Prop) : (∀ b, Q (s, b)) → wp (read_balance a s) Q.
Proof. intros HQ. apply wp_read_db; [done|intros b _; apply HQ]. Qed.
Lemma wp_read_state a k s (Q : St * Hash → Prop) : (∀ h, Q (s, h)) → wp (read_state a k s) Q.
Proof. intros HQ. apply wp_read_db; [done|intros h _; apply HQ]. Qed.
Lemma wp_read_exist a s (Q : St * bool → Prop) : (∀ b, Q (s, b)) → wp (read_exist a s) Q.
Proof. intros HQ. apply wp_read_db; [done|intros b _; apply HQ]. Qed.
Lemma wp_read_empty a s (Q : St * bool → Prop) : (∀ b, Q (s, b)) → wp (read_empty a s) Q.
Proof. intros HQ. apply wp_read_db; [done|intros b _; apply HQ]. Qed.

End wp.

(** ** Laws of the state *)

(** Code is not longer than a slice can be. *)
Class DbLaws (fdb : FakeDB) := {
  GetCode_length d a : zlen (GetCode d a) < 2 ^ 61
}.

(** A relation [R] between states that have the same contents: what a static call is
    allowed to do preserves it. *)
Class StaticLaws `{FakeDB, !Env} (R : db → db → Prop) := {
  R_refl d : R d d;
  R_trans d1 d2 d3 : R d1 d2 → R d2 d3 → R d1 d3;
  R_AddRefund d n : R d (AddRefund d n);
  R_SubRefund d n : R d (SubRefund d n);
  R_AddAddress d a : R d (AddAddressToAccessList d a);
  R_AddSlot d a k : R d (AddSlotToAccessList d a k);
  R_AddPreimage d h b : R d (AddPreimage d h b);
  R_AddBalance_0 d a : R d (AddBalance d a (Some 0));
  R_CreateAccount d a : Exist d a = Some false → R d (CreateAccount d a);
  R_Transfer_0 d a b : R d (Transfer d a b 0);
  R_Snapshot d : R d (Snapshot d).1;
  R_Revert d d' : R (Snapshot d).1 d' → R d (RevertToSnapshot d' (Snapshot d).2)
}.

(** ** Invariants *)

Section invariants.
Context `{Uint256, Params, Geth, !GethLaws H1, PrecompileCrypto, FakeDB, !Env}.
Variable R : db → db → Prop.

Definition MaxMemory : Z := 0x1FFFFFFFE0.

Definition mem_ok (m : Memory) : Prop :=
  zlen (store m) ≤ MaxMemory ∧ 0 ≤ lastGasCost m < 2 ^ 56.

Definition con_ok (c : Contract) : Prop :=
  analysis_ok c ∧ 0 ≤ Gas c ∧ zlen (Input c) < 2 ^ 62.

Definition potential (s : St) : Z := Gas (Con s) + lastGasCost (Mem s).

Record st_ok (s : St) : Prop := mk_st_ok {
  ok_pc : 0 ≤ pc s < 2 ^ 64;
  ok_stack : zlen (Stack s) ≤ 1024;
  ok_mem : mem_ok (Mem s);
  ok_con : con_ok (Con s);
  ok_jumpdests : jumpdests_ok (jumpdests (evm s));
  ok_potential : potential s ≤ 2 ^ 46
}.

(** What holds between the shared state before and after *)
Definition db_rel (ro : bool) (d d' : db) : Prop := if ro then R d d' else True.

Record evm_step (e e' : Evm) : Prop := mk_evm_step {
  step_depth : depth e' = depth e;
  step_readOnly : readOnly e' = readOnly e;
  step_jumpdests : jumpdests_ok (jumpdests e');
  step_db : db_rel (readOnly e) (StateDB e) (StateDB e')
}.

(** A run of a contract with less than [n] gas *)
Definition run_spec (n : Z) (run : RunFn) : Prop :=
  ∀ c input ro e,
  analysis_ok c → zlen input < 2 ^ 62 → jumpdests_ok (jumpdests e) →
  0 ≤ Gas c ≤ 2 ^ 46 → Gas c < n →
  wp (run c input ro e) (λ '(e', c', _),
    0 ≤ Gas c' ≤ Gas c ∧ depth e' = depth e ∧ readOnly e' = readOnly e ∧
    jumpdests_ok (jumpdests e') ∧ db_rel (ro || readOnly e) (StateDB e) (StateDB e')).

(** ** Operations *)

(** What an instruction needs and does: operands, results, the memory it is given, the
    gas it may add beyond what the frame has, and whether it ends the frame *)
Record kind := mkKind {
  k_pops : Z;
  k_pushes : Z;
  k_memory : option memorySizeFunc;
  k_reserve : list U → Evm → Z;
  k_final : bool
}.

Definition mem_fits (M : option memorySizeFunc) (s : St) : Prop :=
  match M with
  | None => True
  | Some f => ∃ n, f (Stack s) = Ret (n, false) ∧ n ≤ zlen (store (Mem s))
  end.

Definition reserve (K : kind) (s : St) : Z := k_reserve K (Stack s) (evm s).

Definition in_stack (K : kind) (s : St) : Prop :=
  k_pops K ≤ zlen (Stack s) ≤ 1024 + k_pops K - k_pushes K.

(** The state a frame ends with: the gas, the stack and the memory are bounded. *)
Definition gas_ok (limit : Z) (s : St) : Prop :=
  0 ≤ Gas (Con s) ≤ limit ∧ zlen (Stack s) ≤ 1024 ∧ zlen (store (Mem s)) ≤ MaxMemory.

Definition exec_post (K : kind) (s : St) : St * (bytes * option EvmErr) → Prop :=
  λ '(s', (_, err)),
  evm_step (evm s) (evm s') ∧
  match err with
  | Some _ => gas_ok (potential s + reserve K s) s'
  | None => k_final K = false ∧ st_ok s' ∧ potential s' ≤ potential s + reserve K s
  end.

Definition exec_ok (op : Z) (f : executionFunc) (K : kind) : Prop :=
  ∀ n run s,
  run_spec n run → st_ok s → in_stack K s → GetOp (Con s) (pc s) = op →
  mem_fits (k_memory K) s → 0 ≤ reserve K s → potential s + reserve K s ≤ 2 ^ 46 →
  (k_final K = false → potential s + reserve K s < n) →
  wp (f run s) (exec_post K s).

Definition dynamic_charge (o : operation) : Exec (EvmErr + unit) :=
  match dynamicGas o with
  | None => ok tt
  | Some dynamic => charge_dynamic o dynamic
  end.

(** The price of an operation is charged; its reserve is covered, and something is
    paid unless the operation is final. *)
Definition charge_ok (o : operation) (K : kind) : Prop :=
  ∀ s, st_ok s → in_stack K s → constantGas o ≤ Gas (Con s) →
  let s0 := set_con (with_gas (Gas (Con s) - constantGas o) (Con s)) s in
  wp (dynamic_charge o s0) (λ '(s', r),
    evm_step (evm s) (evm s') ∧
    match r with
    | inl _ => gas_ok (potential s) s'
    | inr _ =>
        st_ok s' ∧ pc s' = pc s ∧ Stack s' = Stack s ∧ Code (Con s') = Code (Con s) ∧
        mem_fits (k_memory K) s' ∧ 0 ≤ reserve K s' ∧
        potential s' + reserve K s' + (if k_final K then 0 else 1) ≤ potential s
    end).

Definition entry_ok (op : Z) (o : operation) : Prop :=
  ∃ K, exec_ok op (execute o) K ∧ charge_ok o K ∧
    k_pops K ≤ op_minStack o ∧ op_maxStack o ≤ 1024 + k_pops K - k_pushes K ∧
    0 ≤ constantGas o.

Definition table_ok (jt : JumpTable) : Prop := ∀ op, 0 ≤ op < 256 → entry_ok op (jt op).

(** ** From the table to runs *)

Context {SL : StaticLaws R}.

Lemma db_rel_refl ro d : db_rel ro d d.
Proof. destruct ro; cbn; [apply R_refl|done]. Qed.

Lemma db_rel_trans ro d1 d2 d3 : db_rel ro d1 d2 → db_rel ro d2 d3 → db_rel ro d1 d3.
Proof. destruct ro; cbn; [apply R_trans|done]. Qed.

Lemma evm_step_refl e : jumpdests_ok (jumpdests e) → evm_step e e.
Proof. intros He. split; try done. apply db_rel_refl. Qed.

Lemma evm_step_trans e1 e2 e3 : evm_step e1 e2 → evm_step e2 e3 → evm_step e1 e3.
Proof.
  intros [] []. split; try congruence; [done|]. eapply db_rel_trans; [done|]. congruence.
Qed.

Variable table : JumpTable.
Hypothesis Htable : table_ok table.

Lemma GetOp_range c n : 0 ≤ GetOp c n < 256.
Proof.
  unfold GetOp. destruct (_ <? _); [|lia]. destruct (_ !! _); cbn; [|lia].
  apply Z.mod_pos_bound. lia.
Qed.

Lemma st_ok_use_gas s g :
  st_ok s → 0 ≤ g ≤ Gas (Con s) → st_ok (set_con (with_gas (Gas (Con s) - g) (Con s)) s).
Proof.
  intros [] Hg. destruct ok_con0 as (? & ? & ?). unfold potential in *.
  split; cbn; try done; [|unfold potential; cbn; lia]. split_and!; cbn; [done|lia|done].
Qed.

Lemma potential_gas s : st_ok s → 0 ≤ Gas (Con s) ≤ potential s.
Proof.
  intros []. destruct ok_con0 as (_ & ? & _), ok_mem0 as [_ ?]. unfold potential. lia.
Qed.

(** One round of the loop keeps the invariants and lowers the potential, unless it ends
    the loop. *)
Lemma step_ok n run s :
  run_spec n run → st_ok s → potential s < n + 1 →
  wp (step table run s) (λ '(s', (_, err)),
    evm_step (evm s) (evm s') ∧
    match err with
    | Some _ => gas_ok (potential s) s'
    | None => st_ok s' ∧ potential s' ≤ potential s ∧ potential s' < n
    end).
Proof.
  intros Hrun Hs Hn. unfold step.
  pose proof (GetOp_range (Con s) (pc s)) as Hop.
  destruct (Htable (GetOp (Con s) (pc s)) Hop) as (K & Hexec & Hcharge & Hmin & Hmax & Hconst).
  set (o := table (GetOp (Con s) (pc s))) in *. exec. fold o.
  pose proof (potential_gas s Hs) as Hgas. pose proof (ok_jumpdests s Hs) as Hjd.
  assert (Hstop : ∀ e, wp (throw e s) (λ '(s', (_, err)),
    evm_step (evm s) (evm s') ∧
    match err with
    | Some _ => gas_ok (potential s) s'
    | None => st_ok s' ∧ potential s' ≤ potential s ∧ potential s' < n
    end)) by (intros e; cbn; split; [by apply evm_step_refl|split_and!; [lia..|apply Hs|apply Hs]]).
  destruct (Z.ltb_spec (zlen (Stack s)) (op_minStack o)); [apply Hstop|].
  destruct (Z.ltb_spec (op_maxStack o) (zlen (Stack s))); [apply Hstop|].
  unfold use_gas, UseGas. destruct (Z.ltb_spec (Gas (Con s)) (constantGas o)).
  { cbn [negb]. replace (set_con (Con s) s) with s by (by destruct s). apply Hstop. }
  cbv iota beta. cbn [negb]. assert (Hin : in_stack K s) by (unfold in_stack; lia).
  specialize (Hcharge s Hs Hin ltac:(lia)). cbv zeta in Hcharge. unfold dynamic_charge in Hcharge.
  destruct (_ (set_con _ s)) as [[s1 [e|u]]| | |]; try done; cbn in Hcharge.
  destruct Hcharge as (He1 & Hs1 & Hpc & Hst & Hcode & Hmem & Hres & Hpot).
  assert (Hop1 : GetOp (Con s1) (pc s1) = GetOp (Con s) (pc s))
    by (unfold GetOp; by rewrite Hcode, Hpc).
  pose proof (ok_potential s Hs) as Hps.
  assert (Hle : potential s1 + reserve K s1 ≤ potential s) by (destruct (k_final K); lia).
  eapply wp_mono.
  { apply (Hexec n run s1); try done; [unfold in_stack in *; by rewrite Hst | lia |].
    intros E. rewrite E in Hpot. lia. }
  intros [s2 [ret [err|]]] [He2 Hs2]; (split; [by eapply evm_step_trans|]).
  - unfold gas_ok in *. destruct Hs2 as (? & ? & ?). split_and!; lia || done.
  - destruct Hs2 as (Hf & Hs2 & Hp2). rewrite Hf in Hpot. split_and!; [done|lia..].
Qed.

Lemma st_ok_next s : st_ok s → st_ok (set_pc (pc s +₆₄ 1) s).
Proof. intros []. split; try done. apply wrap64_range. Qed.

Definition loop_spec (n : Z) (loop : Exec (bytes * option EvmErr)) : Prop :=
  ∀ s, st_ok s → potential s < n →
  wp (loop s) (λ '(s', _), evm_step (evm s) (evm s') ∧ gas_ok (potential s) s').

(** The state a frame starts with *)
Lemma st_ok_start c input e :
  analysis_ok c → zlen input < 2 ^ 62 → jumpdests_ok (jumpdests e) → 0 ≤ Gas c ≤ 2 ^ 46 →
  st_ok (mkSt 0 [] NewMemory (with_input input c) e).
Proof.
  intros Hc Hi He Hg. split; unfold mem_ok, con_ok, potential; cbn; try done; try lia.
  split_and!; [destruct Hc as (? & ? & ?); by split_and! | lia | done].
Qed.

Lemma Run_with_ok n loop : loop_spec n loop → run_spec n (Run_with loop).
Proof.
  intros Hloop c input ro e Hc Hi He Hg Hn. unfold Run_with.
  set (flag := ro && negb (readOnly (with_depth (λ d, d + 1) e))).
  set (e1 := with_returnData [] _). cbv zeta.
  set (exit := λ e' : Evm,
    with_depth (λ d, d - 1) (if flag then with_readOnly false e' else e')).
  assert (Hro1 : readOnly e1 = ro || readOnly e)
    by (subst e1 flag; by destruct ro, e as [? ? ? ? [] ? ?]).
  assert (Hdb1 : StateDB e1 = StateDB e) by (unfold e1; by destruct flag).
  assert (Hjd1 : jumpdests e1 = jumpdests e) by (unfold e1; by destruct flag).
  assert (Hd1 : depth e1 = depth e + 1) by (unfold e1; by destruct flag).
  assert (Hexit : ∀ e', evm_step e1 e' →
    depth (exit e') = depth e ∧ readOnly (exit e') = readOnly e ∧
    jumpdests_ok (jumpdests (exit e')) ∧
    db_rel (ro || readOnly e) (StateDB e) (StateDB (exit e'))).
  { intros e' [Hd Hr Hj Hdb]. rewrite Hro1, Hdb1 in *. unfold exit, flag in *. cbn in *.
    destruct ro, (readOnly e); cbn in *; split_and!; try done; lia. }
  destruct (Z.eqb_spec (zlen (Code c)) 0) as [Hz|Hz].
  { cbn. split; [lia|]. apply Hexit, evm_step_refl. by rewrite Hjd1. }
  apply wp_out_bind. eapply wp_mono.
  { apply Hloop; [apply st_ok_start; try done; by rewrite Hjd1 |]. unfold potential. cbn. lia. }
  intros [s' [res err]] (He' & Hp' & _). cbn. unfold potential in Hp'. cbn in Hp'.
  split; [lia|]. by apply Hexit.
Qed.

Lemma run_loop_ok n : loop_spec (Z.of_nat n) (run_loop table n).
Proof.
  induction n as [|n IH]; intros s Hs Hn.
  { pose proof (potential_gas s Hs). lia. }
  cbn [run_loop]. apply wp_bind. eapply wp_mono.
  { apply (step_ok (Z.of_nat n)); [by apply Run_with_ok | done | lia]. }
  intros [s1 [res [e|]]] [He1 Hs1]; [done|]. destruct Hs1 as (Hs1 & Hp1 & Hn1).
  cbn. unfold mbind, Exec_bind, modify. cbn. eapply wp_mono.
  { apply IH; [by apply st_ok_next | done]. }
  intros [s2 r] (He2 & Hp2 & ? & ?). split; [by eapply evm_step_trans|].
  unfold gas_ok, potential in *. cbn in *. split_and!; lia || done.
Qed.

Lemma Run_ok n : run_spec (Z.of_nat n) (Run table n).
Proof. apply Run_with_ok, run_loop_ok. Qed.

End invariants.
