(* ===== verification/EvmCallsOk.v ===== *)
(** * The virtual machine: calls keep the invariants

    The methods of [FakeEVM] that run contracts, given a run that keeps the
    invariants ([run_spec]): the gas that is left is not more than the gas supplied,
    and in a static context the contents of the state do not change. *)

From S2P Require Import Prelude OpCodes EvmBase EvmData EvmGas EvmPrecompiles EvmCalls.
From S2P Require Import EvmInstr EvmTable EvmRun EvmAnalysis EvmPrecompilesOk EvmWp.

Section calls.
Context `{Uint256, Params, Geth, !GethLaws H1, PrecompileCrypto, !PrecompileLaws H1 H2,
  FakeDB, !DbLaws H3, !Env}.
Variable R : db → db → Prop.
Context {SL : StaticLaws R}.

Abbreviation estep := (evm_step R).

(** The result of a call with [gas], from [e] *)
Definition call_post (e : Evm) (gas : Z) : Evm * CallRes → Prop := λ '(e', (_, rest, _)),
  0 ≤ rest ≤ gas ∧ estep e e'.

Lemma run_precompiled_ok p input gas :
  zlen input < 2 ^ 62 → 0 ≤ gas ≤ 2 ^ 46 →
  wp (run_precompiled p input gas) (λ '(_, rest, _), 0 ≤ rest ≤ gas).
Proof.
  intros Hi Hg. destruct (precompiled_ok p input Hi) as (g & Eg & Hg0 & Hrun).
  unfold run_precompiled, RunPrecompiledContract. rewrite Eg. exec.
  destruct (Z.ltb_spec gas g); [cbn; lia|].
  destruct Hrun as [[out err] Er]; [lia|]. rewrite Er. cbn. lia.
Qed.

Lemma evm_step_db e d :
  jumpdests_ok (jumpdests e) → db_rel R (readOnly e) (StateDB e) d →
  estep e (with_db (λ _, d) e).
Proof. intros Hj Hd. by split. Qed.

Lemma finish_call_ok snapshot e e1 gas res :
  0 ≤ gas → call_post e gas (e1, res) →
  db_rel R (readOnly e) (StateDB e) (RevertToSnapshot (StateDB e1) snapshot) →
  wp (finish_call snapshot e1 res) (call_post e gas).
Proof.
  intros Hg Hpost Hrev. destruct res as [[ret rest] [err|]]; [|done].
  destruct Hpost as [Hl [Hd Hr Hj Hdb]]. cbn. split; [destruct (reverted err); lia|]. by split.
Qed.

(** A state that [e] reaches after a snapshot may be reverted to the snapshot. *)
Lemma snapshot_revert e e1 d :
  estep (with_db (λ _, d) e) e1 → db_rel R (readOnly e) (Snapshot (StateDB e)).1 d →
  db_rel R (readOnly e) (StateDB e) (RevertToSnapshot (StateDB e1) (Snapshot (StateDB e)).2).
Proof.
  intros [_ _ _ Hdb] Hd. cbn in Hdb. destruct (readOnly e); cbn in *; [|done].
  apply R_Revert. by eapply R_trans.
Qed.

Lemma snapshot_step e e1 d :
  jumpdests_ok (jumpdests e) → db_rel R (readOnly e) (Snapshot (StateDB e)).1 d →
  estep (with_db (λ _, d) e) e1 → estep e e1.
Proof.
  intros Hj Hd He. eapply evm_step_trans; [done| |done]. apply evm_step_db; [done|].
  eapply db_rel_trans; [done| |done]. destruct (readOnly e); cbn; [apply R_Snapshot|done].
Qed.

(** The end of a call that ran from a state after the snapshot *)
Lemma call_end e e1 d gas res :
  0 ≤ gas → jumpdests_ok (jumpdests e) → db_rel R (readOnly e) (Snapshot (StateDB e)).1 d →
  call_post (with_db (λ _, d) e) gas (e1, res) →
  wp (finish_call (Snapshot (StateDB e)).2 e1 res) (call_post e gas).
Proof.
  intros Hg Hj Hd Hpost. destruct res as [[ret rest] err]. destruct Hpost as [Hl He].
  apply finish_call_ok; [done| |by eapply snapshot_revert].
  split; [done|]. by eapply snapshot_step.
Qed.

Variable n : Z.
Variable run : RunFn.
Hypothesis Hrun : run_spec R n run.

Lemma run_new_ok caller c input ro e :
  analysis_ok c → zlen input < 2 ^ 62 → jumpdests_ok (jumpdests e) →
  0 ≤ Gas c ≤ 2 ^ 46 → Gas c < n →
  wp (run_new run caller c input ro e) (λ '(e', c', _), 0 ≤ Gas c' ≤ Gas c ∧ estep e e').
Proof.
  intros Hc Hi Hj Hg Hn. unfold run_new. apply wp_out_bind.
  assert (Hj' : jumpdests_ok (new_jumpdests caller (jumpdests e)))
    by (destruct caller; [by intros h a; cbn; rewrite lookup_empty|done]).
  eapply wp_mono; [by apply Hrun|].
  intros [[e' c'] res] (Hg' & Hd & Hr & Hjd & Hdb). cbn. split; [done|].
  assert (db_rel R (readOnly e) (StateDB e) (StateDB e')).
  { cbn in Hdb. destruct (readOnly e); [|done]. by rewrite orb_true_r in Hdb. }
  destruct caller; by split.
Qed.

Lemma run_call_ok caller c input ro e :
  analysis_ok c → zlen input < 2 ^ 62 → jumpdests_ok (jumpdests e) →
  0 ≤ Gas c ≤ 2 ^ 46 → Gas c < n →
  wp (run_call run caller c input ro e) (call_post e (Gas c)).
Proof.
  intros Hc Hi Hj Hg Hn. unfold run_call. apply wp_out_bind.
  eapply wp_mono; [by apply run_new_ok|]. by intros [[e' c'] [ret err]] [? ?].
Qed.

Lemma analysis_ok_code caller object v g addr d a :
  analysis_ok (SetCallCode (NewContract caller object v g) addr (GetCodeHash d a) (GetCode d a)).
Proof.
  split_and!; cbn; [apply GetCode_length | right; right; by exists d, a | done].
Qed.

(** A precompiled contract, or the code at the address *)
Lemma callee_ok p input gas e (m : Out (Evm * CallRes)) :
  zlen input < 2 ^ 62 → 0 ≤ gas ≤ 2 ^ 46 → jumpdests_ok (jumpdests e) →
  wp m (call_post e gas) →
  wp (match p with
      | Some p => res ← run_precompiled p input gas; mret (e, res)
      | None => m
      end) (call_post e gas).
Proof.
  intros Hi Hg Hj Hm. destruct p as [p|]; [|done]. apply wp_out_bind.
  eapply wp_mono; [by apply run_precompiled_ok|]. intros [[ret rest] err] Hl. cbn.
  split; [done|]. by apply evm_step_refl.
Qed.

Context (caller : ContractRef) (addr : Address) (input : bytes) (gas : Z) (e : Evm).
Hypothesis Hinput : zlen input < 2 ^ 62.
Hypothesis Hgas : 0 ≤ gas ≤ 2 ^ 46.
Hypothesis Hn : gas < n.
Hypothesis Hjd : jumpdests_ok (jumpdests e).

Lemma refused_ok err : wp (mret (e, ([], gas, Some err))) (call_post e gas).
Proof. cbn. split; [lia|]. by apply evm_step_refl. Qed.

Lemma wp_can_transfer d a v (Q : bool → Prop) : (∀ b, Q b) → wp (can_transfer d a v) Q.
Proof. intros HQ. apply wp_answer; [done|intros b _; apply HQ]. Qed.

Lemma Call_ok value :
  (readOnly e = true → value = 0) →
  wp (Call run caller addr input gas value e) (call_post e gas).
Proof.
  intros Hv. unfold Call.
  destruct (_ <? _); [apply refused_ok|]. apply wp_out_bind, (wp_mono _ (λ _, True)).
  { destruct (negb _); [by apply wp_can_transfer|done]. }
  intros [] _; [|apply refused_ok]. cbn [negb].
  destruct (Snapshot (StateDB e)) as [d snapshot] eqn:Esnap.
  replace d with (Snapshot (StateDB e)).1 by (by rewrite Esnap).
  replace snapshot with (Snapshot (StateDB e)).2 by (by rewrite Esnap). clear Esnap d snapshot.
  apply wp_out_bind, wp_answer; [done|]. intros exist Ex. destruct (_ && _ && _ && _).
  { cbn. split; [lia|]. apply evm_step_db; [done|].
    destruct (readOnly e); cbn; [apply R_Snapshot|done]. }
  set (d0 := (Snapshot (StateDB e)).1). set (d1 := if negb exist then _ else d0).
  set (d2 := Transfer d1 _ addr value).
  assert (Hd2 : db_rel R (readOnly e) d0 d2).
  { destruct (readOnly e); cbn; [|done]. subst d2. rewrite Hv by done.
    eapply R_trans; [|apply R_Transfer_0]. subst d1.
    destruct exist; cbn; [apply R_refl|by apply R_CreateAccount]. }
  apply wp_out_bind. eapply wp_mono.
  { apply (callee_ok _ _ gas (with_db (λ _, d2) e)); try done. destruct (_ =? _).
    - cbn. split; [lia|]. by apply evm_step_refl.
    - apply run_call_ok; try done. apply analysis_ok_code. }
  intros [e1 res] Hpost. eapply call_end; [lia|done..].
Qed.

(** The end of the calls that run from the snapshot *)
Lemma snapshot_end d snapshot d' e1 res :
  Snapshot (StateDB e) = (d, snapshot) → db_rel R (readOnly e) d d' →
  call_post (with_db (λ _, d') e) gas (e1, res) →
  wp (finish_call snapshot e1 res) (call_post e gas).
Proof.
  intros Esnap Hd Hpost. change snapshot with (d, snapshot).2. rewrite <- Esnap.
  eapply call_end; [lia|done| |done]. by rewrite Esnap.
Qed.

Lemma CallCode_ok value : wp (CallCode run caller addr input gas value e) (call_post e gas).
Proof.
  unfold CallCode.
  destruct (_ <? _); [apply refused_ok|]. apply wp_out_bind, wp_can_transfer.
  intros []; [|apply refused_ok]. cbn [negb]. destruct (Snapshot (StateDB e)) as [d snapshot] eqn:Esnap.
  apply wp_out_bind. eapply wp_mono.
  { apply (callee_ok _ _ gas (with_db (λ _, d) e)); try done.
    apply run_call_ok; try done. apply analysis_ok_code. }
  intros [e1 res] Hpost. eapply snapshot_end; [done| |done]. by apply db_rel_refl.
Qed.

Lemma DelegateCall_ok c :
  caller = ContractPtr c → wp (DelegateCall run caller addr input gas e) (call_post e gas).
Proof.
  intros Hc. unfold DelegateCall. destruct (_ <? _); [apply refused_ok|].
  destruct (Snapshot (StateDB e)) as [d snapshot] eqn:Esnap.
  apply wp_out_bind. eapply wp_mono.
  { apply (callee_ok _ _ gas (with_db (λ _, d) e)); try done. rewrite Hc at 1.
    apply run_call_ok; try done. split_and!; cbn;
      [apply GetCode_length | right; right; by exists d, addr | done]. }
  intros [e1 res] Hpost. eapply snapshot_end; [done| |done]. by apply db_rel_refl.
Qed.

Lemma StaticCall_ok : wp (StaticCall run caller addr input gas e) (call_post e gas).
Proof.
  unfold StaticCall. destruct (_ <? _); [apply refused_ok|].
  destruct (Snapshot (StateDB e)) as [d snapshot] eqn:Esnap.
  apply wp_out_bind. eapply wp_mono.
  { apply (callee_ok _ _ gas (with_db (λ _, AddBalance d addr (Some 0)) e)); try done.
    apply run_call_ok; try done. apply analysis_ok_code. }
  intros [e1 res] Hpost. eapply snapshot_end; [done| |done].
  destruct (readOnly e); cbn; [apply R_AddBalance_0|done].
Qed.

(** ** Creations, which a static context never reaches *)

Definition create_post (e : Evm) (gas : Z) : Evm * (bytes * Address * Z * option EvmErr) → Prop :=
  λ '(e', (_, _, rest, _)), 0 ≤ rest ≤ gas ∧ estep e e'.

Lemma finish_create_ok snapshot a c ret err e1 :
  readOnly e = false → 0 ≤ Gas c ≤ gas → estep e e1 →
  create_post e gas (finish_create snapshot a c ret err e1).
Proof.
  intros Hro Hc [Hd Hr Hj _]. unfold finish_create.
  destruct (check_code ret err) as [er|].
  - destruct (_ || _); cbn; (split; [|split; cbn; try done; by rewrite Hro]); [|lia].
    destruct (reverted er); [lia|]. unfold UseGas. rewrite Z.ltb_irrefl. cbn. lia.
  - unfold UseGas. pose proof (wrap64_range (zlen ret * CreateDataGas)) as Hw.
    unfold in_u64 in Hw. destruct (Z.ltb_spec (Gas c) (wrap64 (zlen ret * CreateDataGas))).
    + destruct (_ || _); cbn; (split; [|split; cbn; try done; by rewrite Hro]); [|lia].
      rewrite Z.ltb_irrefl. destruct (reverted _); cbn; lia.
    + cbn. split; [lia|]. split; cbn; try done. by rewrite Hro.
Qed.

Lemma create_ok ch value :
  readOnly e = false → zlen (cah_code ch) < 2 ^ 61 →
  (cah_hash ch = zero_hash ∨ named (cah_hash ch) (cah_code ch)) →
  wp (create run caller ch gas value addr e) (create_post e gas).
Proof.
  intros Hro Hlen Hhash. unfold create.
  assert (Hself : estep e e) by by apply evm_step_refl.
  assert (Hdb : ∀ d, estep e (with_db (λ _, d) e))
    by (intros d; apply evm_step_db; [done|by rewrite Hro]).
  destruct (_ <? _); [by cbn; split; [lia|]|]. apply wp_out_bind, wp_can_transfer.
  intros []; cbn [negb]; [|by cbn; split; [lia|]].
  destruct (_ <? _); [by cbn; split; [lia|]|]. destruct (_ || _); [cbn; split; [lia|apply Hdb]|].
  destruct (Snapshot _) as [d snapshot]. apply wp_out_bind. eapply wp_mono.
  { by apply run_new_ok. }
  intros [[e1 c1] [ret err]] [Hg1 He1]. cbn [Out_ret mret wp].
  apply finish_create_ok; [done..|]. eapply evm_step_trans; [done|apply Hdb|exact He1].
Qed.

End calls.
