(* ===== verification/EvmGasOk.v ===== *)
(** * The virtual machine: prices cover what operations use

    The price of each operation is charged without a panic, covers the gas it hands to
    the contracts it calls, and is positive unless the operation ends the frame.  The
    price of memory may wrap around when memory has shrunk, and so may the price of
    a call to a cold address; the potential accounts for both. *)

From S2P Require Import Prelude OpCodes EvmBase EvmData EvmGas EvmPrecompiles EvmCalls.
From S2P Require Import EvmInstr EvmTable EvmRun EvmAnalysis EvmWp.

(** [param c]: the bounds of the constant [c] *)
Ltac param c :=
  let Hp := fresh "Hp" in
  assert (Hp : 0 < c < 2 ^ 20)
    by (apply (proj1 (Forall_forall _ _) params_bounds); repeat constructor).

Section gas.
Context `{Uint256, !Uint256Laws H, Params, !ParamsLaws H0, Geth, !GethLaws H1, PrecompileCrypto,
  FakeDB, !Env}.
Variable R : db → db → Prop.
Context {SL : StaticLaws R}.

Abbreviation estep := (evm_step R).

(** ** Sizes *)

Lemma toWordSize_ok n :
  in_u64 n → in_u64 (toWordSize n) ∧ n ≤ 32 * toWordSize n ∧ 32 * toWordSize n < n + 32.
Proof.
  intros Hn. unfold toWordSize, MaxUint64, in_u64 in *.
  destruct (Z.ltb_spec (2 ^ 64 - 1 - 31) n).
  - change ((2 ^ 64 - 1) / 32 + 1) with (2 ^ 59). lia.
  - rewrite wrap64_small by (unfold in_u64; lia).
    pose proof (Z.div_mod (n + 31) 32 ltac:(lia)). pose proof (Z.mod_pos_bound (n + 31) 32 ltac:(lia)).
    lia.
Qed.

Lemma calcMemSize64WithUint_range off l : in_u64 (calcMemSize64WithUint off l).1.
Proof.
  unfold calcMemSize64WithUint. destruct (_ =? _); [done|].
  rewrite u_Uint64WithOverflow_spec. destruct (_ <=? _); [done|]. apply wrap64_range.
Qed.

Lemma calcMemSize64_range off l : in_u64 (calcMemSize64 off l).1.
Proof.
  unfold calcMemSize64. destruct (negb _); [done|]. apply calcMemSize64WithUint_range.
Qed.

(** A memory size function needs [k] operands. *)
Definition memory_total (k : Z) (f : memorySizeFunc) : Prop :=
  ∀ st, k ≤ zlen st → ∃ n ov, f st = Ret (n, ov) ∧ in_u64 n.

Lemma Back_total (st : list U) i : 0 ≤ i < zlen st → ∃ x, Back st i = Ret x.
Proof. intros Hi. destruct (index_ok (E := EvmErr) st i Hi) as (x & E & _). by exists x. Qed.

Lemma memory_at_total k i j : 0 ≤ i < k → 0 ≤ j < k → memory_total k (memory_at i j).
Proof.
  intros Hi Hj st Hst. unfold memory_at.
  destruct (Back_total st i) as [x Ex]; [lia|]. destruct (Back_total st j) as [y Ey]; [lia|].
  rewrite Ex, Ey. exec. eexists _, _. split; [f_equal; apply surjective_pairing|].
  apply calcMemSize64_range.
Qed.

Lemma memory_off_total k l :
  1 ≤ k → memory_total k (λ st, off ← Back st 0; Ret (calcMemSize64WithUint off l)).
Proof.
  intros Hk st Hst. destruct (Back_total st 0) as [x Ex]; [lia|]. rewrite Ex. exec.
  eexists _, _. split; [f_equal; apply surjective_pairing|]. apply calcMemSize64WithUint_range.
Qed.

Lemma memory_max_total k i j i' j' :
  0 ≤ i < k → 0 ≤ j < k → 0 ≤ i' < k → 0 ≤ j' < k → memory_total k (memory_max i j i' j').
Proof.
  intros Hi Hj Hi' Hj' st Hst. unfold memory_max.
  destruct (memory_at_total k i j Hi Hj st Hst) as (x & ov & E & Hx). rewrite E. exec.
  destruct ov; [by eexists _, _|].
  destruct (memory_at_total k i' j' Hi' Hj' st Hst) as (y & ov & E' & Hy). rewrite E'. exec.
  destruct ov; [by eexists _, _|]. destruct (_ <? _); by eexists _, _.
Qed.

(** ** The price of memory *)

(** [fee] raises the total paid for memory from [last] to [last'], at most; it may have
    wrapped around. *)
Definition fee_ok (last last' fee : Z) : Prop :=
  in_u64 fee ∧ 0 ≤ last' < 2 ^ 56 ∧
  (fee < 2 ^ 56 ∧ last' ≤ last + fee ∨ last' = last + fee - 2 ^ 64).

Lemma memoryGasCost_ok s size :
  mem_ok (Mem s) → 0 ≤ size →
  (∃ e, memoryGasCost size s = Done (s, inl e)) ∨
  (∃ last' fee, memoryGasCost size s =
     Done (set_mem (mkMemory (store (Mem s)) last') s, inr fee) ∧
     fee_ok (lastGasCost (Mem s)) last' fee ∧ size ≤ MaxMemory).
Proof.
  intros [Hlen Hlast] Hsize. unfold memoryGasCost. exec.
  assert (Hself : fee_ok (lastGasCost (Mem s)) (lastGasCost (Mem s)) 0)
    by (unfold fee_ok, in_u64; lia).
  assert (Hs : set_mem (mkMemory (store (Mem s)) (lastGasCost (Mem s))) s = s)
    by (by destruct s as [? ? [] ? ?]).
  destruct (Z.eqb_spec size 0) as [->|Hz].
  { right. exists (lastGasCost (Mem s)), 0. rewrite Hs. by split_and!. }
  destruct (Z.ltb_spec 0x1FFFFFFFE0 size); [left; by eexists|]. right.
  destruct (toWordSize_ok size) as (Hw & Hle & Hlt); [unfold in_u64; lia|].
  set (w := toWordSize size) in *. clearbody w.
  destruct (Z.ltb_spec (mem_Len (Mem s)) (wrap64 (w * 32))) as [Hgrow|Hgrow].
  2: { exists (lastGasCost (Mem s)), 0. rewrite Hs. by split_and!. }
  rewrite MemoryGas_value, QuadCoeffDiv_value.
  assert (Hw32 : w < 2 ^ 32) by lia. unfold in_u64 in Hw.
  assert (Hww : 0 ≤ w * w < 2 ^ 64).
  { pose proof (Z.mul_nonneg_nonneg w w).
    pose proof (Z.mul_le_mono_nonneg w (2 ^ 32 - 1) w (2 ^ 32 - 1)). lia. }
  rewrite (wrap64_small (w * w)) by done.
  rewrite (wrap64_small (w * 3)) by (unfold in_u64; lia).
  assert (Hq : 0 ≤ w * w / 512 < 2 ^ 55)
    by (split; [apply Z.div_pos; lia | apply Z.div_lt_upper_bound; lia]).
  rewrite (wrap64_small (w * 3 + w * w / 512)) by (unfold in_u64; lia).
  set (total := w * 3 + w * w / 512) in *.
  exists total, (total -₆₄ lastGasCost (Mem s)). split; [done|]. split; [|unfold MaxMemory; lia].
  unfold fee_ok. split; [apply wrap64_range|]. split; [lia|].
  destruct (Z.leb_spec (lastGasCost (Mem s)) total).
  - left. rewrite wrap64_small by (unfold in_u64; lia). lia.
  - right. replace (total -₆₄ lastGasCost (Mem s)) with (total - lastGasCost (Mem s) + 2 ^ 64); [lia|].
    unfold wrap64. rewrite <- (Z.mod_add _ 1) by lia. rewrite Z.mod_small; lia.
Qed.

(** ** Rules for the price functions *)

Lemma wp_try {A B} (m : Exec (EvmErr + A)) (k : A → Exec (EvmErr + B)) s Q :
  wp (m s) (λ '(s', r), match r with inl e => Q (s', inl e) | inr a => wp (k a s') Q end) →
  wp (try_bind k m s) Q.
Proof.
  intros Hm. apply wp_bind. eapply wp_mono; [exact Hm|]. by intros [s' [e|a]].
Qed.

Lemma wp_add x y s (Q : St * (EvmErr + Z) → Prop) :
  in_u64 x → in_u64 y → (∀ e, Q (s, inl e)) → (in_u64 (x + y) → Q (s, inr (x + y))) →
  wp (add_or_overflow x y s) Q.
Proof.
  intros Hx Hy He Ha. unfold add_or_overflow. rewrite SafeAdd_spec by done.
  unfold in_u64 in *. destruct (Z.leb_spec (2 ^ 64) (x + y)); [apply He|].
  rewrite wrap64_small by (unfold in_u64; lia). apply Ha. lia.
Qed.

Lemma wp_mul x y s (Q : St * (EvmErr + Z) → Prop) :
  in_u64 x → in_u64 y → (∀ e, Q (s, inl e)) → (in_u64 (x * y) → Q (s, inr (x * y))) →
  wp (mul_or_overflow x y s) Q.
Proof.
  intros Hx Hy He Ha. unfold mul_or_overflow. rewrite SafeMul_spec by done.
  unfold in_u64 in *. destruct (Z.leb_spec (2 ^ 64) (x * y)); [apply He|].
  pose proof (Z.mul_nonneg_nonneg x y).
  rewrite wrap64_small by (unfold in_u64; lia). apply Ha. lia.
Qed.

Lemma wp_uint64 x s (Q : St * (EvmErr + Z) → Prop) :
  (∀ e, Q (s, inl e)) → (in_u64 (u_val x) → Q (s, inr (u_val x))) →
  wp (uint64_or_overflow x s) Q.
Proof.
  intros He Ha. unfold uint64_or_overflow. rewrite u_Uint64WithOverflow_spec.
  pose proof (u_val_range x). destruct (Z.leb_spec (2 ^ 64) (u_val x)); [apply He|].
  unfold in_u64 in *. rewrite wrap64_small by (unfold in_u64; lia). apply Ha. lia.
Qed.

Lemma wp_back i s (Q : St * U → Prop) :
  0 ≤ i < zlen (Stack s) → (∀ x, Back (Stack s) i = Ret x → Q (s, x)) → wp (back i s) Q.
Proof.
  intros Hi HQ. unfold back. destruct (Back_total (Stack s) i Hi) as [x E]. rewrite E.
  by apply HQ.
Qed.

Lemma wp_memory size s (Q : St * (EvmErr + Z) → Prop) :
  mem_ok (Mem s) → 0 ≤ size → (∀ e, Q (s, inl e)) →
  (∀ last' fee, fee_ok (lastGasCost (Mem s)) last' fee → size ≤ MaxMemory →
     Q (set_mem (mkMemory (store (Mem s)) last') s, inr fee)) →
  wp (memoryGasCost size s) Q.
Proof.
  intros Hm Hs He Ha.
  destruct (memoryGasCost_ok s size Hm Hs) as [[e E]|(last' & fee & E & Hfee & Hsz)];
    rewrite E; [apply He|by apply Ha].
Qed.

(** ** What a price function promises *)

Definition frame_same (s s' : St) : Prop :=
  pc s' = pc s ∧ Stack s' = Stack s ∧ store (Mem s') = store (Mem s) ∧
  Con s' = with_gas (Gas (Con s')) (Con s).

(** The price covers [lo], the reserve [res] and the change of the total paid for
    memory; [mem] tells whether it bounds the memory size. *)
Definition gas_post (mem : bool) (lo : Z) (res : list U → Evm → Z) (s : St) (size : Z) :
    St * (EvmErr + Z) → Prop := λ '(s', r),
  estep (evm s) (evm s') ∧ frame_same s s' ∧
  match r with
  | inl _ => 0 ≤ Gas (Con s') ≤ Gas (Con s)
  | inr g =>
      Gas (Con s') = Gas (Con s) ∧ 0 ≤ lastGasCost (Mem s') < 2 ^ 56 ∧ 0 ≤ g ∧
      0 ≤ res (Stack s') (evm s') ∧
      lastGasCost (Mem s') + res (Stack s') (evm s') + lo ≤ lastGasCost (Mem s) + g ∧
      (mem = true → size ≤ MaxMemory)
  end.

Definition gas_spec (mem : bool) (pops lo : Z) (res : list U → Evm → Z) (f : gasFunc) : Prop :=
  ∀ s size, st_ok s → pops ≤ zlen (Stack s) → 0 ≤ size →
  wp (f size s) (gas_post mem lo res s size).

Definition no_reserve : list U → Evm → Z := λ _ _, 0.

Lemma gas_post_err mem lo res s size e : st_ok s → gas_post mem lo res s size (s, inl e).
Proof.
  intros [? ? ? (_ & ? & _) ? ?]. split; [by apply evm_step_refl|].
  split; [by destruct s as [? ? ? [] ?]|]. cbn. lia.
Qed.

Lemma gas_post_memory_err mem lo res s size last' e :
  st_ok s → gas_post mem lo res s size (set_mem (mkMemory (store (Mem s)) last') s, inl e).
Proof.
  intros [? ? ? (_ & ? & _) ? ?]. split; [by apply evm_step_refl|].
  split; [by destruct s as [? ? ? [] ?]|]. cbn. lia.
Qed.

Lemma gas_post_ok lo s size g :
  st_ok s → lo ≤ g → 0 ≤ g → gas_post false lo no_reserve s size (s, inr g).
Proof.
  intros [? ? [? ?] ? ? ?] Hlo Hg. split; [by apply evm_step_refl|].
  split; [by destruct s as [? ? ? [] ?]|]. unfold no_reserve. cbn. split_and!; lia || done.
Qed.

Lemma gas_post_memory lo s size last' fee extra :
  st_ok s → fee_ok (lastGasCost (Mem s)) last' fee → size ≤ MaxMemory →
  lo ≤ extra → 0 ≤ extra →
  gas_post true lo no_reserve s size
    (set_mem (mkMemory (store (Mem s)) last') s, inr (fee + extra)).
Proof.
  intros [? ? ? ? ? ?] (Hf & Hl & Hc) Hsz Hlo He. unfold in_u64 in Hf. split; [by apply evm_step_refl|].
  split; [by destruct s as [? ? ? [] ?]|]. unfold no_reserve. cbn.
  split_and!; lia || done.
Qed.

(** ** The price functions *)

(** One step of a price function *)
Ltac gas_step :=
  match goal with
  | |- wp (try_bind _ _ _) _ => apply wp_try
  | |- wp ((_ ≫= _) _) _ => apply wp_bind
  | |- wp (back _ _) _ => apply wp_back; [cbn; lia | intros ? ?]
  | |- wp (uint64_or_overflow _ _) _ => apply wp_uint64; [intros ? | intros ?]
  | |- wp (memoryGasCost _ _) _ =>
      apply wp_memory; [by apply ok_mem | done | intros ? | intros ? ? ? ?]
  | |- wp (add_or_overflow _ _ _) _ => apply wp_add; [| |intros ?|intros ?]
  | |- wp (mul_or_overflow _ _ _) _ => apply wp_mul; [| |intros ?|intros ?]
  | |- wp (fail ?e ?s) ?Q => change (Q (s, inl (B := Z) e)); cbv beta iota
  | |- wp (ok ?a ?s) ?Q => change (Q (s, inr (A := EvmErr) a)); cbv beta iota
  | |- wp (mret ?a ?s) ?Q => change (Q (s, a)); cbv beta iota
  | |- wp (get ?f ?s) ?Q => change (Q (s, f s)); cbv beta iota
  | |- wp (get_db ?f ?s) ?Q => change (Q (s, f (StateDB (evm s)))); cbv beta iota
  | |- wp (read_balance _ _) _ => apply wp_read_balance; intros ?
  | |- wp (read_state _ _ _) _ => apply wp_read_state; intros ?
  | |- wp (read_exist _ _) _ => apply wp_read_exist; intros ?
  | |- wp (read_empty _ _) _ => apply wp_read_empty; intros ?
  | |- wp (address ?s) ?Q => change (Q (s, self (Con s))); cbv beta iota
  | |- gas_post _ _ _ _ _ (_, inl _) => first [by apply gas_post_err | by apply gas_post_memory_err]
  | |- in_u64 (toWordSize _) => by apply toWordSize_ok
  | H : fee_ok _ _ ?f |- in_u64 ?f => apply H
  | |- in_u64 _ => first [done | by unfold in_u64; lia | by apply wrap64_range]
  end.

Lemma pureMemoryGascost_ok pops : 0 ≤ pops → gas_spec true pops 0 no_reserve pureMemoryGascost.
Proof.
  intros Hp s size Hs Hst Hsize. unfold pureMemoryGascost. repeat gas_step.
  replace fee with (fee + 0) by lia. by apply gas_post_memory.
Qed.

Lemma memoryCopierGas_ok pos pops :
  0 ≤ pos < pops → gas_spec true pops 0 no_reserve (memoryCopierGas pos).
Proof.
  intros Hp s size Hs Hst Hsize. param CopyGas. unfold memoryCopierGas. repeat gas_step.
  apply gas_post_memory; unfold in_u64 in *; lia || done.
Qed.

Lemma makeGasLog_ok k pops : 2 ≤ pops → gas_spec true pops 1 no_reserve (makeGasLog k).
Proof.
  intros Hp s size Hs Hst Hsize. param LogGas. param LogTopicGas. param LogDataGas.
  pose proof (wrap64_range (k * LogTopicGas)). unfold makeGasLog. repeat gas_step.
  rewrite <- !Z.add_assoc. apply gas_post_memory; unfold in_u64 in *; lia || done.
Qed.

Lemma gasKeccak256_ok pops : 2 ≤ pops → gas_spec true pops 0 no_reserve gasKeccak256.
Proof.
  intros Hp s size Hs Hst Hsize. param Keccak256WordGas. unfold gasKeccak256. repeat gas_step.
  apply gas_post_memory; unfold in_u64 in *; lia || done.
Qed.

Lemma gasCreate2_ok pops : 3 ≤ pops → gas_spec true pops 0 no_reserve gasCreate2.
Proof.
  intros Hp s size Hs Hst Hsize. param Keccak256WordGas. unfold gasCreate2. repeat gas_step.
  apply gas_post_memory; unfold in_u64 in *; lia || done.
Qed.

Lemma gasCreateEip3860_ok pops : 3 ≤ pops → gas_spec true pops 0 no_reserve gasCreateEip3860.
Proof.
  intros Hp s size Hs Hst Hsize. unfold gasCreateEip3860. repeat gas_step.
  rewrite u_Uint64WithOverflow_spec. destruct (_ || _); repeat gas_step.
  apply gas_post_memory; unfold in_u64 in *; try done; apply wrap64_range.
Qed.

Lemma gasCreate2Eip3860_ok pops : 3 ≤ pops → gas_spec true pops 0 no_reserve gasCreate2Eip3860.
Proof.
  intros Hp s size Hs Hst Hsize. unfold gasCreate2Eip3860. repeat gas_step.
  rewrite u_Uint64WithOverflow_spec. destruct (_ || _); repeat gas_step.
  apply gas_post_memory; unfold in_u64 in *; try done; apply wrap64_range.
Qed.

Lemma gasExpFrontier_ok pops : 2 ≤ pops → gas_spec false pops 1 no_reserve gasExpFrontier.
Proof.
  intros Hp s size Hs Hst Hsize. param ExpGas. unfold gasExpFrontier. repeat gas_step.
  pose proof (wrap64_range ((u_BitLen x + 7) / 8 * ExpByteFrontier)).
  apply gas_post_ok; unfold in_u64 in *; lia || done.
Qed.

Lemma gasExpEIP158_ok pops : 2 ≤ pops → gas_spec false pops 1 no_reserve gasExpEIP158.
Proof.
  intros Hp s size Hs Hst Hsize. param ExpGas. unfold gasExpEIP158. repeat gas_step.
  pose proof (wrap64_range ((u_BitLen x + 7) / 8 * ExpByteEIP158)).
  apply gas_post_ok; unfold in_u64 in *; lia || done.
Qed.

(** ** Prices that depend on the state, and change its bookkeeping *)

(** [s'] is [s] with a related state *)
Definition db_step (s s' : St) : Prop :=
  ∃ d, R (StateDB (evm s)) d ∧ s' = set_evm (with_db (λ _, d) (evm s)) s.

Lemma db_step_refl s : db_step s s.
Proof. exists (StateDB (evm s)). split; [apply R_refl|]. by destruct s as [? ? ? ? []]. Qed.

Lemma wp_upd_db s0 s f (Q : St * unit → Prop) :
  db_step s0 s → (∀ d, R d (f d)) → (∀ s', db_step s0 s' → Q (s', tt)) → wp (upd_db f s) Q.
Proof.
  intros (d & Hd & ->) Hf HQ. apply HQ. exists (f d). split; [|done]. by eapply R_trans.
Qed.

Lemma gas_post_db lo s s' size g :
  st_ok s → db_step s s' → lo ≤ g → 0 ≤ g → gas_post false lo no_reserve s size (s', inr g).
Proof.
  intros [? ? [? ?] ? ? ?] (d & Hd & ->) Hlo Hg. split.
  { split; cbn; try done. by destruct (readOnly (evm s)). }
  split; [by destruct s as [? ? ? [] ?]|]. unfold no_reserve. cbn. split_and!; lia || done.
Qed.

Lemma wp_peek s (Q : St * U → Prop) :
  1 ≤ zlen (Stack s) → (∀ x, Back (Stack s) 0 = Ret x → Q (s, x)) → wp (peek s) Q.
Proof. intros Hi HQ. apply wp_back; [lia|done]. Qed.

(** A step of a price function that touches the state *)
Ltac db_gas_step :=
  match goal with
  | |- wp (peek _) _ => apply wp_peek; [cbn; lia | intros ? ?]
  | |- wp ((if ?b then _ else _) _) _ => destruct b
  | E : SlotInAccessList _ _ _ = (false, false) |- wp (canary _ _ _ _) _ => exact E
  | |- wp (funds_new _ _ _) _ => unfold funds_new
  | Hd : db_step ?s0 ?s |- wp (upd_db _ ?s) _ =>
      apply (wp_upd_db s0 s); [exact Hd | | intros ? ?];
      [intros ?; first [apply R_AddRefund | apply R_SubRefund | apply R_AddAddress | apply R_AddSlot] |]
  | |- _ => gas_step
  end.

(** A price that is one of the constants *)
Ltac price := apply gas_post_db; [done|done| |]; match goal with |- _ ≤ ?c => param c; lia end.

Lemma gasSStore_ok pops : 2 ≤ pops → gas_spec false pops 1 no_reserve gasSStore.
Proof.
  intros Hp s size Hs Hst Hsize. pose proof (db_step_refl s) as Hd.
  unfold gasSStore. repeat db_gas_step. all: price.
Qed.

Lemma gasSStoreEIP2200_ok pops : 2 ≤ pops → gas_spec false pops 1 no_reserve gasSStoreEIP2200.
Proof.
  intros Hp s size Hs Hst Hsize. pose proof (db_step_refl s) as Hd.
  unfold gasSStoreEIP2200. repeat db_gas_step. all: price.
Qed.

Lemma makeGasSStoreFunc_ok r pops :
  2 ≤ pops → gas_spec false pops 1 no_reserve (makeGasSStoreFunc r).
Proof.
  intros Hp s size Hs Hst Hsize. pose proof (db_step_refl s) as Hd.
  param ColdSloadCostEIP2929. param WarmStorageReadCostEIP2929. param SstoreSetGasEIP2200.
  param SstoreResetGasEIP2200. pose proof sload_below_reset.
  assert (E : SstoreResetGasEIP2200 -₆₄ ColdSloadCostEIP2929
              = SstoreResetGasEIP2200 - ColdSloadCostEIP2929)
    by (apply wrap64_small; unfold in_u64; lia).
  unfold makeGasSStoreFunc. repeat db_gas_step.
  all: try destruct (SlotInAccessList _ _ _) as [[] []] eqn:?; cbn [negb].
  all: repeat db_gas_step; apply gas_post_db; try done.
  all: rewrite ?E, wrap64_small by (unfold in_u64; lia); lia.
Qed.

Lemma gasSLoadEIP2929_ok pops : 1 ≤ pops → gas_spec false pops 1 no_reserve gasSLoadEIP2929.
Proof.
  intros Hp s size Hs Hst Hsize. pose proof (db_step_refl s) as Hd.
  unfold gasSLoadEIP2929. repeat db_gas_step.
  destruct (SlotInAccessList _ _ _) as [? []]; repeat db_gas_step; price.
Qed.

Lemma gasEip2929AccountCheck_ok pops :
  1 ≤ pops → gas_spec false pops 0 no_reserve gasEip2929AccountCheck.
Proof.
  intros Hp s size Hs Hst Hsize. pose proof (db_step_refl s) as Hd.
  unfold gasEip2929AccountCheck. repeat db_gas_step.
  - apply gas_post_db; try done; apply wrap64_range.
  - by apply gas_post_db.
Qed.

Lemma gasSelfdestruct_ok pops : 1 ≤ pops → gas_spec false pops 0 no_reserve gasSelfdestruct.
Proof.
  intros Hp s size Hs Hst Hsize. pose proof (db_step_refl s) as Hd. param SelfdestructGasEIP150.
  unfold gasSelfdestruct. repeat db_gas_step.
  all: apply gas_post_db; try done.
  all: repeat case_match; try lia; try apply wrap64_range.
Qed.

Lemma makeSelfdestructGasFn_ok b pops :
  1 ≤ pops → gas_spec false pops 0 no_reserve (makeSelfdestructGasFn b).
Proof.
  intros Hp s size Hs Hst Hsize. pose proof (db_step_refl s) as Hd.
  param ColdAccountAccessCostEIP2929.
  unfold makeSelfdestructGasFn. repeat db_gas_step.
  all: apply gas_post_db; try done.
  all: repeat case_match; try lia; try apply wrap64_range.
Qed.

(** The same after a change of memory and of the state *)
Lemma gas_post_both mem lo s s' size last' r :
  st_ok s → db_step (set_mem (mkMemory (store (Mem s)) last') s) s' →
  match r with
  | inl _ => True
  | inr g => ∃ fee extra, g = fee + extra ∧ fee_ok (lastGasCost (Mem s)) last' fee ∧
      size ≤ MaxMemory ∧ lo ≤ extra ∧ 0 ≤ extra
  end →
  gas_post mem lo no_reserve s size (s', r).
Proof.
  intros [? ? ? (_ & ? & _) ? ?] (d & Hd & ->) Hr. split.
  { split; cbn; try done. by destruct (readOnly (evm s)). }
  split; [by destruct s as [? ? ? [] ?]|]. destruct r as [e|g]; [cbn; lia|].
  destruct Hr as (fee & extra & -> & (Hf & Hl & Hc) & Hsz & Hlo & He). unfold in_u64 in Hf.
  unfold no_reserve. cbn. split_and!; lia || done.
Qed.

Lemma gasExtCodeCopyEIP2929_ok pops :
  4 ≤ pops → gas_spec true pops 0 no_reserve gasExtCodeCopyEIP2929.
Proof.
  intros Hp s size Hs Hst Hsize. param CopyGas.
  unfold gasExtCodeCopyEIP2929, gasExtCodeCopy, memoryCopierGas. repeat gas_step.
  all: repeat db_gas_step.
  - pose proof (db_step_refl (set_mem (mkMemory (store (Mem s)) last') s)) as Hd.
    pose proof (wrap64_range (ColdAccountAccessCostEIP2929 - WarmStorageReadCostEIP2929)).
    repeat db_gas_step; (eapply gas_post_both; [done|done|]); [done|].
    eexists fee, _. split; [by rewrite <- Z.add_assoc|]. unfold in_u64 in *.
    split_and!; lia || done.
  - apply gas_post_memory; unfold in_u64 in *; lia || done.
Qed.

(** ** Calls *)

Lemma callGas_ok b avail base x :
  match callGas b avail base x with
  | inl _ => True
  | inr g => 0 ≤ g < 2 ^ 64 ∧ (b = true → g ≤ 2 ^ 64 - 2 ^ 58 + 1)
  end.
Proof.
  unfold callGas. set (w := avail -₆₄ base).
  assert (Hw : 0 ≤ w < 2 ^ 64) by apply wrap64_range. clearbody w.
  pose proof (Z.div_mod w 64 ltac:(lia)). pose proof (Z.mod_pos_bound w 64 ltac:(lia)).
  rewrite (wrap64_small (w - w / 64)) by (unfold in_u64; lia).
  rewrite u_IsUint64_spec, u_Uint64_spec.
  pose proof (wrap64_range (u_val x)) as Hx. unfold in_u64 in Hx.
  destruct b; cbn [andb]; destruct (_ <? 2 ^ 64); cbn [negb orb]; try done.
  - destruct (Z.ltb_spec (w - w / 64) (wrap64 (u_val x))); lia.
  - lia.
Qed.

(** The stipend of a call that transfers a value, the third operand *)
Definition stipend (st : list U) : Z :=
  match st with
  | _ :: _ :: v :: _ => if u_val v =? 0 then 0 else CallStipend
  | _ => 0
  end.

(** What a call may add to the gas of the frame: the gas handed over and the stipend *)
Definition call_reserve (stip : list U → Z) : list U → Evm → Z :=
  λ st e, callGasTemp e + stip st.

(** The price of a call: a base, the memory and the gas that is handed over *)
Definition call_gas_post (stip : list U → Z) (s : St) (size : Z) : St * (EvmErr + Z) → Prop :=
  λ '(s', r), ∃ last' temp,
    s' = set_evm (with_callGasTemp temp (evm s))
           (set_mem (mkMemory (store (Mem s)) last') s) ∧
    match r with
    | inl _ => True
    | inr g => ∃ base fee, g = base + fee + temp ∧ in_u64 g ∧
        fee_ok (lastGasCost (Mem s)) last' fee ∧ size ≤ MaxMemory ∧
        stip (Stack s) ≤ base < 2 ^ 22 ∧ 0 ≤ base ∧ 0 ≤ temp ∧
        (IsEIP150 chainRules = true → temp ≤ 2 ^ 64 - 2 ^ 58 + 1)
    end.

Definition call_gas_spec (pops : Z) (stip : list U → Z) (f : gasFunc) : Prop :=
  ∀ s size, st_ok s → pops ≤ zlen (Stack s) → 0 ≤ size →
  wp (f size s) (call_gas_post stip s size).

Lemma wp_set_callGas gas s (Q : St * (EvmErr + Z) → Prop) :
  1 ≤ zlen (Stack s) →
  (∀ e, Q (set_evm (with_callGasTemp 0 (evm s)) s, inl e)) →
  (∀ t, 0 ≤ t < 2 ^ 64 → (IsEIP150 chainRules = true → t ≤ 2 ^ 64 - 2 ^ 58 + 1) →
     Q (set_evm (with_callGasTemp t (evm s)) s, inr t)) →
  wp (set_callGas gas s) Q.
Proof.
  intros Hst He Ha. unfold set_callGas. apply wp_bind, wp_back; [lia|]. intros x _.
  apply wp_bind. cbn. pose proof (callGas_ok (IsEIP150 chainRules) (Gas (Con s)) gas x) as Hg.
  destruct (callGas _ _ _ _) as [e|g]; [apply He|]. destruct Hg as [Hg1 Hg2]. by apply Ha.
Qed.

Lemma call_gas_err stip s size e : call_gas_post stip s size (s, inl e).
Proof.
  exists (lastGasCost (Mem s)), (callGasTemp (evm s)). split; [|done].
  by destruct s as [? ? [] ? []].
Qed.

Lemma call_gas_memory_err stip s size last' e :
  call_gas_post stip s size (set_mem (mkMemory (store (Mem s)) last') s, inl e).
Proof.
  exists last', (callGasTemp (evm s)). split; [|done]. by destruct s as [? ? [] ? []].
Qed.

Lemma call_gas_temp_err stip s size last' t e :
  call_gas_post stip s size
    (set_evm (with_callGasTemp t (evm s)) (set_mem (mkMemory (store (Mem s)) last') s), inl e).
Proof. by exists last', t. Qed.

Ltac call_gas_step :=
  match goal with
  | |- wp (set_callGas _ _) _ => apply wp_set_callGas; [cbn; lia | intros ? | intros ? ? ?]
  | |- call_gas_post _ _ _ (_, inl _) =>
      change (evm (set_mem ?m ?s)) with (evm s);
      first [apply call_gas_err | apply call_gas_memory_err | apply call_gas_temp_err]
  | |- _ => gas_step
  end.

Ltac call_gas_until_add :=
  repeat lazymatch goal with
  | |- wp (add_or_overflow _ _ _) _ => fail
  | |- _ => call_gas_step
  end.

(** The stack of a call has its value in third place. *)
Lemma stipend_value s x :
  3 ≤ zlen (Stack s) → Back (Stack s) 2 = Ret x →
  stipend (Stack s) = if u_val x =? 0 then 0 else CallStipend.
Proof.
  destruct (Stack s) as [|a [|b [|v st]]]; unfold zlen; cbn; try lia. intros _ E.
  change (Back (a :: b :: v :: st) 2) with (@Ret EvmErr U v) in E. by injection E as ->.
Qed.

Lemma gasDelegateCall_ok pops : 6 ≤ pops → call_gas_spec pops (λ _, 0) gasDelegateCall.
Proof.
  intros Hp s size Hs Hst Hsize. unfold gasDelegateCall. repeat call_gas_step.
  eexists _, _. split; [done|]. cbv beta iota. exists 0, fee. rewrite Z.add_0_l. split_and!; done || lia.
Qed.

Lemma gasStaticCall_ok pops : 6 ≤ pops → call_gas_spec pops (λ _, 0) gasStaticCall.
Proof. apply gasDelegateCall_ok. Qed.

Lemma gasCallCode_ok pops : 7 ≤ pops → call_gas_spec pops stipend gasCallCode.
Proof.
  intros Hp s size Hs Hst Hsize. param CallValueTransferGas. param CallStipend.
  pose proof stipend_paid. unfold gasCallCode. call_gas_until_add.
  rewrite (wrap64_small (0 + CallValueTransferGas)) by (unfold in_u64; lia).
  pose proof (u_Sign_zero x) as Hsign.
  pose proof (stipend_value s x ltac:(lia) ltac:(done)) as Hstip.
  set (base := if negb (u_Sign x =? 0) then _ else 0).
  assert (Hbase : stipend (Stack s) ≤ base < 2 ^ 22 ∧ 0 ≤ base).
  { subst base. rewrite Hstip. destruct (Z.eqb_spec (u_Sign x) 0), (Z.eqb_spec (u_val x) 0); cbn;
      lia || tauto. }
  clearbody base. repeat call_gas_step.
  eexists _, _. split; [done|]. cbv beta iota. exists base, fee. split_and!; done || lia.
Qed.

Lemma gasCall_ok pops : 7 ≤ pops → call_gas_spec pops stipend gasCall.
Proof.
  intros Hp s size Hs Hst Hsize. param CallValueTransferGas. param CallStipend.
  param CallNewAccountGas. pose proof stipend_paid. unfold gasCall. call_gas_until_add.
  apply (wp_mono _ (λ r, ∃ new, r = (s, new))).
  { destruct (IsEIP158 _), (negb (u_IsZero x)); repeat call_gas_step; by eexists. }
  intros _ [new ->]. call_gas_until_add.
  rewrite (wrap64_small (0 + CallNewAccountGas)) by (unfold in_u64; lia).
  pose proof (stipend_value s x ltac:(lia) ltac:(done)) as Hstip.
  set (account := if new then _ else _).
  assert (Ha : account = 0 ∨ account = CallNewAccountGas)
    by (subst account; repeat case_match; lia).
  rewrite u_IsZero_spec in *. clearbody account.
  set (base := if negb (u_val x =? 0) then _ else _).
  assert (Hbase : stipend (Stack s) ≤ base < 2 ^ 22 ∧ 0 ≤ base).
  { subst base. rewrite Hstip. destruct (u_val x =? 0); cbn; [lia|].
    rewrite wrap64_small by (unfold in_u64; lia). lia. }
  clearbody base. repeat call_gas_step.
  eexists _, _. split; [done|]. cbv beta iota. exists base, fee. split_and!; done || lia.
Qed.

Lemma call_gas_plain pops stip f :
  (∀ st, 0 ≤ stip st) → call_gas_spec pops stip f →
  gas_spec true pops 0 (call_reserve stip) f.
Proof.
  intros Hstip Hf s size Hs Hst Hsize. eapply wp_mono; [by apply Hf|].
  intros [s' r] (last' & temp & -> & Hr). pose proof (Hstip (Stack s)).
  destruct Hs as [? ? ? (_ & ? & _) ? ?].
  split; [by split; cbn; try done; apply db_rel_refl|].
  split; [by destruct s as [? ? ? [] ?]|]. destruct r as [e|g]; [cbn; lia|].
  destruct Hr as (base & fee & -> & Hg & (Hf1 & Hf2 & Hf3) & Hsz & Hb & Hb0 & Ht & _).
  unfold in_u64, call_reserve in *. cbn. split_and!; lia || done.
Qed.

(** The wrap-around of the price of a cold call is compensated by that of its memory. *)
Lemma cold_call_covers base fee temp cold last last' stip :
  in_u64 (base + fee + temp) → fee_ok last last' fee → stip ≤ base < 2 ^ 22 →
  0 ≤ temp ≤ 2 ^ 64 - 2 ^ 58 + 1 → 0 ≤ cold < 2 ^ 20 →
  last' + (temp + stip) ≤ last + (base + fee + temp +₆₄ cold).
Proof.
  unfold fee_ok, in_u64. intros Hg (Hf & Hl & Hcase) Hb Ht Hc.
  assert (base + fee + temp +₆₄ cold = base + fee + temp + cold ∨
          base + fee + temp +₆₄ cold = base + fee + temp + cold - 2 ^ 64 ∧
          2 ^ 64 ≤ base + fee + temp + cold) as [E|[E Hw]].
  { destruct (Z.ltb_spec (base + fee + temp + cold) (2 ^ 64)).
    - left. apply wrap64_small. unfold in_u64. lia.
    - right. split; [|lia]. unfold wrap64.
      rewrite <- (Z.mod_add _ (-1)) by lia. rewrite Z.mod_small; lia. }
  all: rewrite E; destruct Hcase; lia.
Qed.

Lemma cold_cost : 0 ≤ ColdAccountAccessCostEIP2929 -₆₄ WarmStorageReadCostEIP2929 < 2 ^ 20.
Proof.
  param ColdAccountAccessCostEIP2929. param WarmStorageReadCostEIP2929.
  pose proof warm_below_cold. rewrite wrap64_small by (unfold in_u64; lia). lia.
Qed.

Lemma call_gas_variant pops stip f :
  IsEIP150 chainRules = true → 2 ≤ pops → (∀ st, 0 ≤ stip st) → call_gas_spec pops stip f →
  gas_spec true pops 0 (call_reserve stip) (makeCallVariantGasCallEIP2929 f).
Proof.
  intros H150 Hp Hstip Hf s size Hs Hst Hsize. unfold makeCallVariantGasCallEIP2929.
  do 4 gas_step. pose proof cold_cost as Hcold.
  set (cold := ColdAccountAccessCostEIP2929 -₆₄ WarmStorageReadCostEIP2929) in *. clearbody cold.
  destruct (AddressInAccessList _ _); [by apply (call_gas_plain pops stip f Hstip Hf)|].
  pose proof (db_step_refl s) as Hd0. apply wp_bind. db_gas_step.
  match goal with Hd : db_step s ?s' |- wp _ _ => destruct Hd as (d & Hd & ->) end.
  destruct Hs as [? ? ? (? & ? & ?) ? ?].
  apply wp_bind. unfold use_gas, UseGas. cbn [Con set_evm].
  assert (Hdb : db_rel R (readOnly (evm s)) (StateDB (evm s)) d)
    by (destruct (readOnly (evm s)); cbn; done).
  destruct (Z.ltb_spec (Gas (Con s)) cold) as [Hpoor|Hpaid]; cbn [wp negb].
  { cbn. split; [done|]. split; [by destruct s as [? ? ? [] ?]|]. cbn. lia. }
  apply wp_try. eapply wp_mono; [apply Hf; [|done..]|].
  { split; cbn; try done; [|unfold potential in *; cbn; lia].
    split_and!; cbn; [done|lia|done]. }
  intros [s' r] (last' & temp & -> & Hr). destruct r as [e|g].
  { split; [done|]. split; [by destruct s as [? ? ? [] ?]|]. cbn. lia. }
  destruct Hr as (base & fee & -> & Hg & Hfee & Hsz & Hb & Hb0 & Ht & Ht150).
  pose proof (cold_call_covers base fee temp cold _ _ _ Hg Hfee Hb ltac:(auto) Hcold) as Hcov.
  pose proof (Hstip (Stack s)). destruct Hfee as (? & ? & _). unfold potential in *.
  destruct ok_mem as [_ ?]. unfold AddGas. exec. cbn.
  rewrite (wrap64_small (Gas (Con s) - cold + cold)) by (unfold in_u64; lia).
  split; [done|]. split; [by destruct s as [? ? ? [] ?]|]. cbn.
  unfold call_reserve in *. cbn in *. split_and!; try done; try lia. apply wrap64_range.
Qed.

(** ** Charging *)

Lemma charge_constant o K :
  dynamicGas o = None → k_memory K = None → k_reserve K = no_reserve →
  (if k_final K then 0 else 1) ≤ constantGas o → charge_ok R o K.
Proof.
  intros Ed Em Er Hc s Hs Hst Hgas. unfold dynamic_charge. rewrite Ed. cbn.
  pose proof (ok_jumpdests s Hs). split; [by apply evm_step_refl|].
  unfold reserve, mem_fits. rewrite Em, Er. unfold no_reserve, potential. cbn.
  split_and!; try done; [|lia]. apply st_ok_use_gas; [done|]. destruct (k_final K); lia.
Qed.

Lemma zlen_Resize m size :
  0 ≤ size → zlen (store (Resize m size)) = size ∧ lastGasCost (Resize m size) = lastGasCost m.
Proof.
  intros Hs. unfold Resize, mem_Len, zlen.
  destruct (Z.ltb_spec (Z.of_nat (length (store m))) size); cbn;
    [rewrite length_app, length_replicate; split; [lia|done]|].
  destruct (Z.ltb_spec size (Z.of_nat (length (store m)))); cbn;
    [rewrite length_take; split; [lia|done]|]. split; [lia|done].
Qed.

Definition memory_ok (mem : bool) (pops : Z) (M : option memorySizeFunc) : Prop :=
  match M with Some f => mem = true ∧ memory_total pops f | None => True end.

Definition memory_size_of (M : option memorySizeFunc) (st : list U) (size : Z) : Prop :=
  match M with
  | Some f => ∃ n, f st = Ret (n, false) ∧ n ≤ size
  | None => size = 0
  end.

Lemma wp_required_memory mem pops o s (Q : St * (EvmErr + Z) → Prop) :
  memory_ok mem pops (memorySize o) → pops ≤ zlen (Stack s) →
  (∀ e, Q (s, inl e)) →
  (∀ size, 0 ≤ size → memory_size_of (memorySize o) (Stack s) size → Q (s, inr size)) →
  wp (required_memory o s) Q.
Proof.
  intros Hm Hst He Ha. unfold required_memory.
  destruct (memorySize o) as [f|]; [|by apply Ha]. destruct Hm as [_ Hm].
  destruct (Hm _ Hst) as (n & ov & E & Hn). apply wp_bind. cbn [wp get]. apply wp_bind.
  rewrite E. cbn. destruct ov; [apply He|].
  destruct (toWordSize_ok n Hn) as (Hw & Hle & _).
  apply wp_mul; [done|by unfold in_u64|apply He|]. unfold in_u64 in *. intros Hr.
  apply Ha; [lia|]. exists n. split; [done|lia].
Qed.

(** The state after paying [g] and resizing the memory *)
Definition paid_state (g size : Z) (s : St) : St :=
  let s := set_con (with_gas (Gas (Con s) - g) (Con s)) s in
  if 0 <? size then set_mem (Resize (Mem s) size) s else s.

Lemma paid_state_eq g size s :
  0 ≤ size → ∃ st, paid_state g size s =
    set_con (with_gas (Gas (Con s) - g) (Con s)) (set_mem (mkMemory st (lastGasCost (Mem s))) s) ∧
    size ≤ zlen st ∧ (size = 0 ∧ st = store (Mem s) ∨ zlen st = size).
Proof.
  intros Hsize. unfold paid_state. destruct (Z.ltb_spec 0 size).
  - exists (store (Resize (Mem s) size)). destruct (zlen_Resize (Mem s) size Hsize) as [E1 E2].
    split_and!; [|lia|by right]. rewrite <- E2. cbn. by destruct (Resize (Mem s) size).
  - exists (store (Mem s)).
    split_and!; [by destruct s as [? ? [] ? ?] | unfold zlen; lia | left; split; [lia|done]].
Qed.

Lemma charge_gas mem pops lo res f o K :
  dynamicGas o = Some f → gas_spec mem pops lo res f → memory_ok mem pops (memorySize o) →
  pops ≤ k_pops K → k_memory K = memorySize o → k_reserve K = res → 0 ≤ constantGas o →
  (if k_final K then 0 else 1) ≤ lo + constantGas o → charge_ok R o K.
Proof.
  intros Ed Hf Hmem Hp Em Er Hc Hlo s Hs [Hst _] Hgas s0.
  assert (Hs0 : st_ok s0) by (by apply st_ok_use_gas). unfold dynamic_charge. rewrite Ed.
  destruct Hs as [Hpc Hstk [Hlen Hlast] (Han & Hgas0 & Hin) Hjd Hpot].
  unfold charge_dynamic. apply wp_try.
  eapply (wp_required_memory mem pops); [done|cbn; lia| |].
  { intros e. split; [by apply evm_step_refl|]. unfold gas_ok, potential, s0. cbn.
    split_and!; lia || done. }
  intros size Hsize Hfit. apply wp_bind.
  eapply wp_mono; [apply Hf; [done|cbn; lia|done]|].
  intros [s1 r] (He & (Epc & Est & Estore & Econ) & Hr).
  assert (Herr : 0 ≤ Gas (Con s1) ≤ Gas (Con s0) → gas_ok (potential s) s1)
    by (unfold gas_ok, potential, s0 in *; rewrite Est, Estore; cbn; intros ?; split_and!; lia || done).
  destruct r as [e|g]; [split; [done|]; by apply Herr|].
  destruct Hr as (Egas & Hlast1 & Hg & Hres & Hcover & Hmax).
  apply wp_bind. unfold use_gas, UseGas.
  destruct (Z.ltb_spec (Gas (Con s1)) g); cbn [wp negb].
  { split; [done|]. replace (set_con (Con s1) s1) with s1 by (by destruct s1).
    apply Herr. rewrite Egas. unfold s0. cbn. lia. }
  replace (_ (set_con _ s1)) with (Done (paid_state g size s1, @inr EvmErr unit tt))
    by (unfold paid_state; by destruct (0 <? size)).
  destruct (paid_state_eq g size s1 Hsize) as (st & -> & Hst1 & Hst2).
  cbn [wp]. split; [done|]. unfold s0, potential, reserve, mem_fits in *. cbn in *.
  rewrite Er, Em, Est, Epc, Egas in *. rewrite Econ. clear Hf Herr Hs0 s0.
  assert (Hlen1 : zlen st ≤ MaxMemory).
  { destruct Hst2 as [[_ E]|E]; rewrite E; [congruence|]. destruct (memorySize o); cbn in *.
    - by apply Hmax, Hmem.
    - subst size. unfold MaxMemory. lia. }
  assert (Hpaid : 0 ≤ Gas (Con s) - constantGas o - g) by lia.
  assert (Hlo' : 0 ≤ lo + constantGas o) by (destruct (k_final K); lia).
  split_and!; try done; cbn; try lia.
  - split; cbn; rewrite ?Epc, ?Est; try done.
    + apply He.
    + unfold potential. cbn. lia.
  - destruct (memorySize o) as [m|]; [|done]. destruct Hfit as (n & E & Hn).
    exists n. split; [done|lia].
Qed.

End gas.

(** The prices of the operations *)
Create HintDb evm_gas discriminated.
#[export] Hint Resolve pureMemoryGascost_ok memoryCopierGas_ok makeGasLog_ok gasKeccak256_ok
  gasCreate2_ok gasCreateEip3860_ok gasCreate2Eip3860_ok gasExpFrontier_ok gasExpEIP158_ok
  gasSStore_ok gasSStoreEIP2200_ok makeGasSStoreFunc_ok gasSLoadEIP2929_ok
  gasEip2929AccountCheck_ok gasSelfdestruct_ok makeSelfdestructGasFn_ok gasExtCodeCopyEIP2929_ok
  gasDelegateCall_ok gasStaticCall_ok gasCallCode_ok gasCall_ok : evm_gas.
#[export] Hint Extern 0 (_ ≤ _) => done : evm_gas.
#[export] Hint Extern 0 (_ ≤ _ < _) => done : evm_gas.
