(* ===== verification/EvmMemOk.v ===== *)
(** * The virtual machine: accesses to memory are in range

    The size that the functions of [memory_table.go] compute covers the ranges that the
    instruction accesses; the accesses of [memory.go] to such a range do not panic. *)

From S2P Require Import Prelude OpCodes EvmBase EvmData EvmGas EvmPrecompiles EvmCalls.
From S2P Require Import EvmInstr EvmTable EvmRun EvmAnalysis EvmPrecompilesOk EvmWp.

Section memory.
Context `{Uint256, !Uint256Laws H, Params, Geth, !GethLaws H1, PrecompileCrypto, FakeDB, !Env}.

(** A range of a memory of length [len]; an empty one may start anywhere. *)
Definition in_mem (len off size : Z) : Prop :=
  size = 0 ∨ 0 ≤ off ∧ 0 < size ∧ off + size ≤ len.

Lemma u_Uint64_range x : in_u64 (u_Uint64 x).
Proof. rewrite u_Uint64_spec. apply wrap64_range. Qed.

Lemma calcMemSize64WithUint_fits off l n len :
  in_u64 l → calcMemSize64WithUint off l = (n, false) → n ≤ len →
  in_mem len (u_Uint64 off) l.
Proof.
  intros Hl. unfold calcMemSize64WithUint. destruct (Z.eqb_spec l 0); [by left|].
  rewrite u_Uint64WithOverflow_spec, u_Uint64_spec. destruct (_ <=? _); [done|].
  pose proof (wrap64_range (u_val off)) as Ho. unfold in_u64 in *.
  set (o := wrap64 (u_val off)) in *. intros [= <- Hov] Hn. apply Z.ltb_ge in Hov.
  assert (E : o +₆₄ l = o + l).
  { destruct (Z.ltb_spec (o + l) (2 ^ 64)); [apply wrap64_small; unfold in_u64; lia|].
    exfalso. revert Hov. unfold wrap64.
    rewrite <- (Z.mod_add _ (-1)) by lia. rewrite Z.mod_small; lia. }
  right. lia.
Qed.

Lemma calcMemSize64_fits off l n len :
  calcMemSize64 off l = (n, false) → n ≤ len →
  in_mem len (u_Uint64 off) (u_Uint64 l) ∧ u_val l < 2 ^ 64.
Proof.
  unfold calcMemSize64. rewrite u_IsUint64_spec.
  destruct (Z.ltb_spec (u_val l) (2 ^ 64)); [|done]. cbn [negb]. intros E Hn.
  split; [|done]. by eapply calcMemSize64WithUint_fits; [apply u_Uint64_range|..].
Qed.

Lemma int64_small x : x < 2 ^ 63 → int64 x = x.
Proof. intros Hx. unfold int64. by rewrite (proj2 (Z.ltb_lt _ _)). Qed.

Lemma add_int64_small x y : 0 ≤ x + y < 2 ^ 63 → add_int64 x y = x + y.
Proof.
  intros Hxy. unfold add_int64. rewrite wrap64_small by (unfold in_u64; lia).
  apply int64_small. lia.
Qed.

(** ** memory_table.go *)

Lemma memory_at_fits i j st x y n len :
  Back st i = Ret x → Back st j = Ret y → memory_at i j st = Ret (n, false) → n ≤ len →
  in_mem len (u_Uint64 x) (u_Uint64 y) ∧ u_val y < 2 ^ 64.
Proof.
  intros Ex Ey. unfold memory_at. rewrite Ex, Ey. exec. intros [= E] Hn.
  by eapply calcMemSize64_fits.
Qed.

Lemma memory_off_fits (l : Z) st x n len :
  in_u64 l → Back st 0 = Ret x →
  (off ← Back st 0; Ret (calcMemSize64WithUint off l)) = Ret (n, false) → n ≤ len →
  in_mem len (u_Uint64 x) l.
Proof.
  intros Hl Ex. rewrite Ex. exec. intros [= E] Hn. by eapply calcMemSize64WithUint_fits.
Qed.

Lemma memory_max_fits i j i' j' st x y x' y' n len :
  Back st i = Ret x → Back st j = Ret y → Back st i' = Ret x' → Back st j' = Ret y' →
  memory_max i j i' j' st = Ret (n, false) → n ≤ len →
  in_mem len (u_Uint64 x) (u_Uint64 y) ∧ in_mem len (u_Uint64 x') (u_Uint64 y').
Proof.
  intros Ex Ey Ex' Ey'. unfold memory_max.
  destruct (memory_at i j st) as [[a []]| |] eqn:E; try done; exec; try done.
  destruct (memory_at i' j' st) as [[b []]| |] eqn:E'; try done; exec; try done.
  intros Hn Hlen. assert (a ≤ len ∧ b ≤ len) as [Ha Hb].
  { destruct (Z.ltb_spec b a); injection Hn as <-; lia. }
  split; [by eapply (memory_at_fits i j) | by eapply (memory_at_fits i' j')].
Qed.

(** ** memory.go *)

Lemma copy_range_ok st a b src :
  0 ≤ a ≤ b → b ≤ zlen st →
  ∃ st', copy_range st a b src = Ret st' ∧ zlen st' = zlen st.
Proof.
  intros Hab Hb. unfold copy_range. destruct (slice_total st a b Hab Hb) as (dst & E & Hlen).
  rewrite E. exec. eexists. split; [done|]. unfold zlen in *.
  rewrite !length_app, !length_take, length_drop. lia.
Qed.

Variable s : St.
Hypothesis Hmem : mem_ok (Mem s).

Lemma get_ptr_ok off size :
  in_mem (zlen (store (Mem s))) off size →
  ∃ b, get_ptr off size s = Done (s, b) ∧ zlen b ≤ MaxMemory.
Proof.
  destruct Hmem as [Hlen _]. unfold get_ptr, GetPtr, in_mem, MaxMemory in *.
  intros [->|(Ho & Hs & Hr)]; [by exists []|].
  rewrite !int64_small by lia. destruct (Z.eqb_spec size 0); [lia|].
  unfold mem_Len. rewrite (proj2 (Z.ltb_lt off _)) by lia. rewrite add_int64_small by lia.
  destruct (slice_total (store (Mem s)) off (off + size)) as (r & E & Hr'); [lia..|].
  rewrite E. exists r. split; [done|]. lia.
Qed.

Lemma get_copy_ok off size :
  in_mem (zlen (store (Mem s))) off size →
  ∃ b, get_copy off size s = Done (s, b) ∧ zlen b ≤ MaxMemory.
Proof.
  intros Hin. destruct (get_ptr_ok off size Hin) as (b & E & Hb). exists b. split; [|done].
  rewrite <- E. unfold get_copy, get_ptr, GetCopy, GetPtr. destruct (_ =? 0) eqn:Hz; [done|].
  destruct (_ <? mem_Len _); [|done]. destruct (Z.ltb_spec (int64 size) 0); [|done].
  destruct Hmem as [Hlen _]. unfold in_mem, MaxMemory in *.
  destruct Hin as [->|?]; [done|]. rewrite int64_small in * by lia. lia.
Qed.

Lemma mem_set_ok off size val :
  in_mem (zlen (store (Mem s))) off size →
  ∃ st, mem_set off size val s = Done (set_mem (with_store (Mem s) st) s, tt) ∧
    zlen st = zlen (store (Mem s)).
Proof.
  destruct Hmem as [Hlen _]. unfold mem_set, mem_Set, in_mem, MaxMemory, mem_Len in *.
  intros [->|(Ho & Hs & Hr)].
  { exists (store (Mem s)). split; [|done]. by destruct s as [? ? [] ? ?]. }
  rewrite (proj2 (Z.ltb_lt 0 size)) by lia.
  rewrite wrap64_small by (unfold in_u64; lia). rewrite (proj2 (Z.ltb_ge _ _)) by lia.
  destruct (copy_range_ok (store (Mem s)) off (off + size) val) as (st & E & Hst); [lia..|].
  rewrite E. by exists st.
Qed.

Lemma mem_Set32_ok off val :
  in_mem (zlen (store (Mem s))) off 32 →
  ∃ st, mem_Set32 (Mem s) off val = Ret (with_store (Mem s) st) ∧
    zlen st = zlen (store (Mem s)).
Proof.
  destruct Hmem as [Hlen _]. unfold mem_Set32, in_mem, MaxMemory, mem_Len in *.
  intros [?|(Ho & Hs & Hr)]; [done|].
  rewrite wrap64_small by (unfold in_u64; lia). rewrite (proj2 (Z.ltb_ge _ _)) by lia.
  destruct (copy_range_ok (store (Mem s)) off (zlen (store (Mem s))) (u_Bytes32 val))
    as (st & E & Hst); [lia..|].
  rewrite E. by exists st.
Qed.

Lemma wp_get_ptr off size (Q : St * bytes → Prop) :
  in_mem (zlen (store (Mem s))) off size → (∀ b, zlen b ≤ MaxMemory → Q (s, b)) →
  wp (get_ptr off size s) Q.
Proof. intros Hin HQ. destruct (get_ptr_ok off size Hin) as (b & -> & Hb). by apply HQ. Qed.

Lemma wp_get_copy off size (Q : St * bytes → Prop) :
  in_mem (zlen (store (Mem s))) off size → (∀ b, zlen b ≤ MaxMemory → Q (s, b)) →
  wp (get_copy off size s) Q.
Proof. intros Hin HQ. destruct (get_copy_ok off size Hin) as (b & -> & Hb). by apply HQ. Qed.

Lemma wp_mem_set off size val (Q : St * unit → Prop) :
  in_mem (zlen (store (Mem s))) off size →
  (∀ st, zlen st = zlen (store (Mem s)) → Q (set_mem (with_store (Mem s) st) s, tt)) →
  wp (mem_set off size val s) Q.
Proof. intros Hin HQ. destruct (mem_set_ok off size val Hin) as (st & -> & Hst). by apply HQ. Qed.

(** A copy of data into memory *)
Lemma getData_sized data start off size :
  zlen data < 2 ^ 62 → 0 ≤ start → in_mem (zlen (store (Mem s))) off size →
  ∃ r, getData data start size = Ret r.
Proof.
  destruct Hmem as [Hlen _]. unfold in_mem, MaxMemory in *. intros Hd Hs Hin.
  apply getData_total; [done|done|lia].
Qed.

End memory.
