(* ===== verification/EvmExecOk.v ===== *)
(** * The virtual machine: instructions are safe

    Each instruction of [instructions.go] and [eips.go] runs without a panic on a
    state whose stack and memory the interpreter has checked and sized for it, keeps
    the invariants of the frame, and adds no more gas than was reserved for it.  In a
    static frame it changes the state only in ways that static calls may. *)

From S2P Require Import Prelude OpCodes EvmBase EvmData EvmGas EvmPrecompiles EvmCalls.
From S2P Require Import EvmInstr EvmTable EvmRun EvmAnalysis EvmPrecompilesOk EvmWp EvmCallsOk.
From S2P Require Import EvmGasOk EvmMemOk.

Section exec.
Context `{Uint256, !Uint256Laws H, Params, !ParamsLaws H0, Geth, !GethLaws H1, PrecompileCrypto,
  !PrecompileLaws H1 H2,
  FakeDB, !DbLaws H3, !Env}.
Variable R : db → db → Prop.
Context {SL : StaticLaws R}.

(** ** Kinds of instructions *)

Definition plain (pops pushes : Z) : kind := mkKind pops pushes None no_reserve false.
Definition sized (pops pushes : Z) (f : memorySizeFunc) : kind :=
  mkKind pops pushes (Some f) no_reserve false.
Definition ending (pops : Z) (M : option memorySizeFunc) : kind :=
  mkKind pops 0 M no_reserve true.
Definition calling (pops : Z) (f : memorySizeFunc) (stip : list U → Z) : kind :=
  mkKind pops 1 (Some f) (call_reserve stip) false.

Lemma post_next_con K s s' ret :
  st_ok s → k_final K = false → 0 ≤ reserve K s →
  0 ≤ pc s' < 2 ^ 64 → zlen (Stack s') ≤ 1024 →
  con_ok (Con s') → Gas (Con s') + lastGasCost (Mem s') ≤ potential s + reserve K s →
  potential s + reserve K s ≤ 2 ^ 46 →
  mem_ok (Mem s') → evm_step R (evm s) (evm s') → exec_post R K s (s', (ret, None)).
Proof.
  intros Hs Hf Hr Hpc Hst Hc Hg Hmax Hm He. split; [done|]. split; [done|].
  split; [|done]. split; try done; [apply He|]. unfold potential in *. lia.
Qed.

Lemma post_next K s s' ret :
  st_ok s → k_final K = false → 0 ≤ reserve K s → potential s + reserve K s ≤ 2 ^ 46 →
  0 ≤ pc s' < 2 ^ 64 → zlen (Stack s') ≤ 1024 → Con s' = Con s →
  zlen (store (Mem s')) ≤ MaxMemory → lastGasCost (Mem s') = lastGasCost (Mem s) →
  evm_step R (evm s) (evm s') → exec_post R K s (s', (ret, None)).
Proof.
  intros Hs Hf Hr Hmax Hpc Hst Ec Hm El He. apply post_next_con; try done.
  - rewrite Ec. apply Hs.
  - unfold potential. rewrite Ec, El. lia.
  - split; [done|]. rewrite El. apply Hs.
Qed.

Lemma post_throw_gas K s s' ret e :
  st_ok s → 0 ≤ reserve K s → Gas (Con s') = Gas (Con s) →
  zlen (Stack s') ≤ 1024 → zlen (store (Mem s')) ≤ MaxMemory → evm_step R (evm s) (evm s') →
  exec_post R K s (s', (ret, Some e)).
Proof.
  intros Hs Hr Ec Hst Hm He. split; [done|]. pose proof (potential_gas s Hs).
  unfold gas_ok. rewrite Ec. split_and!; lia || done.
Qed.

Lemma post_throw K s s' ret e :
  st_ok s → 0 ≤ reserve K s → Con s' = Con s →
  zlen (Stack s') ≤ 1024 → zlen (store (Mem s')) ≤ MaxMemory → evm_step R (evm s) (evm s') →
  exec_post R K s (s', (ret, Some e)).
Proof. intros Hs Hr Ec Hst Hm He. apply post_throw_gas; congruence || done. Qed.

(** ** Instructions on the stack *)

(** Starts the proof for an instruction that reads [k] operands. *)
Tactic Notation "op_start" integer(k) :=
  intros n run [p st m c e] Hrun Hs Hin Hop Hmem Hres Hpot Hn;
  unfold in_stack in Hin; cbn [k_pops k_pushes plain sized ending calling Stack] in Hin;
  do k (destruct st as [|? st]; [exfalso; unfold zlen in Hin; cbn in Hin; lia|]);
  unfold zlen in Hin; cbn [length] in Hin.

(** The shared state after an instruction; a change of the state is allowed in a static
    frame or the frame is not static. *)
Lemma evm_step_change e d :
  jumpdests_ok (jumpdests e) → (readOnly e = true → R (StateDB e) d) →
  evm_step R e (with_db (λ _, d) e).
Proof. intros Hj Hd. split; cbn; try done. destruct (readOnly e); cbn; auto. Qed.

Lemma zlen_le {A} (l l' : list A) n : zlen l = zlen l' → zlen l' ≤ n → zlen l ≤ n.
Proof. lia. Qed.

Ltac op_evm_step Hs :=
  first
    [ split; [done | done | exact (ok_jumpdests _ Hs) | by apply db_rel_refl]
    | apply (evm_step_change _ _ (ok_jumpdests _ Hs));
      first [intros _; apply R_AddPreimage | congruence] ].

(** An instruction that goes on *)
Ltac op_done :=
  apply post_next; try done;
  match goal with
  | Hs : st_ok _ |- 0 ≤ pc _ < 2 ^ 64 => first [exact (ok_pc _ Hs) | cbn; apply wrap64_range]
  | |- zlen _ ≤ 1024 => unfold zlen; cbn; lia
  | Hs : st_ok _ |- zlen _ ≤ MaxMemory =>
      first [exact (proj1 (ok_mem _ Hs)) | eapply zlen_le; [eassumption | exact (proj1 (ok_mem _ Hs))]]
  | Hs : st_ok _ |- evm_step _ _ _ => op_evm_step Hs
  end.

(** An instruction that fails *)
Ltac op_throw :=
  match goal with Hs : st_ok _ |- _ =>
    apply post_throw; [done|done|done| | |op_evm_step Hs];
    [ pose proof (ok_stack _ Hs); unfold zlen in *; cbn in *; lia
    | first [exact (proj1 (ok_mem _ Hs))
            | eapply zlen_le; [eassumption | exact (proj1 (ok_mem _ Hs))]] ]
  end.

(** Evaluates the operations on the stack. *)
Ltac run_op :=
  unfold peek, Back, index, next, throw; change (Z.to_nat 0) with 0%nat; exec; cbn -[wp].

(** A case distinction; the answer of the state comes first. *)
Ltac op_case :=
  first
    [ match goal with |- context [match ?o with Some a => Done a | None => Raised _ end] =>
        destruct o eqn:? end
    | case_match ].

(** Solves [exec_ok] for an instruction that only computes a new stack. *)
Ltac plain_op :=
  lazymatch goal with
  | |- exec_ok _ _ _ (plain ?ops _) =>
      lazymatch ops with 0 => op_start 0 | 1 => op_start 1 | 2 => op_start 2 | 3 => op_start 3 end
  end;
  lazymatch goal with |- wp (?f _ _) _ => let f' := eval red in f in change f with f' end;
  run_op; repeat (op_case; run_op); first [op_done | assumption].

Definition binary_ops : list executionFunc :=
  [opAdd; opSub; opMul; opDiv; opSdiv; opMod; opSmod; opExp; opSignExtend; opLt; opGt; opSlt;
   opSgt; opEq; opAnd; opOr; opXor; opByte; opSHL; opSHR; opSAR].
Definition ternary_ops : list executionFunc := [opAddmod; opMulmod].
Definition unary_ops : list executionFunc :=
  [opNot; opIszero; opBalance; opExtCodeSize; opExtCodeHash; opBlockhash; opSload; opTload].
Definition push_ops : list executionFunc :=
  [opAddress; opOrigin; opCaller; opCallValue; opCallDataSize; opReturnDataSize; opCodeSize;
   opGasprice; opCoinbase; opTimestamp; opNumber; opDifficulty; opGasLimit; opPc; opMsize; opGas;
   opSelfBalance; opChainID; opBaseFee; opPush0].

Lemma binary_ops_ok op : Forall (λ f, exec_ok R op f (plain 2 1)) binary_ops.
Proof. repeat (apply Forall_cons_2; [plain_op|]). apply Forall_nil_2. Qed.

Lemma ternary_ops_ok op : Forall (λ f, exec_ok R op f (plain 3 1)) ternary_ops.
Proof. repeat (apply Forall_cons_2; [plain_op|]). apply Forall_nil_2. Qed.

Lemma unary_ops_ok op : Forall (λ f, exec_ok R op f (plain 1 1)) unary_ops.
Proof. repeat (apply Forall_cons_2; [plain_op|]). apply Forall_nil_2. Qed.

Lemma push_ops_ok op : Forall (λ f, exec_ok R op f (plain 0 1)) push_ops.
Proof. repeat (apply Forall_cons_2; [plain_op|]). apply Forall_nil_2. Qed.

Lemma opPop_ok op : exec_ok R op opPop (plain 1 0).
Proof. plain_op. Qed.

Lemma opJumpdest_ok op : exec_ok R op opJumpdest (plain 0 0).
Proof. plain_op. Qed.

(** ** Instructions on memory *)

Lemma wp_peek_cons (s : St) x st (Q : St * U → Prop) : Stack s = x :: st → Q (s, x) → wp (peek s) Q.
Proof. intros E HQ. unfold peek. by rewrite E. Qed.

Lemma wp_lift_Ret {A} (r : GoRes EvmErr A) a s (Q : St * A → Prop) :
  r = Ret a → Q (s, a) → wp (lift r s) Q.
Proof. by intros ->. Qed.

Lemma wp_Done {A} (m : Out A) a (Q : A → Prop) : m = Done a → Q a → wp m Q.
Proof. by intros ->. Qed.

(** One step of an instruction *)
Ltac op_step :=
  lazymatch goal with
  | |- wp ((_ ≫= _) _) _ => apply wp_bind
  | |- wp (peek _) _ => eapply wp_peek_cons; [reflexivity|]
  | Hs : st_ok _ |- wp (get_ptr _ _ _) _ =>
      apply wp_get_ptr; [exact (ok_mem _ Hs) | assumption | intros ? ?]
  | Hs : st_ok _ |- wp (get_copy _ _ _) _ =>
      apply wp_get_copy; [exact (ok_mem _ Hs) | assumption | intros ? ?]
  | Hs : st_ok _ |- wp (mem_set _ _ _ _) _ =>
      apply wp_mem_set; [exact (ok_mem _ Hs) | assumption | intros ? ?]
  | |- wp ((if ?b then _ else _) _) _ => destruct b eqn:?
  | |- wp (read_balance _ _) _ => apply wp_read_balance; intros ?
  | |- wp (lift _ _) _ => fail
  | |- wp _ _ => eapply wp_Done; [reflexivity|]
  end.

Ltac op_steps := repeat (op_step; cbv beta iota).

(** Starts the proof for an instruction with a memory size function. *)
Ltac op_fits :=
  match goal with Hmem : mem_fits _ _ |- _ =>
    destruct Hmem as (sz & Esz & Hsz); cbn [Stack Mem] in Esz, Hsz end.

Lemma opKeccak256_ok op : exec_ok R op opKeccak256 (sized 2 1 memoryKeccak256).
Proof.
  op_start 2. op_fits. eapply memory_at_fits in Esz as [Hfit _]; [|reflexivity..|exact Hsz].
  unfold opKeccak256. op_steps; op_done.
Qed.

Lemma clamp64_nonneg x : 0 ≤ clamp64 x.
Proof.
  unfold clamp64. rewrite u_Uint64WithOverflow_spec. destruct (_ <=? _); [done|].
  apply wrap64_range.
Qed.

(** A copy of [data], which is not longer than a slice can be, into memory *)
Ltac op_copy Hfit Hs Hdata :=
  lazymatch goal with
  | |- wp (lift (getData ?data ?start ?size) _) _ =>
      let E := fresh in
      destruct (getData_sized _ (ok_mem _ Hs) data start _ size Hdata (clamp64_nonneg _) Hfit)
        as [? E];
      eapply wp_lift_Ret; [exact E|]; cbv beta iota; op_steps; op_done
  end.

Lemma opCallDataCopy_ok op : exec_ok R op opCallDataCopy (sized 3 0 memoryCallDataCopy).
Proof.
  op_start 3. op_fits. eapply memory_at_fits in Esz as [Hfit _]; [|reflexivity..|exact Hsz].
  destruct (ok_con _ Hs) as (_ & _ & Hinput). unfold opCallDataCopy. op_steps.
  op_copy Hfit Hs Hinput.
Qed.

Lemma code_short c : con_ok c → zlen (Code c) < 2 ^ 62.
Proof. intros ((Hlen & _) & _). lia. Qed.

Lemma opCodeCopy_ok op : exec_ok R op opCodeCopy (sized 3 0 memoryCodeCopy).
Proof.
  op_start 3. op_fits. eapply memory_at_fits in Esz as [Hfit _]; [|reflexivity..|exact Hsz].
  unfold opCodeCopy. op_steps. op_copy Hfit Hs (code_short _ (ok_con _ Hs)).
Qed.

Lemma opExtCodeCopy_ok op : exec_ok R op opExtCodeCopy (sized 4 0 memoryExtCodeCopy).
Proof.
  op_start 4. op_fits. eapply memory_at_fits in Esz as [Hfit _]; [|reflexivity..|exact Hsz].
  unfold opExtCodeCopy. op_steps.
  pose proof (GetCode_length (StateDB e) (u_Bytes20 u)) as Hcode.
  op_copy Hfit Hs (Z.lt_trans _ (2 ^ 61) (2 ^ 62) Hcode eq_refl).
Qed.

Lemma opReturnDataCopy_ok op : exec_ok R op opReturnDataCopy (sized 3 0 memoryReturnDataCopy).
Proof.
  op_start 3. op_fits. eapply memory_at_fits in Esz as [Hfit Hlen]; [|reflexivity..|exact Hsz].
  unfold opReturnDataCopy. op_steps. rewrite !u_Uint64WithOverflow_spec. cbv beta iota.
  destruct (Z.leb_spec (2 ^ 64) (u_val u0)) as [|Ho]; [op_throw|].
  destruct (_ || _) eqn:E; [op_throw|]. apply orb_false_iff in E as [E1 E2].
  apply Z.leb_gt in E1. apply Z.ltb_ge in E2. pose proof (u_val_range u0).
  pose proof (u_val_range u1). rewrite u_Add_spec, Z.mod_small in * by lia.
  rewrite !wrap64_small in * by (unfold in_u64; lia).
  destruct (slice_total (returnData e) (u_val u0) (u_val u0 + u_val u1)) as (r & E & _);
    [lia|exact E2|].
  op_step. eapply wp_lift_Ret; [exact E|]. cbv beta iota. op_steps. op_done.
Qed.

Lemma opMload_ok op : exec_ok R op opMload (sized 1 1 memoryMLoad).
Proof.
  op_start 1. op_fits. eapply (memory_off_fits 32) in Esz as Hfit; [|done|reflexivity|exact Hsz].
  unfold opMload. op_steps; op_done.
Qed.

Lemma opMstore_ok op : exec_ok R op opMstore (sized 2 0 memoryMStore).
Proof.
  op_start 2. op_fits. eapply (memory_off_fits 32) in Esz as Hfit; [|done|reflexivity|exact Hsz].
  unfold opMstore. op_steps.
  destruct (mem_Set32_ok _ (ok_mem _ Hs) (u_Uint64 u) u0 Hfit) as (st' & E & Hst').
  eapply wp_lift_Ret; [exact E|]. cbv beta iota. op_steps. op_done.
Qed.

Lemma opMstore8_ok op : exec_ok R op opMstore8 (sized 2 0 memoryMStore8).
Proof.
  op_start 2. op_fits. eapply (memory_off_fits 1) in Esz as Hfit; [|done|reflexivity|exact Hsz].
  unfold opMstore8. op_steps.
  destruct (index_total (store m) (u_Uint64 u)) as [b E]; [destruct Hfit; lia|].
  eapply wp_lift_Ret; [exact E|]. cbv beta iota. op_steps.
  assert (Hst' : zlen (<[Z.to_nat (u_Uint64 u) := wrap8 (u_Uint64 u0)]> (store m)) = zlen (store m))
    by (unfold zlen; by rewrite length_insert).
  op_done.
Qed.

Lemma opCallDataLoad_ok op : exec_ok R op opCallDataLoad (plain 1 1).
Proof.
  op_start 1. unfold opCallDataLoad. op_steps. rewrite u_Uint64WithOverflow_spec. cbv beta iota.
  destruct (_ <=? _); cbn [negb]; [op_steps; op_done|]. op_steps.
  destruct (ok_con _ Hs) as (_ & _ & Hinput). cbn in Hinput.
  destruct (getData_total (Input c) (wrap64 (u_val u)) 32) as [r E];
    [done|apply wrap64_range|lia|].
  eapply wp_lift_Ret; [exact E|]. cbv beta iota. op_steps. op_done.
Qed.

(** ** Instructions that change the state *)

Lemma opSstore_ok op : exec_ok R op opSstore (plain 2 0).
Proof. op_start 2. unfold opSstore. op_steps; [op_throw|op_done]. Qed.

Lemma opTstore_ok op : exec_ok R op opTstore (plain 2 0).
Proof. op_start 2. unfold opTstore. op_steps; [op_throw|op_done]. Qed.

Lemma opSelfdestruct_ok op : exec_ok R op opSelfdestruct (ending 1 None).
Proof. op_start 1. unfold opSelfdestruct. op_steps; op_throw. Qed.

Lemma wp_pop_topics k s (Q : St * list Hash → Prop) :
  Z.of_nat k ≤ zlen (Stack s) →
  (∀ ts st, zlen st = zlen (Stack s) - Z.of_nat k → Q (set_stack st s, ts)) →
  wp (pop_topics k s) Q.
Proof.
  revert s Q. induction k as [|k IH]; intros s Q Hk HQ.
  { specialize (HQ [] (Stack s)). destruct s. apply HQ. cbn. lia. }
  destruct s as [p [|x st] m c e]; [unfold zlen in Hk; cbn in Hk; lia|].
  cbn [pop_topics]. apply wp_bind. eapply wp_Done; [reflexivity|]. cbv beta iota. apply wp_bind.
  apply IH; [unfold zlen in *; cbn in *; lia|]. intros ts st' Hst'.
  apply (HQ (_ :: ts) st'). unfold zlen in *. cbn in *. lia.
Qed.

Lemma makeLog_ok op k : exec_ok R op (makeLog k) (sized (Z.of_nat k + 2) 0 memoryLog).
Proof.
  op_start 2. op_fits. eapply memory_at_fits in Esz as [Hfit _]; [|reflexivity..|exact Hsz].
  unfold makeLog. op_step. op_step. cbv beta iota. op_step; [op_step; op_throw|].
  do 4 (op_step; cbv beta iota). op_step.
  apply wp_pop_topics; [unfold zlen; cbn; lia|]. intros ts st' Hst'. unfold zlen in Hst'. cbn in Hst'.
  op_steps. op_done.
Qed.

(** ** Instructions that end the frame *)

Lemma opStop_ok op : exec_ok R op opStop (ending 0 None).
Proof. op_start 0. unfold opStop. op_steps. op_throw. Qed.

Lemma opReturn_ok op : exec_ok R op opReturn (ending 2 (Some memoryReturn)).
Proof.
  op_start 2. op_fits. eapply memory_at_fits in Esz as [Hfit _]; [|reflexivity..|exact Hsz].
  unfold opReturn. op_steps. op_throw.
Qed.

Lemma opRevert_ok op : exec_ok R op opRevert (ending 2 (Some memoryRevert)).
Proof.
  op_start 2. op_fits. eapply memory_at_fits in Esz as [Hfit _]; [|reflexivity..|exact Hsz].
  unfold opRevert. op_steps. op_throw.
Qed.

(** An opcode other than STOP comes from the code. *)
Lemma GetOp_in_code c n op : GetOp c n = op → op ≠ STOP → n < zlen (Code c).
Proof. unfold GetOp. destruct (Z.ltb_spec n (zlen (Code c))); [done|]. by intros <- []. Qed.

Lemma opUndefined_ok op : op ≠ STOP → exec_ok R op opUndefined (ending 0 None).
Proof.
  intros Hstop. op_start 0. unfold opUndefined. apply GetOp_in_code in Hop; [|done].
  destruct (index_total (Code c) p) as [b E]; [split; [apply Hs|exact Hop]|].
  op_steps. eapply wp_lift_Ret; [cbn; by rewrite E|]. cbv beta iota. op_steps. op_throw.
Qed.

(** ** Pushes, duplications and swaps *)

Lemma opRandom_ok op : Random ≠ None → exec_ok R op opRandom (plain 0 1).
Proof.
  intros Hr. op_start 0. unfold opRandom. destruct Random as [r|]; [|done]. op_steps. op_done.
Qed.

Lemma opPush1_ok op : exec_ok R op opPush1 (plain 0 1).
Proof.
  op_start 0. unfold opPush1. do 4 (op_step; cbv beta iota). op_step. op_step. cbv beta iota.
  cbn [pc Con]. pose proof (wrap64_range (p + 1)) as Hp. destruct (Z.ltb_spec (p +₆₄ 1) (zlen (Code c))).
  - destruct (index_total (Code c) (p +₆₄ 1)) as [b E]; [split; [apply Hp|done]|].
    op_step. eapply wp_lift_Ret; [exact E|]. cbv beta iota. op_steps. op_done.
  - op_steps. op_done.
Qed.

Lemma makePush_ok op k : op ≠ STOP → 0 ≤ k ≤ 32 → exec_ok R op (makePush k k) (plain 0 1).
Proof.
  intros Hstop Hk. op_start 0. unfold makePush. do 4 (op_step; cbv beta iota). cbn [pc Con].
  apply GetOp_in_code in Hop; [|done]. cbn in Hop.
  destruct (ok_con _ Hs) as ((Hlen & _) & _). pose proof (ok_pc _ Hs) as Hp. cbn in Hlen, Hp.
  assert (0 ≤ p) by apply Hp. rewrite (wrap64_small (p + 1)) by (unfold in_u64; lia).
  rewrite int64_small by lia. set (start := if p + 1 <? zlen (Code c) then p + 1 else zlen (Code c)).
  assert (Hstart : 0 ≤ start ≤ zlen (Code c))
    by (unfold start; destruct (Z.ltb_spec (p + 1) (zlen (Code c))); lia).
  rewrite add_int64_small by lia.
  set (stop := if start + k <? zlen (Code c) then start + k else zlen (Code c)).
  assert (Hstop' : start ≤ stop ≤ zlen (Code c))
    by (unfold stop; destruct (Z.ltb_spec (start + k) (zlen (Code c))); lia).
  destruct (slice_total (Code c) start stop) as (r & E & _); [lia..|].
  op_step. eapply wp_lift_Ret; [exact E|]. cbv beta iota.
  op_step. rewrite RightPadBytes_spec by (unfold maxAlloc; lia).
  eapply wp_lift_Ret; [reflexivity|]. cbv beta iota. op_steps. op_done.
Qed.

Lemma makeDup_ok op k : 1 ≤ k → exec_ok R op (makeDup k) (plain k (k + 1)).
Proof.
  intros Hk. op_start 0. unfold makeDup, dup. op_step. op_step.
  destruct (Back_total st (k - 1)) as [x E]; [unfold zlen; lia|].
  eapply wp_lift_Ret; [exact E|]. cbv beta iota. op_steps. op_done.
Qed.

Lemma makeSwap_ok op k : 1 ≤ k → exec_ok R op (makeSwap k) (plain (k + 1) (k + 1)).
Proof.
  intros Hk. op_start 0. unfold makeSwap, swap. op_step. op_step.
  destruct (Back_total st (k + 1 - 1)) as [x E]; [unfold zlen; lia|].
  eapply wp_lift_Ret; [exact E|]. cbv beta iota. op_step.
  destruct (Back_total st 0) as [y E']; [unfold zlen; lia|].
  eapply wp_lift_Ret; [exact E'|]. cbv beta iota.
  op_steps. set (st' := <[0%nat := x]> _).
  assert (Hst' : length st' = length st) by (unfold st'; by rewrite !length_insert).
  clearbody st'. op_done.
Qed.

(** ** Jumps *)

Lemma jump_ok K s dest :
  st_ok s → k_final K = false → 0 ≤ reserve K s → potential s + reserve K s ≤ 2 ^ 46 →
  wp ((valid ← validJumpdest dest;
       if negb valid then throw ErrInvalidJump
       else modify (set_pc (u_Uint64 dest -₆₄ 1));; next) s) (exec_post R K s).
Proof.
  intros Hs Hf Hr Hmax. destruct (ok_con s Hs) as (Han & Hgas & Hin).
  pose proof (validJumpdest_ok s dest Han (ok_jumpdests s Hs)) as Hv. op_step.
  destruct (validJumpdest dest s) as [[s' b]| |[| |]|]; cbn in Hv |- *; try done; [|apply Hv].
  destruct Hv as [(a & m & -> & Han' & Hm) _].
  assert (Hstep : evm_step R (evm s) (with_jumpdests m (evm s)))
    by (split; [done..|by apply db_rel_refl]).
  destruct b; cbn [negb]; op_steps.
  - apply post_next_con; try done; [cbn; apply wrap64_range|apply Hs| |apply Hs].
    unfold potential. cbn. lia.
  - apply post_throw_gas; try done; apply Hs.
Qed.

Lemma exec_post_from K s s1 r :
  evm_step R (evm s) (evm s1) → potential s1 = potential s → reserve K s1 = reserve K s →
  exec_post R K s1 r → exec_post R K s r.
Proof.
  intros He Ep Er. destruct r as [s' [ret [err|]]]; cbn; rewrite Ep, Er; intros [He' Hr];
    (split; [|done]); by eapply evm_step_trans.
Qed.

(** The state of a jump after its operands are popped *)
Lemma st_ok_popped p st st' m c e :
  st_ok (mkSt p st m c e) → zlen st' ≤ 1024 → st_ok (mkSt p st' m c (with_load e)).
Proof. intros [] Hst. by split. Qed.

Lemma opJump_ok op : exec_ok R op opJump (plain 1 0).
Proof.
  op_start 1. unfold opJump. op_step. op_step. cbv beta iota. op_step; [op_step; op_throw|].
  op_step. op_step. cbv beta iota. eapply wp_mono.
  - apply (jump_ok (plain 1 0)); [|done..]. apply (st_ok_popped p _ st m c e Hs). unfold zlen. lia.
  - intros r. apply exec_post_from; [|done..]. op_evm_step Hs.
Qed.

Lemma opJumpi_ok op : exec_ok R op opJumpi (plain 2 0).
Proof.
  op_start 2. unfold opJumpi. op_step. op_step. cbv beta iota. op_step; [op_step; op_throw|].
  do 4 (op_step; cbv beta iota). op_step; [|op_step; op_done]. eapply wp_mono.
  - apply (jump_ok (plain 2 0)); [|done..]. apply (st_ok_popped p _ st m c e Hs). unfold zlen. lia.
  - intros r. apply exec_post_from; [|done..]. op_evm_step Hs.
Qed.

(** ** Creations and calls *)

(** The frame after a call or a creation that left [rest] *)
Lemma returned_ok K s s1 rest x st ret r :
  st_ok s → k_final K = false → 0 ≤ reserve K s → potential s + reserve K s ≤ 2 ^ 46 →
  pc s1 = pc s → zlen (Stack s1) < 1024 → mem_ok (Mem s1) →
  lastGasCost (Mem s1) = lastGasCost (Mem s) → evm_step R (evm s) (evm s1) →
  Con s1 = with_gas (Gas (Con s1)) (Con s) → 0 ≤ Gas (Con s1) → 0 ≤ rest →
  Gas (Con s1) + rest ≤ Gas (Con s) + reserve K s →
  st = x :: Stack s1 →
  exec_post R K s
    (set_evm (with_returnData r (evm s1))
       (set_con (with_gas (Gas (Con s1) +₆₄ rest) (Con s1)) (set_stack st s1)), (ret, None)).
Proof.
  intros Hs Hf Hr Hmax Epc Hst Hm El [] Ec Hg Hrest Hle ->.
  pose proof (ok_mem s Hs) as [_ Hlast]. unfold potential in *.
  assert (Eg : Gas (Con s1) +₆₄ rest = Gas (Con s1) + rest)
    by (apply wrap64_small; unfold in_u64; lia).
  apply post_next_con; try done; cbn.
  - rewrite Epc. apply Hs.
  - unfold zlen in *. cbn. lia.
  - rewrite Eg. replace (with_gas _ (Con s1)) with (with_gas (Gas (Con s1) + rest) (Con s))
      by (by rewrite Ec).
    destruct (ok_con s Hs) as (? & ? & ?). split_and!; cbn; [done|lia|done].
  - rewrite Eg, El. unfold potential. lia.
Qed.

Lemma finish_op_create_ok K s s1 x res rest suberr :
  st_ok s → k_final K = false → 0 ≤ reserve K s → potential s + reserve K s ≤ 2 ^ 46 →
  pc s1 = pc s → zlen (Stack s1) < 1024 → Mem s1 = Mem s → evm_step R (evm s) (evm s1) →
  Con s1 = with_gas (Gas (Con s1)) (Con s) → 0 ≤ Gas (Con s1) → 0 ≤ rest →
  Gas (Con s1) + rest ≤ Gas (Con s) →
  wp (finish_op_create x res rest suberr s1) (exec_post R K s).
Proof.
  intros Hs Hf Hr Hmax Epc Hst Em He Ec Hg Hrest Hle. unfold finish_op_create.
  do 4 (op_step; cbv beta iota). op_step; op_steps.
  all: apply (returned_ok K s s1 rest x); try done; try lia; try (rewrite Em; apply Hs).
  all: congruence.
Qed.

Lemma wp_use_gas g s (Q : St * bool → Prop) :
  g ≤ Gas (Con s) → Q (set_con (with_gas (Gas (Con s) - g) (Con s)) s, true) →
  wp (use_gas g s) Q.
Proof.
  intros Hg HQ. unfold use_gas, UseGas. by rewrite (proj2 (Z.ltb_ge _ _)).
Qed.

Lemma wp_call_evm {A} (f : ContractRef → Evm → Out (Evm * A)) s (Q : St * A → Prop) :
  wp (f (ContractPtr (Con s)) (evm s)) (λ '(e, a), Q (set_evm e s, a)) → wp (call_evm f s) Q.
Proof. intros Hf. unfold call_evm. apply wp_out_bind. eapply wp_mono; [exact Hf|]. by intros []. Qed.

Lemma all_but_one_64th g : 0 ≤ g → 0 ≤ g - g / 64 ≤ g.
Proof.
  intros Hg. pose proof (Z.div_pos g 64 Hg ltac:(lia)).
  pose proof (Z.div_le_upper_bound g 64 g ltac:(lia) ltac:(lia)). lia.
Qed.

(** The end of [opCreate] and [opCreate2]: the frame creates a contract with [g] of
    its gas, from a state with the operands popped. *)
Lemma create_with_ok k M n st p m c e g
    (f : ContractRef → Evm → Out (Evm * (bytes * Address * Z * option EvmErr)))
    (v : bytes → Address → Z → option EvmErr → U) st' :
  let K := sized k 1 M in let s := mkSt p st m c e in
  st_ok s → potential s < n → zlen st' < 1024 → 0 ≤ g ≤ Gas c →
  (0 ≤ g ≤ 2 ^ 46 → g < n → jumpdests_ok (jumpdests e) → ∀ caller,
     wp (f caller e) (create_post R e g)) →
  wp ((_ ← use_gas g;
       '(res, addr, returnGas, suberr) ← call_evm f;
       finish_op_create (v res addr returnGas suberr) res returnGas suberr)
      (mkSt p st' m c e)) (exec_post R K s).
Proof.
  intros K s Hs Hn Hst Hg Hf. pose proof (ok_potential s Hs) as Hmax.
  pose proof (potential_gas s Hs) as Hgas. cbn in Hgas.
  op_step. apply wp_use_gas; [cbn; lia|]. cbv beta iota.
  op_step. apply wp_call_evm. eapply wp_mono; [apply Hf; [lia|lia|apply Hs]|].
  intros [e' [[[res addr] rest] suberr]] [Hrest He].
  apply finish_op_create_ok; try done; cbn; unfold no_reserve, reserve; cbn; try lia.
Qed.

Lemma opCreate_ok op : exec_ok R op opCreate (sized 3 1 memoryCreate).
Proof.
  op_start 3. op_fits. eapply memory_at_fits in Esz as [Hfit _]; [|reflexivity..|exact Hsz].
  unfold opCreate. op_step. op_step. cbv beta iota. op_step; [op_step; op_throw|].
  do 10 (op_step; cbv beta iota).
  pose proof (potential_gas _ Hs) as [Hgas _]. pose proof (all_but_one_64th (Gas c) Hgas).
  specialize (Hn eq_refl). unfold reserve, no_reserve in Hn. cbn in Hn. rewrite Z.add_0_r in Hn.
  apply (create_with_ok 3 memoryCreate n _ p m c e
           (if IsEIP150 chainRules then Gas c - Gas c / 64 else Gas c));
    [done|done|unfold zlen; lia|destruct (IsEIP150 _); lia|].
  intros Hg Hgn Hj caller. unfold MaxMemory in *.
  eapply create_ok; try done; [cbn; lia|by left].
Qed.

Lemma cah_Hash_ok code :
  let ch := cah_Hash (mkCodeAndHash code zero_hash) in
  cah_code ch = code ∧ (cah_hash ch = zero_hash ∨ named (cah_hash ch) code).
Proof.
  unfold cah_Hash. cbn. destruct (bool_decide _); cbn; split; auto. right. by left.
Qed.

Lemma opCreate2_ok op : exec_ok R op opCreate2 (sized 4 1 memoryCreate2).
Proof.
  op_start 4. op_fits. eapply memory_at_fits in Esz as [Hfit _]; [|reflexivity..|exact Hsz].
  unfold opCreate2. op_step. op_step. cbv beta iota. op_step; [op_step; op_throw|].
  do 12 (op_step; cbv beta iota).
  pose proof (potential_gas _ Hs) as [Hgas _]. pose proof (all_but_one_64th (Gas c) Hgas).
  specialize (Hn eq_refl). unfold reserve, no_reserve in Hn. cbn in Hn. rewrite Z.add_0_r in Hn.
  apply (create_with_ok 4 memoryCreate2 n _ p m c e (Gas c - Gas c / 64));
    [done|done|unfold zlen; lia|lia|].
  intros Hg Hgn Hj caller. unfold MaxMemory in *. destruct (cah_Hash_ok b) as [Ec Eh].
  unfold Create2. eapply create_ok; try done. rewrite Ec. lia.
Qed.

Lemma finish_op_call_ok K s s1 off size ret rest err :
  st_ok s → k_final K = false → 0 ≤ reserve K s → potential s + reserve K s ≤ 2 ^ 46 →
  pc s1 = pc s → zlen (Stack s1) < 1024 → Mem s1 = Mem s → evm_step R (evm s) (evm s1) →
  Con s1 = Con s → in_mem (zlen (store (Mem s))) (u_Uint64 off) (u_Uint64 size) →
  0 ≤ rest ≤ reserve K s →
  wp (finish_op_call off size ret rest err s1) (exec_post R K s).
Proof.
  intros Hs Hf Hr Hmax Epc Hst Em He Ec Hfit Hrest. unfold finish_op_call.
  set (x := if negb _ then _ else _). op_step. op_step. cbv beta iota.
  assert (Hend : ∀ m, mem_ok m → lastGasCost m = lastGasCost (Mem s) →
    wp ((AddGas rest;; set_returnData ret;; leave ret None)
        (set_mem m (set_stack (x :: Stack s1) s1))) (exec_post R K s)).
  { intros m Hm El. op_steps. destruct (ok_con s Hs) as (? & ? & ?).
    apply (returned_ok K s (set_mem m s1) rest x (x :: Stack s1)); cbn; try done;
      rewrite ?Ec; try lia. by destruct (Con s). }
  op_step. op_step.
  - apply wp_mem_set; [cbn; rewrite Em; apply Hs | cbn; by rewrite Em | intros st' Hst'].
    apply Hend; cbn in *; [|by rewrite Em]. split; cbn; rewrite ?Hst', Em; apply Hs.
  - op_step. cbv beta iota.
    replace (set_stack _ s1) with (set_mem (Mem s) (set_stack (x :: Stack s1) s1))
      by (rewrite <- Em; by destruct s1).
    apply Hend; [apply Hs|done].
Qed.

Lemma call_with_ok K n p st m c e st' g off size
    (f : ContractRef → Evm → Out (Evm * CallRes)) :
  let s := mkSt p st m c e in
  st_ok s → k_final K = false → potential s + reserve K s ≤ 2 ^ 46 →
  potential s + reserve K s < n → zlen st' < 1024 →
  in_mem (zlen (store m)) (u_Uint64 off) (u_Uint64 size) → 0 ≤ g ≤ reserve K s →
  (0 ≤ g ≤ 2 ^ 46 → g < n → jumpdests_ok (jumpdests e) →
     wp (f (ContractPtr c) e) (call_post R e g)) →
  wp (('(ret, returnGas, err) ← call_evm f; finish_op_call off size ret returnGas err)
      (mkSt p st' m c e)) (exec_post R K s).
Proof.
  intros s Hs Hfin Hmax Hn Hst Hfit Hg Hf. pose proof (potential_gas s Hs) as Hgas.
  op_step. apply wp_call_evm. eapply wp_mono; [apply Hf; [lia|lia|apply Hs]|].
  intros [e' [[ret rest] err]] [Hrest He]. apply finish_op_call_ok; try done; lia.
Qed.

Lemma reserve_calling k M stip s :
  reserve (calling k M stip) s = callGasTemp (evm s) + stip (Stack s).
Proof. done. Qed.

(** Ends the proof for a call that hands over [g], with [ok] for the method called. *)
Ltac op_call Hn g ok :=
  match goal with |- wp (_ (set_stack _ _)) (exec_post _ _ (mkSt ?p _ ?m ?c ?e)) =>
    eapply (call_with_ok _ _ p _ m c e _ g); try done;
      [ by apply Hn
      | unfold zlen; lia
      | rewrite reserve_calling; cbn [evm Stack]; lia
      | intros ? ? ?; eapply ok; try done; unfold MaxMemory in *; lia ]
  end.

Lemma opDelegateCall_ok op :
  exec_ok R op opDelegateCall (calling 6 memoryDelegateCall (λ _, 0)).
Proof.
  op_start 6. op_fits.
  eapply memory_max_fits in Esz as [Hret Hargs]; [|reflexivity..|exact Hsz].
  unfold opDelegateCall. do 16 (op_step; cbv beta iota).
  rewrite reserve_calling in Hres. cbn in Hres. op_call Hn (callGasTemp e) DelegateCall_ok.
Qed.

Lemma opStaticCall_ok op : exec_ok R op opStaticCall (calling 6 memoryStaticCall (λ _, 0)).
Proof.
  op_start 6. op_fits.
  eapply memory_max_fits in Esz as [Hret Hargs]; [|reflexivity..|exact Hsz].
  unfold opStaticCall. do 16 (op_step; cbv beta iota).
  rewrite reserve_calling in Hres. cbn in Hres. op_call Hn (callGasTemp e) StaticCall_ok.
Qed.

(** The gas a call hands over, with the stipend *)
Lemma call_gas_stipend x y v st temp :
  0 ≤ temp + stipend (x :: y :: v :: st) ≤ 2 ^ 46 →
  (if negb (u_IsZero v) then temp +₆₄ CallStipend else temp)
  = temp + stipend (x :: y :: v :: st).
Proof.
  unfold stipend. rewrite u_IsZero_spec. destruct (_ =? _); cbn [negb]; intros Hs; [lia|].
  apply wrap64_small. unfold in_u64. lia.
Qed.

Lemma opCallCode_ok op : exec_ok R op opCallCode (calling 7 memoryCall stipend).
Proof.
  op_start 7. op_fits.
  eapply memory_max_fits in Esz as [Hret Hargs]; [|reflexivity..|exact Hsz].
  unfold opCallCode. do 18 (op_step; cbv beta iota).
  pose proof (potential_gas _ Hs). rewrite reserve_calling in Hres, Hpot.
  cbn [evm Stack] in Hres, Hpot.
  pose proof (call_gas_stipend _ _ _ _ (callGasTemp e) ltac:(split; [exact Hres|lia])) as Eg.
  op_call Hn
    (if negb (u_IsZero u1) then callGasTemp e +₆₄ CallStipend else callGasTemp e) CallCode_ok.
Qed.

Lemma opCall_ok op : exec_ok R op opCall (calling 7 memoryCall stipend).
Proof.
  op_start 7. op_fits.
  eapply memory_max_fits in Esz as [Hret Hargs]; [|reflexivity..|exact Hsz].
  unfold opCall. do 20 (op_step; cbv beta iota).
  op_step; [op_step; op_throw|].
  assert (Hro : readOnly e = true → big_value u1 = 0).
  { match goal with Hb : _ && _ = false |- _ =>
      intros E; unfold big_value; cbn in Hb; rewrite E in Hb; cbn in Hb; by rewrite Hb end. }
  pose proof (potential_gas _ Hs). rewrite reserve_calling in Hres, Hpot.
  cbn [evm Stack] in Hres, Hpot.
  pose proof (call_gas_stipend _ _ _ _ (callGasTemp e) ltac:(split; [exact Hres|lia])) as Eg.
  op_call Hn
    (if negb (u_IsZero u1) then callGasTemp e +₆₄ CallStipend else callGasTemp e) Call_ok.
Qed.

End exec.

(** The instructions that need nothing else *)
Create HintDb evm_exec discriminated.
#[export] Hint Resolve opPop_ok opJumpdest_ok opKeccak256_ok opCallDataCopy_ok opCodeCopy_ok
  opExtCodeCopy_ok opReturnDataCopy_ok opMload_ok opMstore_ok opMstore8_ok opCallDataLoad_ok
  opSstore_ok opTstore_ok opSelfdestruct_ok opStop_ok opReturn_ok opRevert_ok opRandom_ok opPush1_ok
  opJump_ok opJumpi_ok opCreate_ok opCreate2_ok opDelegateCall_ok opStaticCall_ok opCallCode_ok
  opCall_ok : evm_exec.
