(* ===== verification/EvmTableOk.v ===== *)
(** * The virtual machine: every jump table is safe

    Each entry of each table of [jump_table.go], with the changes of [eips.go], runs an
    instruction on the stack and the memory it needs, at a price that covers it. *)

From S2P Require Import Prelude OpCodes EvmBase EvmData EvmGas EvmPrecompiles EvmCalls.
From S2P Require Import EvmInstr EvmTable EvmRun EvmAnalysis EvmPrecompilesOk EvmWp EvmCallsOk.
From S2P Require Import EvmGasOk EvmMemOk EvmExecOk.

Section tables.
Context `{Uint256, !Uint256Laws H, Params, !ParamsLaws H0, Geth, !GethLaws H1, PrecompileCrypto,
  !PrecompileLaws H1 H2, FakeDB, !DbLaws H3, !Env}.
Variable R : db → db → Prop.
Context {SL : StaticLaws R}.

(** ** The kind of each opcode *)

Definition undefined_kind : kind := ending 0 None.

Definition kinds : list (list Z * kind) := [
  ([STOP], undefined_kind);
  ([ADD; MUL; SUB; DIV; SDIV; MOD; SMOD; EXP; SIGNEXTEND; LT; GT; SLT; SGT; EQ; AND; XOR; OR;
    BYTE; SHL; SHR; SAR], plain 2 1);
  ([ADDMOD; MULMOD], plain 3 1);
  ([ISZERO; NOT; BALANCE; CALLDATALOAD; EXTCODESIZE; EXTCODEHASH; BLOCKHASH; SLOAD; TLOAD],
   plain 1 1);
  ([ADDRESS; ORIGIN; CALLER; CALLVALUE; CALLDATASIZE; CODESIZE; GASPRICE; RETURNDATASIZE;
    COINBASE; TIMESTAMP; NUMBER; DIFFICULTY; GASLIMIT; CHAINID; SELFBALANCE; BASEFEE; PC; MSIZE;
    GAS; PUSH0], plain 0 1);
  (seqZ PUSH1 32, plain 0 1);
  ([POP; JUMP], plain 1 0);
  ([SSTORE; TSTORE; JUMPI], plain 2 0);
  ([JUMPDEST], plain 0 0);
  ([KECCAK256], sized 2 1 memoryKeccak256);
  ([CALLDATACOPY], sized 3 0 memoryCallDataCopy);
  ([CODECOPY], sized 3 0 memoryCodeCopy);
  ([EXTCODECOPY], sized 4 0 memoryExtCodeCopy);
  ([RETURNDATACOPY], sized 3 0 memoryReturnDataCopy);
  ([MLOAD], sized 1 1 memoryMLoad);
  ([MSTORE], sized 2 0 memoryMStore);
  ([MSTORE8], sized 2 0 memoryMStore8);
  ([CREATE], sized 3 1 memoryCreate);
  ([CREATE2], sized 4 1 memoryCreate2);
  ([CALL; CALLCODE], calling 7 memoryCall stipend);
  ([DELEGATECALL], calling 6 memoryDelegateCall (λ _, 0));
  ([STATICCALL], calling 6 memoryStaticCall (λ _, 0));
  ([RETURN], ending 2 (Some memoryReturn));
  ([REVERT], ending 2 (Some memoryRevert));
  ([SELFDESTRUCT], ending 1 None)].

Definition kind_of (op : Z) : kind :=
  if (DUP1 <=? op) && (op <=? DUP16) then plain (op - DUP1 + 1) (op - DUP1 + 2)
  else if (SWAP1 <=? op) && (op <=? SWAP16) then plain (op - SWAP1 + 2) (op - SWAP1 + 2)
  else if (LOG0 <=? op) && (op <=? LOG4) then sized (op - LOG0 + 2) 0 memoryLog
  else default undefined_kind (snd <$> find (λ p, existsb (Z.eqb op) p.1) kinds).

(** ** Entries *)

(** The price of an operation of kind [K] *)
Definition price_ok (K : kind) (constant : Z) (dynamic : option gasFunc) : Prop :=
  match dynamic with
  | None =>
      k_memory K = None ∧ k_reserve K = no_reserve ∧ (if k_final K then 0 else 1) ≤ constant
  | Some f => ∃ mem lo, gas_spec R mem (k_pops K) lo (k_reserve K) f ∧
      memory_ok mem (k_pops K) (k_memory K) ∧ 0 ≤ lo ∧
      (if k_final K then 0 else 1) ≤ lo + constant
  end.

(** The creations are charged a constant. *)
Definition floor (op : Z) (K : kind) : Z :=
  if negb (k_final K) && ((op =? CREATE) || (op =? CREATE2)) then 1 else 0.

Record entry_with (K : kind) (op : Z) (o : operation) : Prop := mk_entry_with {
  e_exec : exec_ok R op (execute o) K;
  e_memory : memorySize o = k_memory K;
  e_price : price_ok K (constantGas o) (dynamicGas o);
  e_floor : floor op K ≤ constantGas o;
  e_min : k_pops K ≤ op_minStack o;
  e_max : op_maxStack o ≤ 1024 + k_pops K - k_pushes K
}.

Lemma floor_range op K : 0 ≤ floor op K ≤ 1.
Proof. unfold floor. destruct (_ && _); lia. Qed.

Lemma entry_with_ok K op o : entry_with K op o → entry_ok R op o.
Proof.
  intros [He Hm Hp Hf Hmin Hmax]. exists K. pose proof (floor_range op K).
  split_and!; try done; [|lia]. unfold price_ok in Hp. destruct (dynamicGas o) as [f|] eqn:Ed.
  - destruct Hp as (mem & lo & Hg & HM & Hlo & Hprice).
    eapply (charge_gas R mem (k_pops K) lo (k_reserve K) f); try done; [by rewrite Hm|lia].
  - destruct Hp as (Ek & Er & Hc). by apply charge_constant.
Qed.

(** ** Tables: an opcode is undefined or has an entry of its kind; those of [L] have. *)

Definition table_inv (L : list Z) (jt : JumpTable) : Prop :=
  ∀ op, 0 ≤ op < 256 →
  entry_with (kind_of op) op (jt op) ∨ (op ∉ L) ∧ entry_with undefined_kind op (jt op).

Lemma table_inv_ok L jt : table_inv L jt → table_ok R jt.
Proof. intros Hjt op Hop. destruct (Hjt op Hop) as [He|[_ He]]; by eapply entry_with_ok. Qed.

Lemma table_inv_weaken L L' jt : L ⊆ L' → table_inv L' jt → table_inv L jt.
Proof. intros HL Hjt op Hop. destruct (Hjt op Hop) as [He|[Hn He]]; [by left|right]. set_solver. Qed.

Lemma table_inv_set L op o jt :
  table_inv L jt → entry_with (kind_of op) op o → table_inv (op :: L) (jt_set op o jt).
Proof.
  intros Hjt Ho i Hi. unfold jt_set. destruct (Z.eqb_spec i op) as [->|Hne]; [by left|].
  destruct (Hjt i Hi) as [He|[Hn He]]; [by left|right]. set_solver.
Qed.

Lemma table_inv_add L op o jt :
  table_inv L jt → entry_with (kind_of op) op o → table_inv L (jt_set op o jt).
Proof.
  intros Hjt Ho. eapply table_inv_weaken; [|by apply table_inv_set]. set_solver.
Qed.

Lemma table_inv_constant L op g jt :
  1 ≤ g → table_inv L jt → table_inv L (jt_constantGas op g jt).
Proof.
  intros Hg Hjt i Hi. unfold jt_constantGas, jt_set.
  assert (Hup : ∀ K, entry_with K op (jt op) → entry_with K op
    (mkOperation (execute (jt op)) g (dynamicGas (jt op)) (op_minStack (jt op))
       (op_maxStack (jt op)) (memorySize (jt op)))).
  { intros K [? ? Hp ? ? ?]. pose proof (floor_range op K). split; cbn; try done; [|lia].
    unfold price_ok in *. destruct (dynamicGas (jt op)).
    - destruct Hp as (mem & lo & ? & ? & ? & ?). exists mem, lo.
      split_and!; try done. destruct (k_final K); lia.
    - destruct Hp as (? & ? & ?). split_and!; try done. destruct (k_final K); lia. }
  destruct (Z.eqb_spec i op) as [->|Hne]; [|by apply Hjt].
  destruct (Hjt op Hi) as [He|[Hn He]]; [left|right]; auto.
Qed.

(** The price of an opcode of [L] is replaced. *)
Lemma table_inv_price L op g f jt mem lo :
  op ∈ L → table_inv L jt → gas_spec R mem (k_pops (kind_of op)) lo (k_reserve (kind_of op)) f →
  memory_ok mem (k_pops (kind_of op)) (k_memory (kind_of op)) → 0 ≤ lo → 1 ≤ lo + g →
  floor op (kind_of op) ≤ g →
  table_inv L (jt_dynamicGas op f (jt_constantGas op g jt)).
Proof.
  intros HL Hjt Hf HM Hlo Hg Hfl i Hi. unfold jt_dynamicGas, jt_constantGas, jt_set.
  rewrite Z.eqb_refl. cbn. destruct (Z.eqb_spec i op) as [->|Hne]; [|by apply Hjt].
  destruct (Hjt op Hi) as [[]|[]]; [|done]. left. split; cbn; try done.
  exists mem, lo. split_and!; try done. destruct (k_final (kind_of op)); lia.
Qed.

Lemma table_inv_dynamic L op f jt mem lo :
  op ∈ L → table_inv L jt → gas_spec R mem (k_pops (kind_of op)) lo (k_reserve (kind_of op)) f →
  memory_ok mem (k_pops (kind_of op)) (k_memory (kind_of op)) → 0 ≤ lo →
  (if k_final (kind_of op) then 0 else 1) ≤ lo + floor op (kind_of op) →
  table_inv L (jt_dynamicGas op f jt).
Proof.
  intros HL Hjt Hf HM Hlo Hg i Hi. unfold jt_dynamicGas, jt_set. cbn.
  destruct (Z.eqb_spec i op) as [->|Hne]; [|by apply Hjt].
  destruct (Hjt op Hi) as [[]|[]]; [|done]. left. split; cbn; try done.
  exists mem, lo. split_and!; try done. lia.
Qed.

(** ** Frontier *)

Tactic Notation "family" uconstr(t) :=
  match goal with |- exec_ok _ _ ?f _ =>
    apply (proj1 (Forall_forall _ _) t f); by repeat constructor end.

Ltac entry_exec :=
  first
    [ by eauto with evm_exec nocore
    | family (binary_ops_ok R _) | family (ternary_ops_ok R _)
    | family (unary_ops_ok R _) | family (push_ops_ok R _)
    | apply (makePush_ok R); [discriminate|lia] | apply (makeDup_ok R); done
    | apply (makeSwap_ok R); done | apply (makeLog_ok R) ].

Ltac positive :=
  match goal with
  | |- _ ≤ ?lo + ?c => first [lia | param c; lia]
  | |- _ ≤ ?c => first [done | param c; lia]
  end.

Ltac stack_bound :=
  cbn; unfold maxDupStack, maxSwapStack, maxStack; rewrite StackLimit_value;
  match goal with |- _ ≤ ?n => let n' := eval vm_compute in n in change n with n' end; lia.

Ltac kind_known :=
  cbn [fst snd];
  match goal with |- entry_with (kind_of ?op) _ _ =>
    let K := eval hnf in (kind_of op) in
    lazymatch K with mkKind ?p ?q ?M ?res ?fin =>
      let p := eval vm_compute in p in let q := eval vm_compute in q in
      change (kind_of op) with (mkKind p q M res fin) end
  end.

(** An entry whose price is a constant *)
Ltac constant_entry :=
  kind_known;
  split; cbn [execute memorySize constantGas dynamicGas op_minStack op_maxStack];
  [entry_exec | done | split_and!; [done|done|cbn; positive] | cbn; positive | done
         | stack_bound].

Lemma stipend_nonneg st : 0 ≤ stipend st.
Proof. param CallStipend. destruct st as [|? [|? [|v ?]]]; cbn; try lia. destruct (_ =? _); lia. Qed.

Ltac entry_gas :=
  unfold gasReturn, gasRevert, gasMLoad, gasMStore8, gasMStore, gasCreate, gasCallDataCopy,
    gasCodeCopy, gasExtCodeCopy, gasReturnDataCopy, gasSelfdestructEIP2929, gasSelfdestructEIP3529,
    gasSStoreEIP2929, gasSStoreEIP3529;
  first
    [ apply (call_gas_plain R); [first [apply stipend_nonneg | done]|];
      by eauto with evm_gas nocore
    | apply (call_gas_variant R); [done | done | first [apply stipend_nonneg | done]|];
      by eauto with evm_gas nocore
    | by eauto with evm_gas nocore ].

Ltac entry_memory :=
  first
    [ done
    | split; [reflexivity|];
      first [apply memory_at_total; lia | apply memory_off_total; lia | apply memory_max_total; lia] ].

(** An entry with a dynamic price *)
Ltac dynamic_entry :=
  kind_known;
  split; cbn [execute memorySize constantGas dynamicGas op_minStack op_maxStack];
  [ entry_exec | done
  | unfold price_ok; cbn [k_pops k_reserve k_memory k_final]; eexists _, _; split_and!; [entry_gas | entry_memory | done | cbn; positive]
  | cbn; positive | done | stack_bound].

Definition entries_ok (l : list (Z * operation)) : Prop :=
  Forall (λ p, entry_with (kind_of p.1) p.1 p.2) l.

Ltac entries :=
  repeat (apply Forall_cons_2; [first [constant_entry | dynamic_entry]|]); try apply Forall_nil_2.

Lemma frontier_push_low_ok : entries_ok frontier_push_low.
Proof. entries. Qed.

Lemma frontier_push_high_ok : entries_ok frontier_push_high.
Proof. entries. Qed.

Lemma frontier_dup_ok : entries_ok frontier_dup.
Proof. entries. Qed.

Lemma frontier_swap_ok : entries_ok frontier_swap.
Proof. entries. Qed.

Lemma frontier_arithmetic_ok : entries_ok frontier_arithmetic.
Proof. entries. Qed.

Lemma frontier_environment_ok : entries_ok frontier_environment.
Proof. entries. Qed.

Lemma frontier_storage_ok : entries_ok frontier_storage.
Proof. entries. Qed.

Lemma frontier_system_ok : entries_ok frontier_system.
Proof. entries. Qed.

Lemma frontier_entries_ok : entries_ok frontier_entries.
Proof.
  unfold entries_ok, frontier_entries. rewrite !Forall_app.
  split_and!; [apply frontier_arithmetic_ok | apply frontier_environment_ok
    | apply frontier_storage_ok | apply frontier_push_low_ok | apply frontier_push_high_ok
    | apply frontier_dup_ok | apply frontier_swap_ok | apply frontier_system_ok].
Qed.

Lemma undefined_ok op : op ≠ STOP → entry_with undefined_kind op undefined_operation.
Proof.
  intros Hop. split; try done; [by apply opUndefined_ok|]. cbn. unfold maxStack.
  rewrite StackLimit_value. lia.
Qed.

Lemma frontier_entries_inv : table_inv frontier_entries.*1 newFrontierInstructionSet.
Proof.
  intros op Hop. unfold newFrontierInstructionSet.
  destruct (find _ frontier_entries) as [[op' o]|] eqn:E.
  - apply find_some in E as [Hin Eop]. apply Z.eqb_eq in Eop. cbn in Eop. subst op'.
    left. apply list_elem_of_In in Hin.
    exact (proj1 (Forall_forall _ _) frontier_entries_ok (op, o) Hin).
  - assert (Hnot : op ∉ frontier_entries.*1).
    { intros ([op' o] & -> & Hin)%list_elem_of_fmap. apply list_elem_of_In in Hin.
      pose proof (find_none _ _ E _ Hin) as Hne. cbn in Hne. by rewrite Z.eqb_refl in Hne. }
    right. split; [done|]. apply undefined_ok. intros ->. apply Hnot. apply list_elem_of_here.
Qed.

(** The opcodes whose prices change later *)
Definition frontier_ops : list Z :=
  [EXP; SLOAD; SSTORE; BALANCE; EXTCODESIZE; EXTCODECOPY; CREATE; CALL; CALLCODE; SELFDESTRUCT].

Lemma frontier_inv : table_inv frontier_ops newFrontierInstructionSet.
Proof.
  eapply table_inv_weaken; [|apply frontier_entries_inv]. intros op Hop.
  assert (E : forallb (λ op, existsb (Z.eqb op) frontier_entries.*1) frontier_ops = true)
    by reflexivity.
  rewrite forallb_forall in E. apply list_elem_of_In in Hop.
  apply E, existsb_exists in Hop as (op' & Hin & ->%Z.eqb_eq). by apply list_elem_of_In.
Qed.

(** ** The later tables *)

Ltac in_ops :=
  try match goal with Hsub : _ ⊆ ?L |- _ ∈ ?L => apply Hsub end;
  repeat first [apply list_elem_of_here | apply list_elem_of_further].

(** A price of [L] is replaced, with the constant part or without. *)
Ltac new_price :=
  match goal with
  | |- table_inv _ (jt_dynamicGas ?op _ (jt_constantGas ?op _ _)) => eapply table_inv_price
  | |- _ => eapply table_inv_dynamic
  end;
  [ in_ops |
  | match goal with |- gas_spec _ _ (k_pops (kind_of ?op)) _ _ _ =>
      let K := eval hnf in (kind_of op) in change (kind_of op) with K end;
    cbn [k_pops k_reserve]; entry_gas
  | match goal with |- memory_ok _ (k_pops (kind_of ?op)) _ =>
      let K := eval hnf in (kind_of op) in change (kind_of op) with K end;
    cbn [k_pops k_memory]; entry_memory
  | done | .. ].

Ltac new_entry := first [constant_entry | dynamic_entry].

Definition homestead_ops : list Z := DELEGATECALL :: frontier_ops.

Lemma homestead_inv : table_inv homestead_ops newHomesteadInstructionSet.
Proof. apply table_inv_set; [apply frontier_inv|]. dynamic_entry. Qed.

Lemma tangerineWhistle_inv : table_inv homestead_ops newTangerineWhistleInstructionSet.
Proof. repeat (apply table_inv_constant; [positive|]). apply homestead_inv. Qed.

Lemma spuriousDragon_inv : table_inv homestead_ops newSpuriousDragonInstructionSet.
Proof. unfold newSpuriousDragonInstructionSet. new_price; [apply tangerineWhistle_inv|done]. Qed.

Definition byzantium_ops : list Z :=
  REVERT :: RETURNDATACOPY :: RETURNDATASIZE :: STATICCALL :: homestead_ops.

Lemma byzantium_inv : table_inv byzantium_ops newByzantiumInstructionSet.
Proof.
  unfold newByzantiumInstructionSet. cbv zeta.
  do 4 (apply table_inv_set; [|new_entry]). apply spuriousDragon_inv.
Qed.

Definition constantinople_ops : list Z :=
  CREATE2 :: EXTCODEHASH :: SAR :: SHR :: SHL :: byzantium_ops.

Lemma constantinople_inv : table_inv constantinople_ops newConstantinopleInstructionSet.
Proof.
  unfold newConstantinopleInstructionSet. cbv zeta.
  do 5 (apply table_inv_set; [|new_entry]). apply byzantium_inv.
Qed.

(** ** eips.go *)

Lemma enable1884_inv L jt : table_inv L jt → table_inv L (enable1884 jt).
Proof.
  intros Hjt. apply table_inv_add; [|new_entry].
  by repeat (apply table_inv_constant; [positive|]).
Qed.

Lemma enable1344_inv L jt : table_inv L jt → table_inv L (enable1344 jt).
Proof. intros Hjt. apply table_inv_add; [done|new_entry]. Qed.

Lemma enable3198_inv L jt : table_inv L jt → table_inv L (enable3198 jt).
Proof. intros Hjt. apply table_inv_add; [done|new_entry]. Qed.

Lemma enable3855_inv L jt : table_inv L jt → table_inv L (enable3855 jt).
Proof. intros Hjt. apply table_inv_add; [done|new_entry]. Qed.

Lemma enable1153_inv L jt : table_inv L jt → table_inv L (enable1153 jt).
Proof. intros Hjt. apply table_inv_add; [apply table_inv_add; [done|]|]; new_entry. Qed.

(** The other EIPs change prices of opcodes that [L] must contain. *)
Lemma enable2200_inv L jt : frontier_ops ⊆ L → table_inv L jt → table_inv L (enable2200 jt).
Proof.
  intros HL Hjt. unfold enable2200. cbv zeta. new_price; [|done].
  by apply table_inv_constant; [positive|].
Qed.

Lemma enable3529_inv L jt : frontier_ops ⊆ L → table_inv L jt → table_inv L (enable3529 jt).
Proof. intros HL Hjt. unfold enable3529. cbv zeta. new_price; [new_price; done|done]. Qed.

Lemma enable3860_inv L jt :
  constantinople_ops ⊆ L → table_inv L jt → table_inv L (enable3860 jt).
Proof. intros HL Hjt. unfold enable3860. cbv zeta. new_price; [new_price; done|done]. Qed.

Ltac floor_below :=
  match goal with |- ?n ≤ _ => let n' := eval vm_compute in n in change n with n' end; positive.

Lemma enable2929_inv L jt :
  IsEIP150 chainRules = true → constantinople_ops ⊆ L → table_inv L jt →
  table_inv L (enable2929 jt).
Proof.
  intros H150 HL Hjt. unfold enable2929. cbv zeta.
  do 10 (new_price; [|positive|floor_below]). new_price; done.
Qed.

(** ** The tables of the later rules *)

Lemma istanbul_inv : table_inv constantinople_ops newIstanbulInstructionSet.
Proof.
  apply enable2200_inv; [set_solver|]. apply enable1884_inv, enable1344_inv, constantinople_inv.
Qed.

Section berlin.
Hypothesis H150 : IsEIP150 chainRules = true.

Lemma berlin_inv : table_inv constantinople_ops newBerlinInstructionSet.
Proof. apply enable2929_inv; [done|done|apply istanbul_inv]. Qed.

Lemma london_inv : table_inv constantinople_ops newLondonInstructionSet.
Proof. apply enable3198_inv, enable3529_inv; [set_solver|apply berlin_inv]. Qed.

Hypothesis Hrandom : Random ≠ None.

Lemma merge_inv : table_inv constantinople_ops newMergeInstructionSet.
Proof. apply table_inv_add; [apply london_inv|new_entry]. Qed.

Lemma shanghai_inv : table_inv constantinople_ops newShanghaiInstructionSet.
Proof. apply enable3860_inv; [done|]. apply enable3855_inv, merge_inv. Qed.

End berlin.

(** ** The table of an interpreter *)

Definition forks (r : Rules) : list bool :=
  [IsHomestead r; IsEIP150 r; IsEIP158 r; IsByzantium r; IsConstantinople r; IsIstanbul r;
   IsBerlin r; IsLondon r; IsMerge r; IsShanghai r].

(** A fork is active only if the one before it is. *)
Definition fork_order (r : Rules) : Prop :=
  ∀ i, forks r !! S i = Some true → forks r !! i = Some true.

Lemma fork_before r i j :
  fork_order r → (i ≤ j)%nat → forks r !! j = Some true → forks r !! i = Some true.
Proof. intros Hr. induction 1; auto. Qed.

(** The rules are those of a chain: the forks come in order, a block after the merge
    has a random value, and extra EIPs that change the prices of opcodes are not enabled
    before these opcodes exist. *)
Definition rules_ok (extraEips : list Z) : Prop :=
  fork_order chainRules ∧ (IsMerge chainRules = true → Random ≠ None) ∧
  (2929 ∈ extraEips ∨ 3860 ∈ extraEips → IsConstantinople chainRules = true).

Definition rules_ops (r : Rules) : list Z :=
  if IsConstantinople r then constantinople_ops else frontier_ops.

Lemma frontier_in_homestead : frontier_ops ⊆ homestead_ops.
Proof. set_solver. Qed.

Lemma frontier_in_byzantium : frontier_ops ⊆ byzantium_ops.
Proof. set_solver. Qed.

Lemma frontier_in_rules r : frontier_ops ⊆ rules_ops r.
Proof. unfold rules_ops. destruct (IsConstantinople r); set_solver. Qed.

Lemma rules_table_inv extraEips :
  rules_ok extraEips → table_inv (rules_ops chainRules) (rules_table chainRules).
Proof.
  intros (Hr & Hrandom & _). unfold rules_table, rules_ops.
  assert (Hup : ∀ i j, (i ≤ j)%nat → forks chainRules !! j = Some true →
    forks chainRules !! i = Some true) by (intros i j; by apply fork_before).
  assert (Hc : ∀ j, (4 ≤ j)%nat → forks chainRules !! j = Some true →
    IsEIP150 chainRules = true ∧ IsConstantinople chainRules = true).
  { intros j Hj Ej. pose proof (Hup 1%nat j ltac:(lia) Ej) as H1'.
    pose proof (Hup 4%nat j ltac:(lia) Ej) as H4'. cbn in H1', H4'. split; congruence. }
  assert (Hm : ∀ j, (8 ≤ j)%nat → forks chainRules !! j = Some true → Random ≠ None).
  { intros j Hj Ej. apply Hrandom. pose proof (Hup 8%nat j Hj Ej) as H8'. cbn in H8'. congruence. }
  destruct (IsShanghai chainRules) eqn:E9.
  { destruct (Hc 9%nat) as [? ->]; [lia|cbn; congruence|].
    apply shanghai_inv; [done|]. apply (Hm 9%nat); [lia|cbn; congruence]. }
  destruct (IsMerge chainRules) eqn:E8.
  { destruct (Hc 8%nat) as [? ->]; [lia|cbn; congruence|]. apply merge_inv; [done|auto]. }
  destruct (IsLondon chainRules) eqn:E7.
  { destruct (Hc 7%nat) as [? ->]; [lia|cbn; congruence|]. by apply london_inv. }
  destruct (IsBerlin chainRules) eqn:E6.
  { destruct (Hc 6%nat) as [? ->]; [lia|cbn; congruence|]. by apply berlin_inv. }
  destruct (IsIstanbul chainRules) eqn:E5.
  { destruct (Hc 5%nat) as [? ->]; [lia|cbn; congruence|]. apply istanbul_inv. }
  destruct (IsConstantinople chainRules); [apply constantinople_inv|].
  destruct (IsByzantium _); [eapply table_inv_weaken; [|apply byzantium_inv]; apply frontier_in_byzantium|].
  destruct (IsEIP158 _); [eapply table_inv_weaken; [|apply spuriousDragon_inv]; apply frontier_in_homestead|].
  destruct (IsEIP150 _); [eapply table_inv_weaken; [|apply tangerineWhistle_inv]; apply frontier_in_homestead|].
  destruct (IsHomestead _); [eapply table_inv_weaken; [|apply homestead_inv]; apply frontier_in_homestead|].
  apply frontier_inv.
Qed.

(** The EIPs that need the opcodes of Constantinople *)
Definition eip_needs (L : list Z) (eip : Z) : Prop :=
  eip = 2929 ∨ eip = 3860 → IsEIP150 chainRules = true ∧ constantinople_ops ⊆ L.

Lemma activators_inv L :
  frontier_ops ⊆ L →
  Forall (λ p, eip_needs L p.1 → ∀ jt, table_inv L jt → table_inv L (p.2 jt)) activators.
Proof.
  intros HL. repeat (apply Forall_cons_2; [intros Heip jt Hjt; cbn in *|]); [..|apply Forall_nil_2].
  - by apply enable3855_inv.
  - apply enable3860_inv; [apply Heip; auto|done].
  - by apply enable3529_inv.
  - by apply enable3198_inv.
  - destruct Heip; [by left|]. by apply enable2929_inv.
  - by apply enable2200_inv.
  - by apply enable1884_inv.
  - by apply enable1344_inv.
  - by apply enable1153_inv.
Qed.

Lemma EnableEIP_inv L eip jt jt' :
  frontier_ops ⊆ L → eip_needs L eip → table_inv L jt → EnableEIP eip jt = Some jt' →
  table_inv L jt'.
Proof.
  intros HL Heip Hjt. unfold EnableEIP.
  destruct (find _ activators) as [[n f]|] eqn:E; [|done]. intros [= <-].
  apply find_some in E as [Hin Eeip%Z.eqb_eq]. cbn in Eeip. subst n. apply list_elem_of_In in Hin.
  exact (proj1 (Forall_forall _ _) (activators_inv L HL) (eip, f) Hin Heip jt Hjt).
Qed.

Lemma enable_eips_inv L eips jt :
  frontier_ops ⊆ L → Forall (eip_needs L) eips → table_inv L jt →
  table_inv L (enable_eips eips jt).1.
Proof.
  intros HL Heips. revert jt. induction Heips as [|eip eips Heip Heips IH]; intros jt Hjt; [done|].
  cbn [enable_eips]. destruct (EnableEIP eip jt) as [jt'|] eqn:E; [|by apply IH].
  specialize (IH jt' (EnableEIP_inv L eip jt jt' HL Heip Hjt E)).
  by destruct (enable_eips eips jt') as [jt'' active].
Qed.

Lemma NewEVMInterpreter_ok extraEips :
  rules_ok extraEips → table_ok R (NewEVMInterpreter extraEips).1.
Proof.
  intros Hr. apply (table_inv_ok (rules_ops chainRules)). unfold NewEVMInterpreter.
  apply enable_eips_inv; [apply frontier_in_rules| |by eapply rules_table_inv].
  destruct Hr as (Hr & _ & Heips). apply Forall_forall. intros eip Hin Heip.
  assert (Hc : IsConstantinople chainRules = true) by (apply Heips; destruct Heip; subst; auto).
  unfold rules_ops. rewrite Hc. split; [|done].
  pose proof (fork_before chainRules 1 4 Hr ltac:(lia)) as H1'. cbn in H1'.
  rewrite Hc in H1'. specialize (H1' eq_refl). congruence.
Qed.

End tables.
