(* ===== verification/EvmSafe.v ===== *)
(** * The virtual machine: the interpreter is safe and terminates

    The theorems about [EVMInterpreter.Run] and [FakeEVM.StaticCall] for the table
    that [NewEVMInterpreter] chooses, and the validity of all tables. *)

From S2P Require Import Prelude OpCodes EvmBase EvmData EvmGas EvmPrecompiles EvmCalls.
From S2P Require Import EvmInstr EvmTable EvmRun EvmAnalysis EvmPrecompilesOk EvmWp EvmCallsOk.
From S2P Require Import EvmGasOk EvmMemOk EvmExecOk EvmTableOk.

(** ** Every table is valid *)

Section validate.
Context `{Uint256, Params, Geth, PrecompileCrypto, FakeDB, !Env}.

Definition entry_valid (o : operation) : Prop :=
  is_Some (memorySize o) → is_Some (dynamicGas o).

Definition table_valid (jt : JumpTable) : Prop := ∀ op, entry_valid (jt op).

Lemma validate_valid jt : table_valid jt → validate jt = Ret jt.
Proof.
  intros Hjt. unfold validate. replace (forallb _ _) with true; [done|]. symmetry.
  apply forallb_forall. intros op _. specialize (Hjt op). unfold entry_valid in Hjt.
  destruct (memorySize (jt op)), (dynamicGas (jt op)); try done.
  by destruct Hjt as [? ?]; [eexists|].
Qed.

Lemma valid_set op o jt : entry_valid o → table_valid jt → table_valid (jt_set op o jt).
Proof. intros Ho Hjt i. unfold jt_set. by destruct (i =? op). Qed.

Lemma valid_constantGas op g jt : table_valid jt → table_valid (jt_constantGas op g jt).
Proof. intros Hjt. apply valid_set; [apply (Hjt op)|done]. Qed.

Lemma valid_dynamicGas op f jt : table_valid jt → table_valid (jt_dynamicGas op f jt).
Proof. intros Hjt. apply valid_set; [by intros _; eexists|done]. Qed.

Lemma frontier_valid : table_valid newFrontierInstructionSet.
Proof.
  intros op. unfold newFrontierInstructionSet.
  destruct (find _ frontier_entries) as [[op' o]|] eqn:E; [|by intros [? [=]]].
  apply find_some in E as [Hin _]. apply list_elem_of_In in Hin. cbn.
  assert (Hall : Forall (λ p, entry_valid p.2) frontier_entries).
  { unfold frontier_entries. rewrite !Forall_app. split_and!.
    all: repeat (apply Forall_cons_2; [intros Hm; first [by eexists | by destruct Hm as [? [=]]]|]).
    all: apply Forall_nil_2. }
  exact (proj1 (Forall_forall _ _) Hall (op', o) Hin).
Qed.

Ltac valid_step :=
  lazymatch goal with
  | |- table_valid (jt_constantGas _ _ _) => apply valid_constantGas
  | |- table_valid (jt_dynamicGas _ _ _) => apply valid_dynamicGas
  | |- table_valid (jt_set _ _ _) =>
      apply valid_set; [intros Hm; first [by eexists | by destruct Hm as [? [=]]]|]
  | |- table_valid newFrontierInstructionSet => apply frontier_valid
  | |- table_valid ?jt => let jt' := eval red in jt in change (table_valid jt'); cbv zeta
  end.

Lemma rules_table_valid r : table_valid (rules_table r).
Proof. unfold rules_table. repeat case_match; repeat valid_step. Qed.

Lemma activators_valid :
  Forall (λ p, ∀ jt, table_valid jt → table_valid (p.2 jt)) activators.
Proof.
  repeat (apply Forall_cons_2; [intros jt Hjt; cbn [snd]|]); [..|apply Forall_nil_2].
  all: repeat first [exact Hjt | valid_step].
Qed.

Lemma enable_eips_valid eips jt : table_valid jt → table_valid (enable_eips eips jt).1.
Proof.
  revert jt. induction eips as [|eip eips IH]; intros jt Hjt; [done|].
  cbn [enable_eips]. destruct (EnableEIP eip jt) as [jt'|] eqn:E; [|by apply IH].
  assert (Hjt' : table_valid jt').
  { unfold EnableEIP in E. destruct (find _ activators) as [p|] eqn:Ef; [|done].
    injection E as <-. apply find_some in Ef as [Hin _]. apply list_elem_of_In in Hin.
    exact (proj1 (Forall_forall _ _) activators_valid p Hin jt Hjt). }
  specialize (IH jt' Hjt'). by destruct (enable_eips eips jt') as [jt'' active].
Qed.

(** C28. Every jump table is well formed: for every chain rules, and whichever EIPs are
    enabled on top, [validate] accepts the table of the interpreter, so no entry has a
    memory size without a dynamic price. *)
Theorem tables_validate eips r :
  validate (rules_table r) = Ret (rules_table r) ∧
  validate (enable_eips eips (rules_table r)).1 = Ret (enable_eips eips (rules_table r)).1.
Proof.
  split; apply validate_valid; [apply rules_table_valid|].
  apply enable_eips_valid, rules_table_valid.
Qed.

End validate.

(** ** Runs *)

Section runs.
Context `{Uint256, !Uint256Laws H, Params, !ParamsLaws H0, Geth, !GethLaws H1, PrecompileCrypto,
  !PrecompileLaws H1 H2, FakeDB, !DbLaws H3, !Env}.

(** A run that returns with [Q], or that panics for a cause in its environment *)
Definition returns {A} (m : Out A) (Q : A → Prop) : Prop :=
  (∃ a, m = Done a ∧ Q a) ∨ (∃ c, m = Raised c ∧ cause_ok c).

Lemma wp_returns {A} (m : Out A) (Q : A → Prop) : wp m Q → returns m Q.
Proof. destruct m as [a| |c|]; [left; by exists a|done|right; by exists c|done]. Qed.

Lemma run_spec_le R n n' run : run_spec R n run → n' ≤ n → run_spec R n' run.
Proof. intros Hrun Hn c input ro e ? ? ? ? ?. apply Hrun; try done. lia. Qed.

(** Any two states are related by a relation without contents. *)
Definition any_db (d d' : db) : Prop := True.
Lemma any_db_laws : StaticLaws any_db.
Proof. by split. Qed.



(** ** Memory *)

(** C40. Reading memory can shrink it: charging an MLOAD at offset zero in a frame whose
    memory is longer than a word costs nothing and cuts the memory to its first word,
    because [Resize] also truncates; what was stored beyond is lost. *)
Theorem MLOAD_truncates_memory o s x st :
  memorySize o = Some memoryMLoad → Stack s = x :: st → u_val x = 0 →
  32 < zlen (store (Mem s)) → 0 ≤ Gas (Con s) →
  charge_dynamic o gasMLoad s = Done (set_mem (with_store (Mem s) (take 32 (store (Mem s)))) s,
                                      inr tt).
Proof.
  intros Eo Est Hx Hlen Hgas.
  assert (E1 : memoryMLoad (Stack s) = Ret (32, false)).
  { rewrite Est. unfold memoryMLoad, calcMemSize64WithUint. change (Back (x :: st) 0) with (@Ret EvmErr _ x).
    exec. cbn. by rewrite u_Uint64WithOverflow_spec, Hx. }
  assert (E2 : required_memory o s = Done (s, inr 32)).
  { unfold required_memory. rewrite Eo. exec. rewrite E1. cbn. unfold mul_or_overflow.
    by rewrite SafeMul_spec. }
  assert (E3 : gasMLoad 32 s = Done (s, inr 0)).
  { unfold gasMLoad, pureMemoryGascost, memoryGasCost. exec. cbn. unfold mem_Len.
    change (wrap64 (toWordSize 32 * 32)) with 32. by rewrite (proj2 (Z.ltb_ge _ 32)) by lia. }
  unfold charge_dynamic, try_bind. exec. rewrite E2. cbv iota beta. rewrite E3. cbv iota beta.
  unfold use_gas, UseGas. rewrite (proj2 (Z.ltb_ge _ _)) by done. cbn. do 2 f_equal.
  unfold Resize, mem_Len. cbn.
  rewrite (proj2 (Z.ltb_ge _ _)), (proj2 (Z.ltb_lt _ _)) by lia.
  rewrite Z.sub_0_r. by destruct s as [? ? [] [] ?].
Qed.

(** ** Static calls *)

Section static.
Variable R : db → db → Prop.
Context {SL : StaticLaws R}.

Definition static_post (e : Evm) (gas : Z) : Evm * CallRes → Prop :=
  λ '(e', (_, rest, _)), 0 ≤ rest ≤ gas ∧ R (StateDB e) (StateDB e').

Lemma run_call_static n run caller c input e :
  run_spec R n run → analysis_ok c → zlen input < 2 ^ 62 → jumpdests_ok (jumpdests e) →
  0 ≤ Gas c ≤ 2 ^ 46 → Gas c < n →
  wp (run_call run caller c input true e) (static_post e (Gas c)).
Proof.
  intros Hrun Hc Hi Hj Hg Hn. unfold run_call, run_new. apply wp_out_bind, wp_out_bind.
  assert (Hj' : jumpdests_ok (new_jumpdests caller (jumpdests e)))
    by (destruct caller; [by intros h a; cbn; rewrite lookup_empty|done]).
  eapply wp_mono; [by apply Hrun|].
  intros [[e' c'] [ret err]] (Hg' & _ & _ & _ & Hdb). by destruct caller.
Qed.


End static.

End runs.
