(* ===== verification/StateFakeDB.v ===== *)
(** * The state of the virtual machine: [state/fakedb.go]

    [FakeDB] reads accounts and storage from the state tree at a fixed root; the methods
    that would change the state are not implemented and only log, the refund counter
    apart.  The tree is the interface [StateTree], whose methods return the value or
    an error; a nil [*big.Int] is [None]. *)

From S2P Require Import Prelude Digits EvmBase EvmData EvmGas EvmPrecompiles EvmAnalysis EvmWp.

(** The methods of [merkletree.StateTree] the database calls; [None] is an error. *)
Class StateTree := {
  tree_GetBalance : Address → bytes → option Z;
  tree_GetNonce : Address → bytes → option Z;
  tree_GetCodeHash : Address → bytes → option bytes;
  tree_GetCode : Address → bytes → option bytes;
  tree_GetStorageAt : Address → Z → bytes → option Z
}.

(** [common.BytesToHash] and [common.Hash.Big] of go-ethereum *)
Class GethCommon := {
  BytesToHash : bytes → Hash;
  hash_Big : Hash → Z
}.

Record FakeDBState := mkFakeDB {
  stateRoot : bytes;
  refund : Z
}.

Section fakedb.
Context `{StateTree, GethCommon}.

Definition SetStateRoot (root : bytes) (f : FakeDBState) : FakeDBState :=
  mkFakeDB root (refund f).

Definition fake_GetBalance (f : FakeDBState) (address : Address) : option Z :=
  tree_GetBalance address (stateRoot f).

Definition fake_GetNonce (f : FakeDBState) (address : Address) : Z :=
  match tree_GetNonce address (stateRoot f) with
  | None => 0
  | Some nonce => wrap64 (Z.abs nonce)
  end.

(** An error leaves a nil slice. *)
Definition fake_GetCodeHash (f : FakeDBState) (address : Address) : Hash :=
  BytesToHash (default [] (tree_GetCodeHash address (stateRoot f))).

Definition fake_GetCode (f : FakeDBState) (address : Address) : bytes :=
  default [] (tree_GetCode address (stateRoot f)).

Definition fake_GetCodeSize (f : FakeDBState) (address : Address) : Z :=
  zlen (fake_GetCode f address).

Definition fake_AddRefund (f : FakeDBState) (gas : Z) : FakeDBState :=
  mkFakeDB (stateRoot f) (refund f +₆₄ gas).

(** The counter wraps around below zero. *)
Definition fake_SubRefund (f : FakeDBState) (gas : Z) : FakeDBState :=
  mkFakeDB (stateRoot f) (refund f -₆₄ gas).

Definition fake_GetRefund (f : FakeDBState) : Z := refund f.

Definition fake_GetCommittedState (f : FakeDBState) (_ : Address) (_ : Hash) : Hash := zero_hash.

(** [storage.Bytes()] of a nil [*big.Int] dereferences it. *)
Definition fake_GetState (f : FakeDBState) (address : Address) (hash : Hash) :
    GoRes EvmErr Hash :=
  match tree_GetStorageAt address (hash_Big hash) (stateRoot f) with
  | None => Panic
  | Some storage => Ret (BytesToHash (digits 256 (Z.abs storage)))
  end.

(** [GetBalance(address).Int64() == 0]: the low 64 bits of the balance are zero; a nil
    balance is dereferenced. *)
Definition balance_is_zero (f : FakeDBState) (address : Address) : GoRes EvmErr bool :=
  match fake_GetBalance f address with
  | None => Panic
  | Some b => Ret (wrap64 b =? 0)
  end.

(** [&&] does not evaluate the balance of an account with a nonce. *)
Definition fake_Exist (f : FakeDBState) (address : Address) : GoRes EvmErr bool :=
  if negb (fake_GetNonce f address =? 0) then Ret true
  else
    zero ← balance_is_zero f address;
    Ret (negb (zero && bool_decide (fake_GetCodeHash f address = zero_hash))).

Definition fake_Empty (f : FakeDBState) (address : Address) : GoRes EvmErr bool :=
  if negb (fake_GetNonce f address =? 0) then Ret true
  else
    zero ← balance_is_zero f address;
    Ret (negb (zero && bool_decide (fake_GetCodeHash f address = zero_hash))).

(** The value of a method, unless it panics *)
Definition answered {A} (r : GoRes EvmErr A) : option A :=
  match r with Ret a => Some a | _ => None end.

(** The methods that are not implemented keep the database. *)
Definition not_implemented {A} (f : FakeDBState) (_ : A) : FakeDBState := f.

(** The database as the interface of the machine *)
Definition StateFakeDB : FakeDB := {|
  db := FakeDBState;
  CreateAccount := not_implemented;
  SubBalance := λ f _, not_implemented f;
  AddBalance := λ f _, not_implemented f;
  GetBalance := fake_GetBalance;
  GetNonce := fake_GetNonce;
  SetNonce := λ f _, not_implemented f;
  GetCodeHash := fake_GetCodeHash;
  GetCode := fake_GetCode;
  SetCode := λ f _, not_implemented f;
  GetCodeSize := fake_GetCodeSize;
  AddRefund := fake_AddRefund;
  SubRefund := fake_SubRefund;
  GetCommittedState := fake_GetCommittedState;
  GetState := λ f a h, answered (fake_GetState f a h);
  SetState := λ f _ _, not_implemented f;
  GetTransientState := λ _ _ _, zero_hash;
  SetTransientState := λ f _ _, not_implemented f;
  Suicide := not_implemented;
  HasSuicided := λ _ _, false;
  Exist := λ f a, answered (fake_Exist f a);
  Empty := λ f a, answered (fake_Empty f a);
  AddressInAccessList := λ _ _, false;
  SlotInAccessList := λ _ _ _, (false, false);
  AddAddressToAccessList := not_implemented;
  AddSlotToAccessList := λ f _, not_implemented f;
  RevertToSnapshot := not_implemented;
  Snapshot := λ f, (f, 0);
  AddLog := not_implemented;
  AddPreimage := λ f _, not_implemented f
|}.

(** What [FakeDB] says of an account, when the tree answers: [Exist] holds unless the
    nonce, the low 64 bits of the balance and the code hash are all zero, so an account
    with only a balance of a multiple of [2 ^ 64] wei does not exist; [Empty] has the
    same value, so every account that exists is reported empty. *)
Theorem FakeDB_accounts f a n b h :
  tree_GetNonce a (stateRoot f) = Some n → tree_GetBalance a (stateRoot f) = Some b →
  fake_GetCodeHash f a = h →
  fake_Exist f a =
    Ret (negb ((wrap64 (Z.abs n) =? 0) && (wrap64 b =? 0) && bool_decide (h = zero_hash))) ∧
  fake_Empty f a = fake_Exist f a ∧
  (n = 0 → h = zero_hash → (2 ^ 64 | b) → fake_Exist f a = Ret false).
Proof.
  intros En Eb Eh.
  assert (E : fake_Exist f a =
    Ret (negb ((wrap64 (Z.abs n) =? 0) && (wrap64 b =? 0) && bool_decide (h = zero_hash)))).
  { unfold fake_Exist, fake_GetNonce, balance_is_zero, fake_GetBalance.
    rewrite En, Eb, Eh. by destruct (wrap64 (Z.abs n) =? 0). }
  split; [done|]. split; [done|]. intros -> -> Hb. rewrite E.
  unfold wrap64. rewrite (proj2 (Z.mod_divide b (2 ^ 64) ltac:(done)) Hb).
  by rewrite bool_decide_true.
Qed.

End fakedb.

(** ** SSTORE *)

Section sstore.
Context `{Uint256, Params, Geth, StateTree, GethCommon}.
#[local] Existing Instance StateFakeDB.
Context `{!Env}.

(** On [FakeDB], pricing an SSTORE under EIP-2929 panics: the access list never has
    the address of the contract, so for every frame with two operands and more gas than
    the sentry, when the tree answers for the slot, [makeGasSStoreFunc] ends in the panic
    it calls impossible. *)
Theorem FakeDB_sstore_panics r size (s : St) x y st :
  Stack s = x :: y :: st → SstoreSentryGasEIP2200 < Gas (Con s) →
  is_Some (GetState (StateDB (evm s)) (self (Con s)) (u_Bytes32 x)) →
  makeGasSStoreFunc r size s =
    Raised (NotListed (StateDB (evm s)) (self (Con s)) (u_Bytes32 x)).
Proof.
  intros Est Hgas [v Ev]. destruct s as [p st' m c e]. cbn in Est, Hgas, Ev. subst st'.
  unfold makeGasSStoreFunc. exec. cbn [Con Gas]. rewrite (proj2 (Z.leb_gt _ _)) by done.
  unfold back, address, Back, index. change (Z.to_nat 1) with 1%nat. change (Z.to_nat 0) with 0%nat.
  cbn -[answered fake_GetState]. by rewrite Ev.
Qed.

End sstore.
