(* ===== verification/EvmRef.v ===== *)
(** * The virtual machine: an instance of its interfaces

    Concrete instances of the packages the machine calls and of their laws: 256-bit
    integers as numbers, the documented constants, a hash of 32 bytes, and a state
    tree that answers every request.  They make the definitions executable and show that
    the hypotheses of the theorems hold together. *)

From S2P Require Import Prelude Digits OpCodes EvmBase EvmData EvmGas EvmPrecompiles EvmCalls.
From S2P Require Import EvmInstr EvmTable EvmRun EvmAnalysis EvmPrecompilesOk EvmWp EvmCallsOk.
From S2P Require Import EvmGasOk EvmMemOk EvmExecOk EvmTableOk EvmSafe StateFakeDB.

(** ** Integers *)

Definition m256 (x : Z) : Z := x mod 2 ^ 256.
Definition signed256 (x : Z) : Z := if x <? 2 ^ 255 then x else x - 2 ^ 256.
Definition div0 (f : Z → Z → Z) (x y : Z) : Z := if y =? 0 then 0 else m256 (f x y).

(** Big-endian bytes of [n] digits *)
Definition big_endian (n : nat) (x : Z) : bytes := split_digits 256 n x.

Definition RefUint256 : Uint256 := {|
  U := Z;
  u_Add := λ x y, m256 (x + y);
  u_Sub := λ x y, m256 (x - y);
  u_Mul := λ x y, m256 (x * y);
  u_Div := div0 Z.div;
  u_SDiv := λ x y, div0 Z.quot (signed256 x) (signed256 y);
  u_Mod := div0 Z.modulo;
  u_SMod := λ x y, div0 Z.rem (signed256 x) (signed256 y);
  u_Exp := λ x y, m256 (x ^ y);
  u_ExtendSign := λ x b,
    if 31 <? b then x
    else let bit := 8 * b + 7 in
         if Z.testbit x bit then Z.lor x (2 ^ 256 - 2 ^ bit) else Z.land x (2 ^ bit - 1);
  u_Not := λ x, 2 ^ 256 - 1 - m256 x;
  u_Lt := Z.ltb;
  u_Gt := λ x y, y <? x;
  u_Slt := λ x y, signed256 x <? signed256 y;
  u_Sgt := λ x y, signed256 y <? signed256 x;
  u_Eq := Z.eqb;
  u_IsZero := λ x, m256 x =? 0;
  u_One := 1;
  u_Zero := 0;
  u_AllOne := 2 ^ 256 - 1;
  u_And := Z.land;
  u_Or := Z.lor;
  u_Xor := Z.lxor;
  u_Byte := λ x n, if n <? 32 then Z.shiftr x (8 * (31 - n)) mod 256 else 0;
  u_AddMod := λ x y z, div0 Z.modulo (x + y) z;
  u_MulMod := λ x y z, div0 Z.modulo (x * y) z;
  u_LtUint64 := Z.ltb;
  u_GtUint64 := λ x y, y <? x;
  u_Uint64 := λ x, wrap64 (m256 x);
  u_Lsh := λ x n, m256 (Z.shiftl x n);
  u_Rsh := Z.shiftr;
  u_SRsh := λ x n, m256 (Z.shiftr (signed256 x) n);
  u_Sign := λ x, Z.sgn (signed256 (m256 x));
  u_SetBytes := λ b, m256 (of_digits 256 b);
  u_SetUint64 := wrap64;
  u_FromBig := m256;
  u_SetFromBig := m256;
  u_ToBig := m256;
  u_Bytes20 := λ x, big_endian 20 (x mod 2 ^ 160);
  u_Bytes32 := λ x, big_endian 32 (m256 x);
  u_IsUint64 := λ x, m256 x <? 2 ^ 64;
  u_Uint64WithOverflow := λ x, (wrap64 (m256 x), 2 ^ 64 <=? m256 x);
  u_BitLen := λ x, if m256 x =? 0 then 0 else Z.log2 (m256 x) + 1
|}.

#[export] Existing Instance RefUint256.

Lemma m256_range x : 0 ≤ m256 x < 2 ^ 256.
Proof. apply Z.mod_pos_bound. done. Qed.

#[export, refine] Instance RefUint256Laws : Uint256Laws RefUint256 := {| u_val := m256 |}.
Proof.
  - apply m256_range.
  - done.
  - done.
  - done.
  - done.
  - intros x. pose proof (m256_range x). cbn. unfold signed256.
    destruct (Z.ltb_spec (m256 x) (2 ^ 255)); lia.
  - intros x y. cbn. unfold m256. by rewrite Z.mod_mod, Zplus_mod_idemp_l, Zplus_mod_idemp_r.
  - intros x. pose proof (m256_range x). cbn. destruct (Z.eqb_spec (m256 x) 0); [lia|].
    pose proof (Z.log2_nonneg (m256 x)).
    assert (Z.log2 (m256 x) < 256) by (apply Z.log2_lt_pow2; lia). lia.
Defined.

(** ** Constants, hashes and precompiled contracts *)

Definition RefParams : Params := {|
  CallValueTransferGas := 9000; CallNewAccountGas := 25000; CallStipend := 2300;
  MemoryGas := 3; QuadCoeffDiv := 512; CopyGas := 3; SstoreSetGas := 20000;
  SstoreResetGas := 5000; SstoreClearGas := 5000; SstoreRefundGas := 15000;
  NetSstoreNoopGas := 200; NetSstoreInitGas := 20000; NetSstoreCleanGas := 5000;
  NetSstoreDirtyGas := 200; NetSstoreClearRefund := 15000; NetSstoreResetRefund := 4800;
  NetSstoreResetClearRefund := 19800; SstoreSentryGasEIP2200 := 2300;
  SstoreSetGasEIP2200 := 20000; SstoreResetGasEIP2200 := 5000;
  SstoreClearsScheduleRefundEIP2200 := 15000; SstoreClearsScheduleRefundEIP3529 := 4800;
  ColdAccountAccessCostEIP2929 := 2600; ColdSloadCostEIP2929 := 2100;
  WarmStorageReadCostEIP2929 := 100; LogGas := 375; LogTopicGas := 375; LogDataGas := 8;
  Keccak256Gas := 30; Keccak256WordGas := 6; InitCodeWordGas := 2; MaxInitCodeSize := 49152;
  MaxCodeSize := 24576; ExpGas := 10; ExpByteFrontier := 10; ExpByteEIP158 := 50;
  SelfdestructGasEIP150 := 5000; CreateBySelfdestructGas := 25000;
  SelfdestructRefundGas := 24000; CreateGas := 32000; Create2Gas := 32000;
  CreateDataGas := 200; JumpdestGas := 1; SloadGasFrontier := 50; SloadGasEIP150 := 200;
  SloadGasEIP1884 := 800; SloadGasEIP2200 := 800; BalanceGasFrontier := 20;
  BalanceGasEIP150 := 400; BalanceGasEIP1884 := 700; ExtcodeSizeGasFrontier := 20;
  ExtcodeSizeGasEIP150 := 700; ExtcodeCopyBaseFrontier := 20; ExtcodeCopyBaseEIP150 := 700;
  ExtcodeHashGasConstantinople := 400; ExtcodeHashGasEIP1884 := 700; CallGasFrontier := 40;
  CallGasEIP150 := 700; StackLimit := 1024; CallCreateDepth := 1024
|}.

#[export] Existing Instance RefParams.

#[export] Instance RefParamsLaws : ParamsLaws RefParams.
Proof. split; cbn; [repeat constructor; lia | done..]. Qed.

(** A hash of 32 bytes: the low bits of a number that has the input as its digits *)
Definition ref_hash (b : bytes) : Hash :=
  big_endian 32 (of_digits 257 ((λ x, wrap8 x + 1) <$> b) mod 2 ^ 256).


Definition RefGeth : Geth := {|
  Keccak256 := ref_hash;
  CreateAddress := λ a nonce, take 20 (ref_hash (nonce :: a));
  CreateAddress2 := λ a salt h, take 20 (ref_hash (a ++ salt ++ h));
  RightPadBytes := λ b n,
    if (maxAlloc <? n) && (zlen b <? n) then None
    else Some (b ++ replicate (Z.to_nat (n - zlen b)) 0);
  SafeAdd := λ x y, (x +₆₄ y, 2 ^ 64 <=? x + y);
  SafeMul := λ x y, (wrap64 (x * y), 2 ^ 64 <=? x * y)
|}.

#[export] Existing Instance RefGeth.

#[export] Instance RefGethLaws : GethLaws RefGeth.
Proof.
  split; try done; intros sl l Hl; cbn.
  - by rewrite (proj2 (Z.ltb_ge _ _) Hl).
  - intros Hs. by rewrite (proj2 (Z.ltb_lt _ _) Hl), (proj2 (Z.ltb_lt _ _) Hs).
Qed.

Definition RefCrypto : PrecompileCrypto := {|
  LeftPadBytes := λ b n,
    if (maxAlloc <? n) && (zlen b <? n) then None
    else Some (replicate (Z.to_nat (n - zlen b)) 0 ++ b);
  ValidateSignatureValues := λ _ _ _ _, true;
  Ecrecover := λ _ _, inr (replicate 65 4);
  sha256_Sum256 := ref_hash;
  ripemd160_Sum := λ b, take 20 (ref_hash b);
  G1 := bytes;
  G2 := bytes;
  G1_Unmarshal := inr;
  G2_Unmarshal := inr;
  G1_Add := app;
  G1_ScalarMult := λ g _, g;
  G1_Marshal := id;
  PairingCheck := λ _ _, true;
  blake2b_F := λ h _ _ _ _, h;
  EcrecoverGas := 3000; Sha256PerWordGas := 12; Sha256BaseGas := 60; Ripemd160PerWordGas := 120;
  Ripemd160BaseGas := 600; IdentityPerWordGas := 3; IdentityBaseGas := 15;
  Bn256AddGasIstanbul := 150; Bn256AddGasByzantium := 500; Bn256ScalarMulGasIstanbul := 6000;
  Bn256ScalarMulGasByzantium := 40000; Bn256PairingBaseGasIstanbul := 45000;
  Bn256PairingPerPointGasIstanbul := 34000; Bn256PairingBaseGasByzantium := 100000;
  Bn256PairingPerPointGasByzantium := 80000
|}.

#[export] Existing Instance RefCrypto.

#[export] Instance RefCryptoLaws : PrecompileLaws RefGeth RefCrypto.
Proof.
  split.
  - intros sl l Hl. cbn. by rewrite (proj2 (Z.ltb_ge _ _) Hl).
  - by intros h sig pub [= <-].
  - intros b. by apply length_split_digits.
  - done.
  - repeat constructor; done.
Qed.

(** ** The state *)

(** One contract, with code, a balance and a nonce *)
Definition ref_address : Address := replicate 19 0 ++ [0xaa].
Definition ref_code : bytes :=
  [PUSH1; 5; JUMP; JUMPDEST; STOP; JUMPDEST; PUSH1; 7; PUSH1; 64; MSTORE; PUSH1; 0; MLOAD; STOP].

Definition RefTree : StateTree := {|
  tree_GetBalance := λ a _, Some (if bool_decide (a = ref_address) then 1000 else 0);
  tree_GetNonce := λ a _, Some (if bool_decide (a = ref_address) then 1 else 0);
  tree_GetCodeHash := λ a _,
    Some (if bool_decide (a = ref_address) then ref_hash ref_code else []);
  tree_GetCode := λ a _, Some (if bool_decide (a = ref_address) then ref_code else []);
  tree_GetStorageAt := λ _ _ _, Some 0
|}.

Definition RefCommon : GethCommon := {|
  BytesToHash := λ b, replicate (32 - length b) 0 ++ drop (length b - 32) b;
  hash_Big := of_digits 256
|}.

#[export] Existing Instance RefTree.
#[export] Existing Instance RefCommon.
#[export] Existing Instance StateFakeDB.

#[export] Instance RefDbLaws : DbLaws StateFakeDB.
Proof.
  split; intros d a; cbn [GetCode StateFakeDB]; unfold fake_GetCode;
    cbn [tree_GetCode RefTree default]; destruct (bool_decide (a = ref_address)).
  - vm_compute. reflexivity.
  - reflexivity.
Qed.

(** A block of a chain with all rules up to Shanghai *)
Definition ref_rules : Rules := mkRules true true true true true true true true true true true.

Definition RefEnv : Env := {|
  CanTransfer := λ f a v, (λ b, v <=? b) <$> GetBalance f a;
  Transfer := λ f _ _ _, f;
  GetHash := λ n, ref_hash [n];
  Coinbase := zero_address; GasLimit := 30000000; BlockNumber := 1; Time := 0; Difficulty := 0;
  BaseFee := 0; Random := Some zero_hash; Origin := ref_address; GasPrice := 1; ChainID := 1;
  chainRules := ref_rules; EnablePreimageRecording := false; abort_at := λ _, false
|}.

#[export] Existing Instance RefEnv.

Definition same_root (f f' : db) : Prop := stateRoot f = stateRoot f'.

#[export] Instance RefStaticLaws : StaticLaws same_root.
Proof. split; unfold same_root; intros; first [done | by etrans]. Qed.

(** ** Witnesses *)

Definition ref_db : FakeDBState := mkFakeDB [1] 0.
Definition ref_evm : Evm := mkEvm ref_db 0 0 0 false [] ∅.
Definition ref_contract : Contract :=
  SetCallCode (NewContract (AccountRef ref_address) ref_address 0 1000) (Some ref_address)
    (GetCodeHash ref_db ref_address) (GetCode ref_db ref_address).

Lemma ref_rules_ok : rules_ok [].
Proof.
  split; [|split; [done|by intros [?%not_elem_of_nil|?%not_elem_of_nil]]].
  intros i Hi. by do 10 (destruct i as [|i]; [done|]).
Qed.

Lemma ref_contract_ok : analysis_ok ref_contract.
Proof. apply analysis_ok_code. Qed.

Lemma ref_jumpdests_ok : jumpdests_ok (jumpdests ref_evm).
Proof. intros h a. cbn. by rewrite lookup_empty. Qed.


Definition ref_state (st : list Z) (mem : bytes) : St :=
  mkSt 5 st (mkMemory mem 0) ref_contract ref_evm.

Lemma ref_state_ok st mem :
  zlen st ≤ 1024 → zlen mem ≤ MaxMemory → st_ok (ref_state st mem).
Proof.
  intros Hst Hmem. split; try done.
  split; [apply ref_contract_ok|]. split; [apply Z.leb_le|apply Z.ltb_lt]; reflexivity.
Qed.



Lemma MLOAD_truncates_memory_witness :
  charge_dynamic (newShanghaiInstructionSet MLOAD) gasMLoad (ref_state [0] (replicate 96 7))
  = Done (set_mem (with_store (Mem (ref_state [0] (replicate 96 7))) (replicate 32 7))
            (ref_state [0] (replicate 96 7)), inr tt).
Proof.
  apply (MLOAD_truncates_memory (newShanghaiInstructionSet MLOAD)
           (ref_state [0] (replicate 96 7)) 0 []);
    [reflexivity | reflexivity | reflexivity | apply Z.ltb_lt; reflexivity
    | apply Z.leb_le; reflexivity].
Defined.

(** A destination that is a JUMPDEST, after an analysis of the code *)
Lemma opJump_spec_witness :
  ∃ s', analysed (set_evm (with_load ref_evm) (set_stack [] (ref_state [5] []))) s' ∧
    opJump (Run (NewEVMInterpreter []).1 0) (ref_state [5] [])
    = Done (set_pc 4 s', ([], None)).
Proof.
  destruct (opJump_spec (Run (NewEVMInterpreter []).1 0) (ref_state [5] []) 5 [])
    as (s' & Hs & E);
    [ apply ref_contract_ok | apply ref_jumpdests_ok | by intros a [?|[_ ?]]
    | reflexivity | reflexivity |].
  exists s'. split; [exact Hs|]. rewrite E. reflexivity.
Defined.


Lemma FakeDB_accounts_witness :
  fake_Exist ref_db ref_address = Ret true ∧ fake_Empty ref_db ref_address = Ret true.
Proof.
  destruct (FakeDB_accounts ref_db ref_address 1 1000 (fake_GetCodeHash ref_db ref_address))
    as (E1 & E2 & _); [reflexivity | reflexivity | reflexivity |].
  rewrite E2, E1. split; reflexivity.
Defined.

Lemma FakeDB_sstore_panics_witness :
  makeGasSStoreFunc 4800 0
    (set_con (with_gas 5000 ref_contract) (ref_state [1; 2] []))
  = Raised (NotListed ref_db ref_address (big_endian 32 1)).
Proof.
  apply (FakeDB_sstore_panics 4800 0 (set_con (with_gas 5000 ref_contract) (ref_state [1; 2] []))
           1 2 []); [reflexivity | apply Z.ltb_lt; reflexivity | by eexists].
Defined.
