(* ===== verification/MtSplit.v ===== *)
(** * Scalars of the state tree: [merkletree/split.go]

    The state tree keeps 256-bit numbers as eight 32-bit limbs ([fea]) and keys, roots
    and hashes as four 64-bit words ([h4]); a slice of [uint64] is a list of numbers. *)

From S2P Require Import Prelude Digits Hex.
From Stdlib Require Import Ascii.

(** The errors of the package; [HashError] and [ServiceError] come from the hash and from
    the database service. *)
Inductive TreeErr :=
  | NotABigInt (s : text)
  | DecodeError (err : HexErr)
  | InvalidBalance
  | InvalidNonce
  | HashError
  | ServiceError.

#[export] Instance TreeErr_eq_dec : EqDecision TreeErr.
Proof. solve_decision. Defined.

Abbreviation maxBigIntLen := 32 (only parsing).
Abbreviation wordLength := 64 (only parsing).

(** The limbs are summed from the lowest one.  [poseidon.NROUNDSF], a constant of the hash's
    package, is taken as eight: the length of the arrays [key.go] passes to the hash and of
    the inputs of [split_test.go]. *)
Definition fea2scalar (v : list Z) : Z :=
  match v with
  | [v0; v1; v2; v3; v4; v5; v6; v7] =>
      v0 + Z.shiftl v1 32 + Z.shiftl v2 64 + Z.shiftl v3 96 + Z.shiftl v4 128
      + Z.shiftl v5 160 + Z.shiftl v6 192 + Z.shiftl v7 224
  | _ => 0
  end.

Definition scalar2fea (value : Z) : list Z :=
  let mask := 0xFFFFFFFF in
  [ big_Uint64 (Z.land value mask);
    big_Uint64 (Z.land (Z.shiftr value 32) mask);
    big_Uint64 (Z.land (Z.shiftr value 64) mask);
    big_Uint64 (Z.land (Z.shiftr value 96) mask);
    big_Uint64 (Z.land (Z.shiftr value 128) mask);
    big_Uint64 (Z.land (Z.shiftr value 160) mask);
    big_Uint64 (Z.land (Z.shiftr value 192) mask);
    big_Uint64 (Z.land (Z.shiftr value 224) mask) ].

(** A slice that is not empty but shorter than four words ends in an index panic. *)
Definition h4ToScalar {E} (h4 : list Z) : GoRes E Z :=
  if zlen h4 =? 0 then Ret 0
  else
    foldl (λ acc i,
        result ← acc;
        b2 ← index h4 i;
        Ret (result + Z.shiftl b2 (wordLength * i)))
      (index h4 0) [1; 2; 3].

(** [fmt.Sprintf("0x%064s", ...)] pads the text with zeros on the left. *)
Definition H4ToString {E} (h4 : list Z) : GoRes E text :=
  sc ← h4ToScalar h4;
  Ret (hex_prefix ++ pad_text 64 (EncodeToString (digits 256 (Z.abs sc)))).

(** [big.Int.FillBytes] writes the absolute value and panics when it does not fit. *)
Definition ScalarToFilledByteSlice {E} (s : Z) : GoRes E bytes :=
  if Z.abs s <? 256 ^ maxBigIntLen then Ret (split_digits 256 32 (Z.abs s)) else Panic.

(** [binary.BigEndian.Uint64] reads the first eight bytes. *)
Definition BigEndian_Uint64 {E} (b : bytes) : GoRes E Z :=
  _ ← index b 7; Ret (of_digits 256 (take 8 b)).

Definition scalarToh4 {E} (s : Z) : GoRes E (list Z) :=
  b ← ScalarToFilledByteSlice s;
  let f := match DecodeHex (String.list_ascii_of_string "0xFFFFFFFFFFFFFFFF") with
           | Ret f => f
           | _ => []
           end in
  fbe ← BigEndian_Uint64 f;
  w3 ← slice b 0 8; r3 ← BigEndian_Uint64 w3;
  w2 ← slice b 8 16; r2 ← BigEndian_Uint64 w2;
  w1 ← slice b 16 24; r1 ← BigEndian_Uint64 w1;
  w0 ← slice b 24 (zlen b); r0 ← BigEndian_Uint64 w0;
  Ret [Z.land r0 fbe; Z.land r1 fbe; Z.land r2 fbe; Z.land r3 fbe].

Definition StringToh4 (str : text) : GoRes TreeErr (list Z) :=
  let str := if HasPrefix0x str then drop 2 str else str in
  match SetString str 16 with
  | None => Fail (NotABigInt str)
  | Some bi => scalarToh4 bi
  end.

Definition h4ToFilledByteSlice {E} (h4 : list Z) : GoRes E bytes :=
  sc ← h4ToScalar h4; ScalarToFilledByteSlice sc.

Definition string2fea (s : text) : GoRes TreeErr (list Z) :=
  match SetString s 16 with
  | None => Fail (NotABigInt s)
  | Some bi => Ret (scalar2fea bi)
  end.

Definition fea2string {E} (fea : list Z) : GoRes E text :=
  biBytes ← ScalarToFilledByteSlice (fea2scalar fea);
  Ret (EncodeToHex biBytes).

(** ** Lemmas *)

Definition is_h4 (h : list Z) : Prop := length h = 4%nat ∧ is_digits (2 ^ 64) h.
Definition is_fea (v : list Z) : Prop := length v = 8%nat ∧ is_digits (2 ^ 32) v.
Definition in_u256 (z : Z) : Prop := 0 ≤ z < 2 ^ 256.

(** Limbs and words are the digits of the number, the lowest one first. *)
Lemma limb z k : 0 ≤ k → big_Uint64 (Z.land (Z.shiftr z k) 0xFFFFFFFF) = z / 2 ^ k mod 2 ^ 32.
Proof.
  intros Hk. change 0xFFFFFFFF with (Z.ones 32).
  rewrite Z.land_ones, Z.shiftr_div_pow2 by lia.
  pose proof (Z.mod_pos_bound (z / 2 ^ k) (2 ^ 32) ltac:(lia)).
  apply big_Uint64_small. unfold in_u64. lia.
Qed.

Lemma scalar2fea_digits z : scalar2fea z = reverse (split_digits (2 ^ 32) 8 z).
Proof.
  unfold scalar2fea. rewrite <-(Z.shiftr_0_r z) at 1. rewrite !limb by lia.
  rewrite Z.pow_0_r, Z.div_1_r. unfold split_digits.
  rewrite !Zdiv.Zdiv_Zdiv by lia. done.
Qed.

Lemma fea2scalar_digits v : length v = 8%nat → fea2scalar v = of_digits (2 ^ 32) (reverse v).
Proof.
  intros Hv. do 9 (destruct v as [|? v]; try done).
  unfold fea2scalar, of_digits. cbn [reverse rev_append foldl].
  rewrite !Z.shiftl_mul_pow2 by lia. cbn. lia.
Qed.

Lemma h4ToScalar_digits {E} h :
  length h = 4%nat → h4ToScalar (E := E) h = Ret (of_digits (2 ^ 64) (reverse h)).
Proof.
  intros Hh. do 5 (destruct h as [|? h]; try done).
  transitivity (Ret (E := E) (z + Z.shiftl z0 64 + Z.shiftl z1 128 + Z.shiftl z2 192)); [done|].
  f_equal. unfold of_digits. cbn [reverse rev_append foldl].
  rewrite !Z.shiftl_mul_pow2 by lia. lia.
Qed.

Lemma is_digits_reverse b v : is_digits b v → is_digits b (reverse v).
Proof. intros. by apply Forall_reverse. Qed.

Lemma scalar2fea_is_fea z : is_fea (scalar2fea z).
Proof.
  rewrite scalar2fea_digits. split; [by rewrite length_reverse|].
  apply is_digits_reverse, split_digits_is_digits. lia.
Qed.

Lemma fea2scalar_scalar2fea z : in_u256 z → fea2scalar (scalar2fea z) = z.
Proof.
  intros Hz. rewrite fea2scalar_digits by apply scalar2fea_is_fea.
  rewrite scalar2fea_digits, reverse_involutive.
  by apply split_digits_small.
Qed.

Lemma scalar2fea_fea2scalar v : is_fea v → scalar2fea (fea2scalar v) = v.
Proof.
  intros [Hl Hv]. rewrite fea2scalar_digits, scalar2fea_digits by done.
  pose proof (split_of_digits (2 ^ 32) ltac:(lia) (reverse v) (is_digits_reverse _ _ Hv)) as Hs.
  rewrite length_reverse, Hl in Hs. by rewrite Hs, reverse_involutive.
Qed.

Lemma h4_bound h : is_h4 h → in_u256 (of_digits (2 ^ 64) (reverse h)).
Proof.
  intros [Hl Hh]. pose proof (of_digits_bound (2 ^ 64) ltac:(lia) _ (is_digits_reverse _ _ Hh)) as Hb.
  by rewrite length_reverse, Hl in Hb.
Qed.

Lemma filled_slice {E} z :
  in_u256 z → ScalarToFilledByteSlice (E := E) z = Ret (split_digits 256 32 z).
Proof.
  intros Hz. unfold ScalarToFilledByteSlice. rewrite Z.abs_eq by apply Hz.
  rewrite (proj2 (Z.ltb_lt _ _)); [done|apply Hz].
Qed.

Lemma split_digits_add b j k z :
  0 < b → split_digits b (j + k) z = split_digits b j (z / b ^ Z.of_nat k) ++ split_digits b k z.
Proof.
  intros Hb. revert z. induction k as [|k IH]; intros z.
  { rewrite Nat.add_0_r, app_nil_r. cbn. by rewrite Z.div_1_r. }
  rewrite Nat.add_succ_r. cbn [split_digits]. rewrite IH, app_assoc, Nat2Z.inj_succ, Z.pow_succ_r by lia.
  by rewrite Zdiv.Zdiv_Zdiv by lia.
Qed.

Lemma BigEndian_word {E} z :
  BigEndian_Uint64 (E := E) (split_digits 256 8 z) = Ret (z mod 2 ^ 64).
Proof.
  unfold BigEndian_Uint64. destruct (index_ok (E := E) (split_digits 256 8 z) 7) as (x & -> & _).
  { rewrite length_split_digits. lia. }
  cbn [mbind GoRes_bind]. rewrite take_ge by by rewrite length_split_digits.
  by rewrite of_split_digits by lia.
Qed.

Lemma filled_words z :
  split_digits 256 32 z =
    split_digits 256 8 (z / 2 ^ 192) ++ split_digits 256 8 (z / 2 ^ 128)
    ++ split_digits 256 8 (z / 2 ^ 64) ++ split_digits 256 8 z.
Proof.
  rewrite (split_digits_add 256 8 24 z eq_refl : split_digits 256 32 z = _),
    (split_digits_add 256 8 16 z eq_refl : split_digits 256 24 z = _),
    (split_digits_add 256 8 8 z eq_refl : split_digits 256 16 z = _).
  by change (256 ^ Z.of_nat 24) with (2 ^ 192); change (256 ^ Z.of_nat 16) with (2 ^ 128);
    change (256 ^ Z.of_nat 8) with (2 ^ 64).
Qed.

Lemma scalarToh4_digits {E} z :
  in_u256 z → scalarToh4 (E := E) z = Ret (reverse (split_digits (2 ^ 64) 4 z)).
Proof.
  intros Hz. unfold scalarToh4. rewrite filled_slice by done. rewrite filled_words. go_bind.
  set (w3 := split_digits 256 8 (z / 2 ^ 192)). set (w2 := split_digits 256 8 (z / 2 ^ 128)).
  set (w1 := split_digits 256 8 (z / 2 ^ 64)). set (w0 := split_digits 256 8 z).
  rewrite (slice_at [] w3 (w2 ++ w1 ++ w0) _ 0 8), (slice_at w3 w2 (w1 ++ w0) _ 8 16),
    (slice_at (w3 ++ w2) w1 w0 _ 16 24), (slice_at (w3 ++ w2 ++ w1) w0 [] _ 24);
    try (by rewrite ?app_nil_r, <-?app_assoc); try done.
  change (BigEndian_Uint64 (match _ with Ret f => f | _ => [] end))
    with (Ret (E := E) (Z.ones 64)).
  unfold w0, w1, w2, w3. repeat (go_bind; rewrite BigEndian_word). go_bind.
  rewrite !Z.land_ones, !Zmod_mod by lia. unfold split_digits. cbn [app reverse rev_append].
  by rewrite !Zdiv.Zdiv_Zdiv by lia.
Qed.

Lemma scalarToh4_h4 {E} h :
  is_h4 h → scalarToh4 (E := E) (of_digits (2 ^ 64) (reverse h)) = Ret h.
Proof.
  intros Hh. rewrite scalarToh4_digits by by apply h4_bound. destruct Hh as [Hl Hh].
  pose proof (split_of_digits (2 ^ 64) ltac:(lia) (reverse h) (is_digits_reverse _ _ Hh)) as Hs.
  rewrite length_reverse, Hl in Hs. by rewrite Hs, reverse_involutive.
Qed.

Lemma scalarToh4_ok {E} z :
  in_u256 z → ∃ h, scalarToh4 (E := E) z = Ret h ∧ is_h4 h ∧ of_digits (2 ^ 64) (reverse h) = z.
Proof.
  intros Hz. rewrite scalarToh4_digits by done. eexists. split; [done|]. split; [split|].
  - by rewrite length_reverse.
  - apply is_digits_reverse, split_digits_is_digits. lia.
  - rewrite reverse_involutive. by apply split_digits_small.
Qed.

Lemma SetString_hex ds :
  is_digits 16 ds → ds ≠ [] → SetString (hex_char <$> ds) 16 = Some (of_digits 16 ds).
Proof.
  intros Hd Hne. assert (Hp : parse_nat 16 (hex_char <$> ds) = Some (of_digits 16 ds)).
  { unfold parse_nat. rewrite parse_hex_digits by done. by destruct ds. }
  rewrite <-Hp. destruct ds as [|d ds]; [done|]. apply Forall_cons in Hd as [Hd _].
  destruct (hex_char_sign d Hd) as [H1 H2].
  simpl. unfold SetString. repeat (case_match; simplify_eq; try done).
Qed.

(** The text of filled bytes, as [EncodeToHex] writes it *)
Lemma SetString_bytes k z :
  (0 < k)%nat → 0 ≤ z < 256 ^ Z.of_nat k →
  SetString (EncodeToString (split_digits 256 k z)) 16 = Some z.
Proof.
  intros Hk Hz. rewrite <-split_digits_hex, SetString_hex.
  - f_equal. apply split_digits_small; [lia|]. by rewrite Nat2Z.inj_mul, Z.pow_mul_r by lia.
  - apply split_digits_is_digits. lia.
  - intros He%(f_equal length). rewrite length_split_digits in He. cbn in He. lia.
Qed.

Lemma EncodeToString_zeros k : EncodeToString (replicate k 0) = replicate (2 * k) "0"%char.
Proof.
  induction k as [|k IH]; [done|]. replace (2 * S k)%nat with (S (S (2 * k))) by lia.
  unfold EncodeToString in *. cbn [replicate mbind list_bind]. by rewrite IH.
Qed.

(** [%064s] of the bytes of a number is the text of its filled bytes. *)
Lemma pad_bytes z :
  in_u256 z → pad_text 64 (EncodeToString (digits 256 z)) = EncodeToString (split_digits 256 32 z).
Proof.
  intros Hz. rewrite split_digits_pad by (lia || apply Hz).
  rewrite EncodeToString_app, EncodeToString_zeros. unfold pad_text.
  rewrite length_EncodeToString. f_equal. f_equal. lia.
Qed.

Lemma H4ToString_eq {E} h :
  is_h4 h →
  H4ToString (E := E) h =
    Ret (hex_prefix ++ EncodeToString (split_digits 256 32 (of_digits (2 ^ 64) (reverse h)))).
Proof.
  intros Hh. pose proof (h4_bound h Hh) as Hb. unfold H4ToString.
  rewrite h4ToScalar_digits by apply Hh. go_bind.
  by rewrite Z.abs_eq, pad_bytes by apply Hb.
Qed.

Lemma fea_bound v : is_fea v → in_u256 (fea2scalar v).
Proof.
  intros [Hl Hv]. rewrite fea2scalar_digits by done.
  pose proof (of_digits_bound (2 ^ 32) ltac:(lia) _ (is_digits_reverse _ _ Hv)) as Hb.
  by rewrite length_reverse, Hl in Hb.
Qed.

Lemma fea2string_eq {E} v :
  is_fea v →
  fea2string (E := E) v = Ret (hex_prefix ++ EncodeToString (split_digits 256 32 (fea2scalar v))).
Proof. intros Hv. unfold fea2string. by rewrite filled_slice by by apply fea_bound. Qed.

Lemma h4ToFilledByteSlice_eq {E} h :
  is_h4 h →
  h4ToFilledByteSlice (E := E) h = Ret (split_digits 256 32 (of_digits (2 ^ 64) (reverse h))).
Proof.
  intros Hh. unfold h4ToFilledByteSlice. rewrite h4ToScalar_digits by apply Hh. go_bind.
  by apply filled_slice, h4_bound.
Qed.

Lemma StringToh4_text z :
  in_u256 z → StringToh4 (hex_prefix ++ EncodeToString (split_digits 256 32 z)) = scalarToh4 z.
Proof.
  intros Hz. unfold StringToh4. change (HasPrefix0x (hex_prefix ++ ?s)) with true. cbv iota.
  change (drop 2 (hex_prefix ++ ?s)) with s.
  rewrite SetString_bytes; [reflexivity|lia|exact Hz].
Qed.

(** The representations of a 256-bit number translate into each other without loss: a
    number and its eight limbs, a number and its four words, four words and their
    hexadecimal text, and limbs and the text in which they are sent to the service. *)
Theorem scalars_roundtrip z h v :
  in_u256 z → is_h4 h → is_fea v →
  (fea2scalar (scalar2fea z) = z ∧ scalar2fea (fea2scalar v) = v) ∧
  (scalarToh4 (E := TreeErr) z ≫= h4ToScalar = Ret z ∧
   h4ToScalar (E := TreeErr) h ≫= scalarToh4 = Ret h) ∧
  H4ToString h ≫= StringToh4 = Ret h ∧
  fea2string v ≫= (λ s, string2fea (drop 2 s)) = Ret v.
Proof.
  intros Hz Hh Hv. split; [split|split; [split|split]].
  - by apply fea2scalar_scalar2fea.
  - by apply scalar2fea_fea2scalar.
  - destruct (scalarToh4_ok (E := TreeErr) z Hz) as (w & -> & Hw & Ew). go_bind.
    rewrite h4ToScalar_digits by apply Hw. by rewrite Ew.
  - rewrite h4ToScalar_digits by apply Hh. go_bind. by apply scalarToh4_h4.
  - rewrite H4ToString_eq by done. go_bind.
    rewrite StringToh4_text by by apply h4_bound. by apply scalarToh4_h4.
  - rewrite fea2string_eq by done.
    change (string2fea (EncodeToString (split_digits 256 32 (fea2scalar v))) = Ret v).
    unfold string2fea.
    rewrite SetString_bytes; [|lia|exact (fea_bound v Hv)]. f_equal. by apply scalar2fea_fea2scalar.
Qed.

Lemma scalars_roundtrip_witness :
  fea2scalar (scalar2fea (2 ^ 200 + 7)) = 2 ^ 200 + 7 ∧
  H4ToString [1; 2; 3; 2 ^ 64 - 1] ≫= StringToh4 = Ret [1; 2; 3; 2 ^ 64 - 1].
Proof.
  destruct (scalars_roundtrip (2 ^ 200 + 7) [1; 2; 3; 2 ^ 64 - 1] [1; 2; 3; 4; 5; 6; 7; 2 ^ 32 - 1])
    as ((Hz & _) & _ & Hh & _).
  - by split; vm_compute.
  - split; [done|]. repeat constructor; by vm_compute.
  - split; [done|]. repeat constructor; by vm_compute.
  - exact (conj Hz Hh).
Defined.
