(* ===== verification/MtKeys.v ===== *)
(** * Keys of the state tree: [merkletree/key.go] and [merkletree/leaf.go]

    The key of a leaf is a Poseidon hash of the address, the type of the leaf and, for a
    storage slot, the hash of its position; the hash of a contract's code is a chain of
    Poseidon hashes over the padded code.  The hash of [goldenposeidon] is the interface
    [Poseidon]; the theorems reduce equal keys and equal code hashes to equal inputs of
    this hash. *)

From S2P Require Import Prelude Digits Hex MtSplit.
From Stdlib Require Import Ascii.

(** [poseidon.Hash] of eight words and a capacity of four words *)
Class Poseidon := {
  poseidon_Hash : list Z → list Z → GoRes TreeErr (list Z)
}.

(** The result has the type [[4]uint64]. *)
Class PoseidonLaws (P : Poseidon) := {
  poseidon_h4 : ∀ inp cap h, poseidon_Hash inp cap = Ret h → is_h4 h
}.

Inductive leafType :=
  LeafTypeBalance | LeafTypeNonce | LeafTypeCode | LeafTypeStorage | LeafTypeSCLength.

Definition leafType_uint64 (t : leafType) : Z :=
  match t with
  | LeafTypeBalance => 0
  | LeafTypeNonce => 1
  | LeafTypeCode => 2
  | LeafTypeStorage => 3
  | LeafTypeSCLength => 4
  end.

Definition HashPoseidonAllZeroes : text :=
  String.list_ascii_of_string
    "0xc71603f33a1144ca7953db0ab48808f4c4055e3364a246c33c18a9786cb0b359".

Definition zero_h4 : list Z := replicate 4 0.

Section keys.
Context `{Poseidon}.

(** [key1]: five limbs of the address, zero, the type of the leaf and zero *)
Definition key1 (ethAddr : bytes) (t : leafType) : list Z :=
  let ethAddrArr := scalar2fea (of_digits 256 ethAddr) in
  take 5 ethAddrArr ++ [0; leafType_uint64 t; 0].

Definition keyEthAddr (ethAddr : bytes) (t : leafType) (key1Capacity : list Z) :
    GoRes TreeErr bytes :=
  result ← poseidon_Hash (key1 ethAddr t) key1Capacity;
  h4ToFilledByteSlice result.

Definition defaultCapIn : GoRes TreeErr (list Z) :=
  capIn ← StringToh4 HashPoseidonAllZeroes;
  c0 ← index capIn 0; c1 ← index capIn 1; c2 ← index capIn 2; c3 ← index capIn 3;
  Ret [c0; c1; c2; c3].

Definition KeyEthAddrBalance (ethAddr : bytes) : GoRes TreeErr bytes :=
  capIn ← defaultCapIn; keyEthAddr ethAddr LeafTypeBalance capIn.

Definition KeyEthAddrNonce (ethAddr : bytes) : GoRes TreeErr bytes :=
  capIn ← defaultCapIn; keyEthAddr ethAddr LeafTypeNonce capIn.

Definition KeyContractCode (ethAddr : bytes) : GoRes TreeErr bytes :=
  capIn ← defaultCapIn; keyEthAddr ethAddr LeafTypeCode capIn.

Definition KeyContractStorage (ethAddr storagePos : bytes) : GoRes TreeErr bytes :=
  hk0 ← poseidon_Hash (scalar2fea (of_digits 256 storagePos)) zero_h4;
  keyEthAddr ethAddr LeafTypeStorage hk0.

Definition KeyCodeLength (ethAddr : bytes) : GoRes TreeErr bytes :=
  capIn ← defaultCapIn; keyEthAddr ethAddr LeafTypeSCLength capIn.

(** ** The hash of a contract's code *)

Abbreviation bytecodeElementsHash := 8 (only parsing).
Abbreviation bytecodeBytesElement := 7 (only parsing).
Abbreviation maxBytesToAdd := 56 (only parsing).

(** [for len(code)%56 != 0 { code = append(code, 0x00) }]: at most 55 rounds *)
Fixpoint padding_loop (fuel : nat) (code : bytes) : bytes :=
  match fuel with
  | O => code
  | S fuel => if zlen code mod 56 =? 0 then code else padding_loop fuel (code ++ [0])
  end.

(** The code with its padding: [0x01], zeros, and the top bit of the last byte *)
Definition pad_code (code : bytes) : bytes :=
  let code := padding_loop 55 (code ++ [1]) in
  alter (λ b, Z.lor b 0x80) (length code - 1)%nat code.

(** The loop over [j]: seven bytes make an element, the first byte the lowest one. *)
Fixpoint elements_loop (n : nat) (j : Z) (subsetBytecode tmpElem : bytes) (counter idx : Z)
    (elementsToHash : list Z) : list Z :=
  match n with
  | O => elementsToHash
  | S n =>
      let byteToAdd := if j <? zlen subsetBytecode
                       then default 0 (subsetBytecode !! Z.to_nat j) else 0 in
      let tmpElem := <[Z.to_nat (bytecodeBytesElement - 1 - counter) := byteToAdd]> tmpElem in
      let counter := counter + 1 in
      if counter =? bytecodeBytesElement then
        elements_loop n (j + 1) subsetBytecode (replicate 7 0) 0 (idx + 1)
          (<[Z.to_nat idx := big_Uint64 (of_digits 256 tmpElem)]> elementsToHash)
      else elements_loop n (j + 1) subsetBytecode tmpElem counter idx elementsToHash
  end.

(** One round of the loop over [i] *)
Definition hash_round (code : bytes) (bytesPointer : Z) (tmpHash : list Z) :
    GoRes TreeErr (list Z) :=
  subsetBytecode ←
    slice code bytesPointer (Z.min (zlen code - 1) (bytesPointer + maxBytesToAdd) + 1);
  let elementsToHash :=
    elements_loop 56 0 subsetBytecode (replicate 7 0) 0 4 (tmpHash ++ replicate 8 0) in
  poseidon_Hash (drop 4 elementsToHash) (take 4 elementsToHash).

Fixpoint hash_loop (numHashes : nat) (code : bytes) (bytesPointer : Z) (tmpHash : list Z) :
    GoRes TreeErr (list Z) :=
  match numHashes with
  | O => Ret tmpHash
  | S n =>
      tmpHash ← hash_round code bytesPointer tmpHash;
      hash_loop n code (bytesPointer + maxBytesToAdd) tmpHash
  end.

(** [math.Ceil] of the quotient of two lengths, which are exact in a [float64] *)
Definition HashContractBytecode (code : bytes) : GoRes TreeErr (list Z) :=
  let code := pad_code code in
  let numHashes := Z.to_nat ((zlen code + maxBytesToAdd - 1) / maxBytesToAdd) in
  hash_loop numHashes code 0 zero_h4.

(** ** Leaves and their keys *)

(** An input of the hash *)
Definition Query : Type := list Z * list Z.

Definition hashes_to (q : Query) (h : list Z) : Prop := poseidon_Hash q.1 q.2 = Ret h.

(** No two of the queries collide. *)
Definition collision_free (qs : list Query) : Prop :=
  ∀ q1 q2 h, q1 ∈ qs → q2 ∈ qs → hashes_to q1 h → hashes_to q2 h → q1 = q2.

(** Both conditions are decidable for given queries. *)
Definition collision_free_check (qs : list Query) : bool :=
  forallb (λ q1, forallb (λ q2,
    bool_decide (q1 = q2) ||
    negb (bool_decide (poseidon_Hash q1.1 q1.2 = poseidon_Hash q2.1 q2.2))) qs) qs.

Lemma collision_free_dec qs : collision_free_check qs = true → collision_free qs.
Proof.
  unfold collision_free_check. rewrite forallb_forall. intros Hall q1 q2 h H1 H2 E1 E2.
  specialize (Hall q1 (proj1 (list_elem_of_In _ _) H1)). rewrite forallb_forall in Hall.
  specialize (Hall q2 (proj1 (list_elem_of_In _ _) H2)). unfold hashes_to in E1, E2.
  rewrite E1, E2 in Hall. rewrite (bool_decide_eq_true_2 (Ret h = Ret h)) in Hall by done.
  rewrite orb_false_r in Hall. by apply bool_decide_eq_true in Hall.
Qed.

Lemma misses_dec qs h :
  forallb (λ q, negb (bool_decide (poseidon_Hash q.1 q.2 = Ret h))) qs = true →
  ∀ q, q ∈ qs → ¬ hashes_to q h.
Proof.
  rewrite forallb_forall. intros Hall q Hq%list_elem_of_In E. specialize (Hall q Hq).
  unfold hashes_to in E. rewrite bool_decide_eq_true_2 in Hall by done. done.
Qed.

(** The leaves of the tree *)
Inductive Leaf :=
  | BalanceLeaf (a : bytes)
  | NonceLeaf (a : bytes)
  | CodeLeaf (a : bytes)
  | LengthLeaf (a : bytes)
  | StorageLeaf (a : bytes) (pos : Z).

#[export] Instance Leaf_eq_dec : EqDecision Leaf.
Proof. solve_decision. Defined.

(** [position.Bytes()] are the bytes of the absolute value. *)
Definition leaf_key (x : Leaf) : GoRes TreeErr bytes :=
  match x with
  | BalanceLeaf a => KeyEthAddrBalance a
  | NonceLeaf a => KeyEthAddrNonce a
  | CodeLeaf a => KeyContractCode a
  | LengthLeaf a => KeyCodeLength a
  | StorageLeaf a pos => KeyContractStorage a (digits 256 (Z.abs pos))
  end.

Definition leaf_address (x : Leaf) : bytes :=
  match x with
  | BalanceLeaf a | NonceLeaf a | CodeLeaf a | LengthLeaf a | StorageLeaf a _ => a
  end.

Definition leaf_type (x : Leaf) : leafType :=
  match x with
  | BalanceLeaf _ => LeafTypeBalance
  | NonceLeaf _ => LeafTypeNonce
  | CodeLeaf _ => LeafTypeCode
  | LengthLeaf _ => LeafTypeSCLength
  | StorageLeaf _ _ => LeafTypeStorage
  end.

Definition is_address (a : bytes) : Prop := length a = 20%nat ∧ is_bytes a.

Definition leaf_ok (x : Leaf) : Prop :=
  is_address (leaf_address x) ∧
  match x with StorageLeaf _ pos => in_u256 pos | _ => True end.

(** The capacity of the last hash, and the queries of the key *)
Definition leaf_capacity (x : Leaf) : GoRes TreeErr (list Z) :=
  match x with
  | StorageLeaf _ pos => poseidon_Hash (scalar2fea pos) zero_h4
  | _ => defaultCapIn
  end.

Definition queries (x : Leaf) : list Query :=
  match x with StorageLeaf _ pos => [(scalar2fea pos, zero_h4)] | _ => [] end
  ++ match leaf_capacity x with
     | Ret cap => [(key1 (leaf_address x) (leaf_type x), cap)]
     | _ => []
     end.

Lemma leaf_key_eq x :
  leaf_ok x →
  leaf_key x = (cap ← leaf_capacity x; keyEthAddr (leaf_address x) (leaf_type x) cap).
Proof.
  intros [_ Hx]. destruct x; try done. cbn [leaf_key leaf_capacity leaf_address leaf_type].
  unfold KeyContractStorage. rewrite Z.abs_eq by apply Hx.
  by rewrite of_digits_digits by (lia || apply Hx).
Qed.

Lemma key1_limbs a t :
  key1 a t = reverse (split_digits (2 ^ 32) 5 (of_digits 256 a)) ++ [0; leafType_uint64 t; 0].
Proof.
  unfold key1. rewrite scalar2fea_digits.
  rewrite (split_digits_add (2 ^ 32) 3 5 _ eq_refl : split_digits (2 ^ 32) 8 _ = _).
  rewrite reverse_app. by rewrite take_app_length' by by rewrite length_reverse, length_split_digits.
Qed.

Lemma key1_inj a a' t t' :
  is_address a → is_address a' → key1 a t = key1 a' t' → a = a' ∧ t = t'.
Proof.
  intros [Hl Ha] [Hl' Ha']. rewrite !key1_limbs. intros He.
  apply app_inj_1 in He as [Hn Ht]; [|by rewrite !length_reverse, !length_split_digits].
  split; [|by destruct t, t'; simplify_eq/=].
  apply (inj reverse), (f_equal (of_digits (2 ^ 32))) in Hn.
  pose proof (of_digits_bound 256 ltac:(lia) a Ha) as Hb. rewrite Hl in Hb.
  pose proof (of_digits_bound 256 ltac:(lia) a' Ha') as Hb'. rewrite Hl' in Hb'.
  rewrite !split_digits_small in Hn by (lia || done).
  apply (of_digits_inj 256); [lia|done..|congruence|done].
Qed.

Context {laws : PoseidonLaws _}.

Lemma filled_inj h h' (b : bytes) :
  is_h4 h → is_h4 h' →
  h4ToFilledByteSlice (E := TreeErr) h = Ret b → h4ToFilledByteSlice (E := TreeErr) h' = Ret b →
  h = h'.
Proof.
  intros Hh Hh'. rewrite !h4ToFilledByteSlice_eq by done. intros Hk Hk'.
  assert (He : split_digits 256 32 (of_digits (2 ^ 64) (reverse h)) =
               split_digits 256 32 (of_digits (2 ^ 64) (reverse h'))).
  { apply (inj (@Ret TreeErr bytes)). by rewrite Hk, Hk'. }
  pose proof (h4_bound h Hh) as Hb. pose proof (h4_bound h' Hh') as Hb'.
  apply (f_equal (of_digits 256)) in He.
  rewrite !split_digits_small in He by (lia || done).
  apply (inj reverse), (of_digits_inj (2 ^ 64)); [lia| | | |done].
  - apply is_digits_reverse, Hh.
  - apply is_digits_reverse, Hh'.
  - rewrite !length_reverse. destruct Hh, Hh'. congruence.
Qed.

(** The words of a leaf's key *)
Definition leaf_words (x : Leaf) : GoRes TreeErr (list Z) :=
  cap ← leaf_capacity x; poseidon_Hash (key1 (leaf_address x) (leaf_type x)) cap.

Lemma leaf_words_h4 x h : leaf_words x = Ret h → is_h4 h.
Proof. intros (cap & _ & Hh)%GoRes_bind_ret. by eapply poseidon_h4. Qed.

Lemma leaf_key_words x :
  leaf_ok x → leaf_key x = (h ← leaf_words x; h4ToFilledByteSlice h).
Proof.
  intros Hx. rewrite leaf_key_eq by done. unfold leaf_words. by destruct (leaf_capacity x).
Qed.

Lemma collision_free_app q1 q2 qs1 qs2 h :
  collision_free (qs1 ++ qs2) → q1 ∈ qs1 → q2 ∈ qs2 → hashes_to q1 h → hashes_to q2 h → q1 = q2.
Proof. intros Hfree H1 H2. apply Hfree; apply elem_of_app; auto. Qed.

Lemma leaf_words_query x h :
  leaf_words x = Ret h →
  ∃ cap, leaf_capacity x = Ret cap ∧
    (key1 (leaf_address x) (leaf_type x), cap) ∈ queries x ∧
    hashes_to (key1 (leaf_address x) (leaf_type x), cap) h.
Proof.
  intros (cap & Hc & Hq)%GoRes_bind_ret. exists cap. split_and!; try done.
  unfold queries. rewrite Hc. apply elem_of_app. right. by apply list_elem_of_singleton.
Qed.

(** Leaves with the same words are the same leaf. *)
Lemma leaf_words_inj x y h :
  leaf_ok x → leaf_ok y → collision_free (queries x ++ queries y) →
  leaf_words x = Ret h → leaf_words y = Ret h → x = y.
Proof.
  intros Hx Hy Hfree Hwx Hwy.
  destruct (leaf_words_query x h Hwx) as (cx & Hcx & Hqx & Hhx).
  destruct (leaf_words_query y h Hwy) as (cy & Hcy & Hqy & Hhy).
  pose proof (collision_free_app _ _ _ _ _ Hfree Hqx Hqy Hhx Hhy) as Hq.
  apply pair_equal_spec in Hq as [Hk <-]. apply key1_inj in Hk as [Ha Ht]; [|apply Hx|apply Hy].
  destruct Hx as [_ Hx], Hy as [_ Hy]. clear Hwx Hwy Hqx Hqy Hhx Hhy.
  destruct x, y; cbn [leaf_address leaf_type] in Ha, Ht; try discriminate Ht; subst;
    try reflexivity. f_equal.
  pose proof (collision_free_app (scalar2fea pos, zero_h4) (scalar2fea pos0, zero_h4) _ _ cx Hfree
    ltac:(left) ltac:(left) Hcx Hcy) as Hp.
  apply pair_equal_spec in Hp as [Hp _]. apply (f_equal fea2scalar) in Hp.
  rewrite !fea2scalar_scalar2fea in Hp; assumption.
Qed.

(** Different leaves have different keys: when the hash does not collide on the inputs
    that the two keys feed it with, equal keys belong to the same leaf, that is, to the
    same address, the same kind of leaf and the same storage position. *)
Theorem leaf_key_inj x y k :
  leaf_ok x → leaf_ok y → collision_free (queries x ++ queries y) →
  leaf_key x = Ret k → leaf_key y = Ret k → x = y.
Proof.
  intros Hx Hy Hfree. rewrite !leaf_key_words by done.
  intros (hx & Hwx & Hkx)%GoRes_bind_ret (hy & Hwy & Hky)%GoRes_bind_ret.
  assert (hx = hy) as <- by (eapply filled_inj; eauto using leaf_words_h4).
  by apply (leaf_words_inj x y hx).
Qed.

(** ** The code hash as a chain of blocks *)

Definition byte_at (s : bytes) (j : Z) : Z :=
  if j <? zlen s then default 0 (s !! Z.to_nat j) else 0.

(** Seven bytes from position [7 * i] as a number, the first byte the lowest one *)
Definition element (s : bytes) (i : Z) : Z :=
  big_Uint64 (of_digits 256
    (byte_at s <$> [7 * i + 6; 7 * i + 5; 7 * i + 4; 7 * i + 3; 7 * i + 2; 7 * i + 1; 7 * i])).

Definition block_elements (s : bytes) : list Z := element s <$> [0; 1; 2; 3; 4; 5; 6; 7].

Lemma elements_loop_eq s tmp :
  length tmp = 4%nat →
  elements_loop 56 0 s (replicate 7 0) 0 4 (tmp ++ replicate 8 0) = tmp ++ block_elements s.
Proof. intros Ht. do 5 (destruct tmp as [|? tmp]; try done). Qed.

Lemma byte_at_take s m j : 0 ≤ j < Z.of_nat m → byte_at (take m s) j = byte_at s j.
Proof.
  intros Hj. unfold byte_at. rewrite lookup_take_lt by lia. unfold zlen. rewrite length_take.
  destruct (Z.ltb_spec j (Z.of_nat (length s))), (Z.ltb_spec j (Z.of_nat (m `min` length s)));
    try done; lia.
Qed.

Lemma block_elements_take s m : (56 ≤ m)%nat → block_elements (take m s) = block_elements s.
Proof.
  intros Hm. unfold block_elements, element. cbn [fmap list_fmap].
  rewrite !byte_at_take by lia. done.
Qed.

Lemma byte_at_range s j : is_bytes s → 0 ≤ byte_at s j < 256.
Proof.
  intros Hs. unfold byte_at. destruct (_ <? _); [|lia].
  destruct (s !! Z.to_nat j) as [b|] eqn:Hb; [|cbn; lia].
  eapply Forall_lookup_1 in Hs; [|done]. exact Hs.
Qed.

Lemma element_inj s s' i :
  is_bytes s → is_bytes s' → element s i = element s' i →
  Forall (λ k, byte_at s (7 * i + k) = byte_at s' (7 * i + k)) [6; 5; 4; 3; 2; 1; 0].
Proof.
  intros Hs Hs'. unfold element. set (js := [7 * i + 6; _; _; _; _; _; _]). intros He.
  assert (Hd : ∀ r, is_bytes r → is_digits 256 (byte_at r <$> js)).
  { intros r Hr. apply Forall_fmap, Forall_true. intros j. by apply byte_at_range. }
  assert (Hw : ∀ r, is_bytes r → in_u64 (of_digits 256 (byte_at r <$> js))).
  { intros r Hr. pose proof (of_digits_bound 256 ltac:(lia) _ (Hd r Hr)) as Hb.
    change (256 ^ Z.of_nat _) with (2 ^ 56) in Hb. unfold in_u64. lia. }
  rewrite !big_Uint64_small in He by auto.
  apply of_digits_inj in He; [|lia|auto..|done]. subst js. cbn [fmap list_fmap] in He.
  repeat (apply Forall_cons_2; [|]); try apply Forall_nil_2; rewrite ?Z.add_0_r; congruence.
Qed.

Lemma block_elements_inj s s' :
  is_bytes s → is_bytes s' → (56 ≤ length s)%nat → (56 ≤ length s')%nat →
  block_elements s = block_elements s' → take 56 s = take 56 s'.
Proof.
  intros Hs Hs' Hl Hl' He.
  assert (Hb : ∀ j, 0 ≤ j < 56 → byte_at s j = byte_at s' j).
  { intros j Hj. assert (Hi : element s (j / 7) = element s' (j / 7)).
    { assert (Hk : j / 7 ∈ [0; 1; 2; 3; 4; 5; 6; 7]).
      { pose proof (Z.div_mod j 7 ltac:(lia)). pose proof (Z.mod_pos_bound j 7 ltac:(lia)).
        rewrite !elem_of_cons. lia. }
      revert Hk. generalize (j / 7). apply Forall_forall.
      unfold block_elements in He. cbn [fmap list_fmap] in He. repeat constructor; congruence. }
    apply element_inj in Hi; [|done..]. rewrite Forall_forall in Hi.
    rewrite (Z.div_mod j 7) by lia. apply Hi.
    pose proof (Z.mod_pos_bound j 7 ltac:(lia)). rewrite !elem_of_cons. lia. }
  apply list_eq. intros i. destruct (decide (i < 56)%nat) as [Hi|Hi].
  - rewrite !lookup_take_lt by done. specialize (Hb (Z.of_nat i) ltac:(lia)).
    unfold byte_at, zlen in Hb. rewrite !(proj2 (Z.ltb_lt _ _)), Nat2Z.id in Hb by lia.
    destruct (lookup_lt_is_Some_2 s i) as [b Eb]; [lia|].
    destruct (lookup_lt_is_Some_2 s' i) as [b' Eb']; [lia|].
    rewrite Eb, Eb' in *. by f_equal.
  - by rewrite !lookup_take_ge by lia.
Qed.

(** The blocks of a text of [56 * n] bytes *)
Fixpoint blocks (n : nat) (s : bytes) : list (list Z) :=
  match n with
  | O => []
  | S n => block_elements s :: blocks n (drop 56 s)
  end.

Lemma blocks_inj n s s' :
  is_bytes s → is_bytes s' → length s = (56 * n)%nat → length s' = (56 * n)%nat →
  blocks n s = blocks n s' → s = s'.
Proof.
  revert s s'. induction n as [|n IH]; intros s s' Hs Hs' Hl Hl' He.
  { apply nil_length_inv in Hl, Hl'. congruence. }
  cbn [blocks] in He. apply (inj2 cons) in He as [Hb Hr].
  rewrite <-(take_drop 56 s), <-(take_drop 56 s'). f_equal.
  - apply block_elements_inj; try done; lia.
  - apply IH; try by apply Forall_drop.
    + rewrite length_drop. lia.
    + rewrite length_drop. lia.
    + done.
Qed.

Lemma length_blocks n s : length (blocks n s) = n.
Proof. revert s. induction n as [|n IH]; intros s; cbn; auto. Qed.

Fixpoint chain (bs : list (list Z)) (tmpHash : list Z) : GoRes TreeErr (list Z) :=
  match bs with
  | [] => Ret tmpHash
  | b :: bs => tmpHash ← poseidon_Hash b tmpHash; chain bs tmpHash
  end.

(** The inputs of the hashes of a chain *)
Fixpoint chain_queries (bs : list (list Z)) (tmpHash : list Z) : list Query :=
  match bs with
  | [] => []
  | b :: bs =>
      (b, tmpHash) ::
      match poseidon_Hash b tmpHash with Ret h => chain_queries bs h | _ => [] end
  end.

Lemma hash_round_eq p i tmp :
  (56 * i + 56 ≤ length p)%nat → length tmp = 4%nat →
  hash_round p (56 * Z.of_nat i) tmp = poseidon_Hash (block_elements (drop (56 * i) p)) tmp.
Proof.
  intros Hi Ht. unfold hash_round.
  destruct (slice_ok (E := TreeErr) p (56 * Z.of_nat i)
    (Z.min (zlen p - 1) (56 * Z.of_nat i + 56) + 1)) as (s & -> & _ & ->); [unfold zlen; lia..|].
  go_bind. rewrite elements_loop_eq by done.
  rewrite drop_app_length', take_app_length' by done.
  replace (Z.to_nat (56 * Z.of_nat i)) with (56 * i)%nat by lia.
  rewrite block_elements_take; [done|]. unfold zlen. lia.
Qed.

Lemma hash_loop_eq n p i tmp :
  length p = (56 * (i + n))%nat → length tmp = 4%nat →
  hash_loop n p (56 * Z.of_nat i) tmp = chain (blocks n (drop (56 * i) p)) tmp.
Proof.
  revert i tmp. induction n as [|n IH]; intros i tmp Hp Ht; [done|].
  cbn [hash_loop blocks chain]. rewrite hash_round_eq by (done || lia).
  destruct (poseidon_Hash _ tmp) as [h| |] eqn:Hh; [|done..]. go_bind.
  replace (56 * Z.of_nat i + 56) with (56 * Z.of_nat (S i)) by lia.
  rewrite IH by (lia || apply (poseidon_h4 _ _ _ Hh)).
  rewrite drop_drop. by replace (56 * i + 56)%nat with (56 * S i)%nat by lia.
Qed.

Lemma chain_snoc bs b t : chain (bs ++ [b]) t = (h ← chain bs t; poseidon_Hash b h).
Proof.
  revert t. induction bs as [|b' bs IH]; intros t.
  - cbn. by destruct (poseidon_Hash b t).
  - cbn [app chain]. destruct (poseidon_Hash b' t); [|done..]. go_bind. apply IH.
Qed.

Lemma chain_queries_snoc bs b t h :
  chain bs t = Ret h → chain_queries (bs ++ [b]) t = chain_queries bs t ++ [(b, h)].
Proof.
  revert t. induction bs as [|b' bs IH]; intros t.
  - intros [= <-]. cbn. by destruct (poseidon_Hash b t).
  - cbn [app chain chain_queries]. destruct (poseidon_Hash b' t); [|done..].
    go_bind. intros Hc. by rewrite (IH _ Hc).
Qed.

Lemma chain_inj bs bs' t h :
  collision_free (chain_queries bs t ++ chain_queries bs' t) →
  (∀ q, q ∈ chain_queries bs t ++ chain_queries bs' t → ¬ hashes_to q t) →
  chain bs t = Ret h → chain bs' t = Ret h → bs = bs'.
Proof.
  revert bs' h. induction bs as [|b bs IH] using rev_ind; intros bs' h Hfree Hz Hc Hc';
    destruct bs' as [|b' bs' _] using rev_ind; [done|..].
  - injection Hc as <-. rewrite chain_snoc in Hc'. apply GoRes_bind_ret in Hc' as (h' & Hb' & Hq').
    destruct (Hz (b', h')); [|done]. rewrite (chain_queries_snoc bs' b' t h') by done. set_solver.
  - injection Hc' as <-. rewrite chain_snoc in Hc. apply GoRes_bind_ret in Hc as (h' & Hb & Hq).
    destruct (Hz (b, h')); [|done]. rewrite (chain_queries_snoc bs b t h') by done. set_solver.
  - rewrite chain_snoc in Hc, Hc'. apply GoRes_bind_ret in Hc as (g & Hb & Hq).
    apply GoRes_bind_ret in Hc' as (g' & Hb' & Hq').
    rewrite (chain_queries_snoc bs b t g), (chain_queries_snoc bs' b' t g') in Hfree, Hz by done.
    assert (He : (b, g) = (b', g')) by (apply (Hfree _ _ h); [set_solver..|done|done]).
    injection He as <- <-. f_equal. apply (IH bs' g); try done.
    + intros q1 q2 h' H1 H2. apply Hfree; set_solver.
    + intros q Hin. apply Hz. set_solver.
Qed.

(** ** The padding *)

Lemma padding_loop_eq fuel code :
  (56 - zlen code mod 56) mod 56 ≤ Z.of_nat fuel →
  ∃ k, padding_loop fuel code = code ++ replicate k 0 ∧
    zlen (padding_loop fuel code) mod 56 = 0.
Proof.
  revert code. induction fuel as [|fuel IH]; intros code Hf; cbn [padding_loop];
    pose proof (Z.mod_pos_bound (zlen code) 56 ltac:(lia)) as Hm.
  { exists 0%nat. rewrite app_nil_r. split; [done|].
    destruct (Z.eq_dec (zlen code mod 56) 0) as [|Hne]; [done|].
    rewrite Z.mod_small in Hf by lia. lia. }
  destruct (Z.eqb_spec (zlen code mod 56) 0) as [E|Hne].
  { exists 0%nat. by rewrite app_nil_r. }
  destruct (IH (code ++ [0])) as (k & -> & Hk).
  { unfold zlen in *. rewrite length_app, Nat2Z.inj_add. change (Z.of_nat (length [0])) with 1.
    rewrite Z.mod_small in Hf by lia. rewrite <-Zplus_mod_idemp_l.
    destruct (Z.eq_dec (Z.of_nat (length code) mod 56) 55) as [->|H55].
    - change ((56 - (55 + 1) mod 56) mod 56) with 0. lia.
    - rewrite (Z.mod_small (_ + 1)), Z.mod_small by lia. lia. }
  exists (S k). split; [by rewrite <-app_assoc|]. by rewrite <-app_assoc in Hk |- *.
Qed.

(** The padding is [0x01] and zeros, with the top bit of the last byte set. *)
Lemma pad_code_eq code :
  ∃ k n, pad_code code =
      alter (λ b, Z.lor b 0x80) (length code + k)%nat (code ++ 1 :: replicate k 0) ∧
    length (pad_code code) = (56 * n)%nat.
Proof.
  destruct (padding_loop_eq 55 (code ++ [1])) as (k & Hk & Hm).
  { pose proof (Z.mod_pos_bound (56 - zlen (code ++ [1]) mod 56) 56 ltac:(lia)). lia. }
  unfold pad_code. rewrite Hk in Hm |- *. rewrite <-app_assoc in Hm |- *. cbn [app] in Hm |- *.
  apply Z.mod_divide in Hm as [n Hn]; [|lia]. unfold zlen in Hn. rewrite length_app in Hn.
  exists k, (Z.to_nat n). split.
  - f_equal. rewrite length_app. cbn. rewrite length_replicate. lia.
  - rewrite length_alter, length_app. lia.
Qed.

Lemma padding_snoc (c : bytes) k :
  c ++ 1 :: replicate (S k) 0 = (c ++ 1 :: replicate k 0) ++ [0].
Proof. by rewrite replicate_S_end, app_comm_cons, app_assoc. Qed.

Lemma strip_padding (c c' : bytes) k k' :
  c ++ 1 :: replicate k 0 = c' ++ 1 :: replicate k' 0 → c = c'.
Proof.
  revert k'. induction k as [|k IH]; intros [|k']; rewrite ?padding_snoc; cbn [replicate].
  - by intros [? _]%app_inj_2.
  - by intros [_ ?]%app_inj_2.
  - by intros [_ ?]%app_inj_2.
  - intros [? _]%app_inj_2; [|done]. by apply (IH k').
Qed.

Lemma unpad c k :
  alter (λ b, b mod 0x80) (length c + k)%nat
    (alter (λ b, Z.lor b 0x80) (length c + k)%nat (c ++ 1 :: replicate k 0))
  = c ++ 1 :: replicate k 0.
Proof.
  rewrite list_alter_alter_eq. rewrite <-(list_alter_id id (c ++ _) (length c + k)) at 2 by done.
  apply list_alter_ext; [|done]. intros b Hb. rewrite lookup_app_r in Hb by lia.
  replace (length c + k - length c)%nat with k in Hb by lia.
  destruct k as [|k]; [by injection Hb as <-|].
  change (replicate (S k) 0 !! k = Some b) in Hb. apply lookup_replicate in Hb as [-> _]. done.
Qed.

Lemma pad_code_inj c c' : pad_code c = pad_code c' → c = c'.
Proof.
  intros He. destruct (pad_code_eq c) as (k & _ & Hk & _). destruct (pad_code_eq c') as (k' & _ & Hk' & _).
  apply (strip_padding c c' k k'). rewrite <-(unpad c k), <-(unpad c' k'), <-Hk, <-Hk', <-He.
  f_equal. apply (f_equal length) in He. rewrite Hk, Hk' in He.
  rewrite !length_alter, !length_app in He. cbn in He. rewrite !length_replicate in He. lia.
Qed.

Lemma pad_code_bytes c : is_bytes c → is_bytes (pad_code c).
Proof.
  intros Hc. destruct (pad_code_eq c) as (k & _ & -> & _).
  assert (Hr : is_bytes (c ++ 1 :: replicate k 0)).
  { apply Forall_app_2; [done|]. constructor; [lia|]. apply Forall_replicate. lia. }
  apply Forall_alter; [done|]. intros b Hb%(Forall_lookup_1 _ _ _ _ Hr) _.
  change 128 with (2 ^ 7). assert (Hl : Z.log2 (Z.lor b (2 ^ 7)) < 8).
  { rewrite Z.log2_lor by lia. change (Z.log2 (2 ^ 7)) with 7.
    destruct (Z.eq_dec b 0) as [->|]; [done|]. apply Z.max_lub_lt; [|lia].
    apply Z.log2_lt_pow2; lia. }
  assert (0 ≤ Z.lor b (2 ^ 7)) by (apply Z.lor_nonneg; lia).
  split; [done|]. apply Z.log2_lt_cancel. exact Hl.
Qed.

(** The inputs of the hashes of [HashContractBytecode] *)
Definition code_queries (code : bytes) : list Query :=
  let p := pad_code code in chain_queries (blocks (length p / 56) p) zero_h4.

Lemma HashContractBytecode_eq code :
  HashContractBytecode code =
    let p := pad_code code in chain (blocks (length p / 56) p) zero_h4.
Proof.
  unfold HashContractBytecode. destruct (pad_code_eq code) as (_ & n & _ & Hn). cbn zeta.
  replace (Z.to_nat ((zlen (pad_code code) + 56 - 1) / 56)) with n.
  - rewrite Hn, (Nat.mul_comm 56), Nat.div_mul by done.
    apply (hash_loop_eq n _ 0); [lia|done].
  - unfold zlen. rewrite Hn. replace (Z.of_nat (56 * n) + 56 - 1) with (Z.of_nat n * 56 + 55) by lia.
    rewrite Z.div_add_l by lia. change (55 / 56) with 0. lia.
Qed.

(** C32. The code hash identifies the code: when the hash does not collide on the inputs of
    the two computations and none of them leads back to the initial capacity, two contracts
    with the same code hash have the same code; in particular the padding does not
    identify codes of different lengths. *)
Theorem HashContractBytecode_inj code code' h :
  is_bytes code → is_bytes code' →
  collision_free (code_queries code ++ code_queries code') →
  (∀ q, q ∈ code_queries code ++ code_queries code' → ¬ hashes_to q zero_h4) →
  HashContractBytecode code = Ret h → HashContractBytecode code' = Ret h → code = code'.
Proof.
  intros Hb Hb' Hfree Hz. rewrite !HashContractBytecode_eq. cbn zeta. intros Hc Hc'.
  pose proof (chain_inj _ _ _ _ Hfree Hz Hc Hc') as He.
  pose proof (f_equal length He) as Hn. rewrite !length_blocks in Hn. rewrite <-Hn in He.
  destruct (pad_code_eq code) as (_ & n & _ & Hl). destruct (pad_code_eq code') as (_ & n' & _ & Hl').
  rewrite Hl, Hl', !(Nat.mul_comm 56), !Nat.div_mul in Hn by done. subst n'.
  rewrite Hl, (Nat.mul_comm 56), Nat.div_mul in He by done.
  apply pad_code_inj, (blocks_inj n); auto using pad_code_bytes.
Qed.
End keys.
