(* ===== verification/MtTree.v ===== *)
(** * The state tree: [merkletree/tree.go]

    [StateTree] reads and writes accounts through the database service.  The service is
    the interface [HashDBService]; a method of the tree is a function of the state of the
    connection that returns the new state with the result.  A call fails with an error of
    gRPC, or it is answered with a result code, at which the methods do not look.  Words
    that are not sent (the indices of transaction and block, which are zero) are left out
    of the requests. *)

From S2P Require Import Prelude Digits Hex MtSplit MtKeys.
From Stdlib Require Import Ascii.

(** [hashdb.Fea] *)
Record Fea := mkFea { Fe0 : Z; Fe1 : Z; Fe2 : Z; Fe3 : Z }.

#[export] Instance Fea_eq_dec : EqDecision Fea.
Proof. solve_decision. Defined.

Inductive Persistence := PERSISTENCE_TEMPORARY | PERSISTENCE_DATABASE.

Record SetRequest := mkSetRequest {
  OldRoot : Fea;
  Key : Fea;
  Value : text;
  Details : bool;
  req_Persistence : Persistence;
  BatchUuid : string
}.

(** [ResultCode.Code] of [hashdb.proto]; the pointer to a [ResultCode] may be nil. *)
Inductive Code :=
  | CODE_UNSPECIFIED
  | CODE_SUCCESS
  | CODE_DB_KEY_NOT_FOUND
  | CODE_DB_ERROR
  | CODE_INTERNAL_ERROR
  | CODE_SMT_INVALID_DATA_SIZE.

#[export] Instance Code_eq_dec : EqDecision Code.
Proof. solve_decision. Defined.

(** The fields of the responses that are read, and the result code, which is not; the
    pointer [NewRoot] may be nil. *)
Record SetResponse := mkSetResponse {
  NewRoot : option Fea;
  NewValue : text;
  set_Result : option Code
}.
Record GetResponse := mkGetResponse { get_Value : text; get_Result : option Code }.
Record GetProgramResponse := mkGetProgramResponse { gp_Data : bytes; gp_Result : option Code }.

(** The calls of the service; [None] and [false] are errors of the call.  [SetProgram] and
    [Flush] answer with a result code only. *)
Class HashDBService := {
  hashdb : Type;
  rpc_Get : hashdb → Fea → Fea → hashdb * option GetResponse;
  rpc_GetProgram : hashdb → Fea → hashdb * option GetProgramResponse;
  rpc_Set : hashdb → SetRequest → hashdb * option SetResponse;
  rpc_SetProgram : hashdb → Fea → bytes → Persistence → hashdb * option (option Code);
  rpc_Flush : hashdb → string → text → Persistence → hashdb * option (option Code);
  rpc_StartBlock : hashdb → string → text → Persistence → hashdb * bool;
  rpc_FinishBlock : hashdb → string → text → Persistence → hashdb * bool
}.

(** The connection: the state of the service, and how many answers had a result code other
    than success.  The methods do not know this number. *)
Record Conn {svc : HashDBService} := mkConn { srv : hashdb; refused : nat }.
Arguments Conn {_}.
Arguments mkConn {_} _ _.
Arguments srv {_} _.
Arguments refused {_} _.

Definition refusal (code : option Code) : nat := if decide (code = Some CODE_SUCCESS) then 0 else 1.

(** The results of the tree *)
Record Proof_ := mkProof { proof_Root : list Z; proof_Key : list Z; proof_Value : list Z }.
Record ProgramProof := mkProgramProof { Data : bytes }.
Record UpdateProof := mkUpdateProof {
  up_OldRoot : list Z;
  up_NewRoot : list Z;
  up_Key : list Z;
  up_NewValue : list Z
}.

#[local] Opaque defaultCapIn HashContractBytecode.

Section tree.
Context `{P : Poseidon, svc : HashDBService}.

Definition TreeM (A : Type) : Type := Conn → Conn * GoRes TreeErr A.

#[export] Instance TreeM_ret : MRet TreeM := λ A a c, (c, Ret a).
#[export] Instance TreeM_bind : MBind TreeM := λ A B f m c,
  match m c with
  | (c, Ret a) => f a c
  | (c, Fail e) => (c, Fail e)
  | (c, Panic) => (c, Panic)
  end.

Definition lift {A} (m : GoRes TreeErr A) : TreeM A := λ c, (c, m).

(** A call of the service and its error; [code] is the result code of an answer. *)
Definition call {A} (code : A → option Code) (f : hashdb → hashdb * option A) : TreeM A := λ c,
  match f (srv c) with
  | (db, None) => (mkConn db (refused c), Fail ServiceError)
  | (db, Some a) => (mkConn db (refused c + refusal (code a)), Ret a)
  end.
Definition call_ok (f : hashdb → hashdb * bool) : TreeM unit := λ c,
  match f (srv c) with
  | (db, true) => (mkConn db (refused c), Ret tt)
  | (db, false) => (mkConn db (refused c), Fail ServiceError)
  end.

(** [&hashdb.Fea{Fe0: v[0], Fe1: v[1], Fe2: v[2], Fe3: v[3]}] *)
Definition to_fea (v : list Z) : GoRes TreeErr Fea :=
  f0 ← index v 0; f1 ← index v 1; f2 ← index v 2; f3 ← index v 3;
  Ret (mkFea f0 f1 f2 f3).

Definition get (root key : list Z) : TreeM Proof_ :=
  r ← lift (to_fea root);
  k ← lift (to_fea key);
  result ← call get_Result (λ db, rpc_Get db r k);
  value ← lift (string2fea (get_Value result));
  mret (mkProof (take 4 root) key value).

Definition getProgram (key : list Z) : TreeM ProgramProof :=
  k ← lift (to_fea key);
  result ← call gp_Result (λ db, rpc_GetProgram db k);
  mret (mkProgramProof (gp_Data result)).

Definition set (oldRoot key value : list Z) (uuid : string) : TreeM UpdateProof :=
  feaValue ← lift (fea2string value);
  let feaValue := if HasPrefix0x feaValue then drop 2 feaValue else feaValue in
  r ← lift (to_fea oldRoot);
  k ← lift (to_fea key);
  result ← call set_Result (λ db,
    rpc_Set db (mkSetRequest r k feaValue false PERSISTENCE_DATABASE uuid));
  newValue ← (if decide (NewValue result = []) then mret []
              else lift (string2fea (NewValue result)));
  newRoot ← lift (or_panic (NewRoot result));
  mret (mkUpdateProof oldRoot [Fe0 newRoot; Fe1 newRoot; Fe2 newRoot; Fe3 newRoot] key newValue).

Definition setProgram (key : list Z) (data : bytes) (persistent : bool) : TreeM unit :=
  let persistence := if persistent then PERSISTENCE_DATABASE else PERSISTENCE_TEMPORARY in
  k ← lift (to_fea key);
  call id (λ db, rpc_SetProgram db k data persistence) ;;
  mret tt.

(** The nil slice is the empty one; [proof] is not nil without an error. *)
Definition GetBalance (address root : bytes) : TreeM Z :=
  let r := of_digits 256 root in
  key ← lift (KeyEthAddrBalance address);
  let k := of_digits 256 key in
  rw ← lift (scalarToh4 r);
  kw ← lift (scalarToh4 k);
  proof ← get rw kw;
  if decide (proof_Value proof = []) then mret 0
  else mret (fea2scalar (proof_Value proof)).

Definition GetNonce (address root : bytes) : TreeM Z :=
  let r := of_digits 256 root in
  key ← lift (KeyEthAddrNonce address);
  let k := of_digits 256 key in
  rw ← lift (scalarToh4 r);
  kw ← lift (scalarToh4 k);
  proof ← get rw kw;
  if decide (proof_Value proof = []) then mret 0
  else mret (fea2scalar (proof_Value proof)).

Definition GetCodeHash (address root : bytes) : TreeM bytes :=
  let r := of_digits 256 root in
  key ← lift (KeyContractCode address);
  let k := of_digits 256 key in
  rw ← lift (scalarToh4 r);
  kw ← lift (scalarToh4 k);
  proof ← get rw kw;
  if decide (proof_Value proof = []) then mret []
  else
    let valueBi := fea2scalar (proof_Value proof) in
    lift (ScalarToFilledByteSlice valueBi).

Definition GetCode (address root : bytes) : TreeM bytes :=
  scCodeHash ← GetCodeHash address root;
  let k := of_digits 256 scCodeHash in
  kw ← lift (scalarToh4 k);
  scCode ← getProgram kw;
  mret (Data scCode).

Definition GetStorageAt (address : bytes) (position : Z) (root : bytes) : TreeM Z :=
  let r := of_digits 256 root in
  key ← lift (KeyContractStorage address (digits 256 (Z.abs position)));
  let k := of_digits 256 key in
  rw ← lift (scalarToh4 r);
  kw ← lift (scalarToh4 k);
  proof ← get rw kw;
  if decide (proof_Value proof = []) then mret 0
  else mret (fea2scalar (proof_Value proof)).

Definition SetBalance (address : bytes) (balance : Z) (root : bytes) (uuid : string) :
    TreeM (bytes * UpdateProof) :=
  if balance <? 0 then lift (Fail InvalidBalance)
  else
    let r := of_digits 256 root in
    key ← lift (KeyEthAddrBalance address);
    let k := of_digits 256 key in
    let balanceH8 := scalar2fea balance in
    rw ← lift (scalarToh4 r);
    kw ← lift (scalarToh4 k);
    updateProof ← set rw kw balanceH8 uuid;
    newRoot ← lift (h4ToFilledByteSlice (up_NewRoot updateProof));
    mret (newRoot, updateProof).

Definition SetNonce (address : bytes) (nonce : Z) (root : bytes) (uuid : string) :
    TreeM (bytes * UpdateProof) :=
  if nonce <? 0 then lift (Fail InvalidNonce)
  else
    let r := of_digits 256 root in
    key ← lift (KeyEthAddrNonce address);
    let k := of_digits 256 key in
    let nonceH8 := scalar2fea nonce in
    rw ← lift (scalarToh4 r);
    kw ← lift (scalarToh4 k);
    updateProof ← set rw kw nonceH8 uuid;
    newRoot ← lift (h4ToFilledByteSlice (up_NewRoot updateProof));
    mret (newRoot, updateProof).

Definition SetCode (address code root : bytes) (uuid : string) : TreeM (bytes * UpdateProof) :=
  scCodeHash4 ← lift (HashContractBytecode code);
  setProgram scCodeHash4 code true;;
  let r := of_digits 256 root in
  key ← lift (KeyContractCode address);
  let k := of_digits 256 key in
  str ← lift (H4ToString scCodeHash4);
  scCodeHash ← lift (map_err DecodeError (DecodeHex str));
  let scCodeHashBI := of_digits 256 scCodeHash in
  let scCodeHashH8 := scalar2fea scCodeHashBI in
  rw ← lift (scalarToh4 r);
  kw ← lift (scalarToh4 k);
  updateProof ← set rw kw scCodeHashH8 uuid;
  key ← lift (KeyCodeLength address);
  let k := of_digits 256 key in
  let scCodeLengthBI := zlen code in
  let scCodeLengthH8 := scalar2fea scCodeLengthBI in
  kw ← lift (scalarToh4 k);
  updateProof ← set (up_NewRoot updateProof) kw scCodeLengthH8 uuid;
  newRoot ← lift (h4ToFilledByteSlice (up_NewRoot updateProof));
  mret (newRoot, updateProof).

Definition SetStorageAt (address : bytes) (position value : Z) (root : bytes) (uuid : string) :
    TreeM (bytes * UpdateProof) :=
  let r := of_digits 256 root in
  key ← lift (KeyContractStorage address (digits 256 (Z.abs position)));
  let k := of_digits 256 key in
  let valueH8 := scalar2fea value in
  rw ← lift (scalarToh4 r);
  kw ← lift (scalarToh4 k);
  updateProof ← set rw kw valueH8 uuid;
  newRoot ← lift (h4ToFilledByteSlice (up_NewRoot updateProof));
  mret (newRoot, updateProof).

(** [common.Hash.String()] is the hexadecimal text of the bytes, with the prefix. *)
Definition Flush (newStateRoot : bytes) (uuid : string) : TreeM unit :=
  call id (λ db, rpc_Flush db uuid (EncodeToHex newStateRoot) PERSISTENCE_DATABASE) ;;
  mret tt.
Definition StartBlock (oldRoot : bytes) (uuid : string) : TreeM unit :=
  call_ok (λ db, rpc_StartBlock db uuid (EncodeToHex oldRoot) PERSISTENCE_DATABASE).
Definition FinishBlock (newRoot : bytes) (uuid : string) : TreeM unit :=
  call_ok (λ db, rpc_FinishBlock db uuid (EncodeToHex newRoot) PERSISTENCE_DATABASE).

(** ** The service *)

Definition fea_words (f : Fea) : list Z := [Fe0 f; Fe1 f; Fe2 f; Fe3 f].

Definition words_fea (h : list Z) : Fea :=
  match h with [a; b; c; d] => mkFea a b c d | _ => mkFea 0 0 0 0 end.

Definition is_root (root : bytes) : Prop := is_bytes root ∧ (length root ≤ 32)%nat.

Definition root_words (root : bytes) : list Z :=
  reverse (split_digits (2 ^ 64) 4 (of_digits 256 root)).

Definition root_fea (root : bytes) : Fea := words_fea (root_words root).

(** What the service promises of an answer with the code of success.  Writes belong to a
    batch and may stay in memory until the batch is flushed to the database: [visible db
    uuid r] when the tree with root [r] is known in the batch [uuid], and [visible db
    EmptyString r] when it is in the database, where requests without a batch look it up.
    [leaf_value db r k] is the value of the key [k] in the tree (zero without a leaf),
    [program db k] the bytes stored for [k].  Setting a key leads to a tree of the same
    batch that differs in this key only; a flush moves the given root to the database.
    Whatever the answer to a call, known trees and programs are kept. *)
Class HashDBLaws := {
  visible : hashdb → string → Fea → Prop;
  leaf_value : hashdb → Fea → Fea → Z;
  program : hashdb → Fea → option bytes;
  Get_spec : ∀ db r k db' resp, visible db EmptyString r →
    rpc_Get db r k = (db', Some resp) → get_Result resp = Some CODE_SUCCESS →
    SetString (get_Value resp) 16 = Some (leaf_value db r k) ∧ in_u256 (leaf_value db r k);
  Get_keeps : ∀ db r k db' resp u r', rpc_Get db r k = (db', resp) → visible db u r' →
    visible db' u r' ∧ ∀ k, leaf_value db' r' k = leaf_value db r' k;
  Get_programs : ∀ db r k db' resp k',
    rpc_Get db r k = (db', resp) → program db' k' = program db k';
  GetProgram_spec : ∀ db k data db' resp, program db k = Some data →
    rpc_GetProgram db k = (db', Some resp) → gp_Result resp = Some CODE_SUCCESS →
    gp_Data resp = data;
  GetProgram_keeps : ∀ db k db' resp u r, rpc_GetProgram db k = (db', resp) → visible db u r →
    visible db' u r ∧ ∀ k, leaf_value db' r k = leaf_value db r k;
  Set_spec : ∀ db req db' resp n,
    visible db (BatchUuid req) (OldRoot req) → SetString (Value req) 16 = Some n → in_u256 n →
    rpc_Set db req = (db', Some resp) → set_Result resp = Some CODE_SUCCESS →
    (NewValue resp = [] ∨ ∃ m, SetString (NewValue resp) 16 = Some m) ∧
    ∃ r, NewRoot resp = Some r ∧ is_h4 (fea_words r) ∧ visible db' (BatchUuid req) r ∧
      ∀ k, leaf_value db' r k =
             if decide (k = Key req) then n else leaf_value db (OldRoot req) k;
  Set_keeps : ∀ db req db' resp u r,
    rpc_Set db req = (db', resp) → visible db u r →
    visible db' u r ∧ ∀ k, leaf_value db' r k = leaf_value db r k;
  Set_programs : ∀ db req db' resp k,
    rpc_Set db req = (db', resp) → program db' k = program db k;
  SetProgram_spec : ∀ db k data p db',
    rpc_SetProgram db k data p = (db', Some (Some CODE_SUCCESS)) → program db' k = Some data;
  SetProgram_keeps : ∀ db k data p db' ok u r,
    rpc_SetProgram db k data p = (db', ok) → visible db u r →
    visible db' u r ∧ ∀ k, leaf_value db' r k = leaf_value db r k;
  Flush_spec : ∀ db uuid root db',
    rpc_Flush db uuid (EncodeToHex root) PERSISTENCE_DATABASE = (db', Some (Some CODE_SUCCESS)) →
    is_root root → length root = 32%nat → visible db uuid (root_fea root) →
    visible db' EmptyString (root_fea root) ∧
    ∀ k, leaf_value db' (root_fea root) k = leaf_value db (root_fea root) k;
  Flush_keeps : ∀ db uuid s p db' ok r,
    rpc_Flush db uuid s p = (db', ok) → visible db EmptyString r →
    visible db' EmptyString r ∧ ∀ k, leaf_value db' r k = leaf_value db r k;
  Flush_programs : ∀ db uuid s p db' ok k,
    rpc_Flush db uuid s p = (db', ok) → program db' k = program db k
}.

Context {plaws : PoseidonLaws _} {laws : HashDBLaws}.

(** ** Words, keys and roots *)

Lemma to_fea_ok h : length h = 4%nat → to_fea h = Ret (words_fea h).
Proof. intros Hh. by do 5 (destruct h as [|? h]; try done). Qed.

Lemma words_fea_words r : words_fea (fea_words r) = r.
Proof. by destruct r. Qed.

Lemma words_fea_inj h h' :
  length h = 4%nat → length h' = 4%nat → words_fea h = words_fea h' → h = h'.
Proof.
  intros Hh Hh'. do 5 (destruct h as [|? h]; try done). do 5 (destruct h' as [|? h']; try done).
  by intros [= -> -> -> ->].
Qed.

Lemma length_root_words root : length (root_words root) = 4%nat.
Proof. by unfold root_words; rewrite length_reverse, length_split_digits. Qed.

Lemma bytes_bound b : is_bytes b → (length b ≤ 32)%nat → in_u256 (of_digits 256 b).
Proof.
  intros Hb Hl. pose proof (of_digits_bound 256 ltac:(lia) b Hb) as [Hlo Hhi]. split; [done|].
  eapply Z.lt_le_trans; [exact Hhi|]. change (2 ^ 256) with (256 ^ 32).
  apply Z.pow_le_mono_r; lia.
Qed.

Lemma root_scalar root : is_root root → scalarToh4 (E := TreeErr) (of_digits 256 root) = Ret (root_words root).
Proof. intros [Hb Hl]. by apply scalarToh4_digits, bytes_bound. Qed.

(** The bytes of four words are a root with these words. *)
Lemma filled_root h b :
  is_h4 h → h4ToFilledByteSlice (E := TreeErr) h = Ret b →
  is_root b ∧ root_words b = h ∧ scalarToh4 (E := TreeErr) (of_digits 256 b) = Ret h.
Proof.
  intros Hh Hb. rewrite h4ToFilledByteSlice_eq in Hb by done. apply (inj Ret) in Hb.
  pose proof (h4_bound h Hh) as Hr.
  assert (Hrt : is_root b).
  { subst b. split; [|by rewrite length_split_digits]. apply split_digits_is_digits. lia. }
  assert (Hs : scalarToh4 (E := TreeErr) (of_digits 256 b) = Ret h).
  { subst b. rewrite split_digits_small; [by apply scalarToh4_h4|lia|exact Hr]. }
  split_and!; [done| |done]. rewrite (root_scalar b Hrt) in Hs. by apply (inj Ret) in Hs.
Qed.

Lemma leaf_key_ret x h :
  leaf_ok x → leaf_words x = Ret h →
  ∃ k, leaf_key x = Ret k ∧ scalarToh4 (E := TreeErr) (of_digits 256 k) = Ret h.
Proof.
  intros Hx Hh. pose proof (leaf_words_h4 x h Hh) as H4. rewrite leaf_key_words, Hh by done. go_bind.
  rewrite h4ToFilledByteSlice_eq by done. eexists. split; [done|].
  eapply filled_root; [done|]. by apply h4ToFilledByteSlice_eq.
Qed.

(** ** The calls *)

Lemma bind_lift {A B} (m : GoRes TreeErr A) (f : A → TreeM B) c :
  (lift m ≫= f) c =
    match m with Ret a => f a c | Fail e => (c, Fail e) | Panic => (c, Panic) end.
Proof. done. Qed.

Lemma bind_at {A B} (m : TreeM A) (f : A → TreeM B) c c' a :
  m c = (c', Ret a) → (m ≫= f) c = f a c'.
Proof. intros Hm. unfold mbind, TreeM_bind. by rewrite Hm. Qed.

(** The trees in the database are kept. *)
Definition stays (db db' : hashdb) : Prop := ∀ r, visible db EmptyString r →
  visible db' EmptyString r ∧ ∀ k, leaf_value db' r k = leaf_value db r k.

(** Whatever the answers, a method keeps the trees in the database. *)
Definition calm {A} (m : TreeM A) : Prop := ∀ c,
  (refused c ≤ refused (m c).1)%nat ∧ stays (srv c) (srv (m c).1).

Lemma calm_lift {A} (m : GoRes TreeErr A) : calm (lift m).
Proof. intros c. split; [done|]. by intros r Hr. Qed.

Lemma calm_ret {A} (a : A) : calm (mret a).
Proof. apply (calm_lift (Ret a)). Qed.

Lemma calm_bind {A B} (m : TreeM A) (f : A → TreeM B) :
  calm m → (∀ a, calm (f a)) → calm (m ≫= f).
Proof.
  intros Hm Hf c. unfold mbind, TreeM_bind. specialize (Hm c).
  destruct (m c) as [c1 [a|e|]]; [|done..]. destruct Hm as [Hle Hs], (Hf a c1) as [Hle' Hs'].
  simpl in *. split; [lia|]. intros r Hr. destruct (Hs r Hr) as [Hr1 E1].
  destruct (Hs' r Hr1) as [Hr2 E2]. split; [done|]. intros k. by rewrite E2, E1.
Qed.

Lemma calm_call {A} (code : A → option Code) f :
  (∀ db, stays db (f db).1) → calm (call code f).
Proof.
  intros Hf c. specialize (Hf (srv c)). unfold call.
  destruct (f (srv c)) as [db [a|]]; simpl; (split; [lia|done]).
Qed.

(** The method fails in the service, gets an answer without the code of success, or returns
    with [Q]. *)
Definition wpt {A} (m : TreeM A) (Q : A → Conn → Prop) (c : Conn) : Prop :=
  let '(c', o) := m c in
  o = Fail ServiceError ∨ (refused c < refused c')%nat ∨ ∃ a, o = Ret a ∧ Q a c'.

Lemma wpt_ret {A} (a : A) (Q : A → Conn → Prop) c : Q a c → wpt (mret a) Q c.
Proof. intros HQ. right; right. eauto. Qed.

Lemma wpt_lift {A} (r : GoRes TreeErr A) a (Q : A → Conn → Prop) c :
  r = Ret a → Q a c → wpt (lift r) Q c.
Proof. intros ->. apply wpt_ret. Qed.

Lemma wpt_bind {A B} (m : TreeM A) (f : A → TreeM B) Q c :
  calm m → (∀ a, calm (f a)) → wpt m (λ a c', wpt (f a) Q c') c → wpt (m ≫= f) Q c.
Proof.
  intros Hm Hf. unfold wpt, mbind, TreeM_bind. destruct (Hm c) as [Hle _].
  destruct (m c) as [c1 [a|e|]]; simpl in Hle; [|naive_solver..].
  destruct (Hf a c1) as [Hle' _]. intros [|[Hlt|(a' & [= <-] & Hq)]]; [done|..];
    destruct (f a c1) as [c2 o]; simpl in Hle'; [right; left; lia|].
  destruct Hq as [Hq|[Hq|Hq]]; [by left|right; left; lia|by right; right].
Qed.

(** A pure part of a method *)
Lemma wpt_bind_lift {A B} (r : GoRes TreeErr A) a (f : A → TreeM B) Q c :
  r = Ret a → wpt (f a) Q c → wpt (lift r ≫= f) Q c.
Proof. intros ->. done. Qed.

Lemma wpt_mono {A} (m : TreeM A) (Q Q' : A → Conn → Prop) c :
  wpt m Q c → (∀ a c', Q a c' → Q' a c') → wpt m Q' c.
Proof. unfold wpt. destruct (m c). naive_solver. Qed.

Lemma wpt_call {A} (code : A → option Code) f (Q : A → Conn → Prop) c :
  (∀ db a, f (srv c) = (db, Some a) → code a = Some CODE_SUCCESS → Q a (mkConn db (refused c))) →
  wpt (call code f) Q c.
Proof.
  intros HQ. unfold wpt, call. destruct (f (srv c)) as [db [a|]] eqn:Hf; [|by left].
  unfold refusal. case_decide as Hc; simpl; [|right; left; lia].
  right; right. exists a. rewrite Nat.add_0_r. auto.
Qed.

Lemma calm_get rw kw : calm (get rw kw).
Proof.
  unfold get. do 2 (apply calm_bind; [apply calm_lift|intros ?]). apply calm_bind.
  - apply calm_call. intros db r Hr. destruct (rpc_Get db _ _) eqn:Hg. by eapply Get_keeps.
  - intros ?. apply calm_bind; [apply calm_lift|intros ?; apply calm_ret].
Qed.

Lemma calm_getProgram k : calm (getProgram k).
Proof.
  unfold getProgram. apply calm_bind; [apply calm_lift|intros ?]. apply calm_bind.
  - apply calm_call. intros db r Hr. destruct (rpc_GetProgram db _) eqn:Hg.
    by eapply GetProgram_keeps.
  - intros ?. apply calm_ret.
Qed.

Lemma calm_set rw kw v uuid : calm (set rw kw v uuid).
Proof.
  unfold set. do 3 (apply calm_bind; [apply calm_lift|intros ?]). apply calm_bind.
  - apply calm_call. intros db r Hr. destruct (rpc_Set db _) eqn:Hg. by eapply Set_keeps.
  - intros ?. apply calm_bind; [by case_decide; [apply calm_ret|apply calm_lift]|intros ?].
    apply calm_bind; [apply calm_lift|intros ?; apply calm_ret].
Qed.

Lemma calm_setProgram k data p : calm (setProgram k data p).
Proof.
  unfold setProgram. apply calm_bind; [apply calm_lift|intros ?]. apply calm_bind.
  - apply calm_call. intros db r Hr. destruct (rpc_SetProgram db _ _ _) eqn:Hg.
    by eapply SetProgram_keeps.
  - intros ?. apply calm_ret.
Qed.

Lemma calm_Flush root uuid : calm (Flush root uuid).
Proof.
  unfold Flush. apply calm_bind.
  - apply calm_call. intros db r Hr. destruct (rpc_Flush db _ _ _) eqn:Hg. by eapply Flush_keeps.
  - intros ?. apply calm_ret.
Qed.

Create HintDb calm.
Hint Resolve calm_lift calm_ret calm_get calm_getProgram calm_set calm_setProgram calm_Flush : calm.

Ltac calm_tac :=
  repeat lazymatch goal with
  | |- ∀ _, calm _ => intros ?
  | |- calm (mbind _ _) => apply calm_bind
  | |- calm (if ?b then _ else _) => destruct b
  | |- calm _ => solve [eauto with calm]
  end.

Lemma get_ok rw kw c :
  length rw = 4%nat → length kw = 4%nat → visible (srv c) EmptyString (words_fea rw) →
  let v := leaf_value (srv c) (words_fea rw) (words_fea kw) in
  wpt (get rw kw) (λ p c', proof_Value p = scalar2fea v ∧ in_u256 v ∧
    ∀ k, program (srv c') k = program (srv c) k) c.
Proof.
  intros Hr Hk Hs v. unfold get.
  apply (wpt_bind_lift _ _ _ _ _ (to_fea_ok rw Hr)), (wpt_bind_lift _ _ _ _ _ (to_fea_ok kw Hk)).
  apply wpt_bind; [apply calm_call; intros db r Hv; destruct (rpc_Get db _ _) eqn:Hg; by eapply Get_keeps|calm_tac|].
  apply wpt_call. intros db resp Hg Hc. destruct (Get_spec _ _ _ _ _ Hs Hg Hc) as [Hp Hv].
  eapply wpt_bind_lift; [unfold string2fea; by rewrite Hp|]. apply wpt_ret. split; [done|].
  split; [done|]. intros k. by eapply Get_programs.
Qed.

(** The tree [r'] of the batch [u] is the tree [r] with the value [v] at the key [k]. *)
Definition updated (u : string) (db : hashdb) (r k : Fea) (v : Z) (db' : hashdb) (r' : Fea) :
    Prop :=
  visible db' u r' ∧
  ∀ k', leaf_value db' r' k' = if decide (k' = k) then v else leaf_value db r k'.

Lemma value_text v :
  in_u256 v →
  ∃ s, fea2string (E := TreeErr) (scalar2fea v) = Ret s ∧
    SetString (if HasPrefix0x s then drop 2 s else s) 16 = Some v.
Proof.
  intros Hv. rewrite fea2string_eq by apply scalar2fea_is_fea.
  rewrite fea2scalar_scalar2fea by done. eexists. split; [reflexivity|].
  change (HasPrefix0x (hex_prefix ++ ?s)) with true. cbv iota.
  change (drop 2 (hex_prefix ++ ?s)) with s. apply SetString_bytes; [lia|exact Hv].
Qed.

Lemma set_ok rw kw v uuid c :
  length rw = 4%nat → length kw = 4%nat → in_u256 v → visible (srv c) uuid (words_fea rw) →
  wpt (set rw kw (scalar2fea v) uuid) (λ up c', is_h4 (up_NewRoot up) ∧
    (∀ k, program (srv c') k = program (srv c) k) ∧
    updated uuid (srv c) (words_fea rw) (words_fea kw) v (srv c') (words_fea (up_NewRoot up))) c.
Proof.
  intros Hr Hk Hv Hs. unfold set. destruct (value_text v Hv) as (s & Es & Hp).
  apply (wpt_bind_lift _ _ _ _ _ Es), (wpt_bind_lift _ _ _ _ _ (to_fea_ok rw Hr)),
    (wpt_bind_lift _ _ _ _ _ (to_fea_ok kw Hk)).
  set (req := mkSetRequest _ _ _ _ _ _).
  apply wpt_bind; [apply calm_call; intros db r Hv'; destruct (rpc_Set db _) eqn:Hg; by eapply Set_keeps|calm_tac|].
  apply wpt_call. intros db resp Hset Hc.
  destruct (Set_spec _ req db resp v Hs Hp Hv Hset Hc) as (Hnv & r & Er & Hh4 & Hst & Hval).
  apply wpt_bind; [calm_tac..|].
  assert (∀ Q : list Z → Conn → Prop, (∀ nv, Q nv (mkConn db (refused c))) →
    wpt (if decide (NewValue resp = []) then mret [] else lift (string2fea (NewValue resp))) Q
      (mkConn db (refused c))) as Hnew.
  { intros Q HQ. case_decide; [by apply wpt_ret|]. destruct Hnv as [|[m Hm]]; [done|].
    eapply wpt_lift; [unfold string2fea; by rewrite Hm|done]. }
  apply Hnew. intros nv. rewrite Er. eapply wpt_bind_lift; [done|]. apply wpt_ret.
  cbn [up_NewRoot srv]. change [Fe0 r; Fe1 r; Fe2 r; Fe3 r] with (fea_words r).
  split; [exact Hh4|]. split; [intros; by eapply Set_programs|]. rewrite words_fea_words. by split.
Qed.

(** ** Reading and writing leaves *)

(** The methods that read a leaf as a number *)
Inductive reads : Leaf → bytes → TreeM Z → Prop :=
  | reads_balance a root : reads (BalanceLeaf a) root (GetBalance a root)
  | reads_nonce a root : reads (NonceLeaf a) root (GetNonce a root)
  | reads_storage a pos root : reads (StorageLeaf a pos) root (GetStorageAt a pos root).

(** The writes of a leaf, with their methods *)
Inductive Write :=
  | WriteBalance (a : bytes) (v : Z)
  | WriteNonce (a : bytes) (v : Z)
  | WriteStorage (a : bytes) (pos v : Z).

Definition write_leaf (w : Write) : Leaf :=
  match w with
  | WriteBalance a _ => BalanceLeaf a
  | WriteNonce a _ => NonceLeaf a
  | WriteStorage a pos _ => StorageLeaf a pos
  end.

Definition write_value (w : Write) : Z :=
  match w with WriteBalance _ v | WriteNonce _ v | WriteStorage _ _ v => v end.

Definition write_op (w : Write) (root : bytes) (uuid : string) : TreeM (bytes * UpdateProof) :=
  match w with
  | WriteBalance a v => SetBalance a v root uuid
  | WriteNonce a v => SetNonce a v root uuid
  | WriteStorage a pos v => SetStorageAt a pos v root uuid
  end.

(** A batch of writes, each one at the root the previous one returned *)
Fixpoint write_batch (ws : list Write) (root : bytes) (uuid : string) : TreeM bytes :=
  match ws with
  | [] => mret root
  | w :: ws => res ← write_op w root uuid; write_batch ws res.1 uuid
  end.

(** What a leaf reads as after the writes when it read as [r] before *)
Definition after_writes (ws : list Write) (y : Leaf) (r : GoRes TreeErr Z) : GoRes TreeErr Z :=
  foldl (λ r w, if decide (write_leaf w = y) then Ret (write_value w) else r) r ws.

(** The leaf exists, the value has 256 bits, and the hash of the key returns. *)
Definition write_ok (w : Write) : Prop :=
  leaf_ok (write_leaf w) ∧ in_u256 (write_value w) ∧ ∃ h, leaf_words (write_leaf w) = Ret h.

(** The value of a leaf, or the error of the hash *)
Definition leaf_read (db : hashdb) (root : bytes) (x : Leaf) : GoRes TreeErr Z :=
  (λ h, leaf_value db (root_fea root) (words_fea h)) <$> leaf_words x.

Lemma leaf_key_fail x :
  leaf_ok x → (∀ h, leaf_words x ≠ Ret h) →
  leaf_key x = match leaf_words x with Fail e => Fail e | _ => Panic end.
Proof.
  intros Hx Hw. rewrite leaf_key_words by done. destruct (leaf_words x) as [h| |]; try done.
  by destruct (Hw h).
Qed.

Lemma scalar2fea_nonempty v : scalar2fea v ≠ [].
Proof. done. Qed.

(** The method reads [v], unless it fails in the service or gets an answer without the code
    of success. *)
Definition read_gives {A} (g : TreeM A) (c : Conn) (v : GoRes TreeErr A) : Prop :=
  ∃ c' o, g c = (c', o) ∧ (o = Fail ServiceError ∨ (refused c < refused c')%nat ∨ o = v).

Lemma wpt_read_gives {A} (g : TreeM A) c v :
  wpt g (λ a _, a = v) c → read_gives g c (Ret v).
Proof.
  unfold wpt, read_gives. destruct (g c) as [c' o]. intros [|[|(a & -> & ->)]]; eauto 10.
Qed.

Lemma reads_ok x root g c :
  is_root root → leaf_ok x → visible (srv c) EmptyString (root_fea root) → reads x root g →
  read_gives g c (leaf_read (srv c) root x).
Proof.
  intros Hr Hx Hs Hg.
  assert (Hgen : g = (lift (leaf_key x) ≫= λ key,
    lift (scalarToh4 (of_digits 256 root)) ≫= λ rw,
    lift (scalarToh4 (of_digits 256 key)) ≫= λ kw,
    get rw kw ≫= λ proof,
    if decide (proof_Value proof = []) then mret 0 else mret (fea2scalar (proof_Value proof))))
    by (by destruct Hg).
  subst g. clear Hg. unfold leaf_read.
  destruct (leaf_words x) as [h| |] eqn:Hw.
  2-3: rewrite (leaf_key_fail x Hx), Hw by congruence; eexists c, _; split; [done|by eauto].
  apply wpt_read_gives. destruct (leaf_key_ret x h Hx Hw) as (k & Hkey & Hk).
  eapply wpt_bind_lift; [exact Hkey|]. eapply wpt_bind_lift; [by apply root_scalar|].
  eapply wpt_bind_lift; [exact Hk|]. pose proof (leaf_words_h4 x h Hw) as [Hl _].
  apply wpt_bind; [calm_tac..|].
  eapply wpt_mono; [apply (get_ok _ _ c (length_root_words root) Hl Hs)|].
  intros p c' (-> & Hv & _). rewrite decide_False by apply scalar2fea_nonempty.
  apply wpt_ret. by apply fea2scalar_scalar2fea.
Qed.

Lemma calm_write_op w root uuid : calm (write_op w root uuid).
Proof. destruct w; cbn [write_op]; unfold SetBalance, SetNonce, SetStorageAt; calm_tac. Qed.

(** A write leads to the updated tree. *)
Lemma write_op_ok w root uuid c h :
  is_root root → leaf_ok (write_leaf w) → in_u256 (write_value w) →
  visible (srv c) uuid (root_fea root) → leaf_words (write_leaf w) = Ret h →
  wpt (write_op w root uuid) (λ res c', is_root res.1 ∧ length res.1 = 32%nat ∧
    updated uuid (srv c) (root_fea root) (words_fea h) (write_value w) (srv c') (root_fea res.1)) c.
Proof.
  intros Hr Hx Hv Hs Hw. destruct (leaf_key_ret _ h Hx Hw) as (k & Hkey & Hk).
  assert (Hgen : write_op w root uuid = (lift (leaf_key (write_leaf w)) ≫= λ key,
    lift (scalarToh4 (of_digits 256 root)) ≫= λ rw,
    lift (scalarToh4 (of_digits 256 key)) ≫= λ kw,
    set rw kw (scalar2fea (write_value w)) uuid ≫= λ up,
    lift (h4ToFilledByteSlice (up_NewRoot up)) ≫= λ newRoot, mret (newRoot, up))).
  { destruct w; cbn [write_op write_value] in *; unfold SetBalance, SetNonce;
      rewrite ?(proj2 (Z.ltb_ge _ _)) by apply Hv; done. }
  rewrite Hgen. clear Hgen. eapply wpt_bind_lift; [exact Hkey|].
  eapply wpt_bind_lift; [by apply root_scalar|]. eapply wpt_bind_lift; [exact Hk|].
  pose proof (leaf_words_h4 _ h Hw) as [Hl _]. apply wpt_bind; [calm_tac..|].
  eapply wpt_mono; [apply (set_ok _ _ _ uuid c (length_root_words root) Hl Hv Hs)|].
  intros up c' (Hh4 & _ & Hupd). eapply wpt_bind_lift; [by apply h4ToFilledByteSlice_eq|].
  destruct (filled_root _ _ Hh4 (h4ToFilledByteSlice_eq _ Hh4)) as (Hroot & Hwords & _).
  apply wpt_ret. cbn [fst]. split; [done|]. split; [by rewrite length_split_digits|].
  unfold root_fea at 2. by rewrite Hwords.
Qed.

Lemma leaf_read_same db db' root x :
  (∀ k, leaf_value db' (root_fea root) k = leaf_value db (root_fea root) k) →
  leaf_read db' root x = leaf_read db root x.
Proof. intros Hk. unfold leaf_read. destruct (leaf_words x); [|done..]. cbn. by rewrite Hk. Qed.

(** The leaves of the updated tree *)
Lemma leaf_read_hit u db r h v db' newRoot y :
  updated u db r (words_fea h) v db' (root_fea newRoot) → leaf_words y = Ret h →
  leaf_read db' newRoot y = Ret v.
Proof.
  intros [_ Hupd] Hy. unfold leaf_read. rewrite Hy. cbn. f_equal. rewrite Hupd.
  by apply decide_True.
Qed.

Lemma leaf_read_miss u db root h v db' newRoot y :
  updated u db (root_fea root) (words_fea h) v db' (root_fea newRoot) → is_h4 h →
  leaf_words y ≠ Ret h → leaf_read db' newRoot y = leaf_read db root y.
Proof.
  intros [_ Hupd] [Hl _] Hne. unfold leaf_read.
  destruct (leaf_words y) as [hy| |] eqn:Hy; [|done..].
  pose proof (leaf_words_h4 y hy Hy) as [Hly _]. cbn. f_equal. rewrite Hupd.
  apply decide_False. intros Heq%words_fea_inj; [|done..]. by subst.
Qed.

(** The leaves after a write *)
Lemma leaf_read_written u db root w h db' newRoot y :
  updated u db (root_fea root) (words_fea h) (write_value w) db' (root_fea newRoot) →
  leaf_ok (write_leaf w) → leaf_words (write_leaf w) = Ret h → leaf_ok y →
  collision_free (queries (write_leaf w) ++ queries y) →
  leaf_read db' newRoot y =
    if decide (write_leaf w = y) then Ret (write_value w) else leaf_read db root y.
Proof.
  intros Hupd Hx Hw Hy Hf. case_decide as He; [subst y; by eapply leaf_read_hit|].
  eapply leaf_read_miss; [done|by eapply leaf_words_h4|]. intros Hwy.
  by apply He, (leaf_words_inj _ _ h).
Qed.

Lemma calm_write_batch ws root uuid : calm (write_batch ws root uuid).
Proof.
  revert root. induction ws as [|w ws IH]; intros root; cbn [write_batch]; [apply calm_ret|].
  apply calm_bind; [apply calm_write_op|auto].
Qed.

Lemma batch_ok ws root uuid c :
  is_root root → visible (srv c) uuid (root_fea root) → Forall write_ok ws →
  wpt (write_batch ws root uuid) (λ newRoot c',
    is_root newRoot ∧ (ws ≠ [] → length newRoot = 32%nat) ∧
    visible (srv c') uuid (root_fea newRoot) ∧
    ∀ y, leaf_ok y →
      Forall (λ w, collision_free (queries (write_leaf w) ++ queries y)) ws →
      leaf_read (srv c') newRoot y = after_writes ws y (leaf_read (srv c) root y)) c.
Proof.
  revert root c. induction ws as [|w ws IH]; intros root c Hr Hs Hws; [by apply wpt_ret|].
  apply Forall_cons in Hws as [(Hx & Hv & h & Hw) Hws]. cbn [write_batch].
  apply wpt_bind; [apply calm_write_op|intros; apply calm_write_batch|].
  eapply wpt_mono; [apply (write_op_ok w root uuid c h Hr Hx Hv Hs Hw)|].
  intros [root1 up] c1 (Hr1 & Hl1 & Hupd). cbn [fst] in *.
  destruct (decide (ws = [])) as [->|Hne].
  - apply wpt_ret. split_and!; [done|done|apply Hupd|]. intros y Hy [Hf _]%Forall_cons.
    by eapply leaf_read_written.
  - eapply wpt_mono; [apply (IH root1 c1 Hr1 (proj1 Hupd) Hws)|].
    intros root2 c2 (Hr2 & Hl2 & Hs2 & Hread). split_and!; [done|by auto|done|].
    intros y Hy [Hf Hfs]%Forall_cons. rewrite (Hread y Hy Hfs). unfold after_writes. cbn [foldl].
    f_equal. by eapply leaf_read_written.
Qed.

Lemma Flush_ok root uuid c :
  is_root root → length root = 32%nat → visible (srv c) uuid (root_fea root) →
  wpt (Flush root uuid) (λ _ c', visible (srv c') EmptyString (root_fea root) ∧
    (∀ k, leaf_value (srv c') (root_fea root) k = leaf_value (srv c) (root_fea root) k) ∧
    ∀ k, program (srv c') k = program (srv c) k) c.
Proof.
  intros Hr Hl Hs. unfold Flush.
  apply wpt_bind; [apply calm_call; intros db r Hv'; destruct (rpc_Flush db _ _ _) eqn:Hg; by eapply Flush_keeps|calm_tac|].
  apply wpt_call. intros db code Hf Hc. simpl in Hc. subst code. apply wpt_ret. cbn [srv].
  destruct (Flush_spec _ _ _ _ Hf Hr Hl Hs) as [Hv Hk]. split_and!; [done|done|].
  intros k. by eapply Flush_programs.
Qed.

(** A method that keeps the trees in the database is read as before. *)
Lemma calm_reads {A} (m : TreeM A) c r y g :
  calm m → is_root r → leaf_ok y → visible (srv c) EmptyString (root_fea r) → reads y r g →
  read_gives g (m c).1 (leaf_read (srv c) r y).
Proof.
  intros Hm Hr Hy Hv Hg. destruct (Hm c) as [_ Hs]. destruct (Hs _ Hv) as [Hv' Hk].
  rewrite <-(leaf_read_same _ (srv (m c).1)) by done. by apply reads_ok.
Qed.

(** C19. What a batch writes is read back after the flush and nothing else changes.
    Balances, nonces and storage slots are set one after another from the root of a known
    tree, and the last root is flushed.  This fails in the service, or some answer of the
    service has a result code other than success, which the methods do not look at, or it
    leads to a root at which every leaf whose key does not collide with the written ones
    reads as the last value written to it, or as in the old tree when nothing was written
    to it.  In all cases the trees that were in the database read as before.  A read too may fail in
    the service, or its answer may have a result code other than success: then nothing
    is said of its result. *)
Theorem tree_write_read ws root uuid c :
  ws ≠ [] → is_root root → visible (srv c) uuid (root_fea root) → Forall write_ok ws →
  ∃ c' o, (newRoot ← write_batch ws root uuid; Flush newRoot uuid;; mret newRoot) c = (c', o) ∧
    (∀ r y g, is_root r → leaf_ok y → visible (srv c) EmptyString (root_fea r) → reads y r g →
       read_gives g c' (leaf_read (srv c) r y)) ∧
    (o = Fail ServiceError ∨ (refused c < refused c')%nat ∨
     ∃ newRoot, o = Ret newRoot ∧
       ∀ y g, leaf_ok y → reads y newRoot g →
         Forall (λ w, collision_free (queries (write_leaf w) ++ queries y)) ws →
         read_gives g c' (after_writes ws y (leaf_read (srv c) root y))).
Proof.
  intros Hne Hr Hs Hws. set (m := _ ≫= _).
  assert (calm m) as Hm by (apply calm_bind; [apply calm_write_batch|calm_tac]).
  assert (wpt m (λ newRoot c', ∀ y g, leaf_ok y → reads y newRoot g →
    Forall (λ w, collision_free (queries (write_leaf w) ++ queries y)) ws →
    read_gives g c' (after_writes ws y (leaf_read (srv c) root y))) c) as Hwp.
  - apply wpt_bind; [apply calm_write_batch|calm_tac|].
    eapply wpt_mono; [apply (batch_ok ws root uuid c Hr Hs Hws)|].
    intros root1 c1 (Hr1 & Hl1 & Hs1 & Hread). apply wpt_bind; [calm_tac..|].
    eapply wpt_mono; [apply (Flush_ok root1 uuid c1 Hr1 (Hl1 Hne) Hs1)|].
    intros [] c2 (Hv2 & Hk2 & _). apply wpt_ret. intros y g Hy Hg Hfree.
    rewrite <-(Hread y Hy Hfree), <-(leaf_read_same (srv c1) (srv c2)) by done.
    by apply reads_ok.
  - pose proof (λ r y g, calm_reads m c r y g Hm) as Hold. unfold wpt in Hwp.
    destruct (m c) as [c' o]. by exists c', o.
Qed.

(** ** Code *)

(** The code hash of the account, as a number *)
Lemma GetCodeHash_ok a root c h :
  is_root root → is_address a → visible (srv c) EmptyString (root_fea root) →
  leaf_words (CodeLeaf a) = Ret h →
  let v := leaf_value (srv c) (root_fea root) (words_fea h) in
  wpt (GetCodeHash a root) (λ bs c', ScalarToFilledByteSlice (E := TreeErr) v = Ret bs ∧
    ∀ k, program (srv c') k = program (srv c) k) c.
Proof.
  intros Hr Ha Hs Hw v. destruct (leaf_key_ret (CodeLeaf a) h (conj Ha I) Hw) as (k & Hkey & Hk).
  unfold GetCodeHash. eapply wpt_bind_lift; [exact Hkey|].
  eapply wpt_bind_lift; [by apply root_scalar|]. eapply wpt_bind_lift; [exact Hk|].
  pose proof (leaf_words_h4 _ h Hw) as [Hl _]. apply wpt_bind; [calm_tac..|].
  eapply wpt_mono; [apply (get_ok _ _ c (length_root_words root) Hl Hs)|].
  intros p c' (-> & Hv & Hp). rewrite decide_False by apply scalar2fea_nonempty.
  rewrite fea2scalar_scalar2fea by done. eapply wpt_lift; [by apply filled_slice|].
  split; [by apply filled_slice|done].
Qed.

(** The hash is stored as the number of its words. *)
Lemma code_hash_scalar hc :
  is_h4 hc →
  ∃ str bs, H4ToString (E := TreeErr) hc = Ret str ∧ DecodeHex str = Ret bs ∧
    of_digits 256 bs = of_digits (2 ^ 64) (reverse hc).
Proof.
  intros Hc. rewrite H4ToString_eq by done. set (n := of_digits (2 ^ 64) (reverse hc)).
  pose proof (h4_bound hc Hc) as Hn. eexists _, (split_digits 256 32 n).
  split; [reflexivity|]. split.
  - unfold DecodeHex. change (TrimPrefix0x (hex_prefix ++ ?s)) with s.
    rewrite length_EncodeToString, length_split_digits. cbn [negb].
    apply DecodeString_EncodeToString, split_digits_is_digits. lia.
  - apply split_digits_small; [lia|exact Hn].
Qed.

Lemma chain_h4 bs t h : is_h4 t → chain bs t = Ret h → is_h4 h.
Proof.
  revert t. induction bs as [|b bs IH]; intros t Ht; [by intros [= <-]|].
  intros (h' & Hq & Hc)%GoRes_bind_ret. by apply (IH h'); [eapply poseidon_h4|].
Qed.

Lemma HashContractBytecode_h4 code h : HashContractBytecode code = Ret h → is_h4 h.
Proof.
  rewrite HashContractBytecode_eq. apply chain_h4. split; [done|]. apply Forall_replicate. lia.
Qed.

Lemma setProgram_ok hc code uuid r c :
  length hc = 4%nat → visible (srv c) uuid r →
  wpt (setProgram hc code true) (λ _ c', program (srv c') (words_fea hc) = Some code ∧
    visible (srv c') uuid r ∧ ∀ k, leaf_value (srv c') r k = leaf_value (srv c) r k) c.
Proof.
  intros Hl Hs. unfold setProgram. eapply wpt_bind_lift; [by apply to_fea_ok|].
  apply wpt_bind; [apply calm_call; intros db r' Hv'; destruct (rpc_SetProgram db _ _ _) eqn:Hg;
    by eapply SetProgram_keeps|calm_tac|].
  apply wpt_call. intros db code' Hp Hc. simpl in Hc. subst code'. apply wpt_ret. cbn [srv].
  split; [by eapply SetProgram_spec|by eapply SetProgram_keeps].
Qed.

Lemma getProgram_ok key c data :
  length key = 4%nat → program (srv c) (words_fea key) = Some data →
  wpt (getProgram key) (λ p _, Data p = data) c.
Proof.
  intros Hl Hp. unfold getProgram. eapply wpt_bind_lift; [by apply to_fea_ok|].
  apply wpt_bind; [apply calm_call; intros db r' Hv'; destruct (rpc_GetProgram db _) eqn:Hg;
    by eapply GetProgram_keeps|calm_tac|].
  apply wpt_call. intros db resp Hg Hc. apply wpt_ret. cbn [Data]. by eapply GetProgram_spec.
Qed.

Lemma calm_GetCodeHash a root : calm (GetCodeHash a root).
Proof. unfold GetCodeHash. calm_tac. Qed.

(** The code of an account whose code hash is stored with its program *)
Lemma GetCode_ok a root c h hc code :
  is_root root → is_address a → visible (srv c) EmptyString (root_fea root) →
  leaf_words (CodeLeaf a) = Ret h →
  is_h4 hc → leaf_value (srv c) (root_fea root) (words_fea h) = of_digits (2 ^ 64) (reverse hc) →
  program (srv c) (words_fea hc) = Some code →
  read_gives (GetCode a root) c (Ret code).
Proof.
  intros Hr Ha Hs Hw Hc Hv Hp. pose proof (h4_bound hc Hc) as Hb. unfold GetCode.
  apply wpt_read_gives, wpt_bind; [apply calm_GetCodeHash|calm_tac|].
  eapply wpt_mono; [apply (GetCodeHash_ok a root c h Hr Ha Hs Hw)|].
  intros bs c' [Hbs Hprog]. rewrite Hv, filled_slice in Hbs by done.
  apply (inj Ret) in Hbs. subst bs.
  eapply wpt_bind_lift; [rewrite split_digits_small by (lia || exact Hb); by apply scalarToh4_h4|].
  apply wpt_bind; [calm_tac..|]. eapply wpt_mono; [apply (getProgram_ok hc c' code); [apply Hc|by rewrite Hprog]|].
  intros p c2 <-. by apply wpt_ret.
Qed.

(** [SetCode] stores the program and makes the two writes. *)
Lemma SetCode_ok a code root uuid c hc h1 h2 :
  is_root root → is_address a → zlen code < 2 ^ 63 → visible (srv c) uuid (root_fea root) →
  HashContractBytecode code = Ret hc →
  leaf_words (CodeLeaf a) = Ret h1 → leaf_words (LengthLeaf a) = Ret h2 →
  wpt (SetCode a code root uuid) (λ res c', ∃ db2 r, is_root res.1 ∧ length res.1 = 32%nat ∧
    program (srv c') (words_fea hc) = Some code ∧
    updated uuid (srv c) (root_fea root) (words_fea h1) (of_digits (2 ^ 64) (reverse hc)) db2 r ∧
    updated uuid db2 r (words_fea h2) (zlen code) (srv c') (root_fea res.1)) c.
Proof.
  intros Hr Ha Hlen Hs Hh Hw1 Hw2.
  pose proof (HashContractBytecode_h4 code hc Hh) as Hc.
  pose proof (leaf_words_h4 _ _ Hw1) as [Hl1 _]. pose proof (leaf_words_h4 _ _ Hw2) as [Hl2 _].
  destruct (leaf_key_ret (CodeLeaf a) h1 (conj Ha I) Hw1) as (k1 & Hkey1 & Hk1).
  destruct (leaf_key_ret (LengthLeaf a) h2 (conj Ha I) Hw2) as (k2 & Hkey2 & Hk2).
  destruct (code_hash_scalar hc Hc) as (str & bs & Hstr & Hbs & Hn).
  unfold SetCode. eapply wpt_bind_lift; [exact Hh|]. apply wpt_bind; [calm_tac..|].
  eapply wpt_mono; [apply (setProgram_ok hc code uuid (root_fea root) c (proj1 Hc) Hs)|].
  intros [] c1 (Hprog & Hs1 & Hval1). eapply wpt_bind_lift; [exact Hkey1|].
  eapply wpt_bind_lift; [exact Hstr|]. eapply wpt_bind_lift; [by rewrite Hbs|].
  eapply wpt_bind_lift; [by apply root_scalar|]. eapply wpt_bind_lift; [exact Hk1|].
  rewrite Hn. apply wpt_bind; [calm_tac..|].
  eapply wpt_mono; [apply (set_ok _ h1 _ uuid c1 (length_root_words root) Hl1 (h4_bound hc Hc) Hs1)|].
  intros up1 c2 (Hh4 & Hprog2 & Hst1 & Hupd1). eapply wpt_bind_lift; [exact Hkey2|].
  eapply wpt_bind_lift; [exact Hk2|]. apply wpt_bind; [calm_tac..|].
  assert (Hz : in_u256 (zlen code)) by (unfold in_u256, zlen in *; lia).
  eapply wpt_mono; [apply (set_ok (up_NewRoot up1) h2 _ uuid c2 (proj1 Hh4) Hl2 Hz Hst1)|].
  intros up2 c3 (Hh4' & Hprog3 & Hupd2). eapply wpt_bind_lift; [by apply h4ToFilledByteSlice_eq|].
  destruct (filled_root _ _ Hh4' (h4ToFilledByteSlice_eq _ Hh4')) as (Hroot & Hwords & _).
  apply wpt_ret. exists (srv c2), (words_fea (up_NewRoot up1)). cbn [fst]. split; [done|].
  split; [by rewrite length_split_digits|]. split; [by rewrite Hprog3, Hprog2|]. split.
  - split; [done|]. intros k. by rewrite Hupd1, Hval1.
  - unfold root_fea. by rewrite Hwords.
Qed.

(** The leaves after the two writes *)
Lemma leaf_read_code u db root a h1 h2 v1 v2 db2 r db' newRoot y g :
  is_address a → leaf_words (CodeLeaf a) = Ret h1 → leaf_words (LengthLeaf a) = Ret h2 →
  updated u db (root_fea root) (words_fea h1) v1 db2 r →
  updated u db2 r (words_fea h2) v2 db' (root_fea newRoot) →
  leaf_ok y → collision_free (queries (CodeLeaf a) ++ queries y) →
  collision_free (queries (LengthLeaf a) ++ queries y) → reads y newRoot g →
  leaf_read db' newRoot y = leaf_read db root y.
Proof.
  intros Ha Hw1 Hw2 Hu1 Hu2 Hy Hf1 Hf2 Hg.
  pose proof (leaf_words_h4 _ _ Hw1) as H41. pose proof (leaf_words_h4 _ _ Hw2) as H42.
  unfold leaf_read. destruct (leaf_words y) as [hy| |] eqn:Hwy; [|reflexivity..].
  pose proof (leaf_words_h4 y hy Hwy) as [Hly _]. go_bind. f_equal.
  rewrite (proj2 Hu2), decide_False, (proj2 Hu1); [apply decide_False|];
    intros ->%words_fea_inj; try assumption; try apply H41; try apply H42.
  - pose proof (leaf_words_inj (CodeLeaf a) y h1 (conj Ha I) Hy Hf1 Hw1 Hwy). subst y. inversion Hg.
  - pose proof (leaf_words_inj (LengthLeaf a) y h2 (conj Ha I) Hy Hf2 Hw2 Hwy). subst y. inversion Hg.
Qed.

(** C22. The code that is set is read back.  [SetCode] and a flush of the root it returns
    fail in the service, or some answer of the service has a result code other than
    success, which the methods do not look at, or they lead to a root from which
    [GetCode] returns the code, provided that the keys of the code hash and of the code
    length do not collide; balances, nonces and storage slots whose keys do not collide
    with these two read at the new root as in the old tree.  A read too may fail in
    the service, or its answer may have a result code other than success: then nothing is
    said of its result. *)
Theorem tree_write_code a code root uuid c hc h1 h2 :
  is_root root → is_address a → zlen code < 2 ^ 63 → visible (srv c) uuid (root_fea root) →
  HashContractBytecode code = Ret hc →
  leaf_words (CodeLeaf a) = Ret h1 → leaf_words (LengthLeaf a) = Ret h2 →
  collision_free (queries (CodeLeaf a) ++ queries (LengthLeaf a)) →
  ∃ c' o, (res ← SetCode a code root uuid; Flush res.1 uuid;; mret res.1) c = (c', o) ∧
    (o = Fail ServiceError ∨ (refused c < refused c')%nat ∨
     ∃ newRoot, o = Ret newRoot ∧ read_gives (GetCode a newRoot) c' (Ret code) ∧
       ∀ y g, leaf_ok y → collision_free (queries (CodeLeaf a) ++ queries y) →
         collision_free (queries (LengthLeaf a) ++ queries y) →
         reads y newRoot g → read_gives g c' (leaf_read (srv c) root y)).
Proof.
  intros Hr Ha Hlen Hs Hh Hw1 Hw2 Hfree. set (m := _ ≫= _).
  match goal with |- ∃ c' o, _ ∧ (_ ∨ _ ∨ ∃ newRoot, _ ∧ @?good c' newRoot) =>
    assert (wpt m (λ newRoot c', good c' newRoot) c) as Hwp end.
  2:{ unfold wpt in Hwp. destruct (m c) as [c' o]. by exists c', o. }
  apply wpt_bind; [unfold SetCode; calm_tac|calm_tac|].
  eapply wpt_mono; [apply (SetCode_ok a code root uuid c hc h1 h2 Hr Ha Hlen Hs Hh Hw1 Hw2)|].
  intros [newRoot up] c1 (db2 & r & Hnr & Hl32 & Hprog & Hu1 & Hu2). cbn [fst] in *.
  apply wpt_bind; [calm_tac..|].
  eapply wpt_mono; [apply (Flush_ok newRoot uuid c1 Hnr Hl32 (proj1 Hu2))|].
  intros [] c2 (Hv2 & Hk2 & Hp2). apply wpt_ret.
  pose proof (leaf_words_h4 _ _ Hw1) as H41. pose proof (leaf_words_h4 _ _ Hw2) as H42. split.
  - apply (GetCode_ok a newRoot c2 h1 hc); try assumption;
      [by eapply HashContractBytecode_h4| |by rewrite Hp2].
    rewrite Hk2, (proj2 Hu2), decide_False, (proj2 Hu1); [by apply decide_True|].
    intros ->%words_fea_inj; [|apply H41|apply H42].
    discriminate (leaf_words_inj (CodeLeaf a) (LengthLeaf a) h2 (conj Ha I) (conj Ha I)
      Hfree Hw1 Hw2).
  - intros y g Hy Hf1 Hf2 Hg.
    rewrite <-(leaf_read_code uuid (srv c) root a h1 h2 (of_digits (2 ^ 64) (reverse hc))
      (zlen code) db2 r (srv c1) newRoot y g) by assumption.
    rewrite <-(leaf_read_same (srv c1) (srv c2)) by done. by apply reads_ok.
Qed.

End tree.
