(* ===== verification/MtRef.v ===== *)
(** * A database of trees

    An instance of the interfaces of the state tree, on which the theorems about it apply:
    a hash that mixes words linearly and a database that numbers its trees, and that may
    answer every write with a code of failure. *)

From S2P Require Import Prelude Digits Hex MtSplit MtKeys MtTree.
From Stdlib Require Import Ascii.

(** Each word of the result is a sum of words of the input and the capacity. *)
Definition mix_word (inp cap : list Z) (i : nat) : Z :=
  wrap64 (nth i inp 0 + 3 * nth (i + 4) inp 0 + 5 * nth i cap 0 + 7).

#[export] Instance MixHash : Poseidon := {|
  poseidon_Hash inp cap := Ret (mix_word inp cap <$> [0; 1; 2; 3]%nat)
|}.

#[export] Instance MixHash_laws : PoseidonLaws MixHash.
Proof.
  split. intros inp cap h [= <-]. split; [done|]. repeat constructor; apply wrap64_range.
Qed.

(** The trees, each with the batch it waits in until the flush, and the programs; the root
    of a tree is its position. *)
Definition Tagged : Type := string * (Fea → Z).
Definition Trees : Type := list Tagged * (Fea → option bytes).

Definition tree_root (n : Z) : Fea := mkFea n 0 0 0.

Definition tree_at (db : Trees) (r : Fea) : option Tagged :=
  if decide (r = tree_root (Fe0 r) ∧ 0 ≤ Fe0 r) then db.1 !! Z.to_nat (Fe0 r) else None.

Definition seen_in (uuid : string) (t : Tagged) : Prop := t.1 = EmptyString ∨ t.1 = uuid.

#[export] Instance seen_in_dec uuid t : Decision (seen_in uuid t).
Proof. unfold seen_in. apply _. Defined.

Definition tree_in (db : Trees) (uuid : string) (r : Fea) : option (Fea → Z) :=
  t ← tree_at db r; if decide (seen_in uuid t) then Some t.2 else None.

Definition value_at (db : Trees) (r k : Fea) : Z :=
  match tree_at db r with Some t => t.2 k mod 2 ^ 256 | None => 0 end.

Definition add_tree (code : option Code) (db : Trees) (req : SetRequest) : Trees * option SetResponse :=
  match tree_in db (BatchUuid req) (OldRoot req), SetString (Value req) 16 with
  | Some t, Some v =>
      if decide (code ≠ Some CODE_SUCCESS) then (db, Some (mkSetResponse (Some (OldRoot req)) [] code))
      else if zlen db.1 <? 2 ^ 64 then
        ((db.1 ++ [(BatchUuid req, λ k, if decide (k = Key req) then v else t k)], db.2),
         Some (mkSetResponse (Some (tree_root (zlen db.1))) [] code))
      else (db, None)
  | _, _ => (db, None)
  end.

Definition flush_tree (uuid : string) (t : Tagged) : Tagged :=
  if decide (t.1 = uuid) then (EmptyString, t.2) else t.

(** [code] is the result code of the answers to [Set]. *)
Definition tree_service (code : option Code) : HashDBService := {|
  hashdb := Trees;
  rpc_Get db r k := (db, (λ t, mkGetResponse (nat_text (t k mod 2 ^ 256)) (Some CODE_SUCCESS)) <$>
    tree_in db EmptyString r);
  rpc_GetProgram db k := (db, Some (match db.2 k with
    | Some data => mkGetProgramResponse data (Some CODE_SUCCESS)
    | None => mkGetProgramResponse [] (Some CODE_DB_KEY_NOT_FOUND)
    end));
  rpc_Set := add_tree code;
  rpc_SetProgram db k data _ :=
    ((db.1, λ k', if decide (k' = k) then Some data else db.2 k'), Some (Some CODE_SUCCESS));
  rpc_Flush db uuid _ _ := ((flush_tree uuid <$> db.1, db.2), Some (Some CODE_SUCCESS));
  rpc_StartBlock db _ _ _ := (db, true);
  rpc_FinishBlock db _ _ _ := (db, true)
|}.

#[export] Instance TreeService : HashDBService := tree_service (Some CODE_SUCCESS).

Lemma tree_in_at (db : Trees) u r :
  is_Some (tree_in db u r) ↔ ∃ t, tree_at db r = Some t ∧ seen_in u t.
Proof.
  unfold tree_in. destruct (tree_at db r) as [t|]; cbn.
  - case_decide; split; intros Hx; [by exists t|by eexists|by destruct Hx|].
    by destruct Hx as (? & [= <-] & ?).
  - split; [by intros [? ?]|by intros (? & ? & ?)].
Qed.

Lemma tree_at_app (ts ts' : list Tagged) ps ps' r t :
  tree_at (ts, ps) r = Some t → tree_at (ts ++ ts', ps') r = Some t.
Proof.
  unfold tree_at. case_decide; [|done]. cbn. intros Ht. by apply lookup_app_l_Some.
Qed.

Lemma add_tree_keeps code (db : Trees) req db' resp r t :
  add_tree code db req = (db', resp) → tree_at db r = Some t → tree_at db' r = Some t.
Proof.
  unfold add_tree. destruct db as [ts ps].
  repeat case_match; intros [= <- <-] Ht; try done; by eapply tree_at_app.
Qed.

Lemma tree_at_new ts t (ps : Fea → option bytes) :
  tree_at (ts ++ [t], ps) (tree_root (zlen ts)) = Some t.
Proof.
  unfold tree_at, zlen. rewrite decide_True by (cbn; split; [done|lia]). cbn.
  rewrite Nat2Z.id. by rewrite lookup_app_r, Nat.sub_diag by lia.
Qed.

Lemma tree_at_flush ts (ps : Fea → option bytes) u r :
  tree_at (flush_tree u <$> ts, ps) r = flush_tree u <$> tree_at (ts, ps) r.
Proof. unfold tree_at. case_decide; [|done]. cbn. apply list_lookup_fmap. Qed.

(** A database in which the trees keep their values and their batches, or are flushed *)
Lemma visible_kept (db db' : Trees) u u' r (f : Tagged → Tagged) :
  (∀ t, tree_at db r = Some t → tree_at db' r = Some (f t)) →
  (∀ t, (f t).2 = t.2) → (∀ t, seen_in u t → seen_in u' (f t)) →
  is_Some (tree_in db u r) →
  is_Some (tree_in db' u' r) ∧ ∀ k, value_at db' r k = value_at db r k.
Proof.
  rewrite !tree_in_at. intros Hat Hf2 Hseen (t & Ht & Hu). split; [by eauto|].
  intros k. unfold value_at. by rewrite Ht, (Hat t Ht), Hf2.
Qed.

Lemma flush_seen u v t : seen_in v t → (v = EmptyString ∨ v = u) → seen_in EmptyString (flush_tree u t).
Proof. unfold seen_in, flush_tree. intros [Ht|Ht] [Hv|Hv]; case_decide; cbn; subst; auto; congruence. Qed.

Lemma flush_value u t : (flush_tree u t).2 = t.2.
Proof. unfold flush_tree. by case_decide. Qed.

Lemma tree_service_laws code : @HashDBLaws (tree_service code).
Proof.
  apply (@Build_HashDBLaws (tree_service code) (λ (db : Trees) u r, is_Some (tree_in db u r))
    value_at snd).
  - intros db r k db' resp [t Ht]. cbn. rewrite Ht. intros [= <- <-] _. cbn [get_Value].
    assert (Hv : value_at db r k = t k mod 2 ^ 256).
    { unfold value_at, tree_in in *. destruct (tree_at db r) as [t'|]; [|done]. cbn in Ht.
      by case_decide; simplify_eq. }
    rewrite Hv. pose proof (Z.mod_pos_bound (t k) (2 ^ 256) ltac:(lia)).
    split; [apply SetString_nat_text; lia|done].
  - by intros db r k db' resp u r' [= <- _].
  - by intros db r k db' resp k' [= <- _].
  - intros db k data db' resp Hd. cbn. rewrite Hd. by intros [= _ <-].
  - by intros db k db' resp u r [= <- _].
  - intros [ts ps] req db' resp n [t Ht] Hv Hn. cbn. unfold add_tree. rewrite Ht, Hv. cbn [fst snd].
    case_decide as Hc; [intros [= <- <-]; by cbn|].
    destruct (Z.ltb_spec (zlen ts) (2 ^ 64)) as [Hl|]; [|done]. intros [= <- <-] _.
    split; [by left|]. exists (tree_root (zlen ts)). split; [done|]. split.
    { split; [done|]. unfold zlen in *. repeat constructor; cbn; lia. }
    split; [apply tree_in_at; rewrite tree_at_new; eexists; split; [done|by right]|].
    intros k. unfold value_at. rewrite tree_at_new. cbn [snd].
    case_decide; [by apply Z.mod_small|]. unfold tree_in in Ht.
    destruct (tree_at _ (OldRoot req)); [|done]. cbn in Ht. by case_decide; simplify_eq.
  - intros db req db' resp u r Hs. apply (visible_kept db db' u u r id); try done.
    intros t. by apply (add_tree_keeps _ _ _ _ _ _ _ Hs).
  - intros [ts ps] req db' resp k. cbn. unfold add_tree.
    repeat case_match; by intros [= <- <-].
  - intros [ts ps] k data p db' [= <-]. cbn. by rewrite decide_True.
  - intros [ts ps] k data p db' ok u r [= <- <-].
    by apply (visible_kept (ts, ps) _ u u r id).
  - intros [ts ps] u root db' [= <-] _ _.
    apply (visible_kept (ts, ps) _ u EmptyString _ (flush_tree u)); auto using flush_value.
    + intros t Ht. by rewrite tree_at_flush, Ht.
    + intros t Hu. apply (flush_seen u u); auto.
  - intros [ts ps] u s p db' ok r [= <- <-].
    apply (visible_kept (ts, ps) _ EmptyString EmptyString _ (flush_tree u)); auto using flush_value.
    + intros t Ht. by rewrite tree_at_flush, Ht.
    + intros t Hu. apply (flush_seen u EmptyString); auto.
  - intros [ts ps] u s p db' ok k [= <- <-]. done.
Defined.

#[export] Instance TreeService_laws : @HashDBLaws TreeService := tree_service_laws _.

(** ** Runs *)

Definition addr1 : bytes := replicate 20 17.
Definition empty_db : Trees := ([(EmptyString, λ _, 0)], λ _, None).
Definition conn0 : @Conn TreeService := mkConn (empty_db : @hashdb TreeService) 0.
Definition empty_root : bytes := replicate 32 0.
Definition sample_code : bytes := [96; 1; 96; 0; 85].

Lemma addr1_ok : is_address addr1.
Proof. split; [done|]. apply Forall_replicate. lia. Qed.

Lemma empty_root_ok : is_root empty_root.
Proof. split; [|done]. apply Forall_replicate. lia. Qed.

Lemma empty_visible uuid : visible (srv conn0) uuid (root_fea empty_root).
Proof. vm_compute. by eexists. Qed.

(** The result of a computation that returns *)
Definition result {A} (d : A) (r : GoRes TreeErr A) : A :=
  match r with Ret a => a | _ => d end.

Definition code_words : list Z := Eval vm_compute in result [] (leaf_words (CodeLeaf addr1)).
Definition length_words : list Z := Eval vm_compute in result [] (leaf_words (LengthLeaf addr1)).
Definition code_hash : list Z := Eval vm_compute in result [] (HashContractBytecode sample_code).
Definition slot_key : bytes := Eval vm_compute in result [] (leaf_key (StorageLeaf addr1 5)).

Lemma leaf_key_inj_witness :
  leaf_key (StorageLeaf addr1 5) = Ret slot_key ∧
  StorageLeaf addr1 5 = StorageLeaf (replicate 19 17 ++ [17]) (2 + 3).
Proof.
  split; [vm_compute; reflexivity|].
  apply (leaf_key_inj (StorageLeaf addr1 5) (StorageLeaf (replicate 19 17 ++ [17]) (2 + 3)) slot_key).
  - split; [exact addr1_ok|]. by vm_compute.
  - split; [exact addr1_ok|]. by vm_compute.
  - apply collision_free_dec. vm_compute. reflexivity.
  - vm_compute. reflexivity.
  - vm_compute. reflexivity.
Defined.

Lemma HashContractBytecode_inj_witness :
  HashContractBytecode sample_code = Ret code_hash ∧ sample_code = [96; 1] ++ [96; 0; 85].
Proof.
  split; [vm_compute; reflexivity|].
  apply (HashContractBytecode_inj sample_code ([96; 1] ++ [96; 0; 85]) code_hash).
  - repeat constructor; lia.
  - repeat constructor; lia.
  - apply collision_free_dec. vm_compute. reflexivity.
  - apply misses_dec. vm_compute. reflexivity.
  - vm_compute. reflexivity.
  - vm_compute. reflexivity.
Defined.

Definition sample_writes : list Write :=
  [WriteBalance addr1 5; WriteStorage addr1 3 77; WriteBalance addr1 1000].

Lemma sample_writes_ok : Forall write_ok sample_writes.
Proof.
  repeat (apply Forall_cons_2;
    [split; [split; [exact addr1_ok|by vm_compute]|split; [by vm_compute|]];
     eexists; vm_compute; reflexivity|]).
  apply Forall_nil_2.
Qed.

(** The second write of the balance is read, and the nonce is the old one. *)
Lemma tree_write_read_witness :
  ∃ c' newRoot, refused c' = 0%nat ∧
    read_gives (GetBalance addr1 newRoot) c' (Ret 1000) ∧
    read_gives (GetNonce addr1 newRoot) c' (leaf_read (srv conn0) empty_root (NonceLeaf addr1)).
Proof.
  destruct (tree_write_read (svc := TreeService) sample_writes empty_root "batch" conn0)
    as (c' & o & Hm & _ & Ho).
  - discriminate.
  - exact empty_root_ok.
  - apply empty_visible.
  - exact sample_writes_ok.
  - assert (refused c' = 0%nat) as Hc.
    { apply (f_equal (refused ∘ fst)) in Hm. vm_compute in Hm. by symmetry. }
    destruct Ho as [->|[Hlt|(newRoot & -> & Hread)]].
    + apply (f_equal snd) in Hm. vm_compute in Hm. discriminate Hm.
    + rewrite Hc in Hlt. exact (False_ind _ (Nat.nlt_0_r _ Hlt)).
    + exists c', newRoot. clear Hm. split; [exact Hc|]. split.
      * apply (Hread (BalanceLeaf addr1)); [exact (conj addr1_ok I)|constructor|].
        repeat (apply Forall_cons_2; [apply collision_free_dec; vm_compute; reflexivity|]).
        apply Forall_nil_2.
      * apply (Hread (NonceLeaf addr1)); [exact (conj addr1_ok I)|constructor|].
        repeat (apply Forall_cons_2; [apply collision_free_dec; vm_compute; reflexivity|]).
        apply Forall_nil_2.
Defined.

Lemma tree_write_code_witness :
  ∃ c' newRoot, refused c' = 0%nat ∧ read_gives (GetCode addr1 newRoot) c' (Ret sample_code).
Proof.
  destruct (tree_write_code (svc := TreeService) addr1 sample_code empty_root "batch" conn0
    code_hash code_words length_words empty_root_ok addr1_ok ltac:(by vm_compute)
    (empty_visible "batch")
    ltac:(vm_compute; reflexivity) ltac:(vm_compute; reflexivity) ltac:(vm_compute; reflexivity)
    ltac:(apply collision_free_dec; vm_compute; reflexivity))
    as (c' & o & Hm & Ho).
  assert (refused c' = 0%nat) as Hc.
  { apply (f_equal (refused ∘ fst)) in Hm. vm_compute in Hm. by symmetry. }
  destruct Ho as [->|[Hlt|(newRoot & -> & Hcode & _)]].
  - apply (f_equal snd) in Hm. vm_compute in Hm. discriminate Hm.
  - rewrite Hc in Hlt. exact (False_ind _ (Nat.nlt_0_r _ Hlt)).
  - exists c', newRoot. split; [exact Hc|exact Hcode].
Defined.

(** The service answers a write with an error of its database and the old root: the
    methods return this root without an error, and the balance reads as zero. *)
Lemma refused_write_is_silent :
  let svc := tree_service (Some CODE_DB_ERROR) in
  let run := (res ← @SetBalance MixHash svc addr1 1000 empty_root "batch";
              @Flush svc res.1 "batch" ;;
              @GetBalance MixHash svc addr1 res.1) (mkConn empty_db 0) in
  run.2 = Ret 0 ∧ refused run.1 = 1%nat.
Proof. vm_compute. by split. Qed.
