(* ===== verification/MtFakeDB.v ===== *)
(** * The state tree behind the machine's state

    [state/fakedb.go] reads the tree of [merkletree/tree.go]: the methods of [StateTree]
    discharge the interface that [StateFakeDB] is modelled against. *)

From S2P Require Import Prelude Digits Hex EvmBase EvmWp StateFakeDB MtSplit MtKeys MtTree MtRef.

(** The value of a call without an error *)
Definition answer {svc : HashDBService} {A} (r : Conn * GoRes TreeErr A) : option A :=
  match r.2 with Ret a => Some a | _ => None end.

#[local] Opaque defaultCapIn leaf_words.

Section link.
Context {P : Poseidon} {plaws : PoseidonLaws P} {svc : HashDBService} {laws : HashDBLaws}
  {common : GethCommon}.

(** The tree at a state of the connection *)
Definition MerkleTree (c : Conn) : StateTree := {|
  tree_GetBalance a root := answer (MtTree.GetBalance a root c);
  tree_GetNonce a root := answer (MtTree.GetNonce a root c);
  tree_GetCodeHash a root := answer (MtTree.GetCodeHash a root c);
  tree_GetCode a root := answer (MtTree.GetCode a root c);
  tree_GetStorageAt a pos root := answer (MtTree.GetStorageAt a pos root c)
|}.

(** What the machine's state reads for a leaf with the value [v] *)
Definition sees (c : Conn) (f : FakeDBState) (x : Leaf) (v : Z) : Prop :=
  match x with
  | BalanceLeaf a => fake_GetBalance (H := MerkleTree c) f a = Some v
  | NonceLeaf a => fake_GetNonce (H := MerkleTree c) f a = wrap64 v
  | StorageLeaf a pos =>
      ∀ hash, hash_Big hash = pos →
      fake_GetState (H := MerkleTree c) f a hash = Ret (BytesToHash (digits 256 v))
  | CodeLeaf _ | LengthLeaf _ => True
  end.

(** The read of the leaf [x] neither fails in the service nor is refused. *)
Definition readable (c : Conn) (root : bytes) (x : Leaf) : Prop :=
  ∀ g, reads x root g → (g c).2 ≠ Fail ServiceError ∧ refused (g c).1 = refused c.

Lemma read_exact c root x g v :
  readable c root x → reads x root g → read_gives g c v → (g c).2 = v.
Proof.
  intros Hc Hg (c' & o & Hrun & Ho). destruct (Hc g Hg) as [Hf Hr]. rewrite Hrun in *. simpl in *.
  destruct Ho as [|[|]]; [done|lia|done].
Qed.

(** The machine's state at a root reads the tree with this root in the database. *)
Lemma sees_stored c f x v :
  is_root (stateRoot f) → leaf_ok x → visible (srv c) EmptyString (root_fea (stateRoot f)) → 0 ≤ v →
  readable c (stateRoot f) x → leaf_read (srv c) (stateRoot f) x = Ret v → sees c f x v.
Proof.
  intros Hr Hx Hs Hv Hc Hread.
  assert (∀ g, reads x (stateRoot f) g → answer (g c) = Some v) as Hans.
  { intros g Hg. unfold answer. rewrite (read_exact c (stateRoot f) x g (Ret v)); try done.
    rewrite <-Hread. by apply reads_ok. }
  destruct x; cbn [sees]; try exact I.
  - unfold fake_GetBalance. cbn. apply Hans. constructor.
  - unfold fake_GetNonce. cbn. rewrite (Hans (GetNonce a (stateRoot f))), Z.abs_eq by (done || constructor).
    reflexivity.
  - intros hash Hh. unfold fake_GetState. cbn. rewrite Hh.
    rewrite (Hans (GetStorageAt a pos (stateRoot f))), Z.abs_eq by (done || constructor). reflexivity.
Qed.

(** The state of the virtual machine reads what the tree holds: after a balance, a nonce
    or a storage slot is set in a batch, the batch is flushed and the state root of the
    database is moved to the returned root, the database returns the balance, the nonce
    (in its 64 bits) or the storage value that was set, unless the read fails; every
    answer of the service had the code of success. *)
Theorem FakeDB_sees_write w root uuid c c1 c2 newRoot up f :
  is_root root → write_ok w → visible (srv c) uuid (root_fea root) →
  write_op w root uuid c = (c1, Ret (newRoot, up)) → Flush newRoot uuid c1 = (c2, Ret tt) →
  refused c2 = refused c → readable c2 newRoot (write_leaf w) →
  sees c2 (SetStateRoot newRoot f) (write_leaf w) (write_value w).
Proof.
  intros Hr (Hx & Hv & h & Hw) Hs Hop Hfl Href Hread.
  pose proof (write_op_ok w root uuid c h Hr Hx Hv Hs Hw) as H1. unfold wpt in H1. rewrite Hop in H1.
  destruct (calm_write_op w root uuid c) as [Hle _]. rewrite Hop in Hle. simpl in Hle.
  destruct (calm_Flush newRoot uuid c1) as [Hle' _]. rewrite Hfl in Hle'. simpl in Hle'.
  destruct H1 as [|[|([newRoot' up'] & [= <- <-] & Hnr & Hl & Hupd)]]; [done|lia|].
  pose proof (Flush_ok newRoot uuid c1 Hnr Hl (proj1 Hupd)) as H2. unfold wpt in H2. rewrite Hfl in H2.
  destruct H2 as [|[|([] & _ & Hv2 & E2 & _)]]; [done|lia|].
  apply sees_stored; cbn [stateRoot SetStateRoot]; try assumption; [apply Hv|].
  rewrite (leaf_read_same (srv c1) (srv c2)) by assumption. by eapply leaf_read_hit.
Qed.

End link.

#[local] Transparent defaultCapIn leaf_words.

(** The conversions of hashes as their bytes, with the padding of [common.BytesToHash] *)
#[local] Instance BytesCommon : GethCommon := {|
  BytesToHash b := replicate (32 - length b) 0 ++ b;
  hash_Big h := of_digits 256 h
|}.

Lemma FakeDB_sees_write_witness :
  ∃ c' newRoot,
    sees (svc := TreeService) c' (SetStateRoot newRoot (mkFakeDB empty_root 0))
      (NonceLeaf addr1) 7.
Proof.
  set (run := write_op (svc := TreeService) (WriteNonce addr1 7) empty_root "batch" conn0).
  assert (match run with
          | (c1, Ret (newRoot, up)) => match Flush (svc := TreeService) newRoot "batch" c1 with
              | (c2, Ret tt) => bool_decide (refused c2 = 0%nat) &&
                  match GetNonce (svc := TreeService) addr1 newRoot c2 with
                  | (c3, Ret _) => bool_decide (refused c3 = refused c2)
                  | _ => false
                  end
              | _ => false
              end
          | _ => false
          end = true) as Hrun by (vm_compute; reflexivity).
  destruct run as [c1 [[newRoot up]|e|]] eqn:Hm; [|discriminate Hrun|discriminate Hrun].
  destruct (Flush newRoot "batch" c1) as [c2 [[]|e|]] eqn:Hf; [|discriminate Hrun|discriminate Hrun].
  apply andb_true_iff in Hrun as [Hr Hg]. apply bool_decide_eq_true in Hr.
  exists c2, newRoot.
  apply (FakeDB_sees_write (svc := TreeService) (WriteNonce addr1 7) empty_root "batch"
    conn0 c1 c2 newRoot up).
  - exact empty_root_ok.
  - clear. split; [exact (conj addr1_ok I)|]. split; [by vm_compute|].
    eexists. vm_compute. reflexivity.
  - apply empty_visible.
  - exact Hm.
  - exact Hf.
  - exact Hr.
  - clear -Hg. intros g Hread. inversion Hread; subst.
    destruct (GetNonce addr1 newRoot c2) as [c3 [n|e|]]; [|discriminate Hg|discriminate Hg].
    apply bool_decide_eq_true in Hg. split; [discriminate|exact Hg].
Defined.
